(* ===== verification/_CoqProject ===== *)
-Q . S2P
Prelude.v
Encoding.v
Chafa.v
FileSystem.v
CacheKey.v
StableSort.v
CacheStore.v
Renderer.v
Pipeline.v
Refinement.v
Bubble.v
RowBudget.v
Config.v
Packs.v
Select.v
Main.v
Process.v
Concurrent.v
Coherence.v
CommandLine.v
UnitTests.v
