(* ===== verification/Prelude.v ===== *)
(** * leftysay: a verification development

    leftysay is a terminal greeter written in Rust (one file,
    [src/src/main.rs]).  It reads a configuration, finds the external
    renderer [chafa], scans the installed packs of images and messages,
    chooses a message and an image, prints a speech bubble around the
    message and, below it, the image as [chafa] renders it.  Rendered
    images are kept in an on-disk cache that is trimmed to a byte budget,
    oldest entries first.

    ** The program's parts and the files that model them

    The files are listed in the order in which they are compiled.

    - [Prelude] (this file): machine integers at their width ([u64], [usize]
      as [Z] with explicit wrap-around and saturation), strings as bytes,
      the [result] type for fallible code, and the state-and-error monad
      [io] in which the effectful functions are written.  It also holds
      the development's tactics and the hint database [lsay].
    - [Encoding]: [to_le_bytes] (the 8 little-endian bytes of a [u64] or
      [usize], as [cache_key] feeds them to the hasher), lowercase
      hexadecimal printing ([to_hex]) and decimal printing of a [usize]
      ([fmt_usize], Rust's [Display], used for the ["{cols}x{rows}"]
      argument).
    - [Chafa]: the enums [ChafaFormat] and [ChafaColors] with [as_arg]
      and with the names their derived parsers accept, [from_str]
      ([main.rs] 110-162), the constants of the program ([main.rs] 16-20)
      and the record [RenderOptions] ([main.rs] 693-702).
    - [FileSystem]: the [world] the render path runs in: the cache
      directory as a list of entries in directory-listing order, each with
      its bytes and its modification time, a clock, the image files'
      metadata, a fault policy saying which file-system calls fail, the
      renderer process as a function of its command line, and the log of
      the command lines run.  The operations are the calls of [std::fs]
      that the program makes; [error] is the type of the program's errors.
    - [CacheKey]: [cache_key] ([main.rs] 607-631): the byte string that is
      hashed ([key_preimage]), the hash function as the class [Hasher]
      (BLAKE3 is a library the program only calls), and the file name of a
      cache entry.
    - [StableSort]: [slice::sort_by_key] as a stable insertion sort, and
      the order on [Option<SystemTime>] ([key_le]).
    - [CacheStore]: [enforce_cache_limit] ([main.rs] 639-673) with its
      sort by modification time and its eviction loop [evict]; the two
      cache paths of [render_image]: [cache_hit] (read, then the rewrite
      that refreshes the entry, [main.rs] 512-517) and [cache_store]
      (create, write, enforce the limit, [main.rs] 529-534).
    - [Renderer]: [run_chafa_once] and [run_chafa] ([main.rs] 539-605):
      the argument vector handed to the renderer and the one retry with
      concrete selectors.
    - [Pipeline]: [render_image] ([main.rs] 500-537), which composes the
      three previous components, and the step relation [step] of a
      session: renders interleaved with clock ticks and changes of the
      fault policy, of the images and of the renderer.
    - [Refinement]: the promise of the cache as an abstract store
      ([Lru]: names with their payloads, least recently used first, with
      [touch], [put], [trim] and the cache around a renderer, [render]),
      the abstraction [abs] that reads a cache directory as such a store,
      and the proof that [cache_hit], [cache_store], [render_image] and
      sessions of it refine the store.
    - [Bubble]: [render_bubble] and [pad_line] ([main.rs] 456-498); the
      word wrapper ([textwrap::wrap]) is the class [Wrapper], its promise
      the class [WrapperLaws], and a first-fit wrapper an instance of
      both.
    - [RowBudget]: the row arithmetic of [main] ([main.rs] 212-215) and the
      check of the ratio in [load_config] ([main.rs] 255-257), on IEEE-754
      binary32 numbers: the Standard Library's [SpecFloat] at precision
      24 and maximal exponent 128.
    - [Config]: [struct Cli] ([main.rs] 22-62), [struct Config] with its
      default ([main.rs] 64-92) and [load_config] ([main.rs] 244-262).
      The parser of the file is the class [Toml]; what [load_config] reads
      of the machine is the record [ConfigEnv].
    - [Packs]: [pack_search_paths], [scan_packs], [read_pack_meta],
      [collect_images], [is_supported_image] and [read_messages]
      ([main.rs] 287-403), with the functions of [std] on paths and
      strings they call.  The directory walks and the files are the
      record [PackEnv], the parser of [pack.toml] the class [TomlMeta].
    - [Select]: [resolve_message], [resolve_image] and [pick_index]
      ([main.rs] 405-454).  The random number generator is the class
      [Rng], whose one law is that [gen_range] stays in its range; the
      entropy an unseeded generator reads is an argument.
    - [Main]: [main] ([main.rs] 164-234), [terminal_dimensions],
      [find_chafa], [cache_dir], [print_pack_list] and [print_doctor].
      What [main] reads of the machine is the record [MainEnv]; its
      result is an [outcome]: the status with the lines written to the
      standard output and to the standard error.
    - [Process]: the render path call by call.  [op] is the type of the
      system calls the render path makes, [proc] the type of processes: a
      process has ended with a result or makes a call and goes on with
      its outcome.  [render_image_p], [cache_hit_p], [cache_store_p],
      [enforce_cache_limit_p], [evict_p] and [run_chafa_p] are the
      functions of [Pipeline], [CacheStore] and [Renderer] as such
      processes, with the calls in the order of [main.rs]; [run] executes
      a process alone and [cost] counts its calls.
    - [Concurrent]: section 5 of the specification.  Several processes
      share one world; [sched_step i] lets process [i] make its next call,
      a schedule is a list of process numbers ([run_schedule]), a list of
      events, calls and passings of time ([run_events]), or a function of
      the instant ([after]); a call to a renderer that hangs never
      returns ([blocked]).
    - [Coherence]: what overlapping renders can return.  A request is
      the triple of arguments of [render_image]; [good] says what a cache
      file may hold, [served] what a render may return, [coherent] is the
      invariant of the shared world, and [allow] and [rely] are the
      protocol of the cache directory that every render follows
      ([Process.follows]).
    - [CommandLine]: [Cli::parse()] ([main.rs] 165) on the grammar that
      the attributes of [struct Cli] declare ([main.rs] 22-62): the
      arguments [arg] with their names and value parsers, the parse
      [try_parse] as [clap] runs it, from the arguments of the process to
      a [Cli], the help, the version or an error of usage, and
      [main_of_args], the program from its arguments to its exit status.
    - [UnitTests]: the three tests of [mod tests] ([main.rs] 727-787) as
      definitions on the model, each returning whether its assertions
      hold.

    The components interact as in the source.  [main] calls [load_config],
    [find_chafa], [scan_packs], the two [resolve_] functions,
    [render_bubble] and, with the rows [image_rows] leaves, [render_image];
    [render_image] calls [cache_key], then [cache_hit], or [run_chafa] and
    [cache_store]; [cache_store] calls [enforce_cache_limit].  The
    libraries the program calls are interfaces (classes) with the laws
    the theorems need, so that a theorem about [main] holds for every
    hasher, wrapper, parser and generator; each class has a small
    instance with which the theorems are run on concrete inputs.

    ** How state and effects are modelled

    A Rust function returning [Result<T>] that touches the cache or
    spawns the renderer is a function into [io world error T]: it takes
    the world and returns [Ok v] or [Err e] with the world after it.  An
    error does not roll the world back, exactly as a [?] in Rust leaves
    earlier writes in place.  [x <- m ;; k] is Rust's [let x = m?; k].
    The functions that only read the machine (configuration, packs,
    search of [chafa]) take what they read as a record and are pure.

    Between two system calls of one run another run can act on the cache
    directory.  For that the render path is given a second time, as
    processes ([Process]) whose steps are the single calls, each atomic;
    the two forms are proved equal when a process runs alone, so the
    theorems on the functions are theorems on the processes.  A schedule
    is a list of process numbers ([run_schedule]), in which the clock
    stands still, or a list of events ([run_events]), in which time can
    pass between two calls.  The theorems that hold for every schedule
    ([schedule_wf], [schedule_coherent], [renders_spawn_twice]) are stated
    on the second; the races and the liveness theorems are on the first,
    where two runs that overlap write in the same reading of the clock.

    Integers are [Z] with the width written out: [usize] and [u64] are 64
    bits wide, [+] and [*] on them wrap (a release build), and
    [saturating_sub] saturates.  Strings are Rocq's [string], read as the
    UTF-8 bytes of the Rust string, so [String.length] is Rust's
    [str::len]; lower case and white space are those of ASCII.

    ** What the theorems show

    - [Encoding]: round trips and injectivity of the three printers.
    - [Chafa]: [as_arg] is injective and its images form a code that can
      be read from the right, which makes the hashed byte string uniquely
      decodable; every argument string is a name the program accepts for
      the same variant, and the accepted names are the variant's own and
      its argument string.
    - [CacheKey]: two requests with the same key are the same request or
      exhibit a collision of the hash function; the key depends on the
      world through the image's modification time only.
    - [StableSort]: the sort is a sorted, stable permutation, and every
      sorted stable permutation is equal to it, so the model agrees with
      any implementation of [sort_by_key].
    - [CacheStore]: without faults the eviction removes the shortest
      prefix of the oldest-first order that brings the total within the
      budget, and nothing when the cache fits; with faults it only ever
      removes entries and fails only when the directory cannot be listed;
      a payload that fits the budget survives its own store; the errors
      of the hit and of the store, with the state they leave; the range
      in which the budget in bytes does not overflow.
    - [Renderer]: the argument vector determines the request; one or two
      invocations; exactly one retry when a selector was [Auto] and none
      otherwise, with the diagnostic of the last run.
    - [Pipeline]: a hit returns the stored payload without a run of the
      renderer and refreshes the entry; a miss stores the payload; a miss
      followed by the same request is a hit; which errors are surfaced;
      the invariants of the world along any session ([reachable]).
    - [Refinement]: the abstract store stays within its budget; without
      faults and with a clock that advances between two writes
      ([strict]), a hit is a [touch], a store is a [put], [render_image] is
      [Lru.render], and a whole session returns what the abstract store
      returns ([serve_refines]).  Without the advancing clock the
      refinement fails on entries of equal modification time
      ([touch_without_tick]).
    - [Bubble]: the narrow-terminal case, the shape of the box (line
      lengths, borders, frame characters by position, content) and that
      the box fits the terminal, measured in bytes as the program
      measures it, when the wrapper keeps its promise; measured in columns
      it need not ([bubble_overflows_in_columns]).
    - [RowBudget]: at least one row, within the rows left when there are
      any; the cap in floating point equals the exact floor for the
      default ratio on every height; what the validation of the ratio
      lets through.
    - [Config]: the validated configuration is usable, and the cases of
      [load_config].
    - [Packs]: the scanned packs have distinct names, images with a
      supported extension and trimmed, non-empty messages; the first pack
      of a name wins; the errors of the scan; the order of the search
      paths.
    - [Select]: the index is within the collection; the paths a choice
      can return; with a seed, message and image are drawn alike.
    - [Main]: what a run prints when the render succeeds and when it
      fails; that the reports do not touch the world; that any run keeps
      the world well formed; that the layout fits the terminal; that a
      seeded run does not depend on the entropy; that the cache file of a
      key is an entry of the directory [cache_dir] names.
    - [Process]: every process run alone is the function of the same
      name ([render_image_p_run]); a render makes at most [4 * n + 13]
      system calls on a directory of [n] entries
      ([render_image_p_cost]), and the bound is reached; every call keeps
      the world well formed; protocols on the calls of a process
      ([follows]) with their rules for sequencing, of which two
      instances: the eviction never starts the renderer ([spawn_free]),
      and it follows every protocol that allows its four calls
      ([follows_enforce]); a render starts the renderer at most twice on
      every branch ([spawns_le]).
    - [Concurrent]: every interleaving keeps the world well formed,
      however time passes ([schedule_wf]); there is no infinite sequence of moves
      ([interleaving_terminates]); under a fair schedule every run ends or
      waits for a renderer that hangs ([fair_schedule_quiesces]), and a
      render whose renderer hangs never ends ([hung_renderer_hangs]); a
      serial schedule is a session of [render_image]
      ([serial_schedule]); renders that hit different entries do not
      interfere, under any schedule ([hits_independent]); an eviction
      pass that nothing interrupts restores the budget wherever the other
      runs stand ([eviction_restores_budget]); [k] renders start the
      renderer at most [2 * k] times under any schedule
      ([renders_spawn_twice]); a run that is never scheduled never moves
      ([unscheduled_stays]).  The races of
      section 5 are theorems on schedules of two renders: two hits on one
      entry can leave it empty for good ([hit_race_empties],
      [empty_entry_served]), two misses render twice
      ([miss_race_renders_twice]), a file removed between the test and the
      read of a hit fails the render ([eviction_race_fails]), a touch
      can be lost to an eviction that has read the times before it
      ([lost_touch_example]), and an eviction that reads the sizes during
      a touch leaves the cache over its budget
      ([touch_hides_size_example]).
    - [Coherence]: under every schedule of any number of renders every
      cache file holds a rendered image or no bytes, and a render returns
      the renderer's output for a request with its cache file or the
      empty string ([schedule_coherent]); both occur ([served_both]).
      The proof is by rely and guarantee: each call keeps the invariant
      when it is allowed ([exec_coherent]) and returns what is relied on
      when the invariant holds ([exec_rely]); the render follows the
      protocol ([render_p_follows]).
    - [CommandLine]: the arguments are accepted exactly when they are
      distinct arguments of the program with values their parsers
      accept, in either spelling of a value ([parse_exact]); the order of
      the arguments does not matter ([parse_any_order]); an argument
      given twice is refused ([parse_rejects_twice]); [--help] and
      [--version] stop the parse where they stand ([parse_help_stops]);
      every [Cli] is the parse of the command line printed for it
      ([parse_to_args]); a run whose command line is refused reads
      nothing of the machine and exits with status 2 ([exit_refused]);
      the status is 1 exactly when [main] returned an error
      ([exit_failed]).
    - [UnitTests]: when each test of the repository passes: the bubble
      test for every wrapper that returns a line, the key test unless the
      hash function collides, the pack test on a machine without other
      packs; and a machine on which the pack test fails.

    ** Bounds and fuel

    No definition uses fuel: every loop of the modelled code is a
    traversal of a list and is structurally recursive, so each function
    is total and the theorems on results need no assumption of
    termination.  Processes are an inductive type, so a process makes
    finitely many calls on every branch; [run] and [cost] are structural,
    and the termination of interleavings is the well-foundedness of the
    move relation, not a bound given in advance.  A finite schedule that
    is longer than the runs need is harmless: a move of a process that
    has ended changes nothing.  Infinite schedules are functions from the
    instant to the process number, without coinduction.  In
    [serve_refines] the bounds [B] on the budgets and
    [L] on the renderer's outputs, with [B + L] within [u64], keep the sum
    of the sizes exact.  The other bounds are the integer widths above
    and, for the one theorem proved by enumeration ([default_cap_exact]),
    the heights a terminal can report: [terminal_size] returns a [u16],
    so the 65536 values checked are all there are.

    ** What is not modelled

    The parsing done by [toml] and [serde], the traversal done by
    [walkdir], BLAKE3, [textwrap], the generator of [rand] and [chafa]
    itself are libraries or programs the code only calls: their results
    are fields of the environment records or methods of the classes.
    Wide and combining characters ([columns] in [Bubble] counts one
    column per character), non-UTF-8 paths and renderer output
    ([from_utf8_lossy] is the identity here) and panics in a debug build
    on overflow are outside the model.  The parse of the command line is
    code that [clap] generates from the attributes of [struct Cli]:
    [CommandLine] gives the grammar the attributes declare and the rules
    of [clap] 4 on it, which its header lists; the texts [clap] prints
    (help, version, errors), the report of an error that [main] returns
    and [f32::from_str] are parameters ([ClapText], [F32FromStr]);
    arguments that are not UTF-8 and the suggestions [clap] adds to an
    error are not modelled.

    In the concurrent model a system call is atomic and the processes
    are runs of [render_image]; what [main] does before it (reading the
    configuration and the packs) touches nothing that is shared.
    [sort_by_key] reads the metadata of an entry at every comparison; the
    process reads each once, before sorting, so interleavings in which
    the directory changes during the sort are not in the model.  A run
    that is killed between two calls is an interleaving in which it is
    never scheduled again; a machine that loses power during a write is
    not modelled. *)

From Stdlib Require Import ZArith List String Ascii Bool Lia.
Import ListNotations.

#[local] Open Scope Z_scope.

(** * Machine integers *)

Definition u64_modulus : Z := 2 ^ 64.
Definition u64_max : Z := 2 ^ 64 - 1.

Definition in_u64 (z : Z) : Prop := 0 <= z <= u64_max.
Definition in_u64b (z : Z) : bool := (0 <=? z) && (z <=? u64_max).

Definition wrap64 (z : Z) : Z := z mod u64_modulus.
Definition wrapping_add (a b : Z) : Z := wrap64 (a + b).
Definition wrapping_mul (a b : Z) : Z := wrap64 (a * b).
Definition saturating_sub (a b : Z) : Z := Z.max 0 (a - b).

(** * Results and the state-and-error monad *)

Inductive result (E A : Type) : Type :=
| Ok (a : A)
| Err (e : E).
Arguments Ok {E A} a.
Arguments Err {E A} e.

Definition is_ok {E A} (r : result E A) : bool :=
  match r with Ok _ => true | Err _ => false end.

Definition result_ok {E A} (r : result E A) : option A :=
  match r with Ok a => Some a | Err _ => None end.

Definition unwrap_or {E A} (d : A) (r : result E A) : A :=
  match r with Ok a => a | Err _ => d end.

Definition io (W E A : Type) : Type := W -> result E A * W.

Definition ret {W E A} (a : A) : io W E A := fun w => (Ok a, w).
Definition fail {W E A} (e : E) : io W E A := fun w => (Err e, w).
Definition bind {W E A B} (m : io W E A) (k : A -> io W E B) : io W E B :=
  fun w => match m w with
           | (Ok a, w') => k a w'
           | (Err e, w') => (Err e, w')
           end.
Definition get {W E} : io W E W := fun w => (Ok w, w).
Definition gets {W E A} (f : W -> A) : io W E A := fun w => (Ok (f w), w).
Definition modify {W E} (f : W -> W) : io W E unit := fun w => (Ok tt, f w).
Definition lift {W E A} (r : result E A) : io W E A := fun w => (r, w).
(** [attempt m] runs [m] and hands its outcome back as a value: Rust code
    that inspects a [Result] instead of propagating it with [?]. *)
Definition attempt {W E A} (m : io W E A) : io W E (result E A) :=
  fun w => let (r, w') := m w in (Ok r, w').

Declare Scope io_scope.
Delimit Scope io_scope with io.
Notation "x <- m ;; k" := (bind m (fun x => k))
  (at level 100, m at next level, k at level 200, right associativity)
  : io_scope.
Notation "m ;; k" := (bind m (fun _ => k))
  (at level 100, k at level 200, right associativity) : io_scope.

(** * Byte strings *)

Fixpoint str_repeat (s : string) (n : nat) : string :=
  match n with
  | O => EmptyString
  | S n' => (s ++ str_repeat s n')%string
  end.

Definition str_of_char (c : ascii) : string := String c EmptyString.

(** * Tactics and hints *)

Create HintDb lsay discriminated.

Ltac inv H := inversion H; subst; clear H.

(** Case analysis on the scrutinee of the first [match] or [if] of the goal. *)
Ltac destr :=
  match goal with
  | |- context [match ?x with _ => _ end] =>
      lazymatch x with
      | context [match _ with _ => _ end] => fail
      | _ => let E := fresh "E" in destruct x eqn:E
      end
  end.

Ltac io_unfold := unfold bind, ret, fail, get, gets, modify, lift, attempt in *.

(** * Shared lemmas *)

Lemma in_u64b_spec z : in_u64b z = true <-> in_u64 z.
Proof. unfold in_u64b, in_u64. rewrite andb_true_iff, !Z.leb_le. tauto. Qed.

Lemma wrap64_range z : in_u64 (wrap64 z).
Proof.
  unfold in_u64, wrap64, u64_max, u64_modulus.
  pose proof (Z.mod_pos_bound z (2 ^ 64) ltac:(lia)). lia.
Qed.

Lemma wrap64_small z : in_u64 z -> wrap64 z = z.
Proof.
  unfold in_u64, wrap64, u64_max, u64_modulus. intros H.
  apply Z.mod_small. lia.
Qed.

Lemma saturating_sub_range a b : in_u64 a -> 0 <= b -> in_u64 (saturating_sub a b).
Proof. unfold in_u64, saturating_sub. lia. Qed.

Lemma saturating_sub_le a b : 0 <= a -> 0 <= b -> saturating_sub a b <= a.
Proof. unfold saturating_sub. lia. Qed.

Lemma saturating_sub_exact a b : b <= a -> saturating_sub a b = a - b.
Proof. unfold saturating_sub. lia. Qed.

#[export] Hint Resolve wrap64_range saturating_sub_range : lsay.

Lemma bind_ret_l {W E A B} (a : A) (k : A -> io W E B) w :
  bind (ret a) k w = k a w.
Proof. reflexivity. Qed.

Lemma bind_ret_r {W E A} (m : io W E A) w : bind m ret w = m w.
Proof. unfold bind, ret. destruct (m w) as [[a|e] w']; reflexivity. Qed.

Lemma bind_assoc {W E A B C} (m : io W E A) (f : A -> io W E B)
  (g : B -> io W E C) w :
  bind (bind m f) g w = bind m (fun x => bind (f x) g) w.
Proof. unfold bind. destruct (m w) as [[a|e] w']; reflexivity. Qed.

Lemma bind_ok {W E A B} (m : io W E A) (k : A -> io W E B) w a w' :
  m w = (Ok a, w') -> bind m k w = k a w'.
Proof. unfold bind. intros ->. reflexivity. Qed.

Lemma bind_err {W E A B} (m : io W E A) (k : A -> io W E B) w e w' :
  m w = (Err e, w') -> bind m k w = (Err e, w').
Proof. unfold bind. intros ->. reflexivity. Qed.

Lemma bind_inv_ok {W E A B} (m : io W E A) (k : A -> io W E B) w b w2 :
  bind m k w = (Ok b, w2) ->
  exists a w1, m w = (Ok a, w1) /\ k a w1 = (Ok b, w2).
Proof.
  unfold bind. destruct (m w) as [[a|e] w1]; [eauto | discriminate].
Qed.

Lemma str_length_append (s t : string) :
  String.length (s ++ t) = (String.length s + String.length t)%nat.
Proof. induction s as [|c s IH]; simpl; [reflexivity | now rewrite IH]. Qed.

Lemma str_append_assoc (s t u : string) :
  ((s ++ t) ++ u = s ++ (t ++ u))%string.
Proof. induction s as [|c s IH]; simpl; [reflexivity | now rewrite IH]. Qed.

Lemma str_append_nil_r (s : string) : (s ++ "" = s)%string.
Proof. induction s as [|c s IH]; simpl; [reflexivity | now rewrite IH]. Qed.

Lemma str_length_repeat (s : string) (n : nat) :
  String.length (str_repeat s n) = (n * String.length s)%nat.
Proof.
  induction n as [|n IH]; simpl; [reflexivity|].
  rewrite str_length_append, IH. reflexivity.
Qed.

Lemma str_append_inv_head (s t u : string) :
  (s ++ t = s ++ u)%string -> t = u.
Proof. induction s as [|c s IH]; simpl; intros H; [exact H|]. inv H. auto. Qed.

Lemma str_append_length_inv (s1 s2 t1 t2 : string) :
  String.length s1 = String.length s2 ->
  (s1 ++ t1 = s2 ++ t2)%string -> s1 = s2 /\ t1 = t2.
Proof.
  revert s2. induction s1 as [|c s1 IH]; intros [|d s2]; simpl; try discriminate.
  - auto.
  - intros Hl H. inv H. destruct (IH s2) as [-> ->]; auto.
Qed.

Create Rewrite HintDb lsay_rw.

#[export] Hint Rewrite str_length_append str_length_repeat str_append_nil_r
  : lsay_rw.

(** ** Reversal of byte strings

    Suffixes are reasoned about as prefixes of the reversed string. *)

Definition str_rev (s : string) : string :=
  string_of_list_ascii (rev (list_ascii_of_string s)).

Lemma list_ascii_of_string_app (s t : string) :
  list_ascii_of_string (s ++ t) =
  (list_ascii_of_string s ++ list_ascii_of_string t)%list.
Proof. induction s as [|c s IH]; simpl; [reflexivity | now rewrite IH]. Qed.

Lemma string_of_list_ascii_app (l k : list ascii) :
  string_of_list_ascii (l ++ k) =
  (string_of_list_ascii l ++ string_of_list_ascii k)%string.
Proof. induction l as [|c l IH]; simpl; [reflexivity | now rewrite IH]. Qed.

Lemma str_rev_app (s t : string) :
  str_rev (s ++ t) = (str_rev t ++ str_rev s)%string.
Proof.
  unfold str_rev.
  now rewrite list_ascii_of_string_app, rev_app_distr, string_of_list_ascii_app.
Qed.

Lemma str_rev_involutive (s : string) : str_rev (str_rev s) = s.
Proof.
  unfold str_rev.
  now rewrite list_ascii_of_string_of_list_ascii, rev_involutive,
    string_of_list_ascii_of_string.
Qed.

Lemma str_rev_inj (s t : string) : str_rev s = str_rev t -> s = t.
Proof.
  intros H. rewrite <- (str_rev_involutive s), <- (str_rev_involutive t).
  now rewrite H.
Qed.

Lemma str_rev_length (s : string) : String.length (str_rev s) = String.length s.
Proof.
  unfold str_rev.
  assert (L : forall l, String.length (string_of_list_ascii l) = List.length l)
    by (induction l; simpl; auto).
  assert (K : forall u, List.length (list_ascii_of_string u) = String.length u)
    by (induction u; simpl; auto).
  now rewrite L, length_rev, K.
Qed.

Lemma str_append_inv_tail (s t u : string) :
  (s ++ u = t ++ u)%string -> s = t.
Proof.
  intros H. apply (f_equal str_rev) in H. rewrite !str_rev_app in H.
  apply str_append_inv_head in H. now apply str_rev_inj.
Qed.

Lemma str_append_length_inv_tail (s1 s2 t1 t2 : string) :
  String.length t1 = String.length t2 ->
  (s1 ++ t1 = s2 ++ t2)%string -> s1 = s2 /\ t1 = t2.
Proof.
  intros L H. apply (f_equal str_rev) in H. rewrite !str_rev_app in H.
  apply str_append_length_inv in H as [Ht Hs].
  - split; now apply str_rev_inj.
  - now rewrite !str_rev_length.
Qed.

(** ** Lists *)

(** [Iterator::filter_map]. *)
Fixpoint filter_map {A B} (f : A -> option B) (l : list A) : list B :=
  match l with
  | [] => []
  | x :: l' =>
      match f x with
      | Some y => y :: filter_map f l'
      | None => filter_map f l'
      end
  end.

Lemma filter_map_all_some {A B} (f : A -> option B) (g : A -> B) l :
  (forall x, In x l -> f x = Some (g x)) -> filter_map f l = map g l.
Proof.
  induction l as [|x l IH]; simpl; intros Hf; [reflexivity|].
  rewrite (Hf x) by auto. f_equal. apply IH. auto.
Qed.

Lemma list_sum_repeat n k : list_sum (repeat n k) = (n * k)%nat.
Proof. induction k as [|k IH]; simpl; [|rewrite IH]; lia. Qed.

Lemma NoDup_app_disjoint {A} (l1 l2 : list A) a :
  NoDup (l1 ++ l2) -> In a l1 -> In a l2 -> False.
Proof.
  induction l1 as [|x l1 IH]; simpl; intros ND H1 H2; [tauto|]. inv ND.
  destruct H1 as [->|H1]; [|auto]. apply H3, in_or_app. now right.
Qed.

(** Re-association of a three-step sequence, as [cache_store] needs it. *)
Lemma bind_assoc_3 {W E A B C D} (m1 : io W E A) (m2 : io W E B)
  (m3 : io W E C) (k : io W E D) w :
  bind m1 (fun _ => bind m2 (fun _ => bind m3 (fun _ => k))) w =
  bind (bind m1 (fun _ => bind m2 (fun _ => m3))) (fun _ => k) w.
Proof.
  unfold bind. destruct (m1 w) as [[a|e] w1]; [|reflexivity].
  destruct (m2 w1) as [[b|e] w2]; reflexivity.
Qed.

Lemma bind_ext {W E A B} (m : io W E A) (k1 k2 : A -> io W E B) w :
  (forall a w', k1 a w' = k2 a w') -> bind m k1 w = bind m k2 w.
Proof. intros Hk. unfold bind. destruct (m w) as [[a|e] w']; auto. Qed.

Lemma bind_get {W E B} (k : W -> io W E B) w : bind get k w = k w w.
Proof. reflexivity. Qed.

Lemma bind_cases {W E A B} (m : io W E A) (k : A -> io W E B) w r w' :
  bind m k w = (r, w') ->
  (exists a w1, m w = (Ok a, w1) /\ k a w1 = (r, w')) \/
  (exists e, m w = (Err e, w') /\ r = Err e).
Proof.
  unfold bind. destruct (m w) as [[a|e] w1]; intros Hm; [left; eauto|].
  inv Hm. right. eauto.
Qed.

(** Splits the outcome [E] of a sequence into the outcome [R] of its first
    step (its value [a] and world [w1] on success) and the outcome of the
    rest; on an error of the first step, [E] says that it is the result. *)
Tactic Notation "bind_split" hyp(E) "as" ident(a) ident(w1) ident(R) :=
  apply bind_cases in E as [(a & w1 & R & E) | (? & R & E)].
