(* ===== verification/Encoding.v ===== *)
(** * Encoding: the byte-level printers the program relies on

    Three conversions of the Rust standard library and of the [blake3]
    crate appear in the program: [to_le_bytes] on [u64] and [usize]
    ([cache_key] feeds the result to the hasher), the lowercase hexadecimal
    rendering of a digest ([to_hex], the cache file's name) and the decimal
    [Display] of a [usize] (the ["{cols}x{rows}"] argument of the renderer).
    Each is defined here with its inverse, its round trip and the
    injectivity that follows. *)

From Stdlib Require Import ZArith List String Ascii Bool Lia.
From Stdlib Require Import DecimalString DecimalPos DecimalN.
From S2P Require Import Prelude.
Import ListNotations.

#[local] Open Scope Z_scope.

(** ** Bytes *)

Definition byte_of_Z (z : Z) : ascii := ascii_of_N (Z.to_N (z mod 256)).
Definition Z_of_byte (c : ascii) : Z := Z.of_N (N_of_ascii c).

(** ** Little-endian bytes of a machine word *)

Fixpoint le_bytes (n : nat) (z : Z) : string :=
  match n with
  | O => EmptyString
  | S n' => String (byte_of_Z z) (le_bytes n' (z / 256))
  end.

Fixpoint from_le_bytes (s : string) : Z :=
  match s with
  | EmptyString => 0
  | String c s' => Z_of_byte c + 256 * from_le_bytes s'
  end.

(** [u64::to_le_bytes], and [usize::to_le_bytes] on a 64-bit target. *)
Definition to_le_bytes (z : Z) : string := le_bytes 8 z.

(** ** Lowercase hexadecimal *)

Definition hex_digit (n : Z) : ascii :=
  if n <? 10 then byte_of_Z (48 + n) else byte_of_Z (87 + n).

Definition hex_value (c : ascii) : option Z :=
  let v := Z_of_byte c in
  if (48 <=? v) && (v <=? 57) then Some (v - 48)
  else if (97 <=? v) && (v <=? 102) then Some (v - 87)
  else None.

Fixpoint to_hex (s : string) : string :=
  match s with
  | EmptyString => EmptyString
  | String c s' =>
      String (hex_digit (Z_of_byte c / 16))
        (String (hex_digit (Z_of_byte c mod 16)) (to_hex s'))
  end.

Fixpoint from_hex (s : string) : option string :=
  match s with
  | EmptyString => Some EmptyString
  | String h (String l s') =>
      match hex_value h, hex_value l, from_hex s' with
      | Some a, Some b, Some r => Some (String (byte_of_Z (16 * a + b)) r)
      | _, _, _ => None
      end
  | String _ EmptyString => None
  end.

(** ** Decimal display of an unsigned integer *)

Definition fmt_usize (n : Z) : string :=
  NilZero.string_of_uint (N.to_uint (Z.to_N n)).

Definition parse_usize (s : string) : option Z :=
  option_map (fun d => Z.of_N (N.of_uint d)) (NilZero.uint_of_string s).

Definition is_digit (c : ascii) : bool :=
  let v := Z_of_byte c in (48 <=? v) && (v <=? 57).

Fixpoint all_digits (s : string) : bool :=
  match s with
  | EmptyString => true
  | String c s' => is_digit c && all_digits s'
  end.

(** ** Lemmas on bytes *)

Lemma Z_of_byte_range c : 0 <= Z_of_byte c < 256.
Proof.
  unfold Z_of_byte. pose proof (N_ascii_bounded c). lia.
Qed.

Lemma Z_of_byte_of_Z z : Z_of_byte (byte_of_Z z) = z mod 256.
Proof.
  unfold Z_of_byte, byte_of_Z.
  pose proof (Z.mod_pos_bound z 256 ltac:(lia)).
  rewrite N_ascii_embedding by lia. lia.
Qed.

Lemma byte_of_Z_of_byte c : byte_of_Z (Z_of_byte c) = c.
Proof.
  unfold byte_of_Z, Z_of_byte.
  pose proof (N_ascii_bounded c).
  rewrite Z.mod_small by lia. rewrite N2Z.id. apply ascii_N_embedding.
Qed.

Lemma Z_of_byte_inj c d : Z_of_byte c = Z_of_byte d -> c = d.
Proof.
  intros H. rewrite <- (byte_of_Z_of_byte c), <- (byte_of_Z_of_byte d).
  now rewrite H.
Qed.

(** ** Little-endian round trip *)

Lemma le_bytes_length n z : String.length (le_bytes n z) = n.
Proof. revert z; induction n; intros; simpl; auto. Qed.

Lemma from_le_bytes_le_bytes n z :
  from_le_bytes (le_bytes n z) = z mod 256 ^ Z.of_nat n.
Proof.
  revert z; induction n as [|n IH]; intros z.
  - simpl. now rewrite Z.mod_1_r.
  - cbn [le_bytes from_le_bytes]. rewrite IH, Z_of_byte_of_Z.
    rewrite Nat2Z.inj_succ, Z.pow_succ_r by lia.
    rewrite Z.rem_mul_r by lia. lia.
Qed.

Lemma byte_of_Z_add_mul x y : byte_of_Z (x + 256 * y) = byte_of_Z x.
Proof.
  unfold byte_of_Z. do 2 f_equal.
  rewrite Z.mul_comm. apply Z.mod_add. lia.
Qed.

Lemma le_bytes_from_le_bytes s :
  le_bytes (String.length s) (from_le_bytes s) = s.
Proof.
  induction s as [|c s IH]; [reflexivity|].
  cbn [String.length le_bytes from_le_bytes].
  pose proof (Z_of_byte_range c).
  rewrite byte_of_Z_add_mul, byte_of_Z_of_byte. f_equal.
  replace ((Z_of_byte c + 256 * from_le_bytes s) / 256)
    with (from_le_bytes s); [exact IH|].
  rewrite Z.mul_comm, Z.div_add by lia.
  rewrite Z.div_small by lia. lia.
Qed.

Lemma to_le_bytes_length z : String.length (to_le_bytes z) = 8%nat.
Proof. apply le_bytes_length. Qed.

(** Reading the eight bytes back gives the word. *)
Lemma from_to_le_bytes z : in_u64 z -> from_le_bytes (to_le_bytes z) = z.
Proof.
  unfold in_u64, u64_max, to_le_bytes. intros H.
  rewrite from_le_bytes_le_bytes. apply Z.mod_small.
  change (256 ^ Z.of_nat 8) with (2 ^ 64). lia.
Qed.

Lemma to_le_bytes_inj a b :
  in_u64 a -> in_u64 b -> to_le_bytes a = to_le_bytes b -> a = b.
Proof.
  intros Ha Hb H. rewrite <- (from_to_le_bytes a Ha), <- (from_to_le_bytes b Hb).
  now rewrite H.
Qed.

(** Words wider than 64 bits are truncated, as the cast to [u64] does. *)
Lemma to_le_bytes_wrap z : to_le_bytes (wrap64 z) = to_le_bytes z.
Proof.
  pose proof (le_bytes_from_le_bytes (to_le_bytes z)) as H1.
  pose proof (le_bytes_from_le_bytes (to_le_bytes (wrap64 z))) as H2.
  rewrite to_le_bytes_length in H1, H2.
  unfold to_le_bytes in *. rewrite from_le_bytes_le_bytes in H1, H2.
  rewrite <- H1, <- H2 at 1. f_equal.
  unfold wrap64, u64_modulus. change (256 ^ Z.of_nat 8) with (2 ^ 64).
  now rewrite Z.mod_mod by lia.
Qed.

(** ** Hexadecimal round trip *)

Lemma hex_value_digit n : 0 <= n < 16 -> hex_value (hex_digit n) = Some n.
Proof.
  intros H. unfold hex_value, hex_digit.
  destruct (Z.ltb_spec n 10); rewrite Z_of_byte_of_Z, Z.mod_small by lia.
  - replace ((48 <=? 48 + n) && (48 + n <=? 57)) with true
      by (symmetry; apply andb_true_iff; split; apply Z.leb_le; lia).
    f_equal; lia.
  - replace ((48 <=? 87 + n) && (87 + n <=? 57)) with false
      by (symmetry; apply andb_false_iff; right; apply Z.leb_gt; lia).
    replace ((97 <=? 87 + n) && (87 + n <=? 102)) with true
      by (symmetry; apply andb_true_iff; split; apply Z.leb_le; lia).
    f_equal; lia.
Qed.

Lemma to_hex_length s : String.length (to_hex s) = (2 * String.length s)%nat.
Proof. induction s as [|c s IH]; simpl; [reflexivity | rewrite IH; lia]. Qed.

Lemma from_to_hex s : from_hex (to_hex s) = Some s.
Proof.
  induction s as [|c s IH]; [reflexivity|].
  cbn [to_hex from_hex]. pose proof (Z_of_byte_range c) as Hc.
  rewrite !hex_value_digit, IH.
  - do 2 f_equal. rewrite <- (byte_of_Z_of_byte c) at 3. f_equal.
    pose proof (Z.div_mod (Z_of_byte c) 16 ltac:(lia)). lia.
  - apply Z.mod_pos_bound; lia.
  - split; [apply Z.div_pos; lia | apply Z.div_lt_upper_bound; lia].
Qed.

Lemma to_hex_inj s t : to_hex s = to_hex t -> s = t.
Proof.
  intros H. apply (f_equal from_hex) in H.
  rewrite !from_to_hex in H. congruence.
Qed.

(** ** Decimal round trip *)

Lemma parse_fmt_usize n : 0 <= n -> parse_usize (fmt_usize n) = Some n.
Proof.
  intros H. unfold parse_usize, fmt_usize.
  rewrite NilZero.usu.
  - simpl. rewrite DecimalN.Unsigned.of_to. f_equal. lia.
  - destruct (Z.to_N n); simpl; [discriminate|].
    apply DecimalPos.Unsigned.to_uint_nonnil.
Qed.

Lemma fmt_usize_inj a b : 0 <= a -> 0 <= b -> fmt_usize a = fmt_usize b -> a = b.
Proof.
  intros Ha Hb H. apply (f_equal parse_usize) in H.
  rewrite !parse_fmt_usize in H by assumption. congruence.
Qed.
