(* ===== verification/Chafa.v ===== *)
(** * Chafa: the renderer's selectors, the constants and the options record

    The enums [ChafaFormat] and [ChafaColors] of [main.rs] with their
    [as_arg] methods and the names their derived parsers accept
    ([from_str]), the program's constants and [RenderOptions].  The
    lemmas say that [from_str] reads every argument string back, that
    [as_arg] is injective and, more strongly, that the
    argument strings form a code that is uniquely decodable from the right:
    whatever precedes them, the last bytes of a string determine the
    selector.  [CacheKey] needs this to show that the hashed byte string
    determines the request. *)

From Stdlib Require Import ZArith List String Ascii Bool Lia.
From stdpp Require Import base decidable finite.
From S2P Require Import Prelude.

#[local] Open Scope string_scope.

(** ** Constants ([main.rs] 16-20, without the f32 ratio, which [RowBudget]
    holds) *)

Definition DEFAULT_MESSAGE : string := "Hello from leftysay!".
Definition DEFAULT_BUBBLE_MAX_WIDTH : Z := 60.
Definition DEFAULT_CACHE_MAX_MB : Z := 64.
Definition CACHE_FILE_EXT : string := "txt".

(** ** [enum ChafaFormat] *)

Module ChafaFormat.

Inductive t : Set := Auto | Unicode | Kitty | Iterm2 | Sixel.

Definition as_arg (self : t) : string :=
  match self with
  | Auto => "auto"
  | Unicode => "symbols"
  | Kitty => "kitty"
  | Iterm2 => "iterm"
  | Sixel => "sixels"
  end.

#[export] Instance eq_dec : EqDecision t.
Proof. solve_decision. Defined.

#[export] Program Instance finite : Finite t :=
  {| enum := [Auto; Unicode; Kitty; Iterm2; Sixel] |}.
Next Obligation. by apply (bool_decide_unpack _). Qed.
Next Obligation. by intros []; apply (bool_decide_unpack _). Qed.

(** [#[derive(PartialEq)]] *)
Definition eqb (a b : t) : bool := bool_decide (a = b).

(** [#[derive(ValueEnum)]] and [#[derive(Deserialize)]] with
    [rename_all = "lowercase"]: the names the command line and the
    configuration file accept, each variant in lower case and its alias. *)
Definition from_str (s : string) : option t :=
  if String.eqb s "auto" then Some Auto
  else if String.eqb s "unicode" || String.eqb s "symbols" then Some Unicode
  else if String.eqb s "kitty" then Some Kitty
  else if String.eqb s "iterm2" || String.eqb s "iterm" then Some Iterm2
  else if String.eqb s "sixel" || String.eqb s "sixels" then Some Sixel
  else None.

End ChafaFormat.

(** ** [enum ChafaColors] *)

Module ChafaColors.

Inductive t : Set := Auto | Truecolor | C256 | C16.

Definition as_arg (self : t) : string :=
  match self with
  | Auto => "auto"
  | Truecolor => "full"
  | C256 => "256"
  | C16 => "16"
  end.

#[export] Instance eq_dec : EqDecision t.
Proof. solve_decision. Defined.

#[export] Program Instance finite : Finite t :=
  {| enum := [Auto; Truecolor; C256; C16] |}.
Next Obligation. by apply (bool_decide_unpack _). Qed.
Next Obligation. by intros []; apply (bool_decide_unpack _). Qed.

(** [#[derive(PartialEq)]] *)
Definition eqb (a b : t) : bool := bool_decide (a = b).

(** [#[derive(ValueEnum)]] and [#[derive(Deserialize)]], as for the
    format. *)
Definition from_str (s : string) : option t :=
  if String.eqb s "auto" then Some Auto
  else if String.eqb s "truecolor" || String.eqb s "full" then Some Truecolor
  else if String.eqb s "c256" || String.eqb s "256" then Some C256
  else if String.eqb s "c16" || String.eqb s "16" then Some C16
  else None.

End ChafaColors.

(** ** [struct RenderOptions] ([main.rs] 693-702) *)

Record RenderOptions : Set := {
  cols : Z;
  rows : Z;
  format : ChafaFormat.t;
  colors : ChafaColors.t;
  animate : bool;
  cache_enabled : bool;
  cache_max_mb : Z;
}.

(** The options are well formed when the integers fit their Rust types. *)
Definition options_wf (o : RenderOptions) : Prop :=
  in_u64 (cols o) /\ in_u64 (rows o) /\ in_u64 (cache_max_mb o).

(** The variants' own names under [rename_all = "lowercase"], which is also
    what [ValueEnum] derives for them. *)
Definition format_name (f : ChafaFormat.t) : string :=
  match f with
  | ChafaFormat.Auto => "auto"
  | ChafaFormat.Unicode => "unicode"
  | ChafaFormat.Kitty => "kitty"
  | ChafaFormat.Iterm2 => "iterm2"
  | ChafaFormat.Sixel => "sixel"
  end.

Definition colors_name (c : ChafaColors.t) : string :=
  match c with
  | ChafaColors.Auto => "auto"
  | ChafaColors.Truecolor => "truecolor"
  | ChafaColors.C256 => "c256"
  | ChafaColors.C16 => "c16"
  end.

(** ** [as_arg] is injective *)

#[export] Instance format_as_arg_inj : Inj (=) (=) ChafaFormat.as_arg.
Proof. by intros [] []. Qed.

#[export] Instance colors_as_arg_inj : Inj (=) (=) ChafaColors.as_arg.
Proof. by intros [] []. Qed.

(** ** The names read back

    Every string [as_arg] hands to the renderer, and [doctor] prints, is a
    name the program accepts for the same variant; the names of two
    variants never coincide, so [from_str] is a partial inverse of
    [as_arg] that is onto the variants. *)

Lemma format_from_str_as_arg f :
  ChafaFormat.from_str (ChafaFormat.as_arg f) = Some f.
Proof. by destruct f. Qed.

Lemma colors_from_str_as_arg c :
  ChafaColors.from_str (ChafaColors.as_arg c) = Some c.
Proof. by destruct c. Qed.

Ltac by_names :=
  repeat match goal with
    | |- context [String.eqb ?s ?n] =>
        destruct (String.eqb_spec s n) as [->|?]; cbn -[String.eqb]
    end.

(** A name is accepted for a variant exactly when it is the variant's own
    name or its argument string. *)
Lemma format_from_str_spec s f :
  ChafaFormat.from_str s = Some f <->
  s = format_name f \/ s = ChafaFormat.as_arg f.
Proof.
  unfold ChafaFormat.from_str. by_names;
    (split; [intros [= <-]; cbn; auto | intros [E|E]; destruct f; cbn in E;
             congruence]).
Qed.

Lemma colors_from_str_spec s c :
  ChafaColors.from_str s = Some c <->
  s = colors_name c \/ s = ChafaColors.as_arg c.
Proof.
  unfold ChafaColors.from_str. by_names;
    (split; [intros [= <-]; cbn; auto | intros [E|E]; destruct c; cbn in E;
             congruence]).
Qed.

(** ** The argument strings are uniquely decodable from the right

    The reversed argument strings are prefix-free, so reversing both sides
    of an equation between two strings that end in an argument string lets
    computation compare them byte by byte. *)

Ltac by_suffix H :=
  apply (f_equal str_rev) in H; rewrite !str_rev_app in H; cbn in H;
  first [ discriminate H
        | injection H as H; apply str_rev_inj in H; subst; done ].

Lemma format_suffix_code (f g : ChafaFormat.t) (s u : string) :
  s ++ ChafaFormat.as_arg f = u ++ ChafaFormat.as_arg g -> f = g /\ s = u.
Proof. destruct f, g; intros H; by_suffix H. Qed.

Lemma colors_suffix_code (c d : ChafaColors.t) (s u : string) :
  s ++ ChafaColors.as_arg c = u ++ ChafaColors.as_arg d -> c = d /\ s = u.
Proof. destruct c, d; intros H; by_suffix H. Qed.

(** No argument string is empty: a selector always contributes bytes. *)
Lemma format_as_arg_nonempty f : ChafaFormat.as_arg f <> "".
Proof. by destruct f. Qed.

Lemma colors_as_arg_nonempty c : ChafaColors.as_arg c <> "".
Proof. by destruct c. Qed.

Lemma format_eqb_eq a b : ChafaFormat.eqb a b = true <-> a = b.
Proof. unfold ChafaFormat.eqb. apply bool_decide_eq_true. Qed.

Lemma colors_eqb_eq a b : ChafaColors.eqb a b = true <-> a = b.
Proof. unfold ChafaColors.eqb. apply bool_decide_eq_true. Qed.
