(* ===== verification/FileSystem.v ===== *)
(** * FileSystem: the world the effectful code runs in

    The program touches the outside through [std::fs] (the cache directory
    and the image's metadata) and through [std::process] (the renderer).
    This file models that outside as a [world]:

    - the cache directory, [None] while it does not exist, otherwise the
      list of its entries in the order [read_dir] lists them, each with its
      name, its bytes and its modification time;
    - the clock, which stamps every write;
    - the metadata of image files, as [cache_key] reads it;
    - the fault policy: which file-system calls fail.  It is part of the
      world, so that the environment can change it between two renders;
    - the renderer: what running a command line returns;
    - the log of renderer invocations, oldest first (ghost state: the
      program never reads it).

    The operations are the [std::fs] calls of [main.rs], one definition per
    call, each returning [Err (EIo op)] when the policy makes it fail.  A
    file that is written again keeps its place in the listing; a new file is
    listed last. *)

From Stdlib Require Import ZArith List String Ascii Bool Lia.
From Stdlib Require Import RelationClasses Morphisms Setoid.
From S2P Require Import Prelude.
Import ListNotations.

#[local] Open Scope Z_scope.

(** ** Calls, errors, state *)

Inductive fs_op : Set :=
| OpMetadata (name : string)
| OpRead (name : string)
| OpCreate (name : string)
| OpWrite (name : string)
| OpRemove (name : string)
| OpReadDir
| OpCreateDir.

(** The errors [main.rs] can surface ([anyhow::Error] values). *)
Inductive error : Set :=
| EImageMetadata                    (* "reading image metadata" *)
| EIo (op : fs_op)                  (* an [io::Error] propagated by [?] *)
| ESpawn                            (* "running chafa" *)
| EChafaFailed (stderr : string)    (* "chafa failed: {last_err}" *)
| EConfigRead                       (* "reading config {path}" *)
| EConfigParse                      (* "parsing config" *)
| EChafaMissing                     (* "chafa missing" *)
| EPackMetaRead (path : string)     (* "reading pack meta {path}" *)
| EPackMetaParse (path : string)    (* "parsing pack meta {path}" *)
| EPackNotFound (name : string)     (* "pack not found: {pack_name}" *)
| ENoImages.                        (* "no images available" *)

Record entry : Set := {
  e_name : string;
  e_data : string;
  e_mtime : Z;
}.

Definition e_len (e : entry) : Z := Z.of_nat (String.length (e_data e)).

(** What [fs::metadata(image)] followed by [modified()] gives. *)
Inductive img_stat : Set :=
| StatErr                 (* the metadata cannot be read *)
| StatNoMtime             (* no modification time on this platform *)
| StatMtime (secs : Z).   (* whole seconds since the epoch, negative before it *)

(** [std::process::Output], with [status.success()] as a boolean. *)
Record output : Set := {
  status_success : bool;
  stdout : string;
  stderr : string;
}.

Record world : Type := {
  cache : option (list entry);
  now : Z;
  faulty : fs_op -> bool;
  images : string -> img_stat;
  (* what running a command line gives; [None]: it cannot be spawned *)
  renderer : list string -> option output;
  calls : list (list string);
}.

Definition with_cache (c : option (list entry)) (w : world) : world :=
  {| cache := c; now := now w; faulty := faulty w; images := images w;
     renderer := renderer w; calls := calls w |}.

Definition with_calls (l : list (list string)) (w : world) : world :=
  {| cache := cache w; now := now w; faulty := faulty w; images := images w;
     renderer := renderer w; calls := l |}.

Definition with_now (t : Z) (w : world) : world :=
  {| cache := cache w; now := t; faulty := faulty w; images := images w;
     renderer := renderer w; calls := calls w |}.

Definition with_faulty (f : fs_op -> bool) (w : world) : world :=
  {| cache := cache w; now := now w; faulty := f; images := images w;
     renderer := renderer w; calls := calls w |}.

Definition no_faults : fs_op -> bool := fun _ => false.

(** ** Directory listings *)

Definition names (es : list entry) : list string := map e_name es.

Definition find_entry (name : string) (es : list entry) : option entry :=
  find (fun e => String.eqb (e_name e) name) es.

Fixpoint put_entry (x : entry) (es : list entry) : list entry :=
  match es with
  | [] => [x]
  | e :: es' =>
      if String.eqb (e_name e) (e_name x) then x :: es'
      else e :: put_entry x es'
  end.

Definition del_entry (name : string) (es : list entry) : list entry :=
  filter (fun e => negb (String.eqb (e_name e) name)) es.

Definition entries (w : world) : list entry :=
  match cache w with Some es => es | None => [] end.

Definition lookup (name : string) (w : world) : option entry :=
  find_entry name (entries w).

(** ** The calls of [std::fs] *)

Definition M := io world error.

(** [Path::exists] on the cache directory. *)
Definition fs_dir_exists : M bool :=
  fun w => (Ok (match cache w with Some _ => true | None => false end), w).

(** [Path::exists] on a cache file: [fs::metadata(path).is_ok()]. *)
Definition fs_exists (name : string) : M bool :=
  fun w =>
    (Ok (match lookup name w with
         | Some _ => negb (faulty w (OpMetadata name))
         | None => false
         end), w).

(** [fs::read_to_string]. *)
Definition fs_read_to_string (name : string) : M string :=
  fun w =>
    if faulty w (OpRead name) then (Err (EIo (OpRead name)), w)
    else match lookup name w with
         | Some e => (Ok (e_data e), w)
         | None => (Err (EIo (OpRead name)), w)
         end.

(** [fs::File::create]: creates the file or truncates it. *)
Definition fs_create (name : string) : M unit :=
  fun w =>
    if faulty w (OpCreate name) then (Err (EIo (OpCreate name)), w)
    else match cache w with
         | Some es =>
             let e := {| e_name := name; e_data := ""; e_mtime := now w |} in
             (Ok tt, with_cache (Some (put_entry e es)) w)
         | None => (Err (EIo (OpCreate name)), w)
         end.

(** [Write::write_all] on the file just created. *)
Definition fs_write_all (name : string) (data : string) : M unit :=
  fun w =>
    if faulty w (OpWrite name) then (Err (EIo (OpWrite name)), w)
    else match cache w, lookup name w with
         | Some es, Some _ =>
             let e := {| e_name := name; e_data := data; e_mtime := now w |} in
             (Ok tt, with_cache (Some (put_entry e es)) w)
         | _, _ => (Err (EIo (OpWrite name)), w)
         end.

(** [fs::write]: [File::create] followed by [write_all]. *)
Definition fs_write (name : string) (data : string) : M unit :=
  (fs_create name ;; fs_write_all name data)%io.

(** [fs::create_dir_all]. *)
Definition fs_create_dir_all : M unit :=
  fun w =>
    if faulty w OpCreateDir then (Err (EIo OpCreateDir), w)
    else match cache w with
         | Some _ => (Ok tt, w)
         | None => (Ok tt, with_cache (Some []) w)
         end.

(** [fs::remove_file]. *)
Definition fs_remove_file (name : string) : M unit :=
  fun w =>
    if faulty w (OpRemove name) then (Err (EIo (OpRemove name)), w)
    else match cache w, lookup name w with
         | Some es, Some _ => (Ok tt, with_cache (Some (del_entry name es)) w)
         | _, _ => (Err (EIo (OpRemove name)), w)
         end.

(** [fs::read_dir]: the names of the entries, in listing order. *)
Definition fs_read_dir : M (list string) :=
  fun w =>
    if faulty w OpReadDir then (Err (EIo OpReadDir), w)
    else match cache w with
         | Some es => (Ok (names es), w)
         | None => (Err (EIo OpReadDir), w)
         end.

(** [DirEntry::metadata]: the length and the modification time. *)
Definition fs_metadata (name : string) : M (Z * Z) :=
  fun w =>
    if faulty w (OpMetadata name) then (Err (EIo (OpMetadata name)), w)
    else match lookup name w with
         | Some e => (Ok (e_len e, e_mtime e), w)
         | None => (Err (EIo (OpMetadata name)), w)
         end.

(** ** Well-formed worlds

    File names are unique in a directory, and no file was written in the
    future. *)

Definition dir_wf (t : Z) (es : list entry) : Prop :=
  NoDup (names es) /\ Forall (fun e => e_mtime e <= t) es.

Definition world_wf (w : world) : Prop := dir_wf (now w) (entries w).

(** The environment's step: time passes. *)
Definition tick (d : Z) (w : world) : world := with_now (now w + Z.max 0 d) w.

(** Only the cache directory differs between the two worlds. *)
Definition same_env (w w' : world) : Prop :=
  now w' = now w /\ faulty w' = faulty w /\ images w' = images w /\
  renderer w' = renderer w /\ calls w' = calls w.

(** An entry as [fs::write] leaves it. *)
Definition mk_entry (name data : string) (t : Z) : entry :=
  {| e_name := name; e_data := data; e_mtime := t |}.

(** ** Worlds for the examples *)

(** A world with an empty cache directory, one image and no faults, in
    which the renderer always succeeds. *)
Definition example_world : world :=
  {| cache := Some [];
     now := 100;
     faulty := no_faults;
     images := fun p => if String.eqb p "cat.png" then StatMtime 7 else StatErr;
     renderer := fun _ => Some {| status_success := true; stdout := "<cat>";
                                  stderr := "" |};
     calls := [] |}.

(** The same with three entries in the cache, twelve bytes in all; the
    oldest is the second of the listing. *)
Definition stocked_world : world :=
  with_cache (Some [mk_entry "a.txt" "aaaa" 10; mk_entry "b.txt" "bb" 5;
                    mk_entry "c.txt" "cccccc" 20]) example_world.

(** The directory cannot be listed. *)
Definition read_dir_fails : fs_op -> bool :=
  fun op => match op with OpReadDir => true | _ => false end.

(** ** Lemmas on listings *)

Lemma find_entry_name name es e :
  find_entry name es = Some e -> e_name e = name.
Proof.
  unfold find_entry. intros H. apply find_some in H as [_ H].
  now apply String.eqb_eq.
Qed.

Lemma find_entry_In name es e : find_entry name es = Some e -> In e es.
Proof. unfold find_entry. intros H. now apply find_some in H. Qed.

Lemma find_entry_None name es :
  find_entry name es = None <-> ~ In name (names es).
Proof.
  unfold find_entry, names. induction es as [|e es IH]; simpl; [tauto|].
  destruct (String.eqb_spec (e_name e) name) as [->|N].
  - split; [discriminate | intros H; exfalso; apply H; auto].
  - rewrite IH. tauto.
Qed.

Lemma find_entry_Some_iff name es :
  (exists e, find_entry name es = Some e) <-> In name (names es).
Proof.
  destruct (find_entry name es) eqn:E.
  - split; [intros _ | eauto].
    apply find_entry_In in E as HI. apply find_entry_name in E as <-.
    now apply in_map.
  - apply find_entry_None in E. split; [intros [? ?]; discriminate | tauto].
Qed.

Lemma names_put_entry x es :
  names (put_entry x es) =
  match find_entry (e_name x) es with
  | Some _ => names es
  | None => names es ++ [e_name x]
  end.
Proof.
  unfold find_entry, names. induction es as [|e es IH]; simpl; [reflexivity|].
  destruct (String.eqb_spec (e_name e) (e_name x)) as [Heq|N]; simpl.
  - now rewrite Heq.
  - rewrite IH. now destruct (find _ es).
Qed.

Lemma find_put_entry_eq x es : find_entry (e_name x) (put_entry x es) = Some x.
Proof.
  unfold find_entry. induction es as [|e es IH]; simpl.
  - now rewrite String.eqb_refl.
  - destruct (String.eqb_spec (e_name e) (e_name x)) as [Heq|N]; simpl.
    + now rewrite String.eqb_refl.
    + destruct (String.eqb_spec (e_name e) (e_name x)); [contradiction | exact IH].
Qed.

Lemma find_put_entry_ne x name es :
  e_name x <> name -> find_entry name (put_entry x es) = find_entry name es.
Proof.
  unfold find_entry. intros N. induction es as [|e es IH]; simpl.
  - destruct (String.eqb_spec (e_name x) name); [contradiction | reflexivity].
  - destruct (String.eqb_spec (e_name e) (e_name x)) as [Heq|N']; simpl.
    + rewrite Heq. destruct (String.eqb_spec (e_name x) name); [contradiction|].
      reflexivity.
    + now rewrite IH.
Qed.

Lemma In_put_entry y x es :
  In y (put_entry x es) -> y = x \/ In y es.
Proof.
  induction es as [|e es IH]; simpl; [intuition auto|].
  destruct (String.eqb (e_name e) (e_name x)); simpl; intuition auto.
Qed.

Lemma find_del_entry_eq name es : find_entry name (del_entry name es) = None.
Proof.
  apply find_entry_None. unfold names, del_entry. intros H.
  apply in_map_iff in H as (e & <- & H). apply filter_In in H as [_ H].
  now rewrite String.eqb_refl in H.
Qed.

Lemma find_del_entry_ne name other es :
  name <> other -> find_entry other (del_entry name es) = find_entry other es.
Proof.
  unfold find_entry, del_entry. intros N. induction es as [|e es IH]; simpl; auto.
  destruct (String.eqb_spec (e_name e) name) as [->|N1]; simpl.
  - destruct (String.eqb_spec name other); [contradiction | exact IH].
  - now rewrite IH.
Qed.

Lemma names_del_entry name es :
  names (del_entry name es) = filter (fun n => negb (String.eqb n name)) (names es).
Proof.
  unfold names, del_entry. induction es as [|e es IH]; simpl; auto.
  destruct (String.eqb (e_name e) name); simpl; now rewrite IH.
Qed.

(** ** Every call preserves well-formedness *)

Lemma dir_wf_put t x es :
  dir_wf t es -> e_mtime x <= t -> dir_wf t (put_entry x es).
Proof.
  intros [ND F] Hx. split.
  - rewrite names_put_entry. destruct (find_entry (e_name x) es) eqn:E; auto.
    apply find_entry_None in E.
    apply NoDup_rev in ND. rewrite <- (rev_involutive (_ ++ _)).
    apply NoDup_rev. rewrite rev_app_distr. simpl. constructor; auto.
    now rewrite <- in_rev.
  - apply Forall_forall. intros y Hy. apply In_put_entry in Hy as [->|Hy]; auto.
    rewrite Forall_forall in F. auto.
Qed.

Lemma dir_wf_del t name es : dir_wf t es -> dir_wf t (del_entry name es).
Proof.
  intros [ND F]. split.
  - rewrite names_del_entry. now apply NoDup_filter.
  - apply Forall_forall. intros y Hy. apply filter_In in Hy as [Hy _].
    rewrite Forall_forall in F. auto.
Qed.

Lemma dir_wf_mono t t' es : t <= t' -> dir_wf t es -> dir_wf t' es.
Proof.
  intros Ht [ND F]. split; auto.
  eapply Forall_impl; [|exact F]. simpl. intros. lia.
Qed.

Lemma dir_wf_nil t : dir_wf t [].
Proof. split; constructor. Qed.

#[export] Hint Resolve dir_wf_put dir_wf_del dir_wf_nil : lsay.

Ltac fs_unfold :=
  unfold world_wf, fs_write, fs_create, fs_write_all, fs_remove_file,
    fs_create_dir_all, fs_read_dir, fs_metadata, fs_read_to_string, fs_exists,
    fs_dir_exists, lookup, entries in *;
  io_unfold.

(** Case analysis on every test of the call whose outcome [E] records. *)
Ltac fs_cases E :=
  repeat match type of E with
         | context [if ?b then _ else _] => destruct b eqn:?
         | context [match ?x with _ => _ end] => destruct x eqn:?
         end.

Ltac fs_wf w E :=
  destruct w; fs_unfold; simpl in *; fs_cases E; inv E; simpl;
  auto with lsay; try (apply dir_wf_put; simpl; auto; lia).

Lemma tick_wf d w : world_wf w -> world_wf (tick d w).
Proof.
  unfold world_wf, tick, entries. simpl. apply dir_wf_mono. lia.
Qed.

Lemma fs_create_wf name w r w' :
  world_wf w -> fs_create name w = (r, w') -> world_wf w'.
Proof. intros H E. fs_wf w E. Qed.

Lemma fs_write_all_wf name data w r w' :
  world_wf w -> fs_write_all name data w = (r, w') -> world_wf w'.
Proof. intros H E. fs_wf w E. Qed.

Lemma fs_write_wf name data w r w' :
  world_wf w -> fs_write name data w = (r, w') -> world_wf w'.
Proof.
  unfold fs_write, bind. intros H E.
  destruct (fs_create name w) as [[[]|e] w1] eqn:E1.
  - eapply fs_write_all_wf; [|exact E]. eapply fs_create_wf; eauto.
  - inv E. eapply fs_create_wf; eauto.
Qed.

Lemma fs_remove_file_wf name w r w' :
  world_wf w -> fs_remove_file name w = (r, w') -> world_wf w'.
Proof. intros H E. fs_wf w E. Qed.

Lemma fs_create_dir_all_wf w r w' :
  world_wf w -> fs_create_dir_all w = (r, w') -> world_wf w'.
Proof. intros H E. fs_wf w E. Qed.

#[export] Hint Resolve tick_wf fs_create_wf fs_write_all_wf fs_write_wf
  fs_remove_file_wf fs_create_dir_all_wf : lsay.

(** ** Writing a file *)

Lemma put_entry_twice x y es :
  e_name x = e_name y -> put_entry x (put_entry y es) = put_entry x es.
Proof.
  intros E. induction es as [|e es IH]; simpl.
  - now rewrite E, String.eqb_refl.
  - rewrite <- E. destruct (String.eqb_spec (e_name e) (e_name x)) as [H|H]; simpl.
    + now rewrite <- E, String.eqb_refl.
    + destruct (String.eqb_spec (e_name e) (e_name x)); [contradiction|].
      now rewrite IH.
Qed.

(** Writes to two files that exist commute: each keeps its place in the
    listing. *)
Lemma put_entry_comm x y es :
  e_name x <> e_name y ->
  In (e_name x) (names es) -> In (e_name y) (names es) ->
  put_entry x (put_entry y es) = put_entry y (put_entry x es).
Proof.
  intros N. induction es as [|e es IH]; simpl; [tauto|]. intros Hx Hy.
  destruct (String.eqb_spec (e_name e) (e_name y)) as [Ey|Ny],
           (String.eqb_spec (e_name e) (e_name x)) as [Ex|Nx]; simpl.
  - congruence.
  - destruct (String.eqb_spec (e_name y) (e_name x)); [congruence|].
    destruct (String.eqb_spec (e_name e) (e_name y)); [|contradiction].
    reflexivity.
  - destruct (String.eqb_spec (e_name x) (e_name y)); [congruence|].
    destruct (String.eqb_spec (e_name e) (e_name x)); [|contradiction].
    reflexivity.
  - destruct (String.eqb_spec (e_name e) (e_name x)); [contradiction|].
    destruct (String.eqb_spec (e_name e) (e_name y)); [contradiction|].
    f_equal. apply IH; tauto.
Qed.

Lemma fs_create_ok name w es :
  cache w = Some es -> faulty w (OpCreate name) = false ->
  fs_create name w =
  (Ok tt, with_cache (Some (put_entry (mk_entry name "" (now w)) es)) w).
Proof. unfold fs_create. now intros -> ->. Qed.

Lemma fs_write_all_ok name data w es :
  cache w = Some es -> In name (names es) -> faulty w (OpWrite name) = false ->
  fs_write_all name data w =
  (Ok tt, with_cache (Some (put_entry (mk_entry name data (now w)) es)) w).
Proof.
  unfold fs_write_all, lookup, entries. intros -> HI ->.
  apply find_entry_Some_iff in HI as [e ->]. reflexivity.
Qed.

Lemma In_names_put x es : In (e_name x) (names (put_entry x es)).
Proof. apply find_entry_Some_iff. exists x. apply find_put_entry_eq. Qed.

(** A file just written is there, with what was written. *)
Lemma lookup_written name data t es w :
  lookup name (with_cache (Some (put_entry (mk_entry name data t) es)) w) =
  Some (mk_entry name data t).
Proof. exact (find_put_entry_eq (mk_entry name data t) es). Qed.

Lemma In_names_written name data t es :
  In name (names (put_entry (mk_entry name data t) es)).
Proof. exact (In_names_put (mk_entry name data t) es). Qed.

Lemma fs_write_ok name data w es :
  cache w = Some es ->
  faulty w (OpCreate name) = false -> faulty w (OpWrite name) = false ->
  fs_write name data w =
  (Ok tt, with_cache (Some (put_entry (mk_entry name data (now w)) es)) w).
Proof.
  intros C F1 F2. unfold fs_write.
  erewrite bind_ok by (apply fs_create_ok; eauto).
  erewrite fs_write_all_ok; simpl; eauto.
  - now rewrite put_entry_twice.
  - apply (In_names_put (mk_entry name "" (now w))).
Qed.

Lemma fs_read_to_string_ok name w e :
  lookup name w = Some e -> faulty w (OpRead name) = false ->
  fs_read_to_string name w = (Ok (e_data e), w).
Proof. unfold fs_read_to_string. now intros -> ->. Qed.

Lemma lookup_cache name w e : lookup name w = Some e -> exists es, cache w = Some es.
Proof.
  unfold lookup, entries. destruct (cache w); [eauto | discriminate].
Qed.

Lemma fs_write_inv name data w u w' :
  fs_write name data w = (Ok u, w') ->
  exists es, cache w = Some es /\ faulty w (OpCreate name) = false /\
             faulty w (OpWrite name) = false.
Proof.
  unfold fs_write. intros E. apply bind_inv_ok in E as ([] & w1 & E1 & E2).
  unfold fs_create in E1. destruct (faulty w (OpCreate name)) eqn:F1; [discriminate|].
  destruct (cache w) as [es|]; inv E1.
  unfold fs_write_all in E2. simpl in E2.
  destruct (faulty w (OpWrite name)); [discriminate | eauto].
Qed.

Lemma fs_read_to_string_inv name w r w' :
  fs_read_to_string name w = (Ok r, w') ->
  w' = w /\ faulty w (OpRead name) = false /\
  exists e, lookup name w = Some e /\ r = e_data e.
Proof.
  unfold fs_read_to_string. destruct (faulty w _); [discriminate|].
  destruct (lookup name w) as [e|]; intros E; inv E. eauto.
Qed.

Lemma fs_read_to_string_world name w r w' :
  fs_read_to_string name w = (r, w') -> w' = w.
Proof.
  unfold fs_read_to_string.
  destruct (faulty w _), (lookup name w); intros E; now inv E.
Qed.

(** ** The calls of [std::fs] change the cache directory only *)

Lemma same_env_refl w : same_env w w.
Proof. now unfold same_env. Qed.

Lemma same_env_trans w1 w2 w3 : same_env w1 w2 -> same_env w2 w3 -> same_env w1 w3.
Proof. unfold same_env. intuition congruence. Qed.

Lemma same_env_sym w w' : same_env w w' -> same_env w' w.
Proof. unfold same_env. intuition congruence. Qed.

(** [same_env] is the equivalence of worlds that differ in the cache
    directory only. *)
#[export] Instance same_env_equiv : Equivalence same_env.
Proof.
  split; [exact same_env_refl | exact same_env_sym | exact same_env_trans].
Qed.

Lemma same_env_with_cache c w : same_env w (with_cache c w).
Proof. now unfold same_env. Qed.

#[export] Hint Resolve same_env_refl same_env_with_cache : lsay.

(** Well-formedness of a concrete world. *)
Ltac solve_wf :=
  split; [repeat constructor; simpl; intuition discriminate
        | repeat constructor; simpl; lia].

Ltac fs_env w E :=
  destruct w; fs_unfold; simpl in *; fs_cases E; inv E; now unfold same_env.

Lemma fs_create_env name w r w' : fs_create name w = (r, w') -> same_env w w'.
Proof. intros E. fs_env w E. Qed.

Lemma fs_write_all_env name data w r w' :
  fs_write_all name data w = (r, w') -> same_env w w'.
Proof. intros E. fs_env w E. Qed.

Lemma fs_remove_file_env name w r w' :
  fs_remove_file name w = (r, w') -> same_env w w'.
Proof. intros E. fs_env w E. Qed.

Lemma fs_create_dir_all_env w r w' :
  fs_create_dir_all w = (r, w') -> same_env w w'.
Proof. intros E. fs_env w E. Qed.

Lemma fs_write_env name data w r w' :
  fs_write name data w = (r, w') -> same_env w w'.
Proof.
  unfold fs_write. intros E.
  bind_split E as u w1 R; apply fs_create_env in R; [|exact R].
  apply fs_write_all_env in E. eapply same_env_trans; eauto.
Qed.

#[export] Hint Resolve fs_create_env fs_write_all_env fs_remove_file_env
  fs_create_dir_all_env fs_write_env : lsay.
