(* ===== verification/CacheKey.v ===== *)
(** * CacheKey: the content address of a rendered image

    [cache_key] ([main.rs] 607-631) hashes the image's path, its
    modification time in seconds and the render parameters, and prints the
    digest in hexadecimal.  The hash function is BLAKE3, a library the
    program only calls: it is a type class here, with the one law the
    program relies on (digests are 32 bytes long), and the incremental
    hasher is the byte string fed to it so far.

    The theorems are about the byte string that is hashed (the preimage):
    it determines the request, so two requests can share a key only by a
    collision of the hash function. *)

From Stdlib Require Import ZArith List String Ascii Bool Lia.
From S2P Require Import Prelude Encoding Chafa FileSystem.
Import ListNotations.

#[local] Open Scope string_scope.
#[local] Open Scope Z_scope.

(** ** The hash function, as the program uses it *)

Class Hasher : Type := {
  digest : string -> string;
  digest_length : forall m, String.length (digest m) = 32%nat;
}.

(** [blake3::Hasher]: [new], [update] and [finalize].  Feeding the bytes in
    several [update]s hashes their concatenation. *)
Definition hasher_state : Set := string.
Definition hasher_new : hasher_state := "".
Definition hasher_update (h : hasher_state) (bytes : string) : hasher_state :=
  h ++ bytes.
Definition hasher_finalize `{Hasher} (h : hasher_state) : string := digest h.

(** ** Reading the image's modification time ([main.rs] 616-622) *)

Definition image_mtime (image : string) : M Z :=
  fun w =>
    match images w image with
    | StatErr => (Err EImageMetadata, w)
    | StatNoMtime => (Ok 0, w)
    | StatMtime secs => (Ok (if secs <? 0 then 0 else secs), w)
    end.

(** [animate as u8]. *)
Definition bool_byte (b : bool) : string :=
  str_of_char (if b then "001"%char else "000"%char).

(** ** The hashed byte string *)

Definition key_preimage (image : string) (mtime cols rows : Z)
  (format : ChafaFormat.t) (colors : ChafaColors.t) (animate : bool)
  : hasher_state :=
  let hasher := hasher_new in
  let hasher := hasher_update hasher image in
  let hasher := hasher_update hasher (to_le_bytes mtime) in
  let hasher := hasher_update hasher (to_le_bytes cols) in
  let hasher := hasher_update hasher (to_le_bytes rows) in
  let hasher := hasher_update hasher (ChafaFormat.as_arg format) in
  let hasher := hasher_update hasher (ChafaColors.as_arg colors) in
  hasher_update hasher (bool_byte animate).

Section WithHasher.
Context `{Hasher}.

(** ** [fn cache_key] *)

Definition cache_key (image : string) (cols rows : Z)
  (format : ChafaFormat.t) (colors : ChafaColors.t) (animate : bool)
  : M string :=
  (mtime <- image_mtime image ;;
   ret (to_hex (hasher_finalize
                  (key_preimage image mtime cols rows format colors animate))))%io.

(** The name of the cache file: [format!("{cache_key}.{CACHE_FILE_EXT}")]. *)
Definition cache_file_name (key : string) : string :=
  key ++ "." ++ CACHE_FILE_EXT.

End WithHasher.

(** A collision of the hash function: two different inputs, one digest. *)
Definition collision `{Hasher} (m1 m2 : string) : Prop :=
  m1 <> m2 /\ digest m1 = digest m2.

(** The modification time read from a well-formed image status fits [u64]. *)
Definition stat_wf (st : img_stat) : Prop :=
  match st with StatMtime secs => secs <= u64_max | _ => True end.

(** ** A hash function for the examples

    The first 32 bytes of the input, padded with zeros.  It stands in for
    BLAKE3 where a theorem is applied to concrete data; it is of course not
    collision resistant. *)

Fixpoint pad_bytes (n : nat) (s : string) : string :=
  match n with
  | O => ""
  | S n' =>
      match s with
      | EmptyString => String "000"%char (pad_bytes n' "")
      | String c s' => String c (pad_bytes n' s')
      end
  end.

Lemma pad_bytes_length n s : String.length (pad_bytes n s) = n.
Proof. revert s; induction n; intros [|c s]; simpl; auto. Qed.

Definition toy_hasher : Hasher :=
  {| digest := pad_bytes 32; digest_length := pad_bytes_length 32 |}.

Definition example_options : RenderOptions :=
  {| cols := 80; rows := 13; format := ChafaFormat.Auto;
     colors := ChafaColors.Auto; animate := false; cache_enabled := true;
     cache_max_mb := 64 |}.

(** ** The preimage determines the request *)

Lemma bool_byte_inj a b : bool_byte a = bool_byte b -> a = b.
Proof. destruct a, b; cbv; intros E; solve [reflexivity | discriminate E]. Qed.

Lemma key_preimage_eq image mtime cols rows format colors animate :
  key_preimage image mtime cols rows format colors animate =
  (((((image ++ to_le_bytes mtime) ++ to_le_bytes cols) ++ to_le_bytes rows)
      ++ ChafaFormat.as_arg format) ++ ChafaColors.as_arg colors)
    ++ bool_byte animate.
Proof. reflexivity. Qed.

(** The hashed byte string determines the request: equal preimages
    come from the same path, modification time, size, selectors and
    animation flag.  The path has no length prefix, so this rests on the
    fixed width of the three integers and on the selectors' strings being
    decodable from the right. *)
Theorem key_preimage_inj i1 m1 c1 r1 f1 k1 a1 i2 m2 c2 r2 f2 k2 a2 :
  in_u64 m1 -> in_u64 c1 -> in_u64 r1 ->
  in_u64 m2 -> in_u64 c2 -> in_u64 r2 ->
  key_preimage i1 m1 c1 r1 f1 k1 a1 = key_preimage i2 m2 c2 r2 f2 k2 a2 ->
  i1 = i2 /\ m1 = m2 /\ c1 = c2 /\ r1 = r2 /\ f1 = f2 /\ k1 = k2 /\ a1 = a2.
Proof.
  intros Hm1 Hc1 Hr1 Hm2 Hc2 Hr2. rewrite !key_preimage_eq. intros E.
  apply str_append_length_inv_tail in E as [E Ea];
    [|now destruct a1, a2].
  apply colors_suffix_code in E as [Ek E].
  apply format_suffix_code in E as [Ef E].
  apply str_append_length_inv_tail in E as [E Er];
    [|now rewrite !to_le_bytes_length].
  apply str_append_length_inv_tail in E as [E Ec];
    [|now rewrite !to_le_bytes_length].
  apply str_append_length_inv_tail in E as [E Em];
    [|now rewrite !to_le_bytes_length].
  repeat split; auto using to_le_bytes_inj, bool_byte_inj.
Qed.

Lemma key_preimage_inj_witness :
  "cat.png" = "cat.png" /\ 7 = 7 /\ 80 = 80 /\ 13 = 13 /\
  ChafaFormat.Auto = ChafaFormat.Auto /\ ChafaColors.C256 = ChafaColors.C256 /\
  true = true.
Proof.
  apply (key_preimage_inj "cat.png" 7 80 13 ChafaFormat.Auto ChafaColors.C256
           true "cat.png" 7 80 13 ChafaFormat.Auto ChafaColors.C256 true);
    first [ reflexivity | unfold in_u64, u64_max; lia ].
Defined.

(** ** What [cache_key] returns *)

Section KeyFacts.
Context `{Hasher}.

Lemma image_mtime_world image w : snd (image_mtime image w) = w.
Proof. unfold image_mtime. now destruct (images w image). Qed.

Lemma image_mtime_range image w t :
  stat_wf (images w image) -> fst (image_mtime image w) = Ok t -> in_u64 t.
Proof.
  unfold image_mtime, stat_wf, in_u64, u64_max.
  destruct (images w image) as [| |secs]; simpl; intros Hs E; inv E;
    [lia|]. destruct (Z.ltb_spec secs 0); lia.
Qed.

(** [cache_key] as an equation: the image's time is read, and the key is
    the hexadecimal digest of the preimage built from it. *)
Lemma cache_key_eq image cols rows (format : ChafaFormat.t)
  (colors : ChafaColors.t) animate w :
  cache_key image cols rows format colors animate w =
  (match fst (image_mtime image w) with
   | Ok mtime =>
       Ok (to_hex (digest
             (key_preimage image mtime cols rows format colors animate)))
   | Err e => Err e
   end, w).
Proof.
  unfold cache_key, bind, ret, hasher_finalize, image_mtime.
  now destruct (images w image).
Qed.

(** [cache_key] only reads: it leaves the world as it found it, on the
    success path and on the error path. *)
Theorem cache_key_world image cols rows (format : ChafaFormat.t)
  (colors : ChafaColors.t) animate w :
  snd (cache_key image cols rows format colors animate w) = w.
Proof.
  unfold cache_key, bind, ret.
  pose proof (image_mtime_world image w) as Hw.
  destruct (image_mtime image w) as [[t|e] w']; simpl in *; now subst.
Qed.

Lemma cache_key_ok image cols rows (format : ChafaFormat.t)
  (colors : ChafaColors.t) animate w key :
  fst (cache_key image cols rows format colors animate w) = Ok key <->
  exists mtime, fst (image_mtime image w) = Ok mtime /\
    key = to_hex (digest
            (key_preimage image mtime cols rows format colors animate)).
Proof.
  unfold cache_key, bind, ret, hasher_finalize.
  destruct (image_mtime image w) as [[t|e] w']; simpl; split.
  - intros E. inv E. eauto.
  - intros (m & E & ->). now inv E.
  - discriminate.
  - intros (m & E & _). discriminate.
Qed.

(** The one error of [cache_key]: it fails exactly when the image's
    metadata cannot be read, with the error "reading image metadata". *)
Theorem cache_key_error image cols rows (format : ChafaFormat.t)
  (colors : ChafaColors.t) animate w :
  (images w image = StatErr ->
   fst (cache_key image cols rows format colors animate w) = Err EImageMetadata)
  /\ (images w image <> StatErr ->
      exists key, fst (cache_key image cols rows format colors animate w) = Ok key
                  /\ String.length key = 64%nat).
Proof.
  unfold cache_key, image_mtime, bind, ret, hasher_finalize. split.
  - now intros ->.
  - intros N. destruct (images w image); [contradiction| |]; simpl;
      eexists; (split; [reflexivity|]);
      now rewrite to_hex_length, digest_length.
Qed.


(** The key depends on the world through the image's status only. *)
Theorem cache_key_frame image cols rows (format : ChafaFormat.t)
  (colors : ChafaColors.t) animate w1 w2 :
  images w1 image = images w2 image ->
  fst (cache_key image cols rows format colors animate w1) =
  fst (cache_key image cols rows format colors animate w2).
Proof.
  unfold cache_key, image_mtime, bind, ret. intros ->.
  now destruct (images w2 image).
Qed.

End KeyFacts.


(** The repository's test [cache_key_changes_with_size]: the same image
    rendered 40 and 80 columns wide is hashed from different byte strings. *)
Example key_preimage_changes_with_size image mtime :
  in_u64 mtime ->
  key_preimage image mtime 40 10 ChafaFormat.Auto ChafaColors.Auto false <>
  key_preimage image mtime 80 10 ChafaFormat.Auto ChafaColors.Auto false.
Proof.
  intros Hm E.
  apply key_preimage_inj in E as (_ & _ & E & _);
    try assumption; unfold in_u64, u64_max; lia.
Qed.

Lemma key_preimage_changes_with_size_witness :
  key_preimage "cat.png" 7 40 10 ChafaFormat.Auto ChafaColors.Auto false <>
  key_preimage "cat.png" 7 80 10 ChafaFormat.Auto ChafaColors.Auto false.
Proof.
  apply (key_preimage_changes_with_size "cat.png" 7).
  unfold in_u64, u64_max; lia.
Defined.

Lemma cache_key_frame_witness :
  fst (@cache_key toy_hasher "cat.png" 80 13 ChafaFormat.Auto ChafaColors.Auto
         false example_world) =
  fst (@cache_key toy_hasher "cat.png" 80 13 ChafaFormat.Auto ChafaColors.Auto
         false (tick 5 example_world)).
Proof. apply (@cache_key_frame toy_hasher). reflexivity. Defined.
