(* ===== verification/StableSort.v ===== *)
(** * StableSort: [slice::sort_by_key]

    [enforce_cache_limit] orders the directory entries with
    [entries.sort_by_key(..)], a stable sort.  It is modelled by a stable
    insertion sort over a boolean total preorder on the keys.  The theorems
    say that the result is a sorted permutation in which elements with
    equivalent keys keep their order, and that these properties leave no
    choice: any sorted list with the same elements in the same order within
    each key class is the result of [sort_by_key].  The model therefore
    agrees with Rust's sort whatever algorithm that uses.

    The order on the keys of the cache, [Option<SystemTime>], is [key_le]:
    [None] comes first, as the derived [Ord] of [Option] puts it. *)

From Stdlib Require Import ZArith List Bool Sorted Permutation Lia.
From S2P Require Import Prelude.
Import ListNotations.

Section Sort.
Context {A K : Type} (leb : K -> K -> bool) (key : A -> K).

Fixpoint insert_by (x : A) (l : list A) : list A :=
  match l with
  | [] => [x]
  | y :: l' =>
      if leb (key x) (key y) then x :: y :: l' else y :: insert_by x l'
  end.

Definition sort_by_key (l : list A) : list A := fold_right insert_by [] l.

(** Two keys are equivalent when each is below the other. *)
Definition key_equiv (a b : K) : bool := leb a b && leb b a.

(** The elements of [l] whose key is equivalent to [k], in order. *)
Definition key_class (k : K) (l : list A) : list A :=
  filter (fun x => key_equiv (key x) k) l.

Definition by_key (x y : A) : Prop := leb (key x) (key y) = true.

Hypothesis leb_total : forall a b, leb a b = true \/ leb b a = true.
Hypothesis leb_trans : forall a b c,
  leb a b = true -> leb b c = true -> leb a c = true.

Lemma leb_refl a : leb a a = true.
Proof. destruct (leb_total a a); assumption. Qed.

Lemma key_equiv_refl a : key_equiv a a = true.
Proof. unfold key_equiv. now rewrite leb_refl. Qed.

Lemma key_equiv_trans_l a b k :
  key_equiv a b = true -> key_equiv a k = key_equiv b k.
Proof.
  unfold key_equiv. rewrite andb_true_iff. intros [Hab Hba].
  apply eq_true_iff_eq. rewrite !andb_true_iff. split; intros [H1 H2]; eauto.
Qed.

(** ** Permutation *)

Lemma insert_by_perm x l : Permutation (x :: l) (insert_by x l).
Proof.
  induction l as [|y l IH]; simpl; [reflexivity|].
  destruct (leb (key x) (key y)); [reflexivity|].
  rewrite perm_swap. now apply perm_skip.
Qed.

Lemma sort_by_key_perm l : Permutation l (sort_by_key l).
Proof.
  induction l as [|x l IH]; simpl; [constructor|].
  rewrite <- insert_by_perm. now apply perm_skip.
Qed.

Lemma sort_by_key_In x l : In x (sort_by_key l) <-> In x l.
Proof.
  split; apply Permutation_in;
    [symmetry|]; apply sort_by_key_perm.
Qed.

Lemma sort_by_key_length l : length (sort_by_key l) = length l.
Proof. symmetry. apply Permutation_length, sort_by_key_perm. Qed.

(** ** Sortedness *)

Lemma insert_by_sorted x l :
  StronglySorted by_key l -> StronglySorted by_key (insert_by x l).
Proof.
  induction 1 as [|y l S IH F]; simpl; [repeat constructor|].
  destruct (leb (key x) (key y)) eqn:E.
  - constructor; [now constructor|]. constructor; [exact E|].
    eapply Forall_impl; [|exact F]. unfold by_key. eauto.
  - constructor; [exact IH|].
    apply (Permutation_Forall (insert_by_perm x l)). constructor; [|exact F].
    unfold by_key. destruct (leb_total (key x) (key y)); congruence.
Qed.

Lemma sort_by_key_sorted l : StronglySorted by_key (sort_by_key l).
Proof.
  induction l as [|x l IH]; simpl; [constructor | now apply insert_by_sorted].
Qed.

(** ** Stability *)

Lemma key_class_insert k x l :
  StronglySorted by_key l ->
  key_class k (insert_by x l) = key_class k (x :: l).
Proof.
  unfold key_class. induction 1 as [|y l S IH F]; simpl; [reflexivity|].
  destruct (leb (key x) (key y)) eqn:E; simpl; [reflexivity|].
  rewrite IH. simpl.
  destruct (key_equiv (key x) k) eqn:Ex, (key_equiv (key y) k) eqn:Ey;
    try reflexivity.
  exfalso. unfold key_equiv in Ex, Ey.
  apply andb_true_iff in Ex as [X1 X2], Ey as [Y1 Y2].
  rewrite (leb_trans _ _ _ X1 Y2) in E. discriminate.
Qed.

Lemma sort_by_key_stable k l : key_class k (sort_by_key l) = key_class k l.
Proof.
  induction l as [|x l IH]; simpl; [reflexivity|].
  rewrite key_class_insert by apply sort_by_key_sorted.
  unfold key_class in *. simpl. now rewrite IH.
Qed.

(** ** Uniqueness *)

Lemma key_class_In k x l :
  In x (key_class k l) <-> In x l /\ key_equiv (key x) k = true.
Proof. apply filter_In. Qed.

Lemma sorted_head_min x l y :
  StronglySorted by_key (x :: l) -> In y (x :: l) -> by_key x y.
Proof.
  intros S [<-|Hy]; [apply leb_refl|].
  apply StronglySorted_inv in S as [_ F]. rewrite Forall_forall in F. auto.
Qed.

Lemma stable_sorted_unique l1 l2 :
  StronglySorted by_key l1 -> StronglySorted by_key l2 ->
  (forall k, key_class k l1 = key_class k l2) -> l1 = l2.
Proof.
  intros S1. revert l2. induction S1 as [|x t1 S1 IH F1]; intros l2 S2 C.
  - destruct l2 as [|y t2]; [reflexivity|]. specialize (C (key y)).
    unfold key_class in C. simpl in C. rewrite key_equiv_refl in C. discriminate.
  - destruct l2 as [|y t2].
    + specialize (C (key x)). unfold key_class in C. simpl in C.
      rewrite key_equiv_refl in C. discriminate.
    + assert (Hxy : key_equiv (key x) (key y) = true).
      { unfold key_equiv. apply andb_true_iff. split.
        - apply (sorted_head_min x t1 y); [now constructor|].
          apply (key_class_In (key y)). rewrite C. apply key_class_In.
          split; [now left | apply key_equiv_refl].
        - apply (sorted_head_min y t2 x); [exact S2|].
          apply (key_class_In (key x)). rewrite <- C. apply key_class_In.
          split; [now left | apply key_equiv_refl]. }
      assert (E := C (key x)). unfold key_class in E. simpl in E.
      rewrite key_equiv_refl in E.
      rewrite <- (key_equiv_trans_l _ _ _ Hxy), key_equiv_refl in E.
      injection E as -> E. f_equal.
      apply IH; [now apply StronglySorted_inv in S2|].
      intros k. specialize (C k). unfold key_class in *. simpl in C.
      destruct (key_equiv (key y) k); [now injection C | exact C].
Qed.

(** Any stable sort computes [sort_by_key]. *)
Theorem sort_by_key_unique l s :
  StronglySorted by_key s ->
  (forall k, key_class k s = key_class k l) ->
  s = sort_by_key l.
Proof.
  intros S C. apply stable_sorted_unique; auto using sort_by_key_sorted.
  intros k. now rewrite C, sort_by_key_stable.
Qed.

(** A sorted list splits into a low part and a high part. *)
Lemma sorted_app_le l1 l2 x y :
  StronglySorted by_key (l1 ++ l2) -> In x l1 -> In y l2 -> by_key x y.
Proof.
  induction l1 as [|a l1 IH]; simpl; [tauto|].
  intros S [->|Hx] Hy.
  - apply StronglySorted_inv in S as [_ F]. rewrite Forall_forall in F.
    apply F, in_or_app. now right.
  - apply StronglySorted_inv in S as [S _]. auto.
Qed.

(** An element whose key is above all others and which comes last stays
    last. *)
Lemma insert_by_snoc y l x :
  leb (key y) (key x) = true -> insert_by y (l ++ [x]) = insert_by y l ++ [x].
Proof.
  intros L. induction l as [|z l IH]; simpl; [now rewrite L|].
  destruct (leb (key y) (key z)); [reflexivity | now rewrite IH].
Qed.

Lemma sort_by_key_snoc l x :
  (forall y, In y l -> leb (key y) (key x) = true) ->
  sort_by_key (l ++ [x]) = sort_by_key l ++ [x].
Proof.
  induction l as [|y l IH]; simpl; intros Hl; [reflexivity|].
  rewrite IH by auto. apply insert_by_snoc. auto.
Qed.

(** An element whose key is strictly above all others goes last, wherever
    it stood. *)
Lemma insert_by_last x l :
  (forall y, In y l -> leb (key x) (key y) = false) ->
  insert_by x l = l ++ [x].
Proof.
  induction l as [|y l IH]; simpl; intros Hl; [reflexivity|].
  rewrite (Hl y) by auto. now rewrite IH by auto.
Qed.

Lemma sort_by_key_max l1 x l2 :
  (forall y, In y (l1 ++ l2) -> leb (key x) (key y) = false) ->
  sort_by_key (l1 ++ x :: l2) = sort_by_key (l1 ++ l2) ++ [x].
Proof.
  induction l1 as [|a l1 IH]; simpl; intros Hl.
  - apply insert_by_last. intros y Hy. apply Hl.
    exact (proj1 (sort_by_key_In y l2) Hy).
  - rewrite IH by auto. apply insert_by_snoc.
    destruct (leb_total (key a) (key x)) as [L|L]; [exact L|].
    rewrite (Hl a) in L by auto. discriminate.
Qed.

(** Sorting commutes with filtering. *)
Lemma insert_by_head x l :
  (forall y, In y l -> leb (key x) (key y) = true) -> insert_by x l = x :: l.
Proof. destruct l as [|y l]; simpl; intros Hl; [|rewrite Hl]; auto. Qed.

Lemma insert_by_filter p x l :
  StronglySorted by_key l ->
  filter p (insert_by x l)
  = if p x then insert_by x (filter p l) else filter p l.
Proof.
  induction l as [|y l IH]; simpl; intros S; [now destruct (p x)|].
  apply StronglySorted_inv in S as [S F]. rewrite Forall_forall in F.
  destruct (leb (key x) (key y)) eqn:L; simpl.
  - destruct (p x), (p y); simpl; rewrite ?L; try reflexivity.
    symmetry. apply insert_by_head. intros z [Hz _]%filter_In.
    eapply leb_trans; [exact L | now apply F].
  - rewrite (IH S). destruct (p x), (p y); simpl; rewrite ?L; reflexivity.
Qed.

Lemma sort_by_key_filter p l :
  filter p (sort_by_key l) = sort_by_key (filter p l).
Proof.
  induction l as [|x l IH]; simpl; [reflexivity|].
  rewrite insert_by_filter by apply sort_by_key_sorted.
  destruct (p x); simpl; now rewrite IH.
Qed.

End Sort.

(** The result depends on the key function through the keys of the
    elements only. *)
Lemma insert_by_ext {A K} (leb : K -> K -> bool) (k1 k2 : A -> K) x l :
  k1 x = k2 x -> (forall y, In y l -> k1 y = k2 y) ->
  insert_by leb k1 x l = insert_by leb k2 x l.
Proof.
  intros Hx. induction l as [|y l IH]; simpl; intros Hl; [reflexivity|].
  rewrite Hx, (Hl y) by auto. destruct (leb _ _); [reflexivity|].
  f_equal. apply IH. auto.
Qed.

Lemma sort_by_key_ext {A K} (leb : K -> K -> bool) (k1 k2 : A -> K) l :
  (forall y, In y l -> k1 y = k2 y) ->
  sort_by_key leb k1 l = sort_by_key leb k2 l.
Proof.
  induction l as [|x l IH]; simpl; intros Hl; [reflexivity|].
  rewrite IH by auto. apply insert_by_ext; [auto|].
  intros y Hy. apply Hl. right. now apply sort_by_key_In in Hy.
Qed.

(** Sorting the images under [f] by a key is sorting by the key of the
    image: the keys may be computed first and carried along. *)
Lemma insert_by_map {A B K} (leb : K -> K -> bool) (key : B -> K)
  (f : A -> B) x l :
  insert_by leb key (f x) (map f l) =
  map f (insert_by leb (fun a => key (f a)) x l).
Proof.
  induction l as [|y l IH]; simpl; [reflexivity|].
  destruct (leb _ _); simpl; [reflexivity | now rewrite IH].
Qed.

Lemma sort_by_key_map {A B K} (leb : K -> K -> bool) (key : B -> K)
  (f : A -> B) l :
  sort_by_key leb key (map f l) =
  map f (sort_by_key leb (fun a => key (f a)) l).
Proof.
  induction l as [|x l IH]; simpl; [reflexivity|].
  now rewrite IH, insert_by_map.
Qed.

(** ** The order of [Option<SystemTime>] *)

Definition key_le (a b : option Z) : bool :=
  match a, b with
  | None, _ => true
  | Some _, None => false
  | Some x, Some y => (x <=? y)%Z
  end.

Lemma key_le_total a b : key_le a b = true \/ key_le b a = true.
Proof.
  destruct a as [x|], b as [y|]; simpl; auto.
  rewrite !Z.leb_le. lia.
Qed.

Lemma key_le_trans a b c :
  key_le a b = true -> key_le b c = true -> key_le a c = true.
Proof.
  destruct a as [x|], b as [y|], c as [z|]; simpl; auto; try discriminate.
  rewrite !Z.leb_le. lia.
Qed.

#[export] Hint Resolve key_le_total key_le_trans : lsay.
