(* ===== verification/CacheStore.v ===== *)
(** * CacheStore: the size-bounded cache directory

    [enforce_cache_limit] ([main.rs] 639-673) sums the sizes of the
    directory's entries and, when the total exceeds the budget, removes
    entries in ascending order of modification time until the running total
    is within the budget.  The two cache paths of [render_image] are here
    too: [cache_hit] ([main.rs] 513-516), which reads an entry and rewrites
    it to refresh its modification time, and [cache_store] ([main.rs]
    530-533), which writes a new entry and enforces the limit.

    Theorems: the eviction never fails once the directory is listed,
    changes nothing when the cache fits, and only ever removes entries;
    without faults it leaves a total within the budget, removes exactly a
    prefix of the oldest-first order, the shortest one that suffices, and so
    never removes an entry while keeping an older one. *)

From Stdlib Require Import ZArith List String Ascii Bool Sorted Permutation Lia.
From S2P Require Import Prelude FileSystem StableSort.
Import ListNotations.

#[local] Open Scope Z_scope.

(** ** What the loop reads of an entry *)

(** [entry.metadata().ok().map(|m| m.len())] *)
Definition metadata_len (w : world) (name : string) : option Z :=
  option_map fst (result_ok (fst (fs_metadata name w))).

(** [entry.metadata().and_then(|m| m.modified()).ok()] *)
Definition metadata_modified (w : world) (name : string) : option Z :=
  option_map snd (result_ok (fst (fs_metadata name w))).

(** [Iterator::sum] on [u64]: the additions wrap. *)
Definition u64_sum (l : list Z) : Z := fold_left wrapping_add l 0.

(** ** The eviction loop ([main.rs] 660-670)

    The result is the final value of the local [total_size]. *)
Fixpoint evict (max_bytes : Z) (entries : list string) (total_size : Z)
  : M Z :=
  match entries with
  | [] => ret total_size
  | entry :: rest =>
      if total_size <=? max_bytes then ret total_size
      else
        (w <- get ;;
         let meta := metadata_len w entry in
         removed <- attempt (fs_remove_file entry) ;;
         let total_size :=
           match removed, meta with
           | Ok _, Some len => saturating_sub total_size len
           | _, _ => total_size
           end in
         evict max_bytes rest total_size)%io
  end.

(** ** [fn enforce_cache_limit] *)

Definition enforce_cache_limit (max_bytes : Z) : M unit :=
  (dir <- fs_dir_exists ;;
   if negb dir then ret tt
   else
     entries <- fs_read_dir ;;
     w <- get ;;
     let total_size := u64_sum (filter_map (metadata_len w) entries) in
     if total_size <=? max_bytes then ret tt
     else
       let entries := sort_by_key key_le (metadata_modified w) entries in
       _ <- evict max_bytes entries total_size ;;
       ret tt)%io.

(** ** The cache paths of [render_image] *)

(** A hit: read the entry and rewrite it ("touch file for LRU"). *)
Definition cache_hit (cache_path : string) : M string :=
  (contents <- fs_read_to_string cache_path ;;
   _ <- fs_write cache_path contents ;;
   ret contents)%io.

(** [options.cache_max_mb * 1024 * 1024] on [u64]. *)
Definition max_bytes_of_mb (cache_max_mb : Z) : Z :=
  wrapping_mul (wrapping_mul cache_max_mb 1024) 1024.

(** After a miss: write the payload and enforce the limit. *)
Definition cache_store (cache_path output : string) (cache_max_mb : Z)
  : M unit :=
  (_ <- fs_create_dir_all ;;
   _ <- fs_create cache_path ;;
   _ <- fs_write_all cache_path output ;;
   enforce_cache_limit (max_bytes_of_mb cache_max_mb))%io.

(** ** Specification vocabulary *)

(** The bytes held by a listing. *)
Definition dir_size (es : list entry) : Z :=
  fold_right (fun e acc => e_len e + acc) 0 es.

Definition cache_size (w : world) : Z := dir_size (entries w).

(** The calls the eviction makes all succeed. *)
Definition evict_ok (w : world) : Prop :=
  faulty w OpReadDir = false /\
  forall name, faulty w (OpMetadata name) = false /\
               faulty w (OpRemove name) = false.

(** The names the loop removes when nothing fails: it walks the ordered
    names and stops as soon as the running total is within the budget. *)
Fixpoint evicted (max_bytes : Z) (size : string -> Z) (names : list string)
  (total : Z) : list string :=
  match names with
  | [] => []
  | n :: rest =>
      if total <=? max_bytes then []
      else n :: evicted max_bytes size rest (saturating_sub total (size n))
  end.

Definition size_in (es : list entry) (name : string) : Z :=
  match find_entry name es with Some e => e_len e | None => 0 end.

Definition mtime_in (es : list entry) (name : string) : option Z :=
  option_map e_mtime (find_entry name es).

Definition mem_name (name : string) (l : list string) : bool :=
  existsb (String.eqb name) l.

Definition remove_all (gone : list string) (es : list entry) : list entry :=
  filter (fun e => negb (mem_name (e_name e) gone)) es.

(** What an eviction of the names [gone] does to the world. *)
Definition evicts (gone : list string) (w w' : world) : Prop :=
  cache w' = option_map (remove_all gone) (cache w) /\ same_env w w'.

(** Reading the metadata of the entries does not fail. *)
Definition meta_ok (w : world) : Prop :=
  forall name, faulty w (OpMetadata name) = false /\
               faulty w (OpRemove name) = false.

(** The running total after the removals [g]. *)
Definition run_total (size : string -> Z) (total : Z) (g : list string) : Z :=
  fold_left (fun t n => saturating_sub t (size n)) g total.

(** The order in which entries are considered: oldest first, the listing
    order deciding between equal times. *)
Definition eviction_order (es : list entry) : list string :=
  sort_by_key key_le (mtime_in es) (names es).

(** The names that go. *)
Definition evicted_names (max_bytes : Z) (es : list entry) : list string :=
  evicted max_bytes (size_in es) (eviction_order es) (dir_size es).

(** No call of the file system fails. *)
Definition fault_free (w : world) : Prop := forall op, faulty w op = false.

(** Faults for the examples: reading, or writing, one file fails. *)
Definition read_fails (name : string) : fs_op -> bool :=
  fun op => match op with OpRead n => String.eqb n name | _ => false end.

Definition write_fails (name : string) : fs_op -> bool :=
  fun op => match op with OpWrite n => String.eqb n name | _ => false end.

(** ** Lemmas on listings *)

Lemma remove_all_nil es : remove_all [] es = es.
Proof.
  unfold remove_all, mem_name. simpl.
  induction es as [|e es IH]; simpl; congruence.
Qed.

Lemma remove_all_cons n gone es :
  remove_all (n :: gone) es = remove_all gone (del_entry n es).
Proof.
  unfold remove_all, del_entry, mem_name. simpl.
  induction es as [|e es IH]; simpl; [reflexivity|].
  destruct (String.eqb (e_name e) n); simpl; rewrite IH; reflexivity.
Qed.

Lemma remove_all_In e gone es :
  In e (remove_all gone es) <-> In e es /\ ~ In (e_name e) gone.
Proof.
  unfold remove_all. rewrite filter_In, negb_true_iff.
  unfold mem_name. split; intros [H1 H2]; split; auto.
  - intros HI. assert (existsb (String.eqb (e_name e)) gone = true); [|congruence].
    apply existsb_exists. exists (e_name e). split; [auto | apply String.eqb_refl].
  - destruct (existsb _ gone) eqn:E; [|reflexivity]. exfalso. apply H2.
    apply existsb_exists in E as (x & Hx & E). now apply String.eqb_eq in E as ->.
Qed.

Lemma dir_size_nonneg es : 0 <= dir_size es.
Proof.
  induction es as [|e es IH]; simpl; [lia|]. unfold e_len. lia.
Qed.

Lemma dir_size_del name es :
  NoDup (names es) ->
  dir_size (del_entry name es) = dir_size es - size_in es name.
Proof.
  unfold size_in, del_entry, find_entry.
  induction es as [|e es IH]; simpl; intros ND; [lia|]. inv ND.
  destruct (String.eqb_spec (e_name e) name) as [<-|N]; simpl.
  - rewrite (proj2 (filter_ext_in_iff _ (fun _ => true) es)).
    + rewrite filter_true. lia.
    + intros x Hx. destruct (String.eqb_spec (e_name x) (e_name e)) as [E|]; auto.
      exfalso. apply H1. rewrite <- E. now apply in_map.
  - rewrite IH by assumption. lia.
Qed.

Lemma size_in_le es name : NoDup (names es) -> 0 <= size_in es name <= dir_size es.
Proof.
  intros ND. pose proof (dir_size_del name es ND).
  pose proof (dir_size_nonneg (del_entry name es)).
  unfold size_in in *. destruct (find_entry name es); unfold e_len in *; lia.
Qed.

Lemma size_in_del_ne name other es :
  name <> other -> size_in (del_entry name es) other = size_in es other.
Proof. intros N. unfold size_in. now rewrite find_del_entry_ne. Qed.

Lemma evicted_ext max f g ns total :
  (forall n, In n ns -> f n = g n) ->
  evicted max f ns total = evicted max g ns total.
Proof.
  revert total. induction ns as [|n ns IH]; simpl; intros total Hfg; [reflexivity|].
  destruct (total <=? max); [reflexivity|].
  rewrite (Hfg n) by auto. f_equal. apply IH. auto.
Qed.

(** The loop removes a prefix of the names it is given. *)
Lemma evicted_prefix max size ns total :
  exists rest, ns = evicted max size ns total ++ rest.
Proof.
  revert total. induction ns as [|n ns IH]; simpl; intros total; [now exists []|].
  destruct (total <=? max); [now exists (n :: ns)|].
  destruct (IH (saturating_sub total (size n))) as [rest E].
  exists rest. simpl. now rewrite <- E.
Qed.

(** ** What one call of the loop body does *)

Lemma fs_remove_file_cases name w r w1 :
  fs_remove_file name w = (r, w1) ->
  (w1 = w /\ exists e, r = Err e) \/
  (exists es, cache w = Some es /\ In name (names es) /\ r = Ok tt /\
              w1 = with_cache (Some (del_entry name es)) w).
Proof.
  unfold fs_remove_file, lookup, entries. intros E.
  destruct (faulty w _); [inv E; eauto|].
  destruct (cache w) as [es|] eqn:C; [|inv E; eauto].
  destruct (find_entry name es) eqn:F; inv E; [right | eauto].
  exists es. repeat split; auto. apply find_entry_Some_iff. eauto.
Qed.

Lemma fs_remove_file_ok name w es :
  cache w = Some es -> In name (names es) -> faulty w (OpRemove name) = false ->
  fs_remove_file name w = (Ok tt, with_cache (Some (del_entry name es)) w).
Proof.
  unfold fs_remove_file, lookup, entries. intros -> HI ->.
  apply find_entry_Some_iff in HI as [e ->]. reflexivity.
Qed.

Lemma metadata_len_ok name w es :
  cache w = Some es -> In name (names es) -> faulty w (OpMetadata name) = false ->
  metadata_len w name = Some (size_in es name).
Proof.
  unfold metadata_len, fs_metadata, lookup, entries, size_in. intros -> HI ->.
  apply find_entry_Some_iff in HI as [e ->]. reflexivity.
Qed.

Lemma metadata_modified_ok name w :
  faulty w (OpMetadata name) = false ->
  metadata_modified w name = mtime_in (entries w) name.
Proof.
  unfold metadata_modified, fs_metadata, lookup, mtime_in. intros ->.
  now destruct (find_entry name (entries w)).
Qed.

(** ** The loop, whatever fails

    It always runs to its end, and all it does to the world is remove
    entries of the directory whose names it was given. *)

Lemma evicts_nil w : evicts [] w w.
Proof.
  split; [|apply same_env_refl].
  destruct (cache w); simpl; now rewrite ?remove_all_nil.
Qed.

Lemma evicts_cons name gone w es w' :
  cache w = Some es ->
  evicts gone (with_cache (Some (del_entry name es)) w) w' ->
  evicts (name :: gone) w w'.
Proof.
  intros C [H1 H2]. split.
  - rewrite H1, C. simpl. now rewrite remove_all_cons.
  - eapply same_env_trans; [apply same_env_with_cache | exact H2].
Qed.

Lemma evict_runs max ns total w :
  exists total' w' gone,
    evict max ns total w = (Ok total', w') /\ evicts gone w w' /\ incl gone ns.
Proof.
  revert total w. induction ns as [|n ns IH]; intros total w; simpl.
  - exists total, w, []. auto using evicts_nil, incl_nil_l.
  - destruct (total <=? max).
    { exists total, w, []. auto using evicts_nil, incl_nil_l. }
    unfold bind, get, attempt.
    destruct (fs_remove_file n w) as [r w1] eqn:R.
    apply fs_remove_file_cases in R
      as [[-> [e ->]] | (es & C & HI & -> & ->)].
    + destruct (IH total w) as (t' & w' & gone & E & Hev & Hin).
      exists t', w', gone. auto using incl_tl.
    + match goal with |- context [evict max ns ?t ?w1] =>
        destruct (IH t w1) as (t' & w' & gone & E & Hev & Hin) end.
      exists t', w', (n :: gone).
      split; [exact E|]. split; [eapply evicts_cons; eauto|].
      apply incl_cons; [now left | now apply incl_tl].
Qed.

(** ** The loop when nothing fails *)

Lemma In_names_del m n es :
  In m (names es) -> m <> n -> In m (names (del_entry n es)).
Proof.
  intros HI N. rewrite names_del_entry. apply filter_In. split; [exact HI|].
  apply negb_true_iff. now apply String.eqb_neq.
Qed.

Lemma In_names_del_inv m n es :
  In m (names (del_entry n es)) -> In m (names es) /\ m <> n.
Proof.
  rewrite names_del_entry, filter_In, negb_true_iff, String.eqb_neq. tauto.
Qed.

Lemma NoDup_names_del n es : NoDup (names es) -> NoDup (names (del_entry n es)).
Proof. intros ND. rewrite names_del_entry. now apply NoDup_filter. Qed.

Lemma evict_exact max ns total w es :
  cache w = Some es -> NoDup ns -> incl ns (names es) -> meta_ok w ->
  exists total' w',
    evict max ns total w = (Ok total', w') /\
    evicts (evicted max (size_in es) ns total) w w'.
Proof.
  revert total w es. induction ns as [|n ns IH]; intros total w es C ND Hin Hok;
    simpl.
  - exists total, w. auto using evicts_nil.
  - destruct (total <=? max); [exists total, w; auto using evicts_nil|].
    unfold bind, get, attempt. inv ND.
    assert (Hn : In n (names es)) by (apply Hin; now left).
    rewrite (fs_remove_file_ok n w es), (metadata_len_ok n w es);
      auto; try apply Hok.
    set (w1 := with_cache (Some (del_entry n es)) w).
    destruct (IH (saturating_sub total (size_in es n)) w1 (del_entry n es))
      as (t' & w' & E & Hev); auto.
    + intros m Hm. apply In_names_del; [apply Hin; now right|].
      intros ->. contradiction.
    + exists t', w'. split; [exact E|]. eapply evicts_cons; [exact C|].
      erewrite evicted_ext; [exact Hev|].
      intros m Hm. symmetry. apply size_in_del_ne. intros ->. contradiction.
Qed.

(** ** The arithmetic of the loop *)

Lemma names_nil_inv es : incl (names es) [] -> es = [].
Proof. destruct es as [|e es]; [reflexivity|]. intros H. destruct (H (e_name e)). now left. Qed.

(** When every entry is on the list, the loop ends within the budget. *)
Lemma evicted_budget max es ns :
  NoDup (names es) -> NoDup ns -> incl (names es) ns -> 0 <= max ->
  dir_size (remove_all (evicted max (size_in es) ns (dir_size es)) es) <= max.
Proof.
  revert es. induction ns as [|n ns IH]; intros es NDe ND Hin Hmax; simpl.
  - apply names_nil_inv in Hin as ->. exact Hmax.
  - destruct (Z.leb_spec (dir_size es) max); [now rewrite remove_all_nil|].
    inv ND. rewrite remove_all_cons.
    rewrite saturating_sub_exact by apply size_in_le, NDe.
    rewrite <- dir_size_del by exact NDe.
    rewrite (evicted_ext _ _ (size_in (del_entry n es))).
    + apply IH; auto using NoDup_names_del.
      intros m Hm. apply In_names_del_inv in Hm as [Hm N].
      destruct (Hin m Hm); [congruence | assumption].
    + intros m Hm. symmetry. apply size_in_del_ne. intros ->. contradiction.
Qed.

(** Every removal was needed: before each one the total exceeded the
    budget. *)
Lemma evicted_needed max size ns total g x rest :
  evicted max size ns total = g ++ x :: rest ->
  max < run_total size total g.
Proof.
  revert total g. induction ns as [|n ns IH]; intros total g; simpl.
  - destruct g; discriminate.
  - destruct (Z.leb_spec total max); [destruct g; discriminate|].
    destruct g as [|y g]; simpl; intros E; inv E; [assumption|]. eauto.
Qed.

(** ** The total the program computes *)

Lemma fold_wrapping_add_exact l a :
  Forall (fun x => 0 <= x) l -> 0 <= a ->
  a + fold_right Z.add 0 l <= u64_max ->
  fold_left wrapping_add l a = a + fold_right Z.add 0 l.
Proof.
  revert a. induction l as [|x l IH]; simpl; intros a F Ha Hs; [lia|].
  inv F. assert (0 <= fold_right Z.add 0 l).
  { clear - H2. induction H2; simpl; lia. }
  unfold wrapping_add at 2. rewrite wrap64_small by (unfold in_u64; lia).
  rewrite IH; auto; lia.
Qed.

Lemma u64_sum_exact l :
  Forall (fun x => 0 <= x) l -> fold_right Z.add 0 l <= u64_max ->
  u64_sum l = fold_right Z.add 0 l.
Proof. intros F S. unfold u64_sum. rewrite fold_wrapping_add_exact; auto; lia. Qed.

Lemma find_entry_NoDup e es :
  NoDup (names es) -> In e es -> find_entry (e_name e) es = Some e.
Proof.
  unfold find_entry. induction es as [|x es IH]; simpl; intros ND HI; [tauto|].
  inv ND. destruct HI as [->|HI]; [now rewrite String.eqb_refl|].
  destruct (String.eqb_spec (e_name x) (e_name e)) as [E|]; [|auto].
  exfalso. apply H1. rewrite E. now apply in_map.
Qed.

Lemma map_size_in es :
  NoDup (names es) -> map (size_in es) (names es) = map e_len es.
Proof.
  intros ND. unfold names. rewrite map_map. apply map_ext_in.
  intros e He. unfold size_in. now rewrite find_entry_NoDup.
Qed.

Lemma dir_size_sum es : fold_right Z.add 0 (map e_len es) = dir_size es.
Proof. induction es; simpl; congruence. Qed.

Lemma total_size_exact w es :
  cache w = Some es -> NoDup (names es) -> meta_ok w ->
  dir_size es <= u64_max ->
  u64_sum (filter_map (metadata_len w) (names es)) = dir_size es.
Proof.
  intros C ND Hok Hfit.
  rewrite (filter_map_all_some _ (size_in es)).
  - rewrite map_size_in by exact ND. rewrite u64_sum_exact.
    + apply dir_size_sum.
    + apply Forall_forall. intros x Hx. apply in_map_iff in Hx as (e & <- & _).
      unfold e_len. lia.
    + now rewrite dir_size_sum.
  - intros n Hn. apply metadata_len_ok; auto. apply Hok.
Qed.

(** ** [enforce_cache_limit] when nothing fails *)

Lemma eviction_order_perm es : Permutation (names es) (eviction_order es).
Proof. apply sort_by_key_perm. Qed.

Lemma enforce_exact max w :
  world_wf w -> evict_ok w -> cache_size w <= u64_max ->
  exists w', enforce_cache_limit max w = (Ok tt, w') /\
             evicts (evicted_names max (entries w)) w w'.
Proof.
  intros [ND _] [Hrd Hok] Hfit. unfold enforce_cache_limit, bind, fs_dir_exists.
  unfold cache_size, entries in *. destruct (cache w) as [es|] eqn:C; simpl.
  2:{ exists w. split; [reflexivity|]. apply evicts_nil. }
  unfold fs_read_dir. rewrite Hrd, C. unfold get.
  rewrite (total_size_exact w es) by auto.
  unfold evicted_names, eviction_order.
  destruct (Z.leb_spec (dir_size es) max) as [L|L].
  - exists w. split; [reflexivity|].
    destruct (sort_by_key _ _ _); simpl; [apply evicts_nil|].
    destruct (Z.leb_spec (dir_size es) max); [apply evicts_nil | lia].
  - rewrite (sort_by_key_ext _ _ (mtime_in es)).
    + destruct (evict_exact max (eviction_order es) (dir_size es) w es)
        as (t' & w' & E & Hev); auto.
      * eapply Permutation_NoDup; [apply eviction_order_perm | exact ND].
      * intros n Hn. eapply Permutation_in; [|exact Hn].
        symmetry. apply eviction_order_perm.
      * unfold eviction_order in E. rewrite E. exists w'. now split.
    + intros n _. rewrite metadata_modified_ok by apply Hok.
      unfold entries. now rewrite C.
Qed.

(** ** What an eviction leaves *)

Lemma evicts_entries gone w w' :
  evicts gone w w' -> entries w' = remove_all gone (entries w).
Proof.
  intros [C _]. unfold entries. rewrite C. now destruct (cache w).
Qed.

Lemma dir_wf_remove_all t gone es : dir_wf t es -> dir_wf t (remove_all gone es).
Proof.
  intros [ND F]. split.
  - unfold remove_all, names. induction es as [|e es IH]; simpl; [constructor|].
    inv ND. inv F. destruct (negb _); simpl; auto.
    constructor; auto. intros HI. apply H1.
    apply in_map_iff in HI as (x & Hx & HI). apply filter_In in HI as [HI _].
    rewrite <- Hx. now apply in_map.
  - apply Forall_forall. intros e He. apply remove_all_In in He as [He _].
    rewrite Forall_forall in F. auto.
Qed.

Lemma evicts_wf gone w w' : evicts gone w w' -> world_wf w -> world_wf w'.
Proof.
  intros Hev Hwf. unfold world_wf. rewrite (evicts_entries _ _ _ Hev).
  destruct Hev as [_ (-> & _)]. now apply dir_wf_remove_all.
Qed.

Lemma mtime_in_NoDup e es :
  NoDup (names es) -> In e es -> mtime_in es (e_name e) = Some (e_mtime e).
Proof. intros ND HI. unfold mtime_in. now rewrite find_entry_NoDup. Qed.

Lemma eviction_order_sorted es :
  StronglySorted (by_key key_le (mtime_in es)) (eviction_order es).
Proof. apply sort_by_key_sorted; [exact key_le_total | exact key_le_trans]. Qed.

(** ** [enforce_cache_limit], whatever fails *)

Lemma enforce_runs max w :
  exists r w' gone,
    enforce_cache_limit max w = (r, w') /\ evicts gone w w' /\
    (r = Ok tt \/
     (r = Err (EIo OpReadDir) /\ w' = w /\ faulty w OpReadDir = true)).
Proof.
  unfold enforce_cache_limit, bind, fs_dir_exists, fs_read_dir, get, ret.
  destruct (cache w) as [es|] eqn:C; simpl.
  2:{ exists (Ok tt), w, []. auto using evicts_nil. }
  destruct (faulty w OpReadDir) eqn:F.
  { exists (Err (EIo OpReadDir)), w, []. auto 6 using evicts_nil. }
  rewrite C. simpl.
  match goal with |- context [?t <=? max] => destruct (t <=? max) end.
  { exists (Ok tt), w, []. auto using evicts_nil. }
  match goal with |- context [evict max ?ns ?t w] =>
    destruct (evict_runs max ns t w) as (t' & w' & gone & -> & Hev & _) end.
  exists (Ok tt), w', gone. auto.
Qed.

Lemma enforce_env max w r w' :
  enforce_cache_limit max w = (r, w') -> same_env w w'.
Proof.
  intros E. destruct (enforce_runs max w) as (r1 & w1 & gone & E1 & Hev & _).
  rewrite E in E1. inv E1. apply Hev.
Qed.

Lemma enforce_wf max w r w' :
  world_wf w -> enforce_cache_limit max w = (r, w') -> world_wf w'.
Proof.
  intros Hwf E. destruct (enforce_runs max w) as (r1 & w1 & gone & E1 & Hev & _).
  rewrite E in E1. inv E1. eapply evicts_wf; eauto.
Qed.

(** What is kept fits the budget. *)
Lemma kept_within_budget max es :
  NoDup (names es) -> 0 <= max ->
  dir_size (remove_all (evicted_names max es) es) <= max.
Proof.
  intros ND Hmax. unfold evicted_names. apply evicted_budget; auto.
  - eapply Permutation_NoDup; [apply eviction_order_perm | exact ND].
  - intros n Hn. eapply Permutation_in; [apply eviction_order_perm | exact Hn].
Qed.

(** (C27) Eviction is never fatal on its own: the only error
    [enforce_cache_limit] can return is the failure to list the directory,
    and then it has changed nothing.  A failed [remove_file] is skipped. *)
Theorem enforce_error max w e w' :
  enforce_cache_limit max w = (Err e, w') ->
  e = EIo OpReadDir /\ w' = w /\ faulty w OpReadDir = true.
Proof.
  intros E. destruct (enforce_runs max w) as (r & w1 & gone & E1 & _ & H).
  rewrite E in E1. inv E1. destruct H as [H | (H & -> & F)]; [discriminate|].
  now inv H.
Qed.

(** (C26) Whatever fails, [enforce_cache_limit] only removes entries: what
    is left is the old listing without some names, every surviving entry
    keeps its bytes and its time, nothing else in the world changes, and a
    well-formed world stays well formed. *)
Theorem enforce_only_removes max w r w' :
  enforce_cache_limit max w = (r, w') ->
  (exists gone, entries w' = remove_all gone (entries w)) /\
  same_env w w' /\ (world_wf w -> world_wf w').
Proof.
  intros E. destruct (enforce_runs max w) as (r1 & w1 & gone & E1 & Hev & _).
  rewrite E in E1. inv E1. split; [|split].
  - exists gone. now apply evicts_entries.
  - apply Hev.
  - now apply evicts_wf with gone.
Qed.

(** A cache whose computed total is within the budget is left alone. *)
Theorem enforce_noop_when_fits max w :
  u64_sum (filter_map (metadata_len w) (names (entries w))) <= max ->
  snd (enforce_cache_limit max w) = w.
Proof.
  unfold enforce_cache_limit, bind, fs_dir_exists, fs_read_dir, get, ret, entries.
  destruct (cache w) as [es|] eqn:C; simpl; [|reflexivity].
  destruct (faulty w OpReadDir); [reflexivity|].
  rewrite C. simpl. intros L. apply Z.leb_le in L. now rewrite L.
Qed.

(** ** [enforce_cache_limit] when nothing fails: the headline theorems *)

Section NoFaults.
Variables (max : Z) (w : world).
Hypothesis Hwf : world_wf w.
Hypothesis Hok : evict_ok w.
Hypothesis Hfit : cache_size w <= u64_max.

(** (C2) The budget is met: after the call the cache holds at most
    [max_bytes] bytes. *)
Theorem enforce_within_budget :
  0 <= max ->
  exists w', enforce_cache_limit max w = (Ok tt, w') /\
             cache_size w' <= max /\ same_env w w' /\ world_wf w'.
Proof.
  intros Hmax. destruct (enforce_exact max w) as (w' & E & Hev); auto.
  exists w'. split; [exact E|]. split; [|split].
  - unfold cache_size. rewrite (evicts_entries _ _ _ Hev).
    apply kept_within_budget; [apply Hwf | exact Hmax].
  - apply Hev.
  - eapply evicts_wf; eauto.
Qed.

(** (C8) What goes is a prefix of the oldest-first order, and what stays is
    the rest of it: the survivors are the old listing without the removed
    names. *)
Theorem enforce_evicts_prefix :
  exists w' gone kept,
    enforce_cache_limit max w = (Ok tt, w') /\
    eviction_order (entries w) = gone ++ kept /\
    entries w' = remove_all gone (entries w) /\
    Permutation (names (entries w')) kept.
Proof.
  destruct (enforce_exact max w) as (w' & E & Hev); auto.
  destruct (evicted_prefix max (size_in (entries w))
              (eviction_order (entries w)) (dir_size (entries w))) as [kept Hk].
  fold (evicted_names max (entries w)) in Hk.
  exists w', (evicted_names max (entries w)), kept.
  repeat split; auto using evicts_entries.
  rewrite (evicts_entries _ _ _ Hev).
  apply NoDup_Permutation.
  - apply dir_wf_remove_all with (t := now w). exact Hwf.
  - pose proof (eviction_order_perm (entries w)) as P. rewrite Hk in P.
    pose proof (Permutation_NoDup P (proj1 Hwf)) as ND.
    now apply NoDup_app_remove_l in ND.
  - intros n. pose proof (eviction_order_perm (entries w)) as P.
    rewrite Hk in P.
    assert (ND : NoDup (evicted_names max (entries w) ++ kept))
      by (eapply Permutation_NoDup; [exact P | apply Hwf]).
    unfold names. rewrite in_map_iff. split.
    + intros (e & <- & He). apply remove_all_In in He as [He Hn].
      apply (in_map e_name) in He. apply (Permutation_in _ P) in He.
      apply in_app_or in He as [He|He]; [contradiction | exact He].
    + intros Hn. assert (Hin : In n (names (entries w))).
      { eapply Permutation_in; [symmetry; exact P|]. apply in_or_app. now right. }
      apply in_map_iff in Hin as (e & <- & He). exists e. split; [reflexivity|].
      apply remove_all_In. split; [exact He|]. intros Hg.
      exact (NoDup_app_disjoint _ _ _ ND Hg Hn).
Qed.

End NoFaults.

Section LeastRecentlyUsed.
Variables (max : Z) (w : world).
Hypothesis Hwf : world_wf w.
Hypothesis Hok : evict_ok w.
Hypothesis Hfit : cache_size w <= u64_max.

(** (C4) Least recently used first: no entry is removed while an entry
    with a strictly older modification time is kept. *)
Theorem enforce_lru :
  exists w', enforce_cache_limit max w = (Ok tt, w') /\
    forall e e', In e (entries w) -> ~ In e (entries w') ->
                 In e' (entries w') -> e_mtime e <= e_mtime e'.
Proof.
  destruct (enforce_exact max w) as (w' & E & Hev); auto.
  exists w'. split; [exact E|]. intros e e' He Hgone Hkept.
  rewrite (evicts_entries _ _ _ Hev) in Hgone, Hkept.
  destruct Hwf as [ND _]. set (es := entries w) in *.
  destruct (evicted_prefix max (size_in es) (eviction_order es) (dir_size es))
    as [kept Hk]. fold (evicted_names max es) in Hk.
  apply remove_all_In in Hkept as [He' Hn'].
  assert (Hg : In (e_name e) (evicted_names max es)).
  { destruct (in_dec string_dec (e_name e) (evicted_names max es)); auto.
    exfalso. apply Hgone, remove_all_In. auto. }
  assert (Hk' : In (e_name e') kept).
  { apply (in_map e_name) in He'.
    apply (Permutation_in _ (eviction_order_perm es)) in He'.
    rewrite Hk in He'. apply in_app_or in He' as [?|?]; [contradiction | auto]. }
  pose proof (eviction_order_sorted es) as S. rewrite Hk in S.
  pose proof (sorted_app_le _ _ _ _ _ _ S Hg Hk') as L. unfold by_key in L.
  rewrite !mtime_in_NoDup in L by assumption. now apply Z.leb_le.
Qed.

End LeastRecentlyUsed.

(** ** The cache hit *)

(** A hit returns the stored payload unchanged and refreshes the
    entry: the entry keeps its name, its bytes and its place in the listing
    and gets the current time, nothing else changes. *)
Theorem cache_hit_ok path w e :
  lookup path w = Some e ->
  faulty w (OpRead path) = false ->
  faulty w (OpCreate path) = false ->
  faulty w (OpWrite path) = false ->
  exists w', cache_hit path w = (Ok (e_data e), w') /\
    entries w' = put_entry (mk_entry path (e_data e) (now w)) (entries w) /\
    lookup path w' = Some (mk_entry path (e_data e) (now w)) /\
    same_env w w'.
Proof.
  intros L F1 F2 F3. destruct (lookup_cache _ _ _ L) as [es C].
  unfold cache_hit.
  erewrite bind_ok by (apply fs_read_to_string_ok; eauto).
  erewrite bind_ok by (apply fs_write_ok; eauto).
  eexists. split; [reflexivity|]. unfold lookup, entries. rewrite C. simpl.
  repeat split. apply (find_put_entry_eq (mk_entry path (e_data e) (now w))).
Qed.

(** After a hit the entry is the most recently used one: in a
    well-formed world no entry of the cache is newer than it. *)
Theorem cache_hit_most_recent path w r w' e' :
  world_wf w ->
  cache_hit path w = (Ok r, w') ->
  In e' (entries w') ->
  exists e, lookup path w' = Some e /\ e_data e = r /\ e_mtime e' <= e_mtime e.
Proof.
  intros Hwf E He'. pose proof E as E0. unfold cache_hit in E.
  apply bind_inv_ok in E as (c & w1 & R & E).
  apply fs_read_to_string_inv in R as (-> & F1 & e & L & ->).
  apply bind_inv_ok in E as ([] & w2 & W & E). inv E.
  apply fs_write_inv in W as (es & C & F2 & F3).
  destruct (cache_hit_ok path w e) as (w3 & E3 & Hes & L3 & _); auto.
  rewrite E3 in E0. inv E0. eexists. split; [exact L3|]. split; [reflexivity|].
  rewrite Hes in He'. apply In_put_entry in He' as [->|He']; simpl; [lia|].
  destruct Hwf as [_ F]. rewrite Forall_forall in F. auto.
Qed.


(** (C30) The touch is not atomic: when the rewrite fails after the file was
    truncated, the hit fails and leaves an empty entry behind, which a later
    hit serves as the payload. *)
Theorem cache_hit_truncates path w e :
  lookup path w = Some e ->
  faulty w (OpRead path) = false ->
  faulty w (OpCreate path) = false ->
  faulty w (OpWrite path) = true ->
  exists w', cache_hit path w = (Err (EIo (OpWrite path)), w') /\
    lookup path w' = Some (mk_entry path "" (now w)) /\
    forall f, f (OpRead path) = false -> f (OpCreate path) = false ->
              f (OpWrite path) = false ->
              fst (cache_hit path (with_faulty f w')) = Ok EmptyString.
Proof.
  intros L F1 F2 F3. destruct (lookup_cache _ _ _ L) as [es C].
  unfold cache_hit at 1.
  erewrite bind_ok by (apply fs_read_to_string_ok; eauto).
  unfold fs_write.
  erewrite bind_err.
  2:{ erewrite bind_ok by (apply fs_create_ok; eauto).
      unfold fs_write_all. simpl. rewrite F3. reflexivity. }
  eexists. split; [reflexivity|].
  assert (L' : forall f, lookup path (with_faulty f
     (with_cache (Some (put_entry (mk_entry path "" (now w)) es)) w))
     = Some (mk_entry path "" (now w))).
  { intros f. unfold lookup, entries. simpl.
    apply (find_put_entry_eq (mk_entry path "" (now w))). }
  split; [apply (L' (faulty w))|].
  intros f G1 G2 G3.
  edestruct (cache_hit_ok path) as (w2 & -> & _); eauto; reflexivity.
Qed.

(** ** The budget in bytes *)

(** [cache_max_mb * 1024 * 1024] is the number of bytes in that many
    mebibytes as long as the product fits 64 bits, that is below 2^44 MB. *)
Theorem max_bytes_of_mb_exact mb :
  0 <= mb < 2 ^ 44 -> max_bytes_of_mb mb = mb * 1048576.
Proof.
  intros H. unfold max_bytes_of_mb, wrapping_mul.
  rewrite (wrap64_small (mb * 1024)) by (unfold in_u64, u64_max; lia).
  rewrite wrap64_small by (unfold in_u64, u64_max; lia). lia.
Qed.

(** From 2^44 MB on the product wraps: a budget of 2^44 MB is a budget of
    no byte at all. *)
Example max_bytes_of_mb_wraps :
  max_bytes_of_mb (2 ^ 44) = 0 /\ max_bytes_of_mb (2 ^ 44 + 1) = 1048576.
Proof. now vm_compute. Qed.

Lemma max_bytes_of_mb_range mb : in_u64 (max_bytes_of_mb mb).
Proof. apply wrap64_range. Qed.

(** ** Storing after a miss *)

Lemma fault_free_evict_ok w : fault_free w -> evict_ok w.
Proof. intros H. repeat split; apply H. Qed.

Lemma fs_create_dir_all_ok w :
  faulty w OpCreateDir = false ->
  exists w', fs_create_dir_all w = (Ok tt, w') /\
             cache w' = Some (entries w) /\ same_env w w'.
Proof.
  unfold fs_create_dir_all, entries. intros ->.
  destruct (cache w) eqn:C; eexists; split; try reflexivity; simpl;
    auto using same_env_refl, same_env_with_cache.
Qed.

(** The world after the payload was written, before the limit is enforced. *)
Lemma cache_write_ok path out w :
  faulty w OpCreateDir = false ->
  faulty w (OpCreate path) = false -> faulty w (OpWrite path) = false ->
  exists w1,
    (_ <- fs_create_dir_all ;; _ <- fs_create path ;; fs_write_all path out)%io w
      = (Ok tt, w1) /\
    cache w1 = Some (put_entry (mk_entry path out (now w)) (entries w)) /\
    same_env w w1.
Proof.
  intros F1 F2 F3. destruct (fs_create_dir_all_ok w F1) as (w0 & E0 & C0 & S0).
  pose proof S0 as (Hn & Hf & _).
  erewrite bind_ok by exact E0.
  change (_ <- fs_create path;; fs_write_all path out)%io
    with (fs_write path out).
  erewrite fs_write_ok; eauto; try (rewrite Hf; assumption).
  eexists. split; [reflexivity|]. simpl. rewrite Hn. split; [reflexivity|].
  eapply same_env_trans; [exact S0 | apply same_env_with_cache].
Qed.

(** The store path when nothing fails, as an equation on the listing. *)
Lemma cache_store_run path out mb w :
  world_wf w -> fault_free w ->
  dir_size (put_entry (mk_entry path out (now w)) (entries w)) <= u64_max ->
  exists w', cache_store path out mb w = (Ok tt, w') /\
    entries w' =
      remove_all
        (evicted_names (max_bytes_of_mb mb)
           (put_entry (mk_entry path out (now w)) (entries w)))
        (put_entry (mk_entry path out (now w)) (entries w)) /\
    same_env w w'.
Proof.
  intros Hwf Hff Hfit.
  destruct (cache_write_ok path out w) as (w1 & E1 & C1 & S1); auto.
  assert (Hes : entries w1 = put_entry (mk_entry path out (now w)) (entries w))
    by (unfold entries at 1; now rewrite C1).
  destruct (enforce_exact (max_bytes_of_mb mb) w1) as (w' & E & Hev).
  { unfold world_wf. rewrite Hes. destruct S1 as (-> & _).
    apply dir_wf_put; [exact Hwf | simpl; lia]. }
  { apply fault_free_evict_ok. intros op. destruct S1 as (_ & -> & _); auto. }
  { unfold cache_size. now rewrite Hes. }
  exists w'. unfold cache_store. rewrite bind_assoc_3.
  erewrite bind_ok by exact E1. split; [exact E|].
  rewrite (evicts_entries _ _ _ Hev), Hes. split; [reflexivity|].
  eapply same_env_trans; [exact S1 | apply Hev].
Qed.

Lemma stored_wf path out gone w w' :
  world_wf w -> now w' = now w ->
  entries w' =
    remove_all gone (put_entry (mk_entry path out (now w)) (entries w)) ->
  world_wf w'.
Proof.
  intros Hwf N E. unfold world_wf. rewrite E, N.
  apply dir_wf_remove_all, dir_wf_put; [exact Hwf | simpl; lia].
Qed.

(** Without faults, storing a payload succeeds, leaves the cache
    within the budget and the world well formed; what is left is the old
    listing with the new entry put in, without the evicted names. *)
Theorem cache_store_ok path out mb w :
  world_wf w -> fault_free w ->
  dir_size (put_entry (mk_entry path out (now w)) (entries w)) <= u64_max ->
  exists w' gone,
    cache_store path out mb w = (Ok tt, w') /\
    entries w' =
      remove_all gone (put_entry (mk_entry path out (now w)) (entries w)) /\
    cache_size w' <= max_bytes_of_mb mb /\
    world_wf w' /\ same_env w w'.
Proof.
  intros Hwf Hff Hfit.
  destruct (cache_store_run path out mb w) as (w' & E & G & S); auto.
  exists w'. eexists. split; [exact E|]. split; [exact G|].
  split; [|split; [|exact S]].
  - unfold cache_size. rewrite G. apply kept_within_budget.
    + apply dir_wf_put with (t := now w); [exact Hwf | simpl; lia].
    + apply max_bytes_of_mb_range.
  - eapply stored_wf; eauto. apply S.
Qed.

(** The errors of the store path: creating the directory, creating
    the file, writing it and listing the directory are the only calls whose
    failure is surfaced, and each is. *)
Theorem cache_store_errors path out mb w e w' :
  cache_store path out mb w = (Err e, w') ->
  In e [EIo OpCreateDir; EIo (OpCreate path); EIo (OpWrite path); EIo OpReadDir].
Proof.
  unfold cache_store, bind. intros E.
  destruct (fs_create_dir_all w) as [[[]|e0] w0] eqn:E0.
  2:{ inv E. unfold fs_create_dir_all in E0.
      destruct (faulty w _); [inv E0; simpl; auto|].
      destruct (cache w); discriminate. }
  destruct (fs_create path w0) as [[[]|e1] w1] eqn:E1.
  2:{ inv E. unfold fs_create in E1.
      destruct (faulty w0 _); [inv E1; simpl; auto|].
      destruct (cache w0); inv E1. simpl; auto. }
  destruct (fs_write_all path out w1) as [[[]|e2] w2] eqn:E2.
  2:{ inv E. unfold fs_write_all in E2.
      destruct (faulty w1 _); [inv E2; simpl; auto|].
      destruct (cache w1), (lookup path w1); inv E2; simpl; auto. }
  destruct (enforce_runs (max_bytes_of_mb mb) w2)
    as (r & w3 & gone & E3 & _ & [->|(-> & _)]);
    rewrite E in E3; inv E3. simpl; auto.
Qed.

(** ** Both cache paths preserve well-formedness *)

Lemma cache_hit_wf path w r w' :
  world_wf w -> cache_hit path w = (r, w') -> world_wf w'.
Proof.
  intros Hwf E. unfold cache_hit in E.
  bind_split E as c w1 R; apply fs_read_to_string_world in R as ->;
    [|assumption].
  bind_split E as u w2 W; [inv E|]; eapply fs_write_wf; eauto.
Qed.

Lemma cache_store_wf path out mb w r w' :
  world_wf w -> cache_store path out mb w = (r, w') -> world_wf w'.
Proof.
  intros Hwf E. unfold cache_store in E.
  bind_split E as u1 w1 R1; apply fs_create_dir_all_wf in R1; auto.
  bind_split E as u2 w2 R2; apply fs_create_wf in R2; auto.
  bind_split E as u3 w3 R3; apply fs_write_all_wf in R3; auto.
  eapply enforce_wf; eauto.
Qed.

(** ** Both cache paths change the cache directory only *)

Lemma cache_hit_env path w r w' : cache_hit path w = (r, w') -> same_env w w'.
Proof.
  intros E. unfold cache_hit in E.
  bind_split E as c w1 R; apply fs_read_to_string_world in R as ->;
    [|subst; apply same_env_refl].
  bind_split E as u w2 W; [inv E|]; eauto with lsay.
Qed.

Lemma cache_store_env path out mb w r w' :
  cache_store path out mb w = (r, w') -> same_env w w'.
Proof.
  intros E. unfold cache_store in E.
  bind_split E as u1 w1 R1; apply fs_create_dir_all_env in R1; auto.
  bind_split E as u2 w2 R2; apply fs_create_env in R2;
    [|eauto using same_env_trans].
  bind_split E as u3 w3 R3; apply fs_write_all_env in R3;
    [|eauto using same_env_trans].
  apply enforce_env in E. eauto using same_env_trans.
Qed.

(** ** The entry just stored survives the eviction

    The new entry is the last of the listing and no entry is newer, so the
    stable sort leaves it last; the loop reaches it only when everything
    else is gone, and then removes it only if it alone exceeds the budget. *)

Lemma mem_name_true n l : mem_name n l = true <-> In n l.
Proof.
  unfold mem_name. rewrite existsb_exists. split.
  - intros (m & Hm & E). now apply String.eqb_eq in E; subst.
  - intros HI. exists n. split; [exact HI | apply String.eqb_refl].
Qed.

Lemma mem_name_false n l : mem_name n l = false <-> ~ In n l.
Proof. rewrite <- mem_name_true. now destruct (mem_name n l). Qed.

Lemma put_entry_fresh x es :
  ~ In (e_name x) (names es) -> put_entry x es = (es ++ [x])%list.
Proof.
  induction es as [|e es IH]; simpl; intros N; [reflexivity|].
  destruct (String.eqb_spec (e_name e) (e_name x)) as [E|_]; [tauto|].
  rewrite IH; tauto.
Qed.

Lemma run_total_ext f g total l :
  (forall n, In n l -> f n = g n) -> run_total f total l = run_total g total l.
Proof.
  revert total. induction l as [|n l IH]; simpl; intros total Hfg; [reflexivity|].
  rewrite (Hfg n) by auto. apply IH. auto.
Qed.

(** The running total is the size of what is left. *)
Lemma run_total_exact es g :
  NoDup (names es) -> NoDup g ->
  run_total (size_in es) (dir_size es) g = dir_size (remove_all g es).
Proof.
  revert es. induction g as [|n g IH]; intros es NDe ND; simpl.
  - now rewrite remove_all_nil.
  - inv ND. rewrite remove_all_cons.
    rewrite saturating_sub_exact by apply size_in_le, NDe.
    rewrite <- dir_size_del by exact NDe.
    rewrite (run_total_ext _ (size_in (del_entry n es))).
    + apply IH; auto using NoDup_names_del.
    + intros m Hm. symmetry. apply size_in_del_ne. intros ->. contradiction.
Qed.

Lemma app_last_unique {A} (x : A) o g r :
  ~ In x o -> (o ++ [x] = g ++ x :: r)%list -> g = o /\ r = [].
Proof.
  revert g. induction o as [|a o IH]; intros [|b g] N E; simpl in *.
  - now inv E.
  - inv E. now destruct g.
  - inv E. tauto.
  - inv E. destruct (IH g) as [-> ->]; tauto.
Qed.

Lemma remove_all_others x es o :
  ~ In (e_name x) o -> incl (names es) o ->
  remove_all o (es ++ [x]) = [x].
Proof.
  intros N I. unfold remove_all. rewrite filter_app. simpl.
  rewrite (proj2 (mem_name_false _ _) N). simpl.
  rewrite (proj2 (filter_ext_in_iff _ (fun _ => false) es)).
  - clear. induction es; simpl; auto.
  - intros e He. apply negb_false_iff, mem_name_true, I, in_map, He.
Qed.

Lemma NoDup_names_snoc x es :
  NoDup (names es) -> ~ In (e_name x) (names es) -> NoDup (names (es ++ [x])).
Proof.
  intros ND N. unfold names. rewrite map_app. simpl. apply NoDup_app; auto.
  - repeat constructor. simpl. tauto.
  - intros n Hn [<-|[]]. contradiction.
Qed.

Lemma eviction_order_snoc x es :
  NoDup (names es) -> ~ In (e_name x) (names es) ->
  Forall (fun e => e_mtime e <= e_mtime x) es ->
  exists o, eviction_order (es ++ [x]) = (o ++ [e_name x])%list /\
            Permutation (names es) o.
Proof.
  intros ND N F. unfold eviction_order, names. rewrite map_app. simpl.
  pose proof (NoDup_names_snoc x es ND N) as ND'.
  exists (sort_by_key key_le (mtime_in (es ++ [x])) (map e_name es)).
  split; [|apply sort_by_key_perm].
  apply sort_by_key_snoc. intros n Hn.
  apply in_map_iff in Hn as (e & <- & He).
  rewrite !mtime_in_NoDup; auto using in_or_app, in_eq.
  rewrite Forall_forall in F. now apply Z.leb_le, F.
Qed.

Lemma new_entry_survives max x es :
  NoDup (names es) -> ~ In (e_name x) (names es) ->
  Forall (fun e => e_mtime e <= e_mtime x) es ->
  e_len x <= max ->
  ~ In (e_name x) (evicted_names max (es ++ [x])).
Proof.
  intros ND N F L HI.
  destruct (eviction_order_snoc x es ND N F) as (o & Ho & P).
  assert (No : ~ In (e_name x) o)
    by (intros Hx; apply N; eapply Permutation_in; [symmetry|]; eauto).
  pose proof (NoDup_names_snoc x es ND N) as ND'.
  unfold evicted_names in HI. rewrite Ho in HI.
  apply in_split in HI as (g & rest & E).
  destruct (evicted_prefix max (size_in (es ++ [x])) (o ++ [e_name x])
              (dir_size (es ++ [x]))) as [kept K].
  rewrite E, <- app_assoc in K. simpl in K.
  apply app_last_unique in K as [-> _]; [|exact No].
  apply evicted_needed in E.
  rewrite run_total_exact in E;
    [|exact ND' | eapply Permutation_NoDup; eauto].
  rewrite remove_all_others in E; [simpl in E; lia | exact No |].
  intros n Hn. eapply Permutation_in; eauto.
Qed.

Lemma find_entry_remove_all name gone es :
  ~ In name gone ->
  find_entry name (remove_all gone es) = find_entry name es.
Proof.
  intros N. unfold find_entry, remove_all.
  induction es as [|e es IH]; simpl; [reflexivity|].
  destruct (String.eqb_spec (e_name e) name) as [<-|Hn].
  - rewrite (proj2 (mem_name_false _ _) N). simpl. now rewrite String.eqb_refl.
  - destruct (negb _); simpl; [|exact IH].
    destruct (String.eqb_spec (e_name e) name); [contradiction | exact IH].
Qed.

Lemma new_entry_kept max path out t es :
  dir_wf t es -> find_entry path es = None ->
  Z.of_nat (String.length out) <= max ->
  find_entry path
    (remove_all (evicted_names max (put_entry (mk_entry path out t) es))
       (put_entry (mk_entry path out t) es))
  = Some (mk_entry path out t).
Proof.
  intros [ND F] L Hlen. set (x := mk_entry path out t).
  assert (N : ~ In (e_name x) (names es)).
  { intros HI. apply find_entry_Some_iff in HI as [e He]. simpl in He.
    congruence. }
  rewrite find_entry_remove_all; [apply (find_put_entry_eq x)|].
  rewrite put_entry_fresh by exact N.
  apply (new_entry_survives _ x); auto.
Qed.


(** ** The theorems at concrete worlds *)

Ltac solve_ok :=
  first [ solve_wf
        | split; [reflexivity | intros; split; reflexivity]
        | intros ?; reflexivity
        | reflexivity
        | vm_compute; discriminate
        | lia ].

Lemma enforce_within_budget_witness :
  exists w', enforce_cache_limit 8 stocked_world = (Ok tt, w') /\
             cache_size w' <= 8 /\ same_env stocked_world w' /\ world_wf w'.
Proof. apply (enforce_within_budget 8 stocked_world); solve_ok. Defined.

Lemma enforce_evicts_prefix_witness :
  exists w' gone kept,
    enforce_cache_limit 8 stocked_world = (Ok tt, w') /\
    eviction_order (entries stocked_world) = (gone ++ kept)%list /\
    entries w' = remove_all gone (entries stocked_world) /\
    Permutation (names (entries w')) kept.
Proof. apply (enforce_evicts_prefix 8 stocked_world); solve_ok. Defined.

Lemma enforce_lru_witness :
  exists w', enforce_cache_limit 8 stocked_world = (Ok tt, w') /\
    forall e e', In e (entries stocked_world) -> ~ In e (entries w') ->
                 In e' (entries w') -> e_mtime e <= e_mtime e'.
Proof. apply (enforce_lru 8 stocked_world); solve_ok. Defined.

Lemma enforce_error_witness :
  EIo OpReadDir = EIo OpReadDir /\
  with_faulty read_dir_fails stocked_world
    = with_faulty read_dir_fails stocked_world /\
  faulty (with_faulty read_dir_fails stocked_world) OpReadDir = true.
Proof.
  apply (enforce_error 8 (with_faulty read_dir_fails stocked_world)).
  reflexivity.
Defined.

Lemma enforce_only_removes_witness :
  (exists gone,
     entries (snd (enforce_cache_limit 8 stocked_world))
     = remove_all gone (entries stocked_world)) /\
  same_env stocked_world (snd (enforce_cache_limit 8 stocked_world)) /\
  (world_wf stocked_world ->
   world_wf (snd (enforce_cache_limit 8 stocked_world))).
Proof.
  apply (enforce_only_removes 8 stocked_world
           (fst (enforce_cache_limit 8 stocked_world))).
  reflexivity.
Defined.

Lemma enforce_noop_when_fits_witness :
  snd (enforce_cache_limit 12 stocked_world) = stocked_world.
Proof. apply (enforce_noop_when_fits 12 stocked_world). solve_ok. Defined.

Lemma cache_hit_most_recent_witness :
  exists e, lookup "b.txt" (snd (cache_hit "b.txt" stocked_world)) = Some e /\
            e_data e = "bb"%string /\ 20 <= e_mtime e.
Proof.
  apply (cache_hit_most_recent "b.txt" stocked_world "bb"
           (snd (cache_hit "b.txt" stocked_world))
           (mk_entry "c.txt" "cccccc" 20));
    [solve_wf | reflexivity | simpl; auto].
Defined.


Lemma cache_hit_truncates_witness :
  exists w',
    cache_hit "b.txt" (with_faulty (write_fails "b.txt") stocked_world)
    = (Err (EIo (OpWrite "b.txt")), w') /\
    lookup "b.txt" w' = Some (mk_entry "b.txt" "" 100) /\
    forall f, f (OpRead "b.txt") = false -> f (OpCreate "b.txt") = false ->
              f (OpWrite "b.txt") = false ->
              fst (cache_hit "b.txt" (with_faulty f w')) = Ok EmptyString.
Proof.
  apply (cache_hit_truncates "b.txt"
           (with_faulty (write_fails "b.txt") stocked_world)
           (mk_entry "b.txt" "bb" 5)); reflexivity.
Defined.

Lemma max_bytes_of_mb_exact_witness : max_bytes_of_mb 64 = 64 * 1048576.
Proof. apply max_bytes_of_mb_exact. lia. Defined.

Lemma cache_store_ok_witness :
  exists w' gone,
    cache_store "d.txt" "dddd" 64 stocked_world = (Ok tt, w') /\
    entries w' =
      remove_all gone
        (put_entry (mk_entry "d.txt" "dddd" 100) (entries stocked_world)) /\
    cache_size w' <= max_bytes_of_mb 64 /\
    world_wf w' /\ same_env stocked_world w'.
Proof. apply (cache_store_ok "d.txt" "dddd" 64 stocked_world); solve_ok. Defined.

Lemma cache_store_errors_witness :
  In (EIo OpReadDir)
    [EIo OpCreateDir; EIo (OpCreate "d.txt"); EIo (OpWrite "d.txt");
     EIo OpReadDir].
Proof.
  apply (cache_store_errors "d.txt" "dddd" 64
           (with_faulty read_dir_fails stocked_world) (EIo OpReadDir)
           (snd (cache_store "d.txt" "dddd" 64
                   (with_faulty read_dir_fails stocked_world)))).
  reflexivity.
Defined.

