(* ===== verification/Renderer.v ===== *)
(** * Renderer: invoking chafa, with one fallback retry

    [run_chafa_once] ([main.rs] 583-605) builds the command line and runs
    it; [run_chafa] ([main.rs] 539-581) returns the standard output of a
    successful run and otherwise retries once with concrete selectors in
    place of [Auto], if there is an [Auto] to replace.

    The renderer is the [renderer] field of the world: a function from the
    command line to the outcome of the process.  Every invocation is
    appended to the ghost log [calls], so that the theorems can count the
    invocations and name their arguments.  The outputs are modelled as
    already decoded: [String::from_utf8_lossy] is the identity on them. *)

From Stdlib Require Import ZArith List String Ascii Bool Lia.
From S2P Require Import Prelude Encoding Chafa FileSystem.
Import ListNotations.

#[local] Open Scope string_scope.
#[local] Open Scope Z_scope.

(** ** The command line *)

(** [format!("{cols}x{rows}")] *)
Definition size_arg (cols rows : Z) : string :=
  fmt_usize cols ++ "x" ++ fmt_usize rows.

Definition chafa_args (image : string) (cols rows : Z)
  (format : ChafaFormat.t) (colors : ChafaColors.t) (animate : bool)
  : list string :=
  ([image; "--format"; ChafaFormat.as_arg format;
   "--colors"; ChafaColors.as_arg colors;
   "--size"; size_arg cols rows]
  ++ (if animate then ["--animate"] else []))%list.

(** ** [fn run_chafa_once] *)

Definition run_chafa_once (chafa image : string) (cols rows : Z)
  (format : ChafaFormat.t) (colors : ChafaColors.t) (animate : bool)
  : M output :=
  fun w =>
    let cmd := chafa :: chafa_args image cols rows format colors animate in
    let w' := with_calls (calls w ++ [cmd])%list w in
    match renderer w cmd with
    | Some out => (Ok out, w')
    | None => (Err ESpawn, w')
    end.

(** ** [fn run_chafa] *)

Definition fallback_format (format : ChafaFormat.t) : ChafaFormat.t :=
  match format with ChafaFormat.Auto => ChafaFormat.Unicode | _ => format end.

Definition fallback_colors (colors : ChafaColors.t) : ChafaColors.t :=
  match colors with ChafaColors.Auto => ChafaColors.Truecolor | _ => colors end.

Definition run_chafa (chafa image : string) (cols rows : Z)
  (format : ChafaFormat.t) (colors : ChafaColors.t) (animate : bool)
  : M string :=
  (output <- run_chafa_once chafa image cols rows format colors animate ;;
   if status_success output then ret (stdout output)
   else
     let last_err := stderr output in
     let fallback_format := fallback_format format in
     let fallback_colors := fallback_colors colors in
     if negb (ChafaFormat.eqb fallback_format format)
        || negb (ChafaColors.eqb fallback_colors colors)
     then
       retry <- run_chafa_once chafa image cols rows
                  fallback_format fallback_colors animate ;;
       if status_success retry then ret (stdout retry)
       else
         let last_err := stderr retry in
         fail (EChafaFailed last_err)
     else fail (EChafaFailed last_err))%io.

(** ** Specification vocabulary *)

(** The command lines run between two worlds. *)
Definition new_calls (w w' : world) (l : list (list string)) : Prop :=
  calls w' = (calls w ++ l)%list.

(** Only the log of invocations differs. *)
Definition same_but_calls (w w' : world) : Prop :=
  cache w' = cache w /\ now w' = now w /\ faulty w' = faulty w /\
  images w' = images w /\ renderer w' = renderer w.

Definition has_auto (format : ChafaFormat.t) (colors : ChafaColors.t) : bool :=
  ChafaFormat.eqb format ChafaFormat.Auto
  || ChafaColors.eqb colors ChafaColors.Auto.

Definition log (l : list (list string)) (w : world) : world :=
  with_calls (calls w ++ l)%list w.

(** The first command line and the command line of the retry. *)
Definition first_cmd chafa image cols rows format colors animate : list string :=
  chafa :: chafa_args image cols rows format colors animate.

Definition retry_cmd chafa image cols rows format colors animate : list string :=
  chafa :: chafa_args image cols rows (fallback_format format)
             (fallback_colors colors) animate.

(** The decision table of [run_chafa]. *)
Definition run_chafa_outcome chafa image cols rows format colors animate
  (w : world) : result error string * world :=
  let c1 := first_cmd chafa image cols rows format colors animate in
  let c2 := retry_cmd chafa image cols rows format colors animate in
  match renderer w c1 with
  | None => (Err ESpawn, log [c1] w)
  | Some o1 =>
      if status_success o1 then (Ok (stdout o1), log [c1] w)
      else if has_auto format colors then
        match renderer w c2 with
        | None => (Err ESpawn, log [c1; c2] w)
        | Some o2 =>
            if status_success o2 then (Ok (stdout o2), log [c1; c2] w)
            else (Err (EChafaFailed (stderr o2)), log [c1; c2] w)
        end
      else (Err (EChafaFailed (stderr o1)), log [c1] w)
  end.

(** ** Worlds for the examples *)

(** A renderer that does not know the selector [auto], and one that always
    fails. *)
Definition picky_world : world :=
  {| cache := Some []; now := 100; faulty := no_faults;
     images := images example_world;
     renderer := fun cmd =>
       if existsb (String.eqb "auto") cmd
       then Some {| status_success := false; stdout := "";
                    stderr := "unknown selector" |}
       else Some {| status_success := true; stdout := "<cat>"; stderr := "" |};
     calls := [] |}.

Definition failing_world : world :=
  {| cache := Some []; now := 100; faulty := no_faults;
     images := images example_world;
     renderer := fun _ => Some {| status_success := false; stdout := "";
                                  stderr := "no such file" |};
     calls := [] |}.

(** ** The size argument determines the size *)

Lemma is_digit_x : is_digit "x" = false.
Proof. reflexivity. Qed.

Lemma all_digits_string_of_uint d :
  all_digits (DecimalString.NilEmpty.string_of_uint d) = true.
Proof. induction d; simpl; auto. Qed.

Lemma all_digits_fmt_usize n : all_digits (fmt_usize n) = true.
Proof.
  unfold fmt_usize, DecimalString.NilZero.string_of_uint.
  destruct (N.to_uint _); try apply (all_digits_string_of_uint (_ _)).
  reflexivity.
Qed.

Lemma digits_split d1 d2 r1 r2 :
  all_digits d1 = true -> all_digits d2 = true ->
  d1 ++ String "x" r1 = d2 ++ String "x" r2 -> d1 = d2 /\ r1 = r2.
Proof.
  revert d2. induction d1 as [|c d1 IH]; intros [|c2 d2]; simpl;
    intros H1 H2 E.
  - injection E as ->. auto.
  - injection E as <- _. apply andb_true_iff in H2 as [H2 _]. discriminate.
  - injection E as -> _. apply andb_true_iff in H1 as [H1 _]. discriminate.
  - injection E as -> E. apply andb_true_iff in H1 as [_ H1], H2 as [_ H2].
    destruct (IH d2 H1 H2 E) as [-> ->]. auto.
Qed.

Lemma size_arg_inj c1 r1 c2 r2 :
  0 <= c1 -> 0 <= r1 -> 0 <= c2 -> 0 <= r2 ->
  size_arg c1 r1 = size_arg c2 r2 -> c1 = c2 /\ r1 = r2.
Proof.
  unfold size_arg. intros Hc1 Hr1 Hc2 Hr2 E.
  apply digits_split in E as [Ec Er]; auto using all_digits_fmt_usize.
  split; now apply fmt_usize_inj.
Qed.

(** The command line determines the request: two invocations with the
    same arguments were made for the same image, size, selectors and
    animation flag. *)
Theorem chafa_args_inj i1 c1 r1 f1 k1 a1 i2 c2 r2 f2 k2 a2 :
  0 <= c1 -> 0 <= r1 -> 0 <= c2 -> 0 <= r2 ->
  chafa_args i1 c1 r1 f1 k1 a1 = chafa_args i2 c2 r2 f2 k2 a2 ->
  i1 = i2 /\ c1 = c2 /\ r1 = r2 /\ f1 = f2 /\ k1 = k2 /\ a1 = a2.
Proof.
  intros Hc1 Hr1 Hc2 Hr2 E. unfold chafa_args in E.
  injection E as Ei Ef Ek Es Ea.
  apply size_arg_inj in Es as [-> ->]; auto.
  apply format_as_arg_inj in Ef as ->. apply colors_as_arg_inj in Ek as ->.
  repeat split; auto. destruct a1, a2; auto; discriminate.
Qed.

(** ** What [run_chafa] does, case by case *)

Lemma fallback_changes format colors :
  negb (ChafaFormat.eqb (fallback_format format) format)
  || negb (ChafaColors.eqb (fallback_colors colors) colors)
  = has_auto format colors.
Proof. now destruct format, colors. Qed.

Lemma log_log l1 l2 w : log l2 (log l1 w) = log (l1 ++ l2)%list w.
Proof. unfold log, with_calls. simpl. now rewrite <- app_assoc. Qed.

Lemma run_chafa_once_eq chafa image cols rows format colors animate w :
  run_chafa_once chafa image cols rows format colors animate w =
  let c := first_cmd chafa image cols rows format colors animate in
  (match renderer w c with Some o => Ok o | None => Err ESpawn end, log [c] w).
Proof.
  unfold run_chafa_once, first_cmd, log. simpl. now destruct (renderer w _).
Qed.

(** [run_chafa] follows its decision table: one attempt, and one
    retry with the fallback selectors exactly when the first attempt exited
    with a failure status and a selector was [Auto]. *)
Theorem run_chafa_spec chafa image cols rows format colors animate w :
  run_chafa chafa image cols rows format colors animate w =
  run_chafa_outcome chafa image cols rows format colors animate w.
Proof.
  unfold run_chafa, run_chafa_outcome, bind, ret, fail.
  rewrite run_chafa_once_eq. simpl.
  destruct (renderer w (first_cmd _ _ _ _ _ _ _)) as [o1|]; [|reflexivity].
  destruct (status_success o1); [reflexivity|].
  rewrite fallback_changes. destruct (has_auto format colors); [|reflexivity].
  rewrite run_chafa_once_eq. simpl. rewrite log_log. simpl.
  unfold retry_cmd, first_cmd.
  destruct (renderer w _) as [o2|]; [|reflexivity].
  now destruct (status_success o2).
Qed.

Lemma same_but_calls_log l w : same_but_calls w (log l w).
Proof. now unfold same_but_calls. Qed.

(** (C5) Exactly one retry: when the first attempt fails and a selector is
    [Auto], the renderer is run exactly twice, the second time with the
    concrete selectors, and the outcome is that of the second run; on its
    failure the error carries the retry's diagnostic, not the original. *)
Theorem run_chafa_retries_once chafa image cols rows format colors animate w o1 :
  renderer w (first_cmd chafa image cols rows format colors animate) = Some o1 ->
  status_success o1 = false ->
  has_auto format colors = true ->
  let c1 := first_cmd chafa image cols rows format colors animate in
  let c2 := retry_cmd chafa image cols rows format colors animate in
  exists r w', run_chafa chafa image cols rows format colors animate w = (r, w') /\
    new_calls w w' [c1; c2] /\ same_but_calls w w' /\
    r = match renderer w c2 with
        | None => Err ESpawn
        | Some o2 => if status_success o2 then Ok (stdout o2)
                     else Err (EChafaFailed (stderr o2))
        end.
Proof.
  intros R1 S1 A. simpl. rewrite run_chafa_spec. unfold run_chafa_outcome.
  rewrite R1, S1, A.
  destruct (renderer w (retry_cmd _ _ _ _ _ _ _)) as [o2|];
    [destruct (status_success o2)|];
    eexists; eexists; (split; [reflexivity|]);
    (split; [reflexivity|]); (split; [apply same_but_calls_log | reflexivity]).
Qed.

(** No retry without an [Auto]: when the first attempt fails and
    neither selector is [Auto], the renderer is run once and its diagnostic
    is the error. *)
Theorem run_chafa_no_retry chafa image cols rows format colors animate w o1 :
  renderer w (first_cmd chafa image cols rows format colors animate) = Some o1 ->
  status_success o1 = false ->
  has_auto format colors = false ->
  exists w', run_chafa chafa image cols rows format colors animate w
               = (Err (EChafaFailed (stderr o1)), w') /\
    new_calls w w' [first_cmd chafa image cols rows format colors animate] /\
    same_but_calls w w'.
Proof.
  intros R1 S1 A. rewrite run_chafa_spec. unfold run_chafa_outcome.
  rewrite R1, S1, A. eexists. split; [reflexivity|].
  split; [reflexivity | apply same_but_calls_log].
Qed.

(** All [run_chafa] does to the world is log one or two invocations. *)
Lemma run_chafa_frame chafa image cols rows format colors animate w r w' :
  run_chafa chafa image cols rows format colors animate w = (r, w') ->
  exists l, w' = log l w /\ (1 <= List.length l <= 2)%nat.
Proof.
  rewrite run_chafa_spec. unfold run_chafa_outcome.
  repeat match goal with
         | |- context [match ?x with _ => _ end] => destruct x
         end; intros E; inv E; eexists; (split; [reflexivity | simpl; lia]).
Qed.

(** At least one and at most two invocations, and nothing but the log
    changes: [run_chafa] never touches the cache. *)
Theorem run_chafa_calls chafa image cols rows format colors animate w :
  exists l, new_calls w (snd (run_chafa chafa image cols rows format colors
                                animate w)) l /\
    (1 <= List.length l <= 2)%nat /\
    same_but_calls w (snd (run_chafa chafa image cols rows format colors
                             animate w)).
Proof.
  destruct (run_chafa chafa image cols rows format colors animate w)
    as [r w'] eqn:E.
  apply run_chafa_frame in E as (l & -> & Hl).
  exists l. split; [reflexivity|]. split; [exact Hl | apply same_but_calls_log].
Qed.

(** The retry is a different command: its selectors are concrete, so
    it never repeats the failed command line. *)
Theorem retry_cmd_concrete chafa image cols rows format colors animate :
  fallback_format format <> ChafaFormat.Auto /\
  fallback_colors colors <> ChafaColors.Auto /\
  (has_auto format colors = true ->
   retry_cmd chafa image cols rows format colors animate <>
   first_cmd chafa image cols rows format colors animate).
Proof.
  split; [now destruct format|]. split; [now destruct colors|].
  unfold retry_cmd, first_cmd, chafa_args. intros A E.
  injection E as Ef Ek.
  apply format_as_arg_inj in Ef. apply colors_as_arg_inj in Ek.
  destruct format, colors; discriminate.
Qed.

(** Success: the payload is the standard output of the run that
    succeeded, the first one or the retry. *)
Theorem run_chafa_ok chafa image cols rows format colors animate w s w' :
  run_chafa chafa image cols rows format colors animate w = (Ok s, w') ->
  exists c o, renderer w c = Some o /\ status_success o = true /\
    stdout o = s /\ In c (calls w') /\
    (c = first_cmd chafa image cols rows format colors animate \/
     c = retry_cmd chafa image cols rows format colors animate).
Proof.
  rewrite run_chafa_spec. unfold run_chafa_outcome.
  destruct (renderer w (first_cmd _ _ _ _ _ _ _)) as [o1|] eqn:R1; [|discriminate].
  destruct (status_success o1) eqn:S1.
  - intros E. inv E. exists (first_cmd chafa image cols rows format colors animate), o1.
    repeat split; auto. simpl. apply in_or_app. right. now left.
  - destruct (has_auto format colors); [|discriminate].
    destruct (renderer w (retry_cmd _ _ _ _ _ _ _)) as [o2|] eqn:R2; [|discriminate].
    destruct (status_success o2) eqn:S2; [|discriminate].
    intros E. inv E. exists (retry_cmd chafa image cols rows format colors animate), o2.
    repeat split; auto. simpl. apply in_or_app. right. right. now left.
Qed.

Lemma log_wf l w : world_wf w -> world_wf (log l w).
Proof. now unfold world_wf, entries. Qed.

Lemma run_chafa_wf chafa image cols rows format colors animate w r w' :
  world_wf w ->
  run_chafa chafa image cols rows format colors animate w = (r, w') ->
  world_wf w'.
Proof.
  intros Hwf E. apply run_chafa_frame in E as (l & -> & _). now apply log_wf.
Qed.

(** ** The theorems at concrete worlds *)

Lemma chafa_args_inj_witness :
  "cat.png" = "cat.png" /\ 80 = 80 /\ 13 = 13 /\
  ChafaFormat.Kitty = ChafaFormat.Kitty /\ ChafaColors.C256 = ChafaColors.C256 /\
  true = true.
Proof.
  apply (chafa_args_inj "cat.png" 80 13 ChafaFormat.Kitty ChafaColors.C256 true
           "cat.png" 80 13 ChafaFormat.Kitty ChafaColors.C256 true);
    first [lia | reflexivity].
Defined.

Lemma run_chafa_retries_once_witness :
  exists r w',
    run_chafa "chafa" "cat.png" 80 13 ChafaFormat.Auto ChafaColors.C256 false
      picky_world = (r, w') /\
    new_calls picky_world w'
      [first_cmd "chafa" "cat.png" 80 13 ChafaFormat.Auto ChafaColors.C256 false;
       retry_cmd "chafa" "cat.png" 80 13 ChafaFormat.Auto ChafaColors.C256 false]
    /\ same_but_calls picky_world w' /\ r = Ok "<cat>".
Proof.
  apply (run_chafa_retries_once "chafa" "cat.png" 80 13 ChafaFormat.Auto
           ChafaColors.C256 false picky_world
           {| status_success := false; stdout := "";
              stderr := "unknown selector" |}); reflexivity.
Defined.

Lemma run_chafa_no_retry_witness :
  exists w',
    run_chafa "chafa" "cat.png" 80 13 ChafaFormat.Kitty ChafaColors.C256 false
      failing_world = (Err (EChafaFailed "no such file"), w') /\
    new_calls failing_world w'
      [first_cmd "chafa" "cat.png" 80 13 ChafaFormat.Kitty ChafaColors.C256
         false] /\
    same_but_calls failing_world w'.
Proof.
  apply (run_chafa_no_retry "chafa" "cat.png" 80 13 ChafaFormat.Kitty
           ChafaColors.C256 false failing_world
           {| status_success := false; stdout := "";
              stderr := "no such file" |}); reflexivity.
Defined.

Lemma run_chafa_ok_witness :
  exists c o, renderer picky_world c = Some o /\ status_success o = true /\
    stdout o = "<cat>" /\
    In c (calls (snd (run_chafa "chafa" "cat.png" 80 13 ChafaFormat.Auto
                        ChafaColors.Auto false picky_world))) /\
    (c = first_cmd "chafa" "cat.png" 80 13 ChafaFormat.Auto ChafaColors.Auto
           false \/
     c = retry_cmd "chafa" "cat.png" 80 13 ChafaFormat.Auto ChafaColors.Auto
           false).
Proof.
  apply (run_chafa_ok "chafa" "cat.png" 80 13 ChafaFormat.Auto ChafaColors.Auto
           false picky_world). reflexivity.
Defined.
