(* ===== verification/Pipeline.v ===== *)
(** * Pipeline: [render_image] and sessions of renders

    [render_image] ([main.rs] 500-537) computes the cache key, serves a hit
    from the cache, and on a miss runs the renderer, stores its output and
    enforces the cache limit.  It composes [cache_key] ([CacheKey]),
    [cache_hit] and [cache_store] ([CacheStore]) and [run_chafa]
    ([Renderer]) in the order of the source.

    A session is a sequence of renders interleaved with steps of the
    environment (time passing, faults appearing and disappearing, images and
    the renderer changing); [reachable] is its step relation.  The
    invariants of the world are proved along any session. *)

From Stdlib Require Import ZArith List String Ascii Bool Lia.
From Stdlib Require Import RelationClasses Morphisms Setoid.
From S2P Require Import Prelude Encoding Chafa FileSystem CacheKey.
From S2P Require Import StableSort CacheStore Renderer.
Import ListNotations.

#[local] Open Scope string_scope.
#[local] Open Scope Z_scope.

Section Pipeline.
Context `{Hasher}.

(** ** [fn render_image] *)

Definition render_image (chafa image : string) (options : RenderOptions)
  : M string :=
  (cache_key <- cache_key image (cols options) (rows options)
                  (format options) (colors options) (animate options) ;;
   let cache_path := cache_file_name cache_key in
   hit <- (if cache_enabled options then fs_exists cache_path
           else ret false) ;;
   if hit then cache_hit cache_path
   else
     output <- run_chafa chafa image (cols options) (rows options)
                 (format options) (colors options) (animate options) ;;
     _ <- (if cache_enabled options
           then cache_store cache_path output (cache_max_mb options)
           else ret tt) ;;
     ret output)%io.

(** The cache file a request is served from. *)
Definition cache_path_of (image : string) (options : RenderOptions)
  (w : world) : option string :=
  option_map cache_file_name
    (result_ok (fst (cache_key image (cols options) (rows options)
                       (format options) (colors options) (animate options) w))).

(** The miss path: render, then store when caching is enabled. *)
Definition render_and_store (chafa image : string) (options : RenderOptions)
  (cache_path : string) : M string :=
  (output <- run_chafa chafa image (cols options) (rows options)
               (format options) (colors options) (animate options) ;;
   _ <- (if cache_enabled options
         then cache_store cache_path output (cache_max_mb options)
         else ret tt) ;;
   ret output)%io.

(** What a render may change besides the cache: it appends at most [n]
    invocations to the log. *)
Definition effects (n : nat) (w w' : world) : Prop :=
  now w' = now w /\ faulty w' = faulty w /\ images w' = images w /\
  renderer w' = renderer w /\
  exists l, calls w' = (calls w ++ l)%list /\ (List.length l <= n)%nat.

(** ** Sessions *)

Inductive step : world -> world -> Prop :=
| step_render chafa image options r w w' :
    render_image chafa image options w = (r, w') -> step w w'
| step_tick d w : step w (tick d w)
| step_faults f w : step w (with_faulty f w)
| step_env imgs rend w :
    step w {| cache := cache w; now := now w; faulty := faulty w;
              images := imgs; renderer := rend; calls := calls w |}.

Inductive reachable (w0 : world) : world -> Prop :=
| reach_refl : reachable w0 w0
| reach_step w w' : reachable w0 w -> step w w' -> reachable w0 w'.

(** ** The effects of the parts *)

Lemma effects_refl n w : effects n w w.
Proof. repeat split. exists []. now rewrite app_nil_r; split; [|simpl; lia]. Qed.

(** What a run did to the world does not depend on the cache directory. *)
#[export] Instance effects_proper n w : Proper (same_env ==> iff) (effects n w).
Proof.
  intros w1 w2 (N & F & I & R & C). unfold effects.
  now rewrite N, F, I, R, C.
Qed.

Lemma effects_env n w w1 w2 :
  effects n w w1 -> same_env w1 w2 -> effects n w w2.
Proof. intros E S. now rewrite <- S. Qed.

Lemma run_chafa_effects chafa image cols rows format colors animate w r w' :
  run_chafa chafa image cols rows format colors animate w = (r, w') ->
  effects 2 w w'.
Proof.
  intros E. apply run_chafa_frame in E as (l & -> & L).
  repeat split. exists l. split; [reflexivity | lia].
Qed.

Lemma cache_key_run image cols rows (format : ChafaFormat.t)
  (colors : ChafaColors.t) animate w r w' :
  cache_key image cols rows format colors animate w = (r, w') -> w' = w.
Proof. rewrite cache_key_eq. intros E. now inv E. Qed.

Lemma cache_step_world (b : bool) path w r w' :
  (if b then fs_exists path else ret false) w = (r, w') -> w' = w.
Proof. destruct b; intros E; now inv E. Qed.

Lemma store_step (b : bool) path out mb w r w' :
  (if b then cache_store path out mb else ret tt) w = (r, w') ->
  same_env w w' /\ (world_wf w -> world_wf w').
Proof.
  destruct b; intros E; [|inv E; auto using same_env_refl].
  eauto using cache_store_env, cache_store_wf.
Qed.

(** [render_image] keeps the world well formed, whatever it returns: file
    names stay unique and no entry is dated in the future. *)
Lemma render_image_wf chafa image options w r w' :
  world_wf w -> render_image chafa image options w = (r, w') -> world_wf w'.
Proof.
  intros Hwf E. unfold render_image in E.
  bind_split E as key w1 K; apply cache_key_run in K as ->; [|assumption].
  bind_split E as hit w2 X; apply cache_step_world in X as ->; [|assumption].
  destruct hit; [eauto using cache_hit_wf|].
  bind_split E as out w3 R; apply run_chafa_wf in R; auto.
  bind_split E as u w4 S; apply store_step in S as [_ S]; [inv E|]; auto.
Qed.

(** Apart from the cache, all [render_image] does is run the renderer at
    most twice. *)
Lemma render_image_effects chafa image options w r w' :
  render_image chafa image options w = (r, w') -> effects 2 w w'.
Proof.
  intros E. unfold render_image in E.
  bind_split E as key w1 K; apply cache_key_run in K as ->;
    [|apply effects_refl].
  bind_split E as hit w2 X; apply cache_step_world in X as ->;
    [|apply effects_refl].
  destruct hit;
    [eapply effects_env; [apply effects_refl | eauto using cache_hit_env]|].
  bind_split E as out w3 R; apply run_chafa_effects in R; auto.
  bind_split E as u w4 S; apply store_step in S as [S _]; [inv E|];
    eauto using effects_env.
Qed.

(** ** The paths of [render_image] as equations *)

Lemma cache_path_of_run image options w path :
  cache_path_of image options w = Some path ->
  exists key,
    cache_key image (cols options) (rows options) (format options)
      (colors options) (animate options) w = (Ok key, w) /\
    path = cache_file_name key.
Proof.
  unfold cache_path_of. rewrite cache_key_eq. simpl.
  destruct (fst (image_mtime image w)); simpl; intros E; inv E. eauto.
Qed.

Lemma cache_path_of_frame image options w w' :
  images w' = images w ->
  cache_path_of image options w' = cache_path_of image options w.
Proof.
  intros I. unfold cache_path_of. rewrite !cache_key_eq.
  simpl. unfold image_mtime. now rewrite I; destruct (images w image).
Qed.

Lemma fs_exists_eq path w b :
  fst (fs_exists path w) = Ok b -> fs_exists path w = (Ok b, w).
Proof. unfold fs_exists. simpl. now intros ->. Qed.

Lemma render_image_on_hit chafa image options w path :
  cache_enabled options = true ->
  cache_path_of image options w = Some path ->
  fst (fs_exists path w) = Ok true ->
  render_image chafa image options w = cache_hit path w.
Proof.
  intros En P X. apply cache_path_of_run in P as (key & K & ->).
  unfold render_image. erewrite bind_ok by exact K. rewrite En.
  now erewrite bind_ok by (apply fs_exists_eq; exact X).
Qed.

Lemma render_image_on_miss chafa image options w path :
  cache_path_of image options w = Some path ->
  (cache_enabled options = true -> fst (fs_exists path w) = Ok false) ->
  render_image chafa image options w =
  render_and_store chafa image options path w.
Proof.
  intros P X. apply cache_path_of_run in P as (key & K & ->).
  unfold render_image, render_and_store. erewrite bind_ok by exact K.
  destruct (cache_enabled options); [|reflexivity].
  now erewrite bind_ok by (apply fs_exists_eq; auto).
Qed.

Lemma lookup_none_exists path w :
  lookup path w = None -> fst (fs_exists path w) = Ok false.
Proof. unfold fs_exists. now intros ->. Qed.

(** The world in which the payload is stored: that of the request, with
    the renderer's invocations logged. *)
Lemma logged_world l w :
  entries (log l w) = entries w /\ now (log l w) = now w /\
  (fault_free w -> fault_free (log l w)) /\
  (forall path, lookup path (log l w) = lookup path w).
Proof. repeat split; auto. Qed.

(** ** The paths of [render_image] *)

(** (C10) A hit: with caching enabled and the entry present and readable,
    [render_image] returns the stored payload, does not run the renderer,
    and refreshes the entry's time. *)
Theorem render_image_hit chafa image options w path e :
  cache_enabled options = true ->
  cache_path_of image options w = Some path ->
  lookup path w = Some e ->
  faulty w (OpMetadata path) = false ->
  faulty w (OpRead path) = false ->
  faulty w (OpCreate path) = false ->
  faulty w (OpWrite path) = false ->
  exists w', render_image chafa image options w = (Ok (e_data e), w') /\
    calls w' = calls w /\
    lookup path w' = Some (mk_entry path (e_data e) (now w)).
Proof.
  intros En P L F0 F1 F2 F3.
  destruct (cache_hit_ok _ w e L F1 F2 F3) as (w' & E & _ & L' & S).
  exists w'. rewrite (render_image_on_hit _ _ _ _ path); auto.
  - split; [exact E|]. split; [apply S | exact L'].
  - unfold fs_exists. simpl. now rewrite L, F0.
Qed.

(** (C9) A miss without faults: the renderer's output is returned and
    stored, and the cache ends within its budget and well formed. *)
Theorem render_image_miss chafa image options w path out w1 :
  world_wf w -> fault_free w ->
  cache_enabled options = true ->
  cache_path_of image options w = Some path ->
  lookup path w = None ->
  run_chafa chafa image (cols options) (rows options) (format options)
    (colors options) (animate options) w = (Ok out, w1) ->
  dir_size (put_entry (mk_entry path out (now w)) (entries w)) <= u64_max ->
  exists w' gone, render_image chafa image options w = (Ok out, w') /\
    entries w' =
      remove_all gone (put_entry (mk_entry path out (now w)) (entries w)) /\
    cache_size w' <= max_bytes_of_mb (cache_max_mb options) /\
    world_wf w'.
Proof.
  intros Hwf Hff En P L R Hfit.
  rewrite (render_image_on_miss _ _ _ _ path);
    auto using lookup_none_exists.
  unfold render_and_store. erewrite bind_ok by exact R. rewrite En.
  apply run_chafa_frame in R as (l & -> & _).
  destruct (logged_world l w) as (Hes & Hn & Hf & _).
  destruct (cache_store_run path out (cache_max_mb options) (log l w))
    as (w' & E & G & S); auto using log_wf.
  erewrite bind_ok by exact E. exists w'. eexists.
  split; [reflexivity|]. split; [exact G|]. split.
  - unfold cache_size. rewrite G. apply kept_within_budget.
    + apply dir_wf_put with (t := now w); [exact Hwf | simpl; lia].
    + apply max_bytes_of_mb_range.
  - eapply (stored_wf path out); [apply log_wf, Hwf | apply S | exact G].
Qed.


(** With caching disabled [render_image] is [run_chafa]: the cache
    is neither read nor written. *)
Theorem render_image_no_cache chafa image options w :
  cache_enabled options = false ->
  images w image <> StatErr ->
  render_image chafa image options w =
  run_chafa chafa image (cols options) (rows options) (format options)
    (colors options) (animate options) w
  /\ cache (snd (render_image chafa image options w)) = cache w.
Proof.
  intros En St.
  assert (E : render_image chafa image options w =
              run_chafa chafa image (cols options) (rows options)
                (format options) (colors options) (animate options) w).
  { assert (K : exists key,
      cache_key image (cols options) (rows options) (format options)
        (colors options) (animate options) w = (Ok key, w)).
    { rewrite cache_key_eq. unfold image_mtime.
      destruct (images w image); [contradiction| |]; simpl; eauto. }
    destruct K as [key K]. unfold render_image.
    erewrite bind_ok by exact K. rewrite En. unfold bind, ret. simpl.
    destruct (run_chafa _ _ _ _ _ _ _ w) as [[out|e] w1]; reflexivity. }
  split; [exact E|]. rewrite E.
  destruct (run_chafa _ _ _ _ _ _ _ w) as [r w1] eqn:R.
  now apply run_chafa_frame in R as (l & -> & _).
Qed.

(** An unreadable image is fatal before anything else happens: the
    error is "reading image metadata", the renderer is not run and the cache
    is not touched. *)
Theorem render_image_metadata_error chafa image options w :
  images w image = StatErr ->
  render_image chafa image options w = (Err EImageMetadata, w).
Proof.
  intros St. unfold render_image, bind, cache_key, image_mtime, bind.
  now rewrite St.
Qed.

(** (C28) A cache-write failure fails the render: when the renderer
    succeeded but the cache file cannot be created, [render_image] returns
    the I/O error and the rendered payload is lost. *)
Theorem render_image_write_failure chafa image options w path out w1 :
  cache_enabled options = true ->
  cache_path_of image options w = Some path ->
  lookup path w = None ->
  run_chafa chafa image (cols options) (rows options) (format options)
    (colors options) (animate options) w = (Ok out, w1) ->
  faulty w OpCreateDir = false ->
  faulty w (OpCreate path) = true ->
  fst (render_image chafa image options w) = Err (EIo (OpCreate path)).
Proof.
  intros En P L R F1 F2.
  rewrite (render_image_on_miss _ _ _ _ path);
    auto using lookup_none_exists.
  unfold render_and_store. erewrite bind_ok by exact R. rewrite En.
  apply run_chafa_frame in R as (l & -> & _).
  destruct (fs_create_dir_all_ok (log l w)) as (w2 & E2 & _ & (_ & F' & _));
    [exact F1|].
  unfold cache_store, bind at 1. unfold bind at 1. rewrite E2.
  unfold bind at 1. unfold fs_create. rewrite F'. simpl. now rewrite F2.
Qed.

(** ** Sessions *)

Lemma step_wf w w' : step w w' -> world_wf w -> world_wf w'.
Proof.
  intros [chafa image options r w1 w2 E | d w1 | f w1 | imgs rend w1] Hwf;
    eauto using render_image_wf, tick_wf.
Qed.

Lemma step_monotone w w' :
  step w w' ->
  now w <= now w' /\ exists l, calls w' = (calls w ++ l)%list.
Proof.
  intros [chafa image options r w1 w2 E | d w1 | f w1 | imgs rend w1]; simpl.
  - apply render_image_effects in E as (-> & _ & _ & _ & l & C & _).
    split; [lia | eauto].
  - split; [lia | exists []; now rewrite app_nil_r].
  - split; [lia | exists []; now rewrite app_nil_r].
  - split; [lia | exists []; now rewrite app_nil_r].
Qed.

(** Well-formedness is an invariant of every session: whatever
    requests are rendered, whatever fails and however the environment
    changes in between, file names stay unique in the cache and no entry
    is dated in the future. *)
Theorem reachable_wf w0 w : world_wf w0 -> reachable w0 w -> world_wf w.
Proof. intros Hwf R. induction R; eauto using step_wf. Qed.

(** Along a session the clock never goes back and the log of renderer
    invocations only grows: what was run stays on record. *)
Theorem reachable_monotone w0 w :
  reachable w0 w ->
  now w0 <= now w /\ exists l, calls w = (calls w0 ++ l)%list.
Proof.
  induction 1 as [|w w' R (N & l & C) S].
  - split; [lia | exists []; now rewrite app_nil_r].
  - apply step_monotone in S as (N' & l' & C'). split; [lia|].
    exists (l ++ l')%list. now rewrite C', C, app_assoc.
Qed.

End Pipeline.

(** ** The theorems at concrete worlds

    The examples run with the stand-in hash function of [CacheKey]. *)

#[local] Existing Instance toy_hasher.

(** The cache file of the example request. *)
Definition cat_path : string :=
  match cache_path_of "cat.png" example_options example_world with
  | Some path => path
  | None => ""
  end.

(** A world in which the example request is cached. *)
Definition hit_world : world :=
  with_cache (Some [mk_entry cat_path "<cached cat>" 50]) example_world.

(** The cache file cannot be created. *)
Definition create_fails : fs_op -> bool :=
  fun op => match op with OpCreate _ => true | _ => false end.

Definition uncached_options : RenderOptions :=
  {| cols := 80; rows := 13; format := ChafaFormat.Auto;
     colors := ChafaColors.Auto; animate := false; cache_enabled := false;
     cache_max_mb := 64 |}.

Ltac solve_hyp :=
  first [ solve_wf | intros ?; reflexivity | reflexivity
        | vm_compute; discriminate | discriminate ].

Lemma render_image_hit_witness :
  exists w',
    render_image "chafa" "cat.png" example_options hit_world
      = (Ok "<cached cat>", w') /\
    calls w' = calls hit_world /\
    lookup cat_path w' = Some (mk_entry cat_path "<cached cat>" 100).
Proof.
  apply (render_image_hit "chafa" "cat.png" example_options hit_world cat_path
           (mk_entry cat_path "<cached cat>" 50)); reflexivity.
Defined.

Lemma render_image_miss_witness :
  exists w' gone,
    render_image "chafa" "cat.png" example_options example_world
      = (Ok "<cat>", w') /\
    entries w' =
      remove_all gone
        (put_entry (mk_entry cat_path "<cat>" 100) (entries example_world)) /\
    cache_size w' <= max_bytes_of_mb 64 /\ world_wf w'.
Proof.
  apply (render_image_miss "chafa" "cat.png" example_options example_world
           cat_path "<cat>"
           (snd (run_chafa "chafa" "cat.png" 80 13 ChafaFormat.Auto
                   ChafaColors.Auto false example_world))); solve_hyp.
Defined.


Lemma render_image_no_cache_witness :
  render_image "chafa" "cat.png" uncached_options example_world =
  run_chafa "chafa" "cat.png" 80 13 ChafaFormat.Auto ChafaColors.Auto false
    example_world
  /\ cache (snd (render_image "chafa" "cat.png" uncached_options example_world))
     = cache example_world.
Proof.
  apply (render_image_no_cache "chafa" "cat.png" uncached_options
           example_world); solve_hyp.
Defined.

Lemma render_image_metadata_error_witness :
  render_image "chafa" "dog.png" example_options example_world
  = (Err EImageMetadata, example_world).
Proof. apply render_image_metadata_error. reflexivity. Defined.

Lemma render_image_write_failure_witness :
  fst (render_image "chafa" "cat.png" example_options
         (with_faulty create_fails example_world))
  = Err (EIo (OpCreate cat_path)).
Proof.
  apply (render_image_write_failure "chafa" "cat.png" example_options
           (with_faulty create_fails example_world) cat_path "<cat>"
           (snd (run_chafa "chafa" "cat.png" 80 13 ChafaFormat.Auto
                   ChafaColors.Auto false
                   (with_faulty create_fails example_world)))); reflexivity.
Defined.

(** A session: a render, then five seconds pass, then the directory
    becomes unreadable. *)
Definition example_session : world :=
  with_faulty read_dir_fails
    (tick 5 (snd (render_image "chafa" "cat.png" example_options
                    example_world))).

Lemma example_session_reachable : reachable example_world example_session.
Proof.
  eapply reach_step; [eapply reach_step; [eapply reach_step|]|].
  - apply reach_refl.
  - eapply (step_render "chafa" "cat.png" example_options).
    apply surjective_pairing.
  - apply (step_tick 5).
  - apply (step_faults read_dir_fails).
Qed.

Lemma reachable_wf_witness : world_wf example_session.
Proof.
  apply (reachable_wf example_world);
    [solve_wf | apply example_session_reachable].
Defined.

Lemma reachable_monotone_witness :
  now example_world <= now example_session /\
  exists l, calls example_session = (calls example_world ++ l)%list.
Proof. apply reachable_monotone, example_session_reachable. Defined.
