(* ===== verification/Refinement.v ===== *)
(** * Refinement: the cache as a least-recently-used store

    What the cache of [render_image] promises, stated without files and
    modification times, and the proof that the code keeps the promise.

    The abstract store [Lru.t] is a list of names with their payloads, the
    least recently used first.  A lookup moves the entry to the end
    ([Lru.touch]); a store puts the entry at the end and drops entries from
    the front while the total exceeds the budget ([Lru.put], [Lru.trim]).
    [Lru.render] is the cache around a renderer.

    The abstraction [abs] reads a cache directory as such a store: its
    entries in the order in which [enforce_cache_limit] considers them.
    The refinement theorems say that [cache_hit], [cache_store] and
    [render_image] ([main.rs] 500-537) commute with [abs], provided that
    nothing fails and that the clock has advanced since the last write
    ([strict]): modification times then order the entries by use.  When two
    entries share a modification time the order of the directory listing
    decides between them, and the code is an LRU cache only up to that
    order. *)

From Stdlib Require Import ZArith List String Ascii Bool Lia Permutation Sorted.
From S2P Require Import Prelude Encoding Chafa FileSystem CacheKey.
From S2P Require Import StableSort CacheStore Renderer Pipeline.
Import ListNotations.

#[local] Open Scope string_scope.
#[local] Open Scope Z_scope.

(** ** The abstract store *)

Module Lru.

(** Names with their payloads, least recently used first. *)
Definition t : Set := list (string * string).

Definition bytes (p : string * string) : Z := Z.of_nat (String.length (snd p)).

Definition size (s : t) : Z := fold_right (fun p acc => bytes p + acc) 0 s.

Definition is_name (name : string) (p : string * string) : bool :=
  String.eqb (fst p) name.

Definition get (name : string) (s : t) : option string :=
  option_map snd (find (is_name name) s).

Definition remove (name : string) (s : t) : t :=
  filter (fun p => negb (is_name name p)) s.

(** A use makes the entry the most recently used. *)
Definition touch (name : string) (s : t) : t :=
  match get name s with
  | Some payload => (remove name s ++ [(name, payload)])%list
  | None => s
  end.

(** Entries are dropped from the front while the total exceeds the
    budget. *)
Fixpoint trim (max : Z) (s : t) (total : Z) : t :=
  match s with
  | [] => []
  | p :: rest =>
      if total <=? max then s
      else trim max rest (saturating_sub total (bytes p))
  end.

Definition put (name payload : string) (max : Z) (s : t) : t :=
  let s' := (remove name s ++ [(name, payload)])%list in
  trim max s' (size s').

(** The cache around a renderer: [run] is what the renderer returns for the
    request stored under [name]. *)
Definition render (name : string) (run : result error string) (max : Z)
  (s : t) : result error string * t :=
  match get name s with
  | Some payload => (Ok payload, touch name s)
  | None =>
      match run with
      | Ok out => (Ok out, put name out max s)
      | Err e => (Err e, s)
      end
  end.

(** A sequence of requests, each with its name, what the renderer returns
    for it and the budget. *)
Fixpoint serve (reqs : list (string * result error string * Z)) (s : t)
  : list (result error string) * t :=
  match reqs with
  | [] => ([], s)
  | (name, run, max) :: rest =>
      let '(r, s1) := render name run max s in
      let '(rs, s2) := serve rest s1 in
      (r :: rs, s2)
  end.

End Lru.

(** ** The abstraction *)

Definition data_in (es : list entry) (name : string) : string :=
  match find_entry name es with Some e => e_data e | None => "" end.

Definition pair_of (es : list entry) (name : string) : string * string :=
  (name, data_in es name).

(** A directory as a store: its entries, oldest first. *)
Definition abs (es : list entry) : Lru.t :=
  map (pair_of es) (eviction_order es).

(** The clock has advanced since the last write. *)
Definition strict (w : world) : Prop :=
  Forall (fun e => e_mtime e < now w) (entries w).

(** Is [name] not among [gone]? *)
Definition kept_name (gone : list string) (name : string) : bool :=
  negb (mem_name name gone).

Definition other_name (name n : string) : bool := negb (String.eqb n name).

(** ** Sessions

    A session serves requests one after the other; between two of them the
    clock advances. *)

Section Sessions.
Context `{Hasher}.

Fixpoint serve (chafa : string) (reqs : list (string * RenderOptions))
  (w : world) : list (result error string) * world :=
  match reqs with
  | [] => ([], w)
  | (image, options) :: rest =>
      let '(r, w1) := render_image chafa image options (tick 1 w) in
      let '(rs, w2) := serve chafa rest w1 in
      (r :: rs, w2)
  end.

(** A request as the abstract store sees it: the name of its cache file,
    what the renderer returns for it, and the budget in bytes. *)
Definition describe (chafa : string) (w : world)
  (req : string * RenderOptions) : string * result error string * Z :=
  let '(image, options) := req in
  (match cache_path_of image options w with Some path => path | None => "" end,
   fst (run_chafa chafa image (cols options) (rows options) (format options)
          (colors options) (animate options) w),
   max_bytes_of_mb (cache_max_mb options)).

(** A request the cache can serve without overflow: caching is on, the
    image can be read, the budget is at most [B] and what the renderer
    returns has at most [L] bytes. *)
Definition servable (chafa : string) (B L : Z) (w : world)
  (req : string * RenderOptions) : Prop :=
  let '(image, options) := req in
  cache_enabled options = true /\ images w image <> StatErr /\
  max_bytes_of_mb (cache_max_mb options) <= B /\
  forall out,
    fst (run_chafa chafa image (cols options) (rows options) (format options)
           (colors options) (animate options) w) = Ok out ->
    Z.of_nat (String.length out) <= L.

End Sessions.

(** Two entries written at the present reading of the clock. *)
Definition tied_world : world :=
  with_cache (Some [mk_entry "a.txt" "aaaa" 100; mk_entry "b.txt" "bb" 100])
    example_world.

(** What a session keeps of the world [w0] it started in. *)
Definition serving (B : Z) (w0 w : world) : Prop :=
  world_wf w /\ fault_free w /\ cache_size w <= B /\
  images w = images w0 /\ renderer w = renderer w0.

(** ** Lists *)

Lemma filter_all_false {A} (p : A -> bool) l :
  (forall x, In x l -> p x = false) -> filter p l = [].
Proof.
  induction l as [|x l IH]; simpl; intros Hl; [reflexivity|].
  rewrite (Hl x) by auto. auto.
Qed.

Lemma filter_all_true {A} (p : A -> bool) l :
  (forall x, In x l -> p x = true) -> filter p l = l.
Proof.
  induction l as [|x l IH]; simpl; intros Hl; [reflexivity|].
  rewrite (Hl x) by auto. now rewrite IH by auto.
Qed.

Lemma sum_perm l l' :
  Permutation l l' -> fold_right Z.add 0 l = fold_right Z.add 0 l'.
Proof. induction 1; simpl; lia. Qed.

Lemma skipn_prefix {A} (g rest : list A) :
  skipn (List.length g) (g ++ rest) = rest.
Proof. induction g; simpl; auto. Qed.

(** Without the names of a prefix, a list without duplicates is the rest. *)
Lemma filter_prefix gone rest :
  NoDup (gone ++ rest) -> filter (kept_name gone) (gone ++ rest) = rest.
Proof.
  intros ND. rewrite filter_app, filter_all_false, filter_all_true; auto.
  - intros n Hn. unfold kept_name. apply negb_true_iff, mem_name_false.
    intros Hg. exact (NoDup_app_disjoint _ _ _ ND Hg Hn).
  - intros n Hn. unfold kept_name. apply negb_false_iff. now apply mem_name_true.
Qed.

(** ** The abstract store keeps its promises *)

Lemma bytes_nonneg p : 0 <= Lru.bytes p.
Proof. unfold Lru.bytes. lia. Qed.

Lemma size_nonneg s : 0 <= Lru.size s.
Proof.
  induction s as [|p s IH]; simpl; [lia|]. pose proof (bytes_nonneg p). lia.
Qed.

Lemma trim_suffix max s total : exists gone, s = (gone ++ Lru.trim max s total)%list.
Proof.
  revert total. induction s as [|p s IH]; intros total; simpl; [now exists []|].
  destruct (total <=? max); [now exists []|].
  destruct (IH (saturating_sub total (Lru.bytes p))) as [g Hg].
  exists (p :: g). simpl. now rewrite <- Hg.
Qed.

Lemma trim_within max s :
  0 <= max -> Lru.size (Lru.trim max s (Lru.size s)) <= max.
Proof.
  intros Hm. induction s as [|p s IH]; simpl; [exact Hm|].
  destruct (Z.leb_spec (Lru.bytes p + Lru.size s) max) as [L|L]; [exact L|].
  rewrite saturating_sub_exact by (pose proof (size_nonneg s); lia).
  now replace (Lru.bytes p + Lru.size s - Lru.bytes p) with (Lru.size s) by lia.
Qed.

Lemma size_app (s1 s2 : Lru.t) :
  Lru.size (s1 ++ s2)%list = Lru.size s1 + Lru.size s2.
Proof. induction s1 as [|p s1 IH]; simpl; lia. Qed.

Lemma size_remove_le name s : Lru.size (Lru.remove name s) <= Lru.size s.
Proof.
  induction s as [|p s IH]; simpl; [lia|]. pose proof (bytes_nonneg p).
  destruct (negb (Lru.is_name name p)); simpl; lia.
Qed.

(** A use does not make the store larger. *)
Lemma touch_size_le name s : Lru.size (Lru.touch name s) <= Lru.size s.
Proof.
  unfold Lru.touch, Lru.get.
  induction s as [|p s IH]; simpl; [lia|].
  destruct (Lru.is_name name p) eqn:E; simpl.
  - rewrite size_app. simpl. pose proof (size_remove_le name s).
    unfold Lru.bytes at 1. simpl. fold (Lru.bytes p). lia.
  - destruct (find (Lru.is_name name) s) as [q|]; simpl in *; lia.
Qed.

(** The cache around the renderer stays within a bound that its budget
    respects. *)
Lemma render_size name run max s bound :
  0 <= max <= bound -> Lru.size s <= bound ->
  Lru.size (snd (Lru.render name run max s)) <= bound.
Proof.
  intros Hm Hs. unfold Lru.render.
  destruct (Lru.get name s); simpl.
  - pose proof (touch_size_le name s). lia.
  - destruct run; simpl; [|exact Hs]. unfold Lru.put.
    pose proof (trim_within max (Lru.remove name s ++ [(name, a)])%list). lia.
Qed.

(** ** Reading a directory as a store *)

Lemma bytes_pair_of es n : Lru.bytes (pair_of es n) = size_in es n.
Proof.
  unfold Lru.bytes, pair_of, data_in, size_in. simpl.
  now destruct (find_entry n es).
Qed.

Lemma size_map es l :
  Lru.size (map (pair_of es) l) = fold_right Z.add 0 (map (size_in es) l).
Proof.
  induction l as [|n l IH]; simpl; [reflexivity|].
  now rewrite IH, bytes_pair_of.
Qed.

Lemma abs_size es : NoDup (names es) -> Lru.size (abs es) = dir_size es.
Proof.
  intros ND. unfold abs. rewrite size_map.
  rewrite <- (sum_perm _ _ (Permutation_map _ (eviction_order_perm es))).
  now rewrite map_size_in, dir_size_sum.
Qed.

Lemma find_pair es n l :
  find (Lru.is_name n) (map (pair_of es) l)
  = if mem_name n l then Some (pair_of es n) else None.
Proof.
  induction l as [|a l IH]; simpl; [reflexivity|].
  unfold Lru.is_name at 1. simpl. rewrite (String.eqb_sym a n).
  destruct (String.eqb_spec n a) as [->|]; simpl; [reflexivity | exact IH].
Qed.

Lemma abs_get es n :
  Lru.get n (abs es) = option_map e_data (find_entry n es).
Proof.
  unfold Lru.get, abs. rewrite find_pair.
  destruct (find_entry n es) as [e|] eqn:F; simpl.
  - assert (Hn : In n (eviction_order es)).
    { eapply Permutation_in; [apply eviction_order_perm|].
      apply find_entry_Some_iff. eauto. }
    apply mem_name_true in Hn. rewrite Hn. simpl.
    unfold data_in. now rewrite F.
  - assert (Hn : ~ In n (eviction_order es)).
    { intros Hn. apply (proj1 (find_entry_None n es) F).
      eapply Permutation_in; [symmetry; apply eviction_order_perm | exact Hn]. }
    apply mem_name_false in Hn. now rewrite Hn.
Qed.

Lemma remove_map es name l :
  Lru.remove name (map (pair_of es) l)
  = map (pair_of es) (filter (other_name name) l).
Proof.
  induction l as [|a l IH]; simpl; [reflexivity|].
  unfold Lru.is_name at 1, other_name at 1. simpl.
  destruct (String.eqb a name); simpl; now rewrite IH.
Qed.

Lemma trim_evicted es max ns total :
  Lru.trim max (map (pair_of es) ns) total
  = map (pair_of es)
      (skipn (List.length (evicted max (size_in es) ns total)) ns).
Proof.
  revert total. induction ns as [|n ns IH]; intros total; simpl;
    [reflexivity|].
  destruct (total <=? max); [reflexivity|]. simpl.
  now rewrite IH, bytes_pair_of.
Qed.

(** ** The data of the entries that stay *)

Lemma data_in_put_eq x es : data_in (put_entry x es) (e_name x) = e_data x.
Proof. unfold data_in. now rewrite find_put_entry_eq. Qed.

Lemma data_in_put_ne x es n :
  e_name x <> n -> data_in (put_entry x es) n = data_in es n.
Proof. intros Hn. unfold data_in. now rewrite find_put_entry_ne. Qed.

Lemma data_in_remove_all gone es n :
  ~ In n gone -> data_in (remove_all gone es) n = data_in es n.
Proof. intros Hn. unfold data_in. now rewrite find_entry_remove_all. Qed.

(** ** The order of eviction after a change of the directory *)

Lemma eviction_order_filter es es' p :
  names es' = filter p (names es) ->
  (forall n, p n = true -> mtime_in es' n = mtime_in es n) ->
  eviction_order es' = filter p (eviction_order es).
Proof.
  intros Hn Hm. unfold eviction_order. rewrite Hn.
  rewrite (sort_by_key_filter key_le _ key_le_total key_le_trans).
  apply sort_by_key_ext. intros y [_ Hy]%filter_In. auto.
Qed.

Lemma names_remove_all gone es :
  names (remove_all gone es) = filter (kept_name gone) (names es).
Proof.
  induction es as [|e es IH]; simpl; [reflexivity|].
  unfold kept_name at 1. destruct (mem_name (e_name e) gone); simpl;
    now rewrite <- IH.
Qed.

Lemma kept_name_true gone n : kept_name gone n = true -> ~ In n gone.
Proof. unfold kept_name. intros E%negb_true_iff. now apply mem_name_false. Qed.

Lemma other_name_true name n : other_name name n = true -> name <> n.
Proof.
  unfold other_name. intros E%negb_true_iff%String.eqb_neq. congruence.
Qed.

Lemma eviction_order_remove_all gone es :
  eviction_order (remove_all gone es)
  = filter (kept_name gone) (eviction_order es).
Proof.
  apply eviction_order_filter; [apply names_remove_all|].
  intros n Hn%kept_name_true. unfold mtime_in.
  now rewrite find_entry_remove_all.
Qed.

Lemma eviction_order_del name es :
  eviction_order (del_entry name es)
  = filter (other_name name) (eviction_order es).
Proof.
  apply eviction_order_filter; [apply names_del_entry|].
  intros n Hn%other_name_true. unfold mtime_in.
  now rewrite find_del_entry_ne.
Qed.

(** [put_entry] puts the entry where the old one was, or at the end. *)
Lemma put_entry_split x es :
  NoDup (names es) ->
  exists l1 l2,
    names (put_entry x es) = (l1 ++ e_name x :: l2)%list /\
    names (del_entry (e_name x) es) = (l1 ++ l2)%list.
Proof.
  induction es as [|e es IH]; simpl; intros ND; [now exists [], []|].
  inv ND. destruct (String.eqb_spec (e_name e) (e_name x)) as [E|E]; simpl.
  - exists [], (names es). split; [reflexivity|]. simpl.
    rewrite names_del_entry. apply filter_all_true. intros n Hn.
    apply negb_true_iff, String.eqb_neq. congruence.
  - destruct (IH H2) as (l1 & l2 & Hp & Hd).
    exists (e_name e :: l1), l2. simpl. now rewrite Hp, Hd.
Qed.

(** An entry written after all the others is the last to go. *)
Lemma eviction_order_put x es :
  NoDup (names es) -> Forall (fun e => e_mtime e < e_mtime x) es ->
  eviction_order (put_entry x es)
  = (filter (other_name (e_name x)) (eviction_order es) ++ [e_name x])%list.
Proof.
  intros ND Hlt. destruct (put_entry_split x es ND) as (l1 & l2 & Hp & Hd).
  rewrite <- eviction_order_del. unfold eviction_order at 1.
  rewrite Hp, (sort_by_key_max key_le _ key_le_total).
  - f_equal. rewrite <- Hd. apply sort_by_key_ext.
    intros n [_ Hn]%In_names_del_inv. unfold mtime_in.
    rewrite find_put_entry_ne, find_del_entry_ne; congruence.
  - intros n Hn. rewrite <- Hd in Hn. apply In_names_del_inv in Hn as [Hn Hne].
    apply in_map_iff in Hn as (e & <- & He). unfold mtime_in at 1 2.
    rewrite find_put_entry_eq, find_put_entry_ne by congruence.
    rewrite (find_entry_NoDup e es ND He). simpl.
    rewrite Forall_forall in Hlt. specialize (Hlt e He). lia.
Qed.

(** ** The abstraction commutes with the changes of the directory *)

Lemma abs_put x es :
  NoDup (names es) -> Forall (fun e => e_mtime e < e_mtime x) es ->
  abs (put_entry x es)
  = (Lru.remove (e_name x) (abs es) ++ [(e_name x, e_data x)])%list.
Proof.
  intros ND Hlt. unfold abs. rewrite eviction_order_put by assumption.
  rewrite map_app, remove_map. simpl. unfold pair_of at 2.
  rewrite data_in_put_eq. f_equal. apply map_ext_in.
  intros n [_ Hn%other_name_true]%filter_In. unfold pair_of.
  now rewrite data_in_put_ne.
Qed.

Lemma abs_enforce max es :
  NoDup (names es) ->
  abs (remove_all (evicted_names max es) es)
  = Lru.trim max (abs es) (Lru.size (abs es)).
Proof.
  intros ND. rewrite (abs_size es ND). unfold abs at 2.
  rewrite trim_evicted. fold (evicted_names max es).
  destruct (evicted_prefix max (size_in es) (eviction_order es) (dir_size es))
    as [rest Hr]. fold (evicted_names max es) in Hr.
  unfold abs. rewrite eviction_order_remove_all, Hr.
  rewrite skipn_prefix, filter_prefix.
  - apply map_ext_in. intros n Hn. unfold pair_of.
    rewrite data_in_remove_all; [reflexivity|]. intros Hg.
    assert (ND' : NoDup (evicted_names max es ++ rest)).
    { rewrite <- Hr. eapply Permutation_NoDup;
        [apply eviction_order_perm | exact ND]. }
    exact (NoDup_app_disjoint _ _ _ ND' Hg Hn).
  - rewrite <- Hr. eapply Permutation_NoDup;
      [apply eviction_order_perm | exact ND].
Qed.

(** ** The refinement *)

Lemma strict_log l w : strict w -> strict (log l w).
Proof. exact (fun H => H). Qed.

(** A hit is a lookup of the abstract store followed by a touch. *)
Lemma cache_hit_abs path w e :
  world_wf w -> strict w ->
  lookup path w = Some e ->
  faulty w (OpRead path) = false ->
  faulty w (OpCreate path) = false ->
  faulty w (OpWrite path) = false ->
  exists w', cache_hit path w = (Ok (e_data e), w') /\
    Lru.get path (abs (entries w)) = Some (e_data e) /\
    abs (entries w') = Lru.touch path (abs (entries w)) /\
    same_env w w'.
Proof.
  intros Hwf Hs L R C Wr.
  destruct (cache_hit_ok path w e L R C Wr) as (w' & E & He & _ & Henv).
  assert (G : Lru.get path (abs (entries w)) = Some (e_data e)).
  { rewrite abs_get. unfold lookup in L. now rewrite L. }
  exists w'. repeat split; try assumption; try apply Henv.
  unfold Lru.touch. rewrite G, He.
  apply (abs_put (mk_entry path (e_data e) (now w))); [apply Hwf | exact Hs].
Qed.

(** A store is a put of the abstract store. *)
Lemma cache_store_abs path out mb w :
  world_wf w -> strict w -> fault_free w ->
  dir_size (put_entry (mk_entry path out (now w)) (entries w)) <= u64_max ->
  exists w', cache_store path out mb w = (Ok tt, w') /\
    abs (entries w')
    = Lru.put path out (max_bytes_of_mb mb) (abs (entries w)) /\
    same_env w w'.
Proof.
  intros Hwf Hs Hff Hfit.
  destruct (cache_store_run path out mb w Hwf Hff Hfit) as (w' & E & He & Henv).
  exists w'. split; [exact E|]. split; [|exact Henv].
  rewrite He, abs_enforce.
  - unfold Lru.put.
    now rewrite (abs_put (mk_entry path out (now w)) _ (proj1 Hwf) Hs).
  - apply (dir_wf_put (now w)); [exact Hwf | simpl; lia].
Qed.

Section Refinement.
Context `{Hasher}.

(** What [render_image] returns and what it leaves in the cache, as the
    abstract cache around the renderer. *)
Lemma render_image_abs chafa image options path w :
  world_wf w -> strict w -> fault_free w ->
  cache_enabled options = true ->
  cache_path_of image options w = Some path ->
  (forall out,
     fst (run_chafa chafa image (cols options) (rows options)
            (format options) (colors options) (animate options) w) = Ok out ->
     dir_size (put_entry (mk_entry path out (now w)) (entries w)) <= u64_max) ->
  let run := fst (run_chafa chafa image (cols options) (rows options)
                    (format options) (colors options) (animate options) w) in
  let spec := Lru.render path run (max_bytes_of_mb (cache_max_mb options))
                (abs (entries w)) in
  fst (render_image chafa image options w) = fst spec /\
  abs (entries (snd (render_image chafa image options w))) = snd spec.
Proof.
  intros Hwf Hs Hff En P Hfit. simpl. unfold Lru.render.
  rewrite abs_get. fold (lookup path w).
  destruct (lookup path w) as [e|] eqn:L; simpl.
  - rewrite (render_image_on_hit _ _ _ _ path En P)
      by (unfold fs_exists; now rewrite L, Hff).
    destruct (cache_hit_abs path w e) as (w' & -> & _ & A & _); auto.
  - rewrite (render_image_on_miss _ _ _ _ path P)
      by auto using lookup_none_exists.
    unfold render_and_store. rewrite En.
    destruct (run_chafa _ _ _ _ _ _ _ w) as [[out|e] w1] eqn:R; simpl.
    + erewrite bind_ok by exact R.
      apply run_chafa_frame in R as (l & -> & _).
      destruct (cache_store_abs path out (cache_max_mb options) (log l w))
        as (w' & E & A & _);
        [apply log_wf, Hwf | exact Hs | now apply logged_world
        | now apply Hfit |].
      erewrite bind_ok by exact E. simpl. auto.
    + erewrite bind_err by exact R. simpl.
      apply run_chafa_frame in R as (l & -> & _). auto.
Qed.

(** (C12) [render_image] implements the abstract cache: in a world without
    faults whose clock has advanced since the last write, what it returns
    and the store it leaves are those of [Lru.render] on the store it
    found: a hit returns the payload and makes the entry the most recently
    used, a miss runs the renderer, stores its output as the most recently
    used entry and drops the least recently used entries while the total
    exceeds the budget. *)
Theorem render_image_refines chafa image options path w r w' :
  world_wf w -> strict w -> fault_free w ->
  cache_enabled options = true ->
  cache_path_of image options w = Some path ->
  (forall out,
     fst (run_chafa chafa image (cols options) (rows options)
            (format options) (colors options) (animate options) w) = Ok out ->
     dir_size (put_entry (mk_entry path out (now w)) (entries w)) <= u64_max) ->
  render_image chafa image options w = (r, w') ->
  (r, abs (entries w'))
  = Lru.render path
      (fst (run_chafa chafa image (cols options) (rows options)
              (format options) (colors options) (animate options) w))
      (max_bytes_of_mb (cache_max_mb options)) (abs (entries w)).
Proof.
  intros Hwf Hs Hff En P Hfit E.
  destruct (render_image_abs chafa image options path w Hwf Hs Hff En P Hfit)
    as [E1 E2].
  rewrite E in E1, E2. cbn [fst snd] in E1, E2.
  now rewrite (surjective_pairing (Lru.render _ _ _ _)), <- E1, <- E2.
Qed.

End Refinement.

(** ** Sessions *)

Lemma dir_size_put_le x es : dir_size (put_entry x es) <= dir_size es + e_len x.
Proof.
  induction es as [|e es IH]; simpl; [lia|].
  assert (0 <= e_len e) by (unfold e_len; lia).
  destruct (String.eqb (e_name e) (e_name x)); simpl; lia.
Qed.

(** What the renderer returns depends on the world through the renderer
    only. *)
Lemma run_chafa_renderer chafa image cols rows format colors animate w w' :
  renderer w' = renderer w ->
  fst (run_chafa chafa image cols rows format colors animate w')
  = fst (run_chafa chafa image cols rows format colors animate w).
Proof.
  intros E. rewrite !run_chafa_spec. unfold run_chafa_outcome. rewrite E.
  repeat match goal with
         | |- context [match ?x with _ => _ end] => destruct x
         end; reflexivity.
Qed.

(** After a tick every entry is strictly in the past. *)
Lemma tick_strict w : world_wf w -> strict (tick 1 w).
Proof.
  intros [_ F]. unfold strict. simpl. eapply Forall_impl; [|exact F].
  simpl. intros; lia.
Qed.

Lemma tick_serving B w0 w : serving B w0 w -> serving B w0 (tick 1 w).
Proof.
  intros (Hwf & Hff & Hs & Hi & Hr).
  split; [now apply tick_wf | repeat split; assumption].
Qed.

Section Simulation.
Context `{Hasher}.
Variables (chafa : string) (B L : Z) (w0 : world).
Hypothesis Hroom : B + L <= u64_max.

Lemma cache_path_of_some image options w :
  images w image <> StatErr ->
  exists path, cache_path_of image options w = Some path.
Proof.
  intros N. unfold cache_path_of.
  destruct (proj2 (cache_key_error image (cols options) (rows options)
                     (format options) (colors options) (animate options) w) N)
    as (key & -> & _).
  simpl. eauto.
Qed.

(** One request of a session: the clock advances, and [render_image] does
    what the abstract cache does. *)
Lemma serve_step image options w :
  serving B w0 w -> servable chafa B L w0 (image, options) ->
  let d := describe chafa w0 (image, options) in
  let spec := Lru.render (fst (fst d)) (snd (fst d)) (snd d) (abs (entries w)) in
  let done := render_image chafa image options (tick 1 w) in
  fst done = fst spec /\ abs (entries (snd done)) = snd spec /\
  serving B w0 (snd done).
Proof.
  intros Hsv (En & Img & Hmax & Hout).
  pose proof (tick_serving _ _ _ Hsv) as (Hwf1 & Hff1 & Hsz1 & Hi1 & Hr1).
  destruct (cache_path_of_some image options (tick 1 w)) as [path P1];
    [now rewrite Hi1|].
  pose proof (run_chafa_renderer chafa image (cols options) (rows options)
                (format options) (colors options) (animate options) _ _ Hr1)
    as R.
  cbn zeta. unfold describe.
  rewrite <- (cache_path_of_frame image options w0 (tick 1 w) Hi1), P1.
  cbn [fst snd]. rewrite <- R.
  destruct (render_image_abs chafa image options path (tick 1 w) Hwf1
              (tick_strict w (proj1 Hsv)) Hff1 En P1) as [E1 E2].
  { intros out Ho. rewrite R in Ho. apply Hout in Ho.
    pose proof (dir_size_put_le (mk_entry path out (now (tick 1 w)))
                  (entries (tick 1 w))) as D.
    unfold e_len, cache_size in *. simpl in D. simpl. lia. }
  split; [exact E1|]. split; [exact E2|].
  destruct (render_image chafa image options (tick 1 w)) as [r w2] eqn:RI.
  pose proof (render_image_wf _ _ _ _ _ _ Hwf1 RI) as Hwf2.
  pose proof (render_image_effects _ _ _ _ _ _ RI) as (_ & Hf & Hi & Hr & _).
  cbn [snd] in *. split; [exact Hwf2|]. split; [|split; [|split; congruence]].
  - intros op. rewrite Hf. apply Hff1.
  - unfold cache_size. rewrite <- (abs_size _ (proj1 Hwf2)), E2.
    apply render_size; [split; [apply max_bytes_of_mb_range | exact Hmax]|].
    rewrite abs_size by apply Hwf1. exact Hsz1.
Qed.

(** (C11) A session of the program is a session of the abstract cache: when
    nothing fails, the clock advances between the requests and the sizes
    stay within the range of [u64], the results of the requests are those
    of the least-recently-used store of [Lru], the cache directory read
    oldest first is that store at the end, and the directory never holds
    more than the bound [B] on the budgets. *)
Theorem serve_refines reqs w :
  serving B w0 w -> Forall (servable chafa B L w0) reqs ->
  let spec := Lru.serve (map (describe chafa w0) reqs) (abs (entries w)) in
  fst (serve chafa reqs w) = fst spec /\
  abs (entries (snd (serve chafa reqs w))) = snd spec /\
  serving B w0 (snd (serve chafa reqs w)).
Proof.
  revert w. induction reqs as [|[image options] reqs IH]; intros w Hs F;
    cbn [serve Lru.serve map]; [auto|].
  inv F. pose proof (serve_step image options w Hs H2) as S. cbn zeta in S.
  destruct (describe chafa w0 (image, options)) as [[name run] max].
  cbn [fst snd] in S.
  destruct (render_image chafa image options (tick 1 w)) as [r w1].
  destruct (Lru.render name run max (abs (entries w))) as [r' s1].
  cbn [fst snd] in S. destruct S as (-> & <- & Hs1).
  specialize (IH w1 Hs1 H3). cbn zeta in IH.
  destruct (serve chafa reqs w1) as [rs w2].
  destruct (Lru.serve _ _) as [rs' s2]. cbn [fst snd] in *.
  destruct IH as (-> & -> & Hs2). auto.
Qed.

End Simulation.

(** ** The theorems at concrete worlds *)

#[local] Existing Instance toy_hasher.

(** The example request, twice. *)
Lemma example_servable :
  Forall (servable "chafa" (2 ^ 26) 1000 example_world)
    [("cat.png", example_options); ("cat.png", example_options)].
Proof.
  repeat constructor; try discriminate; try (vm_compute; discriminate);
    intros out E; vm_compute in E; inv E; simpl; lia.
Qed.

Lemma example_serving : serving (2 ^ 26) example_world example_world.
Proof.
  split; [solve_wf|]. split; [intros op; reflexivity|].
  split; [vm_compute; discriminate | split; reflexivity].
Qed.

Lemma render_image_refines_witness :
  (Ok "<cached cat>",
   abs (entries (snd (render_image "chafa" "cat.png" example_options
                        hit_world))))
  = Lru.render cat_path
      (fst (run_chafa "chafa" "cat.png" (cols example_options)
              (rows example_options) (format example_options)
              (colors example_options) (animate example_options) hit_world))
      (max_bytes_of_mb (cache_max_mb example_options))
      (abs (entries hit_world)).
Proof.
  refine (render_image_refines "chafa" "cat.png" example_options cat_path
            hit_world _ _ _ _ _ _ _ _ _);
    [ solve_wf | repeat constructor; simpl; lia | intros op; reflexivity
    | reflexivity | reflexivity
    | intros out E; vm_compute in E; inv E; vm_compute; discriminate
    | reflexivity ].
Defined.

Lemma serve_refines_witness :
  let reqs := [("cat.png", example_options); ("cat.png", example_options)] in
  let spec := Lru.serve (map (describe "chafa" example_world) reqs)
                (abs (entries example_world)) in
  fst (serve "chafa" reqs example_world) = fst spec /\
  abs (entries (snd (serve "chafa" reqs example_world))) = snd spec /\
  serving (2 ^ 26) example_world (snd (serve "chafa" reqs example_world)).
Proof.
  refine (serve_refines "chafa" (2 ^ 26) 1000 example_world _ _ example_world
            example_serving example_servable).
  vm_compute. discriminate.
Defined.

(** The session of the witness: the renderer runs once, the second request
    is served from the cache. *)
Example serve_example :
  let reqs := [("cat.png", example_options); ("cat.png", example_options)] in
  fst (serve "chafa" reqs example_world) = [Ok "<cat>"; Ok "<cat>"] /\
  List.length (calls (snd (serve "chafa" reqs example_world))) = 1%nat /\
  abs (entries (snd (serve "chafa" reqs example_world)))
  = [(cat_path, "<cat>")].
Proof. vm_compute. repeat split. Qed.

(** The abstract store on a budget of 8 bytes: the use of [a] saves it from
    the eviction that the store of [c] causes. *)
Example lru_example :
  Lru.put "c" "cccc" 8 (Lru.touch "a" [("a", "aaaa"); ("b", "bb")])
  = [("a", "aaaa"); ("c", "cccc")].
Proof. reflexivity. Qed.

(** Without a tick of the clock the refinement fails: a hit on [a.txt] in
    the clock reading in which [b.txt] was written leaves [a.txt] the first
    to go, where the abstract store makes it the last. *)
Example touch_without_tick :
  let w' := snd (cache_hit "a.txt" tied_world) in
  abs (entries w') = [("a.txt", "aaaa"); ("b.txt", "bb")] /\
  Lru.touch "a.txt" (abs (entries tied_world))
  = [("b.txt", "bb"); ("a.txt", "aaaa")] /\
  map e_name (entries (snd (enforce_cache_limit 4 w'))) = ["b.txt"].
Proof. vm_compute. repeat split. Qed.
