(* ===== verification/Bubble.v ===== *)
(** * Bubble: the layout of the speech bubble

    [render_bubble] and [pad_line] ([main.rs] 456-498).  The message is
    wrapped to the width left by the terminal, the lines are padded to the
    longest one and framed.  Lengths are byte lengths, as [str::len] counts
    them.

    The wrapping itself is [textwrap::wrap], a library the program only
    calls.  It is a parameter of the model, the class [Wrapper]; the
    theorems on the shape of the box hold for every wrapper, the theorem
    that the box fits the terminal needs [WrapperLaws]: no line is wider than
    asked.  [greedy] is a first-fit wrapper that satisfies the laws; the
    examples run on it. *)

From Stdlib Require Import ZArith List String Ascii Bool Lia.
From S2P Require Import Prelude Chafa.
Import ListNotations.

#[local] Open Scope string_scope.
#[local] Open Scope Z_scope.

(** ** The wrapper *)

Class Wrapper : Type := { wrap : string -> Z -> list string }.

(** [str::len] *)
Definition len (s : string) : Z := Z.of_nat (String.length s).

Class WrapperLaws `{Wrapper} : Prop := {
  wrap_fits : forall text width, 0 < width ->
    Forall (fun l => len l <= width) (wrap text width);
  wrap_nonempty : forall text width, wrap text width <> [];
}.

(** ** [fn pad_line] *)

Definition pad_line (line : string) (width : Z) : string :=
  let s := line in
  if len line <? width
  then s ++ str_repeat " " (Z.to_nat (width - len line))
  else s.

(** ** [fn render_bubble] *)

(** [wrapped.iter().map(|line| line.len()).max().unwrap_or(0)] *)
Definition max_line_len (wrapped : list string) : Z :=
  fold_right (fun line acc => Z.max (len line) acc) 0 wrapped.

(** The frame characters of the line at [idx] among [n] lines. *)
Definition frame (n idx : nat) : string * string :=
  match idx with
  | O => ("/", "\")
  | _ => if (idx + 1 =? n)%nat then ("\", "/") else ("|", "|")
  end.

(** The body of the loop over [wrapped.iter().enumerate()]. *)
Fixpoint frame_lines (n idx : nat) (wrapped : list string) (max_line_len : Z)
  : list string :=
  match wrapped with
  | [] => []
  | line :: rest =>
      let '(l, r) := frame n idx in
      (l ++ " " ++ pad_line line max_line_len ++ " " ++ r)
        :: frame_lines n (S idx) rest max_line_len
  end.

Section Bubble.
Context `{Wrapper}.

Definition bubble_width (term_cols : Z) : Z :=
  Z.min (saturating_sub term_cols 4) DEFAULT_BUBBLE_MAX_WIDTH.

Definition render_bubble (text : string) (term_cols : Z) : list string :=
  let padding := 4 in
  if term_cols <=? padding + 10 then [text]
  else
    let bubble_width :=
      Z.min (saturating_sub term_cols padding) DEFAULT_BUBBLE_MAX_WIDTH in
    let wrapped := wrap text bubble_width in
    match wrapped with
    | [] => []
    | _ =>
        let max_line_len := max_line_len wrapped in
        let top := " " ++ str_repeat "_" (Z.to_nat (max_line_len + 2)) in
        let body :=
          if (List.length wrapped =? 1)%nat
          then ["< " ++ pad_line (nth 0 wrapped "") max_line_len ++ " >"]
          else frame_lines (List.length wrapped) 0 wrapped max_line_len in
        let bottom := " " ++ str_repeat "-" (Z.to_nat (max_line_len + 2)) in
        (top :: body ++ [bottom])%list
    end.

End Bubble.

(** ** Specification vocabulary *)

(** The content of a framed line: without the frame character and the
    space on either side. *)
Definition unframe (line : string) : string :=
  substring 2 (String.length line - 4) line.

(** The frame characters by position, the single line included. *)
Definition frame_of (n idx : nat) : string * string :=
  if (n =? 1)%nat then ("<", ">") else frame n idx.

(** Line [idx] of the body of the box. *)
Definition framed (n idx : nat) (line : string) (m : Z) : string :=
  let '(l, r) := frame_of n idx in l ++ " " ++ pad_line line m ++ " " ++ r.

Fixpoint boxed (n idx : nat) (wrapped : list string) (m : Z) : list string :=
  match wrapped with
  | [] => []
  | line :: rest => framed n idx line m :: boxed n (S idx) rest m
  end.

(** The parts of a box. *)
Definition top_of (box : list string) : string := hd "" box.
Definition bottom_of (box : list string) : string := last box "".
Definition body_of (box : list string) : list string := removelast (tl box).

(** Every byte of [s] is [c]. *)
Fixpoint all_char (c : ascii) (s : string) : bool :=
  match s with
  | EmptyString => true
  | String d s' => Ascii.eqb c d && all_char c s'
  end.

(** ** A first-fit wrapper

    The words of the text, those longer than the width cut into pieces, are
    put on a line as long as they fit. *)

Fixpoint words_of (s cur : string) : list string :=
  match s with
  | EmptyString => match cur with EmptyString => [] | _ => [cur] end
  | String c s' =>
      if Ascii.eqb c " "
      then match cur with
           | EmptyString => words_of s' ""
           | _ => cur :: words_of s' ""
           end
      else words_of s' (cur ++ str_of_char c)
  end.

Fixpoint chunks (k : nat) (cur : string) (room : nat) (s : string)
  : list string :=
  match s with
  | EmptyString => match cur with EmptyString => [] | _ => [cur] end
  | String c s' =>
      match room with
      | O => cur :: chunks k (str_of_char c) (k - 1) s'
      | S r => chunks k (cur ++ str_of_char c) r s'
      end
  end.

Fixpoint fill (width : Z) (cur : string) (ws : list string) : list string :=
  match ws with
  | [] => [cur]
  | w :: ws' =>
      if len cur + 1 + len w <=? width
      then fill width (cur ++ " " ++ w) ws'
      else cur :: fill width w ws'
  end.

Definition greedy_wrap (text : string) (width : Z) : list string :=
  let k := Z.to_nat width in
  match flat_map (chunks k "" k) (words_of text "") with
  | [] => [""]
  | w :: ws => fill width w ws
  end.

#[export] Instance greedy : Wrapper := {| wrap := greedy_wrap |}.

(** ** Columns

    [textwrap] measures a line by the columns it takes on the terminal, the
    program by its bytes.  For text without wide or combining characters
    the columns of a string are the bytes that start a character of its
    UTF-8 encoding. *)
Definition is_continuation (c : ascii) : bool :=
  let n := nat_of_ascii c in (128 <=? n)%nat && (n <? 192)%nat.

Fixpoint columns (s : string) : Z :=
  match s with
  | EmptyString => 0
  | String c s' => (if is_continuation c then 0 else 1) + columns s'
  end.

(** What [textwrap] returns for a text that fits the width. *)
Definition one_line : Wrapper := {| wrap := fun text _ => [text] |}.

(** U+00E9, two bytes and one column. *)
Definition e_acute : string := String "195" (String "169" "").

(** ** Lengths *)

Lemma len_app a b : len (a ++ b) = len a + len b.
Proof. unfold len. rewrite str_length_append. lia. Qed.

Lemma len_cons c s : len (String c s) = 1 + len s.
Proof. unfold len. simpl. lia. Qed.

Lemma len_nonneg s : 0 <= len s.
Proof. unfold len. lia. Qed.

Lemma len_repeat (c : ascii) n : len (str_repeat (String c "") n) = Z.of_nat n.
Proof. unfold len. rewrite str_length_repeat. simpl. lia. Qed.

Lemma pad_line_eq line width :
  pad_line line width = line ++ str_repeat " " (Z.to_nat (width - len line)).
Proof.
  unfold pad_line. destruct (Z.ltb_spec (len line) width); [reflexivity|].
  replace (Z.to_nat (width - len line)) with O by lia.
  simpl. now rewrite str_append_nil_r.
Qed.

Lemma pad_line_len line width :
  len (pad_line line width) = Z.max (len line) width.
Proof.
  rewrite pad_line_eq, len_app, (len_repeat " ").
  pose proof (len_nonneg line). lia.
Qed.

Ltac len_simpl :=
  repeat (rewrite len_app || rewrite len_cons || rewrite pad_line_len
          || rewrite len_repeat);
  change (len "") with 0.

Lemma max_line_len_ge line wrapped :
  In line wrapped -> len line <= max_line_len wrapped.
Proof.
  induction wrapped as [|a ws IH]; simpl; [tauto|].
  intros [->|HI]; [lia|]. apply IH in HI. lia.
Qed.

Lemma max_line_len_nonneg wrapped : 0 <= max_line_len wrapped.
Proof. induction wrapped; simpl; lia. Qed.

Lemma max_line_len_bound b wrapped :
  0 <= b -> Forall (fun l => len l <= b) wrapped -> max_line_len wrapped <= b.
Proof. intros Hb F. induction F; simpl; lia. Qed.

(** ** The body of the box *)

Lemma frame_of_len n idx :
  len (fst (frame_of n idx)) = 1 /\ len (snd (frame_of n idx)) = 1.
Proof.
  unfold frame_of, frame. destruct (n =? 1)%nat; [now split|].
  destruct idx; [now split|]. now destruct (_ =? n)%nat.
Qed.

Lemma framed_len n idx line m :
  len line <= m -> len (framed n idx line m) = m + 4.
Proof.
  intros L. unfold framed. destruct (frame_of_len n idx) as [Hl Hr].
  destruct (frame_of n idx) as [l r]. simpl in *.
  len_simpl. rewrite Hl, Hr. lia.
Qed.

Lemma frame_lines_boxed n idx wrapped m :
  n <> 1%nat -> frame_lines n idx wrapped m = boxed n idx wrapped m.
Proof.
  intros N. revert idx. induction wrapped as [|a ws IH]; intros idx; simpl;
    [reflexivity|].
  rewrite IH. unfold framed, frame_of.
  destruct (Nat.eqb_spec n 1); [contradiction|].
  now destruct (frame n idx).
Qed.

Lemma boxed_length n idx wrapped m :
  List.length (boxed n idx wrapped m) = List.length wrapped.
Proof. revert idx. induction wrapped; intros; simpl; auto. Qed.

Lemma boxed_width n idx wrapped m :
  Forall (fun l => len l <= m) wrapped ->
  Forall (fun s => len s = m + 4) (boxed n idx wrapped m).
Proof.
  intros F. revert idx. induction F; intros idx; simpl; constructor; auto.
  now apply framed_len.
Qed.

Lemma boxed_nth n idx wrapped m j :
  nth_error (boxed n idx wrapped m) j =
  option_map (fun line => framed n (idx + j) line m) (nth_error wrapped j).
Proof.
  revert idx j. induction wrapped as [|a ws IH]; intros idx [|j]; simpl; auto.
  - now rewrite Nat.add_0_r.
  - rewrite IH. now rewrite Nat.add_succ_r.
Qed.

Lemma substring_prefix p q : substring 0 (String.length p) (p ++ q) = p.
Proof.
  induction p as [|a p IH]; simpl; [now destruct q | now rewrite IH].
Qed.

Lemma unframe_chars a b p :
  unframe (String a (String " " (p ++ String " " (String b "")))) = p.
Proof.
  unfold unframe. simpl. rewrite str_length_append. simpl.
  replace (String.length p + 2 - 2)%nat with (String.length p) by lia.
  apply substring_prefix.
Qed.

Lemma unframe_framed n idx line m : unframe (framed n idx line m) = pad_line line m.
Proof.
  unfold framed, frame_of, frame.
  destruct (n =? 1)%nat; [apply unframe_chars|].
  destruct idx; [apply unframe_chars|].
  destruct (_ =? n)%nat; apply unframe_chars.
Qed.

Lemma boxed_unframe n idx wrapped m :
  map unframe (boxed n idx wrapped m) = map (fun l => pad_line l m) wrapped.
Proof.
  revert idx. induction wrapped as [|a ws IH]; intros idx; simpl;
    [reflexivity|]. now rewrite unframe_framed, IH.
Qed.

Lemma all_char_repeat c n : all_char c (str_repeat (String c "") n) = true.
Proof. induction n; simpl; [reflexivity|]. now rewrite Ascii.eqb_refl. Qed.

Lemma body_of_box (top bottom : string) body :
  body_of (top :: body ++ [bottom]) = body /\
  bottom_of (top :: body ++ [bottom]) = bottom.
Proof.
  unfold body_of, bottom_of. simpl tl. split; [apply removelast_last|].
  change (top :: body ++ [bottom])%list with ((top :: body) ++ [bottom])%list.
  apply last_last.
Qed.

(** The widths of the three parts of a box. *)
Lemma box_widths n wrapped :
  let m := max_line_len wrapped in
  len (" " ++ str_repeat "_" (Z.to_nat (m + 2))) = m + 3 /\
  len (" " ++ str_repeat "-" (Z.to_nat (m + 2))) = m + 3 /\
  Forall (fun s => len s = m + 4) (boxed n 0 wrapped m).
Proof.
  simpl. pose proof (max_line_len_nonneg wrapped).
  len_simpl. repeat split; try lia.
  apply boxed_width, Forall_forall. intros l. apply max_line_len_ge.
Qed.

(** A box around lines of at most [w] bytes is at most [w + 4] wide. *)
Lemma box_fits n wrapped w :
  0 <= w -> Forall (fun l => len l <= w) wrapped ->
  let m := max_line_len wrapped in
  Forall (fun s => len s <= w + 4)
    ((" " ++ str_repeat "_" (Z.to_nat (m + 2)))%string
       :: boxed n 0 wrapped m
       ++ [(" " ++ str_repeat "-" (Z.to_nat (m + 2)))%string])%list.
Proof.
  intros Hw F. simpl. pose proof (max_line_len_bound _ _ Hw F) as Hm.
  destruct (box_widths n wrapped) as (Ht & Hb & Hbody). cbn [append] in *.
  constructor; [lia|]. apply Forall_app. split.
  - eapply Forall_impl; [|exact Hbody]. simpl. intros; lia.
  - constructor; [lia | constructor].
Qed.

(** The width the message is wrapped to leaves room for the frame. *)
Lemma bubble_width_range term_cols :
  14 < term_cols -> 0 < bubble_width term_cols <= term_cols - 4.
Proof.
  intros Hc. unfold bubble_width, DEFAULT_BUBBLE_MAX_WIDTH.
  rewrite saturating_sub_exact by lia. lia.
Qed.

Section BubbleFacts.
Context `{Wrapper}.

(** The box as an equation: a top border, the framed lines, a bottom
    border. *)
Lemma render_bubble_eq text term_cols :
  14 < term_cols ->
  wrap text (bubble_width term_cols) <> [] ->
  let wrapped := wrap text (bubble_width term_cols) in
  let m := max_line_len wrapped in
  render_bubble text term_cols =
  ((" " ++ str_repeat "_" (Z.to_nat (m + 2)))%string
     :: boxed (List.length wrapped) 0 wrapped m
     ++ [(" " ++ str_repeat "-" (Z.to_nat (m + 2)))%string])%list.
Proof.
  intros Hc Hne. unfold render_bubble. fold (bubble_width term_cols).
  destruct (Z.leb_spec term_cols (4 + 10)); [lia|].
  destruct (wrap text (bubble_width term_cols)) as [|a [|b ws]] eqn:W;
    [contradiction| |]; simpl (_ =? _)%nat; cbv iota; cbv zeta.
  - reflexivity.
  - now rewrite frame_lines_boxed.
Qed.

(** A terminal of at most 14 columns gets the message as it is, on
    one line, without a box. *)
Theorem render_bubble_narrow text term_cols :
  term_cols <= 14 -> render_bubble text term_cols = [text].
Proof.
  intros Hc. unfold render_bubble.
  now destruct (Z.leb_spec term_cols (4 + 10)); [|lia].
Qed.

(** The height of the box: one line per wrapped line and the two
    borders.  This is the bubble height the row budget is computed from. *)
Theorem render_bubble_height text term_cols :
  14 < term_cols ->
  wrap text (bubble_width term_cols) <> [] ->
  List.length (render_bubble text term_cols) =
  (List.length (wrap text (bubble_width term_cols)) + 2)%nat.
Proof.
  intros Hc Hne. rewrite render_bubble_eq by assumption. simpl.
  rewrite length_app, boxed_length. simpl. lia.
Qed.

(** (C38) The box is aligned: with [m] the length of the longest wrapped
    line, every line of the body is [m + 4] bytes long, and the two borders
    are [m + 3] bytes long: they end one column before the frame does. *)
Theorem render_bubble_widths text term_cols :
  14 < term_cols ->
  wrap text (bubble_width term_cols) <> [] ->
  let box := render_bubble text term_cols in
  let m := max_line_len (wrap text (bubble_width term_cols)) in
  len (top_of box) = m + 3 /\ len (bottom_of box) = m + 3 /\
  Forall (fun s => len s = m + 4) (body_of box).
Proof.
  intros Hc Hne. simpl. rewrite render_bubble_eq by assumption.
  rewrite (proj1 (body_of_box _ _ _)), (proj2 (body_of_box _ _ _)).
  apply box_widths.
Qed.

(** The borders: a space followed by underscores on top and by dashes
    at the bottom, two more than the longest line has bytes. *)
Theorem render_bubble_borders text term_cols :
  14 < term_cols ->
  wrap text (bubble_width term_cols) <> [] ->
  let box := render_bubble text term_cols in
  let m := max_line_len (wrap text (bubble_width term_cols)) in
  exists u d, top_of box = " " ++ u /\ bottom_of box = " " ++ d /\
    all_char "_" u = true /\ all_char "-" d = true /\
    len u = m + 2 /\ len d = m + 2.
Proof.
  intros Hc Hne. simpl. rewrite render_bubble_eq by assumption.
  pose proof (max_line_len_nonneg (wrap text (bubble_width term_cols))).
  eexists. eexists. split; [reflexivity|].
  split; [apply body_of_box|].
  split; [apply (all_char_repeat "_")|]. split; [apply (all_char_repeat "-")|].
  len_simpl. lia.
Qed.

(** Nothing of the text is lost in the box: without their frames, the
    lines of the body are the wrapped lines, each padded with spaces to the
    length of the longest. *)
Theorem render_bubble_content text term_cols :
  14 < term_cols ->
  wrap text (bubble_width term_cols) <> [] ->
  let wrapped := wrap text (bubble_width term_cols) in
  map unframe (body_of (render_bubble text term_cols)) =
  map (fun l => l ++ str_repeat " " (Z.to_nat (max_line_len wrapped - len l)))
    wrapped.
Proof.
  intros Hc Hne. simpl. rewrite render_bubble_eq by assumption.
  rewrite (proj1 (body_of_box _ _ _)), boxed_unframe.
  apply map_ext. intros l. apply pad_line_eq.
Qed.

(** The frame: a single line stands between [<] and [>]; of several
    lines the first stands between [/] and [\], the last between [\] and
    [/], and the others between bars. *)
Theorem render_bubble_frames text term_cols j line :
  14 < term_cols ->
  let wrapped := wrap text (bubble_width term_cols) in
  let n := List.length wrapped in
  nth_error wrapped j = Some line ->
  nth_error (render_bubble text term_cols) (S j) =
  Some ((if (n =? 1)%nat then "< "
         else if (j =? 0)%nat then "/ "
         else if (j + 1 =? n)%nat then "\ " else "| ")
        ++ pad_line line (max_line_len wrapped) ++
        (if (n =? 1)%nat then " >"
         else if (j =? 0)%nat then " \"
         else if (j + 1 =? n)%nat then " /" else " |")).
Proof.
  intros Hc. simpl. intros Hj.
  rewrite render_bubble_eq; [|assumption | intros E; rewrite E in Hj; now destruct j].
  simpl. rewrite nth_error_app1
    by (rewrite boxed_length; apply nth_error_Some; congruence).
  rewrite boxed_nth, Hj. simpl. unfold framed, frame_of, frame.
  destruct (_ =? 1)%nat; [rewrite <- str_append_assoc; reflexivity|].
  destruct j; [rewrite <- str_append_assoc; reflexivity|]. simpl (_ =? 0)%nat.
  cbv iota. destruct (_ =? _)%nat; now rewrite <- str_append_assoc.
Qed.

(** (C6) The box fits the terminal: when the wrapper keeps the lines within
    the width it is given, no line of the output is longer than the
    terminal is wide. *)
Theorem render_bubble_fits `{!WrapperLaws} text term_cols :
  14 < term_cols ->
  Forall (fun s => len s <= term_cols) (render_bubble text term_cols).
Proof.
  intros Hc. pose proof (bubble_width_range term_cols Hc) as Hw.
  rewrite render_bubble_eq by (auto using wrap_nonempty).
  eapply Forall_impl; [|apply box_fits with (w := bubble_width term_cols)].
  - simpl. intros; lia.
  - lia.
  - apply wrap_fits. lia.
Qed.

End BubbleFacts.

(** ** The first-fit wrapper keeps the laws *)

Lemma chunks_fits k cur room s :
  (1 <= k)%nat -> (String.length cur + room = k)%nat ->
  Forall (fun w => len w <= Z.of_nat k) (chunks k cur room s).
Proof.
  intros Hk. revert cur room.
  induction s as [|c s IH]; intros cur room Hc; simpl.
  - destruct cur; constructor; [unfold len; lia | constructor].
  - destruct room as [|r].
    + constructor; [unfold len; lia | apply IH; simpl; lia].
    + apply IH. rewrite str_length_append. simpl. lia.
Qed.

Lemma fill_fits width cur ws :
  len cur <= width -> Forall (fun w => len w <= width) ws ->
  Forall (fun l => len l <= width) (fill width cur ws).
Proof.
  intros Hc F. revert cur Hc. induction F as [|w ws Hw F IH]; intros cur Hc;
    simpl; [repeat constructor; exact Hc|].
  destruct (Z.leb_spec (len cur + 1 + len w) width).
  - apply IH. len_simpl. lia.
  - constructor; auto.
Qed.

Lemma fill_nonempty width cur ws : fill width cur ws <> [].
Proof.
  revert cur. induction ws as [|w ws IH]; intros cur; simpl; [discriminate|].
  destruct (_ <=? _); [apply IH | discriminate].
Qed.

#[export] Instance greedy_laws : WrapperLaws.
Proof.
  split; intros text width; simpl; unfold greedy_wrap.
  - intros Hw.
    assert (F : Forall (fun w => len w <= width)
                  (flat_map (chunks (Z.to_nat width) "" (Z.to_nat width))
                     (words_of text ""))).
    { apply Forall_flat_map, Forall_forall. intros w _.
      eapply Forall_impl; [|apply (chunks_fits (Z.to_nat width)); simpl; lia].
      simpl. intros; lia. }
    destruct (flat_map _ _) as [|w ws].
    + repeat constructor. unfold len. simpl. lia.
    + inversion F; subst. now apply fill_fits.
  - destruct (flat_map _ _); [discriminate | apply fill_nonempty].
Qed.

(** ** Examples *)

(** The box of the repository's test, and the example of the
    specification: the message fits one line of a terminal 40 columns
    wide. *)
Example bubble_on_one_line :
  render_bubble "hello world from leftysay" 40 =
  [ " ___________________________";
    "< hello world from leftysay >";
    " ---------------------------" ].
Proof. vm_compute. reflexivity. Qed.

(** In 20 columns the same message takes two lines. *)
Example bubble_two_lines :
  render_bubble "hello world from leftysay" 20 =
  [ " __________________";
    "/ hello world from \";
    "\ leftysay         /";
    " ------------------" ].
Proof. vm_compute. reflexivity. Qed.

(** At exactly 14 columns there is no box. *)
Example bubble_at_threshold :
  render_bubble "hello world from leftysay" 14 = ["hello world from leftysay"]
  /\ List.length (render_bubble "hello world from leftysay" 15) = 5%nat.
Proof. vm_compute. auto. Qed.

(** The box is sized in bytes: thirty characters of two bytes each fit the
    36 columns of the bubble, but the borders drawn for them take 63 of the
    terminal's 40 columns, and the body 34. *)
Example bubble_overflows_in_columns :
  let text := str_repeat e_acute 30 in
  columns text = 30 /\ len text = 60 /\
  @render_bubble one_line text 40
  = [" " ++ str_repeat "_" 62; "< " ++ text ++ " >";
     " " ++ str_repeat "-" 62] /\
  map columns (@render_bubble one_line text 40) = [63; 34; 63].
Proof. vm_compute. repeat split. Qed.

(** ** The theorems at a concrete message *)

Ltac solve_hyp := first [ lia | vm_compute; discriminate | reflexivity
                        | unfold in_u64, u64_max; lia ].

Lemma render_bubble_narrow_witness :
  render_bubble "hello world from leftysay" 14 = ["hello world from leftysay"].
Proof. apply render_bubble_narrow. lia. Defined.

Lemma render_bubble_height_witness :
  List.length (render_bubble "hello world from leftysay" 20) =
  (List.length (wrap "hello world from leftysay" (bubble_width 20)) + 2)%nat.
Proof. apply render_bubble_height; solve_hyp. Defined.

Lemma render_bubble_widths_witness :
  let box := render_bubble "hello world from leftysay" 20 in
  let m := max_line_len (wrap "hello world from leftysay" (bubble_width 20)) in
  len (top_of box) = m + 3 /\ len (bottom_of box) = m + 3 /\
  Forall (fun s => len s = m + 4) (body_of box).
Proof. apply render_bubble_widths; solve_hyp. Defined.

Lemma render_bubble_borders_witness :
  let box := render_bubble "hello world from leftysay" 20 in
  let m := max_line_len (wrap "hello world from leftysay" (bubble_width 20)) in
  exists u d, top_of box = " " ++ u /\ bottom_of box = " " ++ d /\
    all_char "_" u = true /\ all_char "-" d = true /\
    len u = m + 2 /\ len d = m + 2.
Proof. apply render_bubble_borders; solve_hyp. Defined.

Lemma render_bubble_content_witness :
  map unframe (body_of (render_bubble "hello world from leftysay" 20)) =
  ["hello world from"; "leftysay        "].
Proof.
  refine (render_bubble_content "hello world from leftysay" 20 _ _);
    solve_hyp.
Defined.

Lemma render_bubble_frames_witness :
  nth_error (render_bubble "hello world from leftysay" 20) 2 =
  Some "\ leftysay         /".
Proof.
  refine (render_bubble_frames "hello world from leftysay" 20 1 "leftysay"
            _ _); solve_hyp.
Defined.

Lemma render_bubble_fits_witness :
  Forall (fun s => len s <= 20) (render_bubble "hello world from leftysay" 20).
Proof. apply render_bubble_fits; solve_hyp. Defined.
