(* ===== verification/RowBudget.v ===== *)
(** * RowBudget: how many rows the image gets

    The arithmetic of [main] ([main.rs] 212-215) that divides the height of
    the terminal between the bubble and the image:

      max_image_rows = ((term_rows as f32) * max_height_ratio).floor() as usize
      remaining_rows = term_rows.saturating_sub(bubble_height + 1)
      image_rows     = min(max_image_rows, remaining_rows).max(1)

    and the validation of the ratio in [load_config] ([main.rs] 255-257).

    The ratio is an [f32].  Floats are the binary32 instance of the
    Standard Library's [SpecFloat]: precision 24, maximal exponent 128,
    rounding to nearest even.  [floor() as usize] is one function here: the
    floor of a float is a float, so the composition is exact, and the cast
    saturates (negative numbers and NaN give 0). *)

From Stdlib Require Import ZArith List Bool Lia.
From Stdlib Require Import Floats.SpecFloat.
From S2P Require Import Prelude.
Import ListNotations.

#[local] Open Scope Z_scope.

(** ** binary32 *)

Definition f32 : Set := spec_float.

Definition f32_prec : Z := 24.
Definition f32_emax : Z := 128.

(** [n as f32] for an unsigned integer. *)
Definition f32_of_usize (n : Z) : f32 :=
  binary_normalize f32_prec f32_emax n 0 false.

Definition f32_mul (x y : f32) : f32 := SFmul f32_prec f32_emax x y.

(** [x <= y] and [x > y] on floats: both are false when an operand is NaN. *)
Definition f32_le (x y : f32) : bool := SFleb x y.
Definition f32_gt (x y : f32) : bool := SFltb y x.

(** [x.floor() as usize] *)
Definition f32_floor_as_usize (x : f32) : Z :=
  match x with
  | S754_zero _ => 0
  | S754_nan => 0
  | S754_infinity s => if s then 0 else u64_max
  | S754_finite s m e =>
      if s then 0 else Z.min (Z.shiftl (Z.pos m) e) u64_max
  end.

(** The literals [0.0], [1.0] and [0.55]. *)
Definition f32_zero : f32 := S754_zero false.
Definition f32_one : f32 := S754_finite false 8388608 (-23).
Definition DEFAULT_MAX_HEIGHT_RATIO : f32 := S754_finite false 9227469 (-24).

(** ** The row budget ([main.rs] 212-215) *)

Definition max_image_rows (term_rows : Z) (max_height_ratio : f32) : Z :=
  f32_floor_as_usize (f32_mul (f32_of_usize term_rows) max_height_ratio).

Definition remaining_rows (term_rows bubble_height : Z) : Z :=
  saturating_sub term_rows (bubble_height + 1).

Definition image_rows (term_rows bubble_height : Z) (max_height_ratio : f32)
  : Z :=
  let max_image_rows := max_image_rows term_rows max_height_ratio in
  let remaining_rows := remaining_rows term_rows bubble_height in
  Z.max (Z.min max_image_rows remaining_rows) 1.

(** ** The validation of the configured ratio ([main.rs] 255-257) *)

Definition validate_ratio (max_height_ratio : f32) : f32 :=
  if f32_le max_height_ratio f32_zero || f32_gt max_height_ratio f32_one
  then DEFAULT_MAX_HEIGHT_RATIO
  else max_height_ratio.

(** ** Specification vocabulary *)

(** The rational value of a positive finite float is [m * 2^e]; for
    [e < 0] the floor of [n] times that value is this quotient. *)
Definition exact_cap (n : Z) (m : positive) (e : Z) : Z :=
  (n * Z.pos m) / 2 ^ (- e).

(** The float is finite and its value lies in (0, 1]. *)
Definition f32_in_unit (r : f32) : Prop :=
  match r with
  | S754_finite false m e => e <= 0 /\ Z.pos m <= 2 ^ (- e)
  | _ => False
  end.

(** The heights a terminal reports: [terminal_size] gives a [u16]. *)
Definition u16_max : Z := 65535.

(** [p] holds of [start], [start + 1], ..., [start + n - 1]. *)
Fixpoint all_from (p : Z -> bool) (start : Z) (n : nat) : bool :=
  match n with
  | O => true
  | S k => p start && all_from p (start + 1) k
  end.

(** ** Bounds *)

Lemma f32_floor_as_usize_range x : in_u64 (f32_floor_as_usize x).
Proof.
  unfold in_u64, f32_floor_as_usize, u64_max.
  destruct x as [s| s| |s m e]; try destruct s; try lia.
  pose proof (Z.shiftl_nonneg (Z.pos m) e). lia.
Qed.

Lemma all_from_spec p start n x :
  all_from p start n = true -> start <= x < start + Z.of_nat n -> p x = true.
Proof.
  revert start. induction n as [|n IH]; intros start; simpl; [lia|].
  rewrite andb_true_iff. intros [H0 H1] Hx.
  destruct (Z.eq_dec x start) as [->|N]; [exact H0|].
  apply (IH (start + 1)); [exact H1 | lia].
Qed.

(** (C7) The image gets at least one row, and when the bubble leaves room
    the whole layout fits: the bubble, one blank row and the image take no
    more rows than the terminal has.  This holds for every ratio, NaN and
    infinities included. *)
Theorem image_rows_fits term_rows bubble_height ratio :
  0 <= bubble_height ->
  1 <= image_rows term_rows bubble_height ratio /\
  (bubble_height + 1 < term_rows ->
   bubble_height + 1 + image_rows term_rows bubble_height ratio <= term_rows).
Proof.
  intros Hb. unfold image_rows, remaining_rows, saturating_sub. lia.
Qed.

(** The ratio caps the image: it never gets more rows than the floor
    of the product, unless that is zero. *)
Theorem image_rows_capped term_rows bubble_height ratio :
  image_rows term_rows bubble_height ratio
  <= Z.max 1 (max_image_rows term_rows ratio)
  /\ in_u64 (max_image_rows term_rows ratio).
Proof.
  split; [unfold image_rows; lia | apply f32_floor_as_usize_range].
Qed.

(** When the bubble fills the terminal the image still gets a row: the
    layout is then one row, or more, taller than the terminal. *)
Theorem image_rows_when_full term_rows bubble_height ratio :
  0 <= term_rows <= bubble_height + 1 ->
  image_rows term_rows bubble_height ratio = 1 /\
  term_rows < bubble_height + 1 + image_rows term_rows bubble_height ratio.
Proof.
  intros Hr. unfold image_rows, remaining_rows, saturating_sub.
  pose proof (f32_floor_as_usize_range
                (f32_mul (f32_of_usize term_rows) ratio)) as [H0 _].
  unfold max_image_rows. lia.
Qed.

(** ** The default ratio *)

Lemma default_cap_check :
  all_from (fun n => max_image_rows n DEFAULT_MAX_HEIGHT_RATIO
                     =? exact_cap n 9227469 (-24))
    0 (Z.to_nat 65536) = true.
Proof. vm_cast_no_check (eq_refl true). Qed.

(** (C39) With the default ratio the float arithmetic is exact on every
    height a terminal can report: the cap is the floor of the height times
    the value of the constant, 9227469 / 2^24. *)
Theorem default_cap_exact term_rows :
  0 <= term_rows <= u16_max ->
  max_image_rows term_rows DEFAULT_MAX_HEIGHT_RATIO
  = (term_rows * 9227469) / 16777216.
Proof.
  unfold u16_max. intros Hr. apply Z.eqb_eq.
  apply (all_from_spec _ 0 _ term_rows default_cap_check). lia.
Qed.

(** ** Examples *)

(** The two examples of the specification. *)
Example image_rows_24_4 : image_rows 24 4 DEFAULT_MAX_HEIGHT_RATIO = 13.
Proof. vm_compute. reflexivity. Qed.

Example image_rows_10_8 : image_rows 10 8 DEFAULT_MAX_HEIGHT_RATIO = 1.
Proof. vm_compute. reflexivity. Qed.

(** The float nearest to 0.7 is below 0.7, and ten times its value is
    below 7; the product rounds to 7.0, so the cap is 7 where the floor of
    the exact product is 6. *)
Example cap_rounds_up :
  max_image_rows 10 (S754_finite false 11744051 (-24)) = 7 /\
  exact_cap 10 11744051 (-24) = 6.
Proof. vm_compute. auto. Qed.

(** ** The validation *)

(** (C40) A NaN passes the validation: both comparisons are false on it.
    The cap is then 0 and the image gets one row. *)
Theorem validate_ratio_nan term_rows bubble_height :
  validate_ratio S754_nan = S754_nan /\
  image_rows term_rows bubble_height (validate_ratio S754_nan) = 1.
Proof.
  split; [reflexivity|]. unfold image_rows, max_image_rows, remaining_rows.
  replace (f32_mul (f32_of_usize term_rows) (validate_ratio S754_nan))
    with S754_nan; [simpl; unfold saturating_sub; lia|].
  unfold f32_mul, SFmul, validate_ratio. simpl.
  now destruct (f32_of_usize term_rows).
Qed.

Lemma digits2_pos_bound m : Z.pos m < 2 ^ Z.pos (digits2_pos m).
Proof.
  induction m as [m IH|m IH|]; simpl digits2_pos; [| |reflexivity];
    rewrite Pos2Z.inj_succ, Z.pow_succ_r by lia; lia.
Qed.

(** A valid binary32 mantissa has at most 24 bits. *)
Lemma valid_mantissa_bound s m e :
  valid_binary f32_prec f32_emax (S754_finite s m e) = true ->
  Z.pos m < 2 ^ 24.
Proof.
  unfold valid_binary, bounded, canonical_mantissa, fexp, emin, f32_prec.
  rewrite andb_true_iff, Z.eqb_eq. intros [Hc _].
  pose proof (digits2_pos_bound m) as Hd.
  assert (Z.pos (digits2_pos m) <= 24) by lia.
  eapply Z.lt_le_trans; [exact Hd|]. apply Z.pow_le_mono_r; lia.
Qed.

(** The validation on a positive finite float: it is kept when its
    exponent is below that of 1.0, or equal with a mantissa that is not
    above. *)
Lemma validate_ratio_finite m e :
  validate_ratio (S754_finite false m e) =
  if (e <? -23) || ((e =? -23) && (Z.pos m <=? 8388608))
  then S754_finite false m e else DEFAULT_MAX_HEIGHT_RATIO.
Proof.
  unfold validate_ratio, f32_le, f32_gt, SFleb, SFltb, f32_one, f32_zero.
  cbn [SFcompare orb].
  change (Pos.compare_cont Eq 8388608 m) with (Z.pos 8388608 ?= Z.pos m).
  destruct (Z.ltb_spec e (-23)), (Z.eqb_spec e (-23)),
    (Z.leb_spec (Z.pos m) 8388608), (Z.compare_spec (-23) e),
    (Z.compare_spec (Z.pos 8388608) (Z.pos m));
    cbn [orb andb]; first [reflexivity | lia].
Qed.

(** What the validation guarantees: whatever valid float the
    configuration holds, unless it is a NaN the validated ratio is finite,
    greater than 0 and at most 1. *)
Theorem validate_ratio_sound r :
  valid_binary f32_prec f32_emax r = true -> r <> S754_nan ->
  f32_in_unit (validate_ratio r).
Proof.
  intros V N. assert (D : f32_in_unit DEFAULT_MAX_HEIGHT_RATIO)
    by (split; [lia | now vm_compute]).
  destruct r as [s|s| |s m e]; [exact D | now destruct s | tauto |].
  destruct s; [exact D|]. rewrite validate_ratio_finite.
  pose proof (valid_mantissa_bound _ _ _ V) as Hm.
  destruct (Z.ltb_spec e (-23)) as [L|L]; cbn [orb].
  - split; [lia|]. apply Z.lt_le_incl.
    eapply Z.lt_le_trans; [exact Hm|]. apply Z.pow_le_mono_r; lia.
  - destruct (Z.eqb_spec e (-23)) as [->|_]; [|exact D].
    destruct (Z.leb_spec (Z.pos m) 8388608); [|exact D].
    split; [lia|]. change (2 ^ (- (-23))) with 8388608. lia.
Qed.

(** ** The theorems at concrete sizes *)

Lemma image_rows_fits_witness :
  1 <= image_rows 24 4 DEFAULT_MAX_HEIGHT_RATIO /\
  (4 + 1 < 24 -> 4 + 1 + image_rows 24 4 DEFAULT_MAX_HEIGHT_RATIO <= 24).
Proof. apply image_rows_fits. lia. Defined.

Lemma image_rows_when_full_witness :
  image_rows 10 9 DEFAULT_MAX_HEIGHT_RATIO = 1 /\
  10 < 9 + 1 + image_rows 10 9 DEFAULT_MAX_HEIGHT_RATIO.
Proof. apply image_rows_when_full. lia. Defined.

Lemma default_cap_exact_witness :
  max_image_rows 24 DEFAULT_MAX_HEIGHT_RATIO = (24 * 9227469) / 16777216.
Proof. apply default_cap_exact. unfold u16_max. lia. Defined.

Lemma validate_ratio_sound_witness :
  f32_in_unit (validate_ratio (S754_finite false 11744051 (-24))).
Proof. apply validate_ratio_sound; [reflexivity | discriminate]. Defined.
