(* ===== verification/Config.v ===== *)
(** * Config: the command line, the configuration and its validation

    [struct Cli] ([main.rs] 22-62), [struct Config] with its [Default]
    ([main.rs] 64-92) and [load_config] ([main.rs] 244-262).

    The command line is parsed by [clap] and the configuration file by
    [toml] and [serde].  A [Cli.t] is what [Cli::parse] returned (the parse
    itself is in [CommandLine]); the parser of the configuration is the
    class [Toml], a function from the file's contents to a configuration in
    which [serde] has filled the missing fields from [Config::default].  What
    [load_config] reads of the machine is the record [ConfigEnv]. *)

From Stdlib Require Import ZArith List String Ascii Bool Lia.
From Stdlib Require Import Floats.SpecFloat.
From S2P Require Import Prelude Chafa FileSystem RowBudget.
Import ListNotations.

#[local] Open Scope string_scope.
#[local] Open Scope Z_scope.

(** ** [struct Cli] *)

Module Cli.

Record t : Set := {
  text : option string;
  image : option string;
  pack : option string;
  list : bool;
  doctor : bool;
  no_bubble : bool;
  seed : option Z;
  format : option ChafaFormat.t;
  colors : option ChafaColors.t;
  max_height_ratio : option f32;
  animate : bool;
}.

End Cli.

(** ** [struct Config] and [impl Default for Config] *)

Module Config.

Record t : Set := {
  enabled : bool;
  default_pack : string;
  format : ChafaFormat.t;
  colors : ChafaColors.t;
  max_height_ratio : f32;
  bubble_style : string;
  cache : bool;
  animate : bool;
  cache_max_mb : Z;
}.

Definition default : t :=
  {| enabled := true;
     default_pack := "default";
     format := ChafaFormat.Auto;
     colors := ChafaColors.Auto;
     max_height_ratio := DEFAULT_MAX_HEIGHT_RATIO;
     bubble_style := "classic";
     cache := true;
     animate := false;
     cache_max_mb := DEFAULT_CACHE_MAX_MB |}.

(** [config.max_height_ratio = r] and [config.cache_max_mb = n]. *)
Definition set_max_height_ratio (r : f32) (config : t) : t :=
  {| enabled := enabled config; default_pack := default_pack config;
     format := format config; colors := colors config;
     max_height_ratio := r; bubble_style := bubble_style config;
     cache := cache config; animate := animate config;
     cache_max_mb := cache_max_mb config |}.

Definition set_cache_max_mb (n : Z) (config : t) : t :=
  {| enabled := enabled config; default_pack := default_pack config;
     format := format config; colors := colors config;
     max_height_ratio := max_height_ratio config;
     bubble_style := bubble_style config;
     cache := cache config; animate := animate config;
     cache_max_mb := n |}.

End Config.

(** ** What [load_config] reads *)

(** A file as [exists] and [read_to_string] see it. *)
Inductive file_state : Set :=
| Absent
| Unreadable
| Contents (s : string).

Record ConfigEnv : Set := {
  proj_dirs : bool;          (* [ProjectDirs::from] found a home directory *)
  config_file : file_state;  (* [config.toml] in the configuration directory *)
}.

(** [toml::from_str::<Config>] *)
Class Toml : Type := { from_str : string -> option Config.t }.

(** ** [fn load_config] *)

(** The two corrections of [load_config] ([main.rs] 255-260). *)
Definition validate (config : Config.t) : Config.t :=
  let config :=
    if f32_le (Config.max_height_ratio config) f32_zero
       || f32_gt (Config.max_height_ratio config) f32_one
    then Config.set_max_height_ratio DEFAULT_MAX_HEIGHT_RATIO config
    else config in
  let config :=
    if Config.cache_max_mb config =? 0
    then Config.set_cache_max_mb DEFAULT_CACHE_MAX_MB config
    else config in
  config.

Definition load_config `{Toml} (env : ConfigEnv) : result error Config.t :=
  if negb (proj_dirs env) then Ok Config.default
  else
    match config_file env with
    | Absent => Ok Config.default
    | Unreadable => Err EConfigRead
    | Contents contents =>
        match from_str contents with
        | None => Err EConfigParse
        | Some config => Ok (validate config)
        end
    end.

(** ** Specification vocabulary *)

(** A configuration as the parser can produce it: the ratio is a binary32
    number and the size fits [u64]. *)
Definition config_wf (config : Config.t) : Prop :=
  valid_binary f32_prec f32_emax (Config.max_height_ratio config) = true /\
  in_u64 (Config.cache_max_mb config).

(** A configuration the rest of the program can rely on. *)
Definition config_ok (config : Config.t) : Prop :=
  (Config.max_height_ratio config = S754_nan \/
   f32_in_unit (Config.max_height_ratio config)) /\
  0 < Config.cache_max_mb config <= u64_max.

(** A parser for the examples: it knows two files. *)
Definition toy_toml : Toml :=
  {| from_str := fun s =>
       if String.eqb s "cache_max_mb = 0" then
         Some (Config.set_cache_max_mb 0 Config.default)
       else if String.eqb s "max_height_ratio = 2.0" then
         Some (Config.set_max_height_ratio (S754_finite false 8388608 (-22))
                 Config.default)
       else None |}.

(** ** The validation *)

Lemma validate_ratio_eq config :
  Config.max_height_ratio (validate config)
  = validate_ratio (Config.max_height_ratio config).
Proof.
  unfold validate, validate_ratio.
  destruct (f32_le _ _ || f32_gt _ _);
    destruct (Config.cache_max_mb _ =? 0); reflexivity.
Qed.

Lemma validate_mb_eq config :
  Config.cache_max_mb (validate config)
  = if Config.cache_max_mb config =? 0 then DEFAULT_CACHE_MAX_MB
    else Config.cache_max_mb config.
Proof.
  unfold validate.
  destruct (f32_le _ _ || f32_gt _ _); simpl;
    destruct (Config.cache_max_mb config =? 0); reflexivity.
Qed.

(** (C36) The validation makes a configuration usable: whatever the file
    holds, afterwards the cache budget is not 0 and the ratio, unless it is
    a NaN, is greater than 0 and at most 1. *)
Theorem validate_ok config : config_wf config -> config_ok (validate config).
Proof.
  intros [V [H0 H1]]. split.
  - rewrite validate_ratio_eq.
    destruct (Config.max_height_ratio config) eqn:E;
      try (right; rewrite <- E; apply validate_ratio_sound;
           [now rewrite E | rewrite E; discriminate]).
    now left.
  - rewrite validate_mb_eq. unfold DEFAULT_CACHE_MAX_MB, u64_max in *.
    destruct (Z.eqb_spec (Config.cache_max_mb config) 0); lia.
Qed.

(** The validation touches the ratio and the budget only, and it is
    idempotent: a validated configuration is left alone. *)
Theorem validate_idempotent config :
  validate (validate config) = validate config /\
  Config.enabled (validate config) = Config.enabled config /\
  Config.default_pack (validate config) = Config.default_pack config /\
  Config.format (validate config) = Config.format config /\
  Config.colors (validate config) = Config.colors config /\
  Config.cache (validate config) = Config.cache config /\
  Config.animate (validate config) = Config.animate config.
Proof.
  destruct config as [en dp fo co r bs ca an mb]. unfold validate. simpl.
  destruct (f32_le r f32_zero || f32_gt r f32_one) eqn:R; simpl;
    destruct (Z.eqb_spec mb 0) as [->|N]; simpl; rewrite ?R; simpl;
    try (destruct (Z.eqb_spec mb 0); [lia|]); auto 10.
Qed.

(** ** [load_config] *)

Section LoadConfig.
Context `{Toml}.

(** Without a home directory or without a configuration file the
    configuration is the default one, and the default is usable as it
    is. *)
Theorem load_config_default env :
  proj_dirs env = false \/ config_file env = Absent ->
  load_config env = Ok Config.default /\
  validate Config.default = Config.default /\
  config_ok Config.default.
Proof.
  intros Hd. split; [|split; [reflexivity|]].
  - unfold load_config. destruct Hd as [-> | ->]; [reflexivity|].
    now destruct (proj_dirs env).
  - split; [right; split; [lia | now vm_compute] | now vm_compute].
Qed.

(** [load_config] fails only on a configuration file that exists and
    cannot be read or parsed; what it returns otherwise is the default or
    the validated content of the file. *)
Theorem load_config_cases env :
  match load_config env with
  | Ok config =>
      config = Config.default \/
      exists s c, config_file env = Contents s /\ from_str s = Some c /\
                  config = validate c
  | Err e =>
      proj_dirs env = true /\
      ((e = EConfigRead /\ config_file env = Unreadable) \/
       (e = EConfigParse /\
        exists s, config_file env = Contents s /\ from_str s = None))
  end.
Proof.
  unfold load_config. destruct (proj_dirs env); simpl; [|now left].
  destruct (config_file env) as [| |s]; [now left | auto |].
  destruct (from_str s) as [c|] eqn:P; [right | split]; eauto 6.
Qed.

End LoadConfig.

(** ** The theorems at concrete configurations *)

Lemma validate_ok_witness :
  config_ok (validate (Config.set_cache_max_mb 0 Config.default)).
Proof.
  apply validate_ok. split; [reflexivity | unfold in_u64, u64_max; simpl; lia].
Defined.

Lemma load_config_default_witness :
  @load_config toy_toml {| proj_dirs := true; config_file := Absent |}
    = Ok Config.default /\
  validate Config.default = Config.default /\
  config_ok Config.default.
Proof. apply (@load_config_default toy_toml). now right. Defined.

(** A budget of 0 and a ratio of 2.0 are replaced by the defaults. *)
Example load_config_corrects :
  @load_config toy_toml
    {| proj_dirs := true; config_file := Contents "cache_max_mb = 0" |}
    = Ok Config.default /\
  @load_config toy_toml
    {| proj_dirs := true; config_file := Contents "max_height_ratio = 2.0" |}
    = Ok Config.default.
Proof. split; reflexivity. Qed.
