(* ===== verification/Packs.v ===== *)
(** * Packs: finding the packs of images and messages

    [struct PackMeta] and [struct Pack] ([main.rs] 94-108),
    [pack_search_paths], [scan_packs], [read_pack_meta], [collect_images],
    [is_supported_image] and [read_messages] ([main.rs] 287-403).

    What these functions read of the machine is the record [PackEnv]: the
    environment variables, which paths exist, what [WalkDir] lists under a
    directory and what the files hold.  Paths are strings with [/] as the
    separator.  The parser of [pack.toml] is the class [TomlMeta].

    Strings are byte strings: [to_lowercase] and [trim] act on the ASCII
    letters and the ASCII white space.  For [is_supported_image] this loses
    nothing, since no other character lowercases to a letter of the four
    extensions; [trim] leaves non-ASCII white space in place where Rust
    removes it. *)

From Stdlib Require Import ZArith List String Ascii Bool Lia.
From S2P Require Import Prelude FileSystem Config.
Import ListNotations.

#[local] Open Scope string_scope.

(** ** [struct PackMeta], [struct Pack] *)

Module PackMeta.

Record t : Set := {
  name : string;
  version : string;
  license : string;
  description : string;
  images_dir : string;
}.

End PackMeta.

Module Pack.

Record t : Set := {
  meta : PackMeta.t;
  images : list string;
  messages : list string;
}.

End Pack.

(** ** Paths and strings, as the standard library treats them *)

(** [str::is_empty] *)
Definition is_empty_str (s : string) : bool :=
  match s with EmptyString => true | _ => false end.

(** [s] cut at its last [sep]: what is before it and what is after. *)
Fixpoint split_last (sep : ascii) (s : string) : option (string * string) :=
  match s with
  | EmptyString => None
  | String c s' =>
      match split_last sep s' with
      | Some (before, after) => Some (String c before, after)
      | None => if Ascii.eqb c sep then Some ("", s') else None
      end
  end.

(** [Path::file_name] and [Path::parent] on the paths [WalkDir] yields:
    paths that end in a file name and have no empty component.  The parent
    of a file of the root is the root, that of a bare file name is the
    empty path. *)
Definition file_name (path : string) : string :=
  match split_last "/" path with Some (_, after) => after | None => path end.

Definition parent (path : string) : string :=
  match split_last "/" path with
  | Some (EmptyString, _) => "/"
  | Some (before, _) => before
  | None => ""
  end.

(** [Path::has_root] and whether a path ends in a separator. *)
Definition has_root (path : string) : bool :=
  match path with String c _ => Ascii.eqb c "/" | EmptyString => false end.

Definition ends_with_sep (path : string) : bool :=
  match split_last "/" path with Some (_, EmptyString) => true | _ => false end.

(** [Path::join]: an absolute [rel] replaces [base]; otherwise [rel] is
    appended, after a separator unless [base] is empty or ends in one. *)
Definition join (base rel : string) : string :=
  if has_root rel then rel
  else if is_empty_str base || ends_with_sep base then base ++ rel
  else base ++ "/" ++ rel.

(** [Path::extension]: what follows the last dot of the file name, unless
    the name has no dot or only a leading one. *)
Definition extension (path : string) : option string :=
  let name := file_name path in
  if String.eqb name ".." then None
  else
    match split_last "." name with
    | None => None
    | Some (before, after) =>
        if String.eqb before "" then None else Some after
    end.

(** [str::to_lowercase] on ASCII. *)
Definition lower_char (c : ascii) : ascii :=
  let n := nat_of_ascii c in
  if (65 <=? n)%nat && (n <=? 90)%nat then ascii_of_nat (n + 32) else c.

Fixpoint to_lowercase (s : string) : string :=
  match s with
  | EmptyString => EmptyString
  | String c s' => String (lower_char c) (to_lowercase s')
  end.

(** [char::is_whitespace] on ASCII: tab, line feed, vertical tab, form
    feed, carriage return and space. *)
Definition is_whitespace (c : ascii) : bool :=
  let n := nat_of_ascii c in
  ((9 <=? n)%nat && (n <=? 13)%nat) || (n =? 32)%nat.

Fixpoint trim_start (s : string) : string :=
  match s with
  | EmptyString => EmptyString
  | String c s' => if is_whitespace c then trim_start s' else s
  end.

Fixpoint trim_end (s : string) : string :=
  match s with
  | EmptyString => EmptyString
  | String c s' =>
      match trim_end s' with
      | EmptyString => if is_whitespace c then EmptyString else String c ""
      | t => String c t
      end
  end.

(** [str::trim] *)
Definition trim (s : string) : string := trim_end (trim_start s).

(** [str::lines]: the text is cut after each line feed; a piece that ends
    in a line feed loses it, and then one carriage return before it. *)
Fixpoint split_inclusive_lf (s cur : string) : list (string * bool) :=
  match s with
  | EmptyString => match cur with EmptyString => [] | _ => [(cur, false)] end
  | String c s' =>
      if Ascii.eqb c "010" then (cur, true) :: split_inclusive_lf s' ""
      else split_inclusive_lf s' (cur ++ str_of_char c)
  end.

(** [str::strip_suffix('\r')], the line itself when it has no such
    suffix. *)
Definition strip_cr (line : string) : string :=
  match split_last "013" line with
  | Some (before, EmptyString) => before
  | _ => line
  end.

Definition lines (s : string) : list string :=
  map (fun piece : string * bool =>
         if snd piece then strip_cr (fst piece) else fst piece)
    (split_inclusive_lf s "").

(** ** What the pack functions read *)

Inductive os_kind : Set := Linux | Macos | OtherOs.

Record PackEnv : Type := {
  var_packs_dir : option string;        (* [LEFTYSAY_PACKS_DIR] *)
  data_dir : option string;             (* [ProjectDirs::data_dir] *)
  var_homebrew_prefix : option string;  (* [HOMEBREW_PREFIX] *)
  target_os : os_kind;                  (* [cfg!(target_os = ..)] *)
  path_exists : string -> bool;         (* [Path::exists] *)
  walk_depth3 : string -> list string;  (* [WalkDir::new(base).max_depth(3)] *)
  walk : string -> list (string * bool);(* [WalkDir::new(dir)]: path, is_file *)
  read : string -> file_state;          (* [fs::read_to_string] *)
}.

(** [toml::from_str::<PackMeta>] *)
Class TomlMeta : Type := { meta_from_str : string -> option PackMeta.t }.

(** ** [fn is_supported_image] *)

Definition is_supported_image (path : string) : bool :=
  match extension path with
  | None => false
  | Some ext =>
      let e := to_lowercase ext in
      String.eqb e "png" || String.eqb e "jpg" || String.eqb e "jpeg"
      || String.eqb e "gif"
  end.

(** ** [fn collect_images] *)

Definition collect_images (env : PackEnv) (pack_root images_dir : string)
  : list string :=
  let dir := join pack_root images_dir in
  if negb (path_exists env dir) then []
  else
    map fst
      (filter (fun entry => is_supported_image (fst entry))
         (filter (fun entry => snd entry) (walk env dir))).

(** ** [fn read_messages] *)

Definition read_messages (env : PackEnv) (pack_root : string) : list string :=
  let path := join pack_root "messages.txt" in
  if negb (path_exists env path) then []
  else
    match read env path with
    | Contents contents =>
        filter (fun line => negb (is_empty_str line)) (map trim (lines contents))
    | _ => []
    end.

(** ** [fn pack_search_paths] *)

(** [brew_prefixes.iter().flatten()] and the candidates that exist. *)
Definition brew_candidates (env : PackEnv) : list string :=
  filter (path_exists env)
    (map (fun prefix => join prefix "share/leftysay/packs")
       (filter_map (fun x => x)
          [var_homebrew_prefix env; Some "/opt/homebrew"; Some "/usr/local"])).

Definition pack_search_paths (env : PackEnv) : list string :=
  let paths : list string := [] in
  let paths :=
    match var_packs_dir env with
    | Some extra => (paths ++ [extra])%list
    | None => paths
    end in
  let paths :=
    match data_dir env with
    | Some data => (paths ++ [join data "packs"])%list
    | None => paths
    end in
  let paths :=
    match target_os env with
    | Macos => (paths ++ brew_candidates env)%list
    | Linux => (paths ++ ["/usr/share/leftysay/packs"])%list
    | OtherOs => paths
    end in
  let paths :=
    if path_exists env "packs" then (paths ++ ["packs"])%list else paths in
  paths.

Section Scan.
Context `{TomlMeta}.

(** ** [fn read_pack_meta] *)

Definition read_pack_meta (env : PackEnv) (path : string)
  : result error PackMeta.t :=
  match read env path with
  | Contents contents =>
      match meta_from_str contents with
      | Some meta => Ok meta
      | None => Err (EPackMetaParse path)
      end
  | _ => Err (EPackMetaRead path)
  end.

(** ** [fn scan_packs] *)

Definition seen_contains (seen : list string) (name : string) : bool :=
  existsb (String.eqb name) seen.

(** The loop over the entries of one search path; [packs] and [seen] are
    the two accumulators of [scan_packs]. *)
Fixpoint scan_entries (env : PackEnv) (entries : list string)
  (packs : list Pack.t) (seen : list string)
  : result error (list Pack.t * list string) :=
  match entries with
  | [] => Ok (packs, seen)
  | entry :: rest =>
      if String.eqb (file_name entry) "pack.toml" then
        let pack_root := parent entry in
        match read_pack_meta env entry with
        | Err e => Err e
        | Ok meta =>
            if seen_contains seen (PackMeta.name meta)
            then scan_entries env rest packs seen
            else
              let images :=
                collect_images env pack_root (PackMeta.images_dir meta) in
              match images with
              | [] => scan_entries env rest packs seen
              | _ =>
                  let messages := read_messages env pack_root in
                  scan_entries env rest
                    (packs ++ [{| Pack.meta := meta; Pack.images := images;
                                  Pack.messages := messages |}])%list
                    (PackMeta.name meta :: seen)
              end
        end
      else scan_entries env rest packs seen
  end.

(** The loop over the search paths. *)
Fixpoint scan_bases (env : PackEnv) (bases : list string)
  (packs : list Pack.t) (seen : list string) : result error (list Pack.t) :=
  match bases with
  | [] => Ok packs
  | base :: rest =>
      if negb (path_exists env base) then scan_bases env rest packs seen
      else
        match scan_entries env (walk_depth3 env base) packs seen with
        | Err e => Err e
        | Ok (packs, seen) => scan_bases env rest packs seen
        end
  end.

Definition scan_packs (env : PackEnv) : result error (list Pack.t) :=
  scan_bases env (pack_search_paths env) [] [].

End Scan.

(** ** Specification vocabulary *)

Definition pack_name (p : Pack.t) : string := PackMeta.name (Pack.meta p).

(** A pack as [scan_packs] lets it through: it has an image, its images
    have a supported extension and none of its messages is empty. *)
Definition pack_ok (p : Pack.t) : Prop :=
  Pack.images p <> [] /\
  Forall (fun path => is_supported_image path = true) (Pack.images p) /\
  Forall (fun m => m <> "" /\ trim m = m) (Pack.messages p).

Definition starts_with_ws (s : string) : bool :=
  match s with String c _ => is_whitespace c | EmptyString => false end.

Fixpoint contains_char (c : ascii) (s : string) : bool :=
  match s with
  | EmptyString => false
  | String d s' => Ascii.eqb d c || contains_char c s'
  end.

(** The invariant of the two accumulators of [scan_packs]. *)
Definition scan_inv (packs : list Pack.t) (seen : list string) : Prop :=
  NoDup (map pack_name packs) /\
  (forall n, In n seen <-> In n (map pack_name packs)) /\
  Forall pack_ok packs.

(** ** An environment for the examples

    The layout of the repository's pack test: a pack [default] with one
    image under the directory [LEFTYSAY_PACKS_DIR] names. *)

(** The extensions the program accepts. *)
Definition image_extensions : list string := ["png"; "jpg"; "jpeg"; "gif"].

Definition example_meta : PackMeta.t :=
  {| PackMeta.name := "default"; PackMeta.version := "0.1.0";
     PackMeta.license := "CC0-1.0"; PackMeta.description := "Test";
     PackMeta.images_dir := "images" |}.

Definition toy_toml_meta : TomlMeta :=
  {| meta_from_str := fun s =>
       if String.eqb s "name = default" then Some example_meta else None |}.

Definition example_pack_env : PackEnv :=
  {| var_packs_dir := Some "tmp/packs";
     data_dir := None;
     var_homebrew_prefix := None;
     target_os := OtherOs;
     path_exists := fun p =>
       existsb (String.eqb p)
         ["tmp/packs"; "tmp/packs/default/images";
          "tmp/packs/default/messages.txt"];
     walk_depth3 := fun base =>
       if String.eqb base "tmp/packs"
       then ["tmp/packs"; "tmp/packs/default"; "tmp/packs/default/pack.toml";
             "tmp/packs/default/images"; "tmp/packs/default/images/test.png"]
       else [];
     walk := fun dir =>
       if String.eqb dir "tmp/packs/default/images"
       then [("tmp/packs/default/images", false);
             ("tmp/packs/default/images/test.png", true);
             ("tmp/packs/default/images/notes.txt", true)]
       else [];
     read := fun p =>
       if String.eqb p "tmp/packs/default/pack.toml"
       then Contents "name = default"
       else if String.eqb p "tmp/packs/default/messages.txt"
       then Contents ("  hello  " ++ String "010" ("" ++ String "010" "bye"))
       else Absent |}.

(** A pack found on an earlier search path, under the name of the example
    pack. *)
Definition first_pack : Pack.t :=
  {| Pack.meta := example_meta; Pack.images := ["first/images/a.png"];
     Pack.messages := [] |}.

(** The same directories with a [pack.toml] that does not parse. *)
Definition broken_pack_env : PackEnv :=
  {| var_packs_dir := var_packs_dir example_pack_env;
     data_dir := data_dir example_pack_env;
     var_homebrew_prefix := var_homebrew_prefix example_pack_env;
     target_os := target_os example_pack_env;
     path_exists := path_exists example_pack_env;
     walk_depth3 := walk_depth3 example_pack_env;
     walk := walk example_pack_env;
     read := fun p =>
       if String.eqb p "tmp/packs/default/pack.toml"
       then Contents "name = " else read example_pack_env p |}.

(** ** Cutting at the last separator *)

Lemma split_last_none sep s :
  split_last sep s = None <-> contains_char sep s = false.
Proof.
  induction s as [|c s IH]; simpl; [tauto|].
  destruct (split_last sep s) as [[b a]|]; destruct (Ascii.eqb c sep); simpl;
    intuition discriminate.
Qed.

Lemma split_last_inv sep s before after :
  split_last sep s = Some (before, after) ->
  s = before ++ String sep after /\ contains_char sep after = false.
Proof.
  revert before. induction s as [|c s IH]; intros before; simpl;
    [discriminate|].
  destruct (split_last sep s) as [[b a]|] eqn:E.
  - intros X. inv X. destruct (IH b eq_refl) as [-> Ha]. auto.
  - destruct (Ascii.eqb_spec c sep) as [->|]; intros X; inv X.
    split; [reflexivity | now apply split_last_none].
Qed.

Lemma split_last_app sep before after :
  contains_char sep after = false ->
  split_last sep (before ++ String sep after) = Some (before, after).
Proof.
  intros Ha. induction before as [|c b IH]; simpl.
  - rewrite (proj2 (split_last_none sep after) Ha).
    now rewrite Ascii.eqb_refl.
  - now rewrite IH.
Qed.

(** ** Paths *)

Lemma has_root_no_sep name :
  contains_char "/" name = false -> has_root name = false.
Proof.
  destruct name as [|c s]; simpl; [reflexivity|].
  now intros [E _]%orb_false_iff.
Qed.

Lemma ends_with_sep_inv dir :
  ends_with_sep dir = true -> exists before, dir = before ++ "/".
Proof.
  unfold ends_with_sep. destruct (split_last "/" dir) as [[b a]|] eqn:E;
    [|discriminate].
  destruct a; [|discriminate]. intros _. exists b.
  now apply split_last_inv in E as [-> _].
Qed.

(** A file name joined to a directory has a separator before it. *)
Lemma join_file dir name :
  contains_char "/" name = false ->
  join dir name = name /\ dir = "" \/
  exists before, join dir name = before ++ String "/" name /\
                 (ends_with_sep dir = false -> before = dir).
Proof.
  intros Hn. unfold join. rewrite (has_root_no_sep _ Hn).
  destruct dir as [|c d]; [now left|]. right. simpl is_empty_str.
  cbn [orb]. destruct (ends_with_sep (String c d)) eqn:E.
  - apply ends_with_sep_inv in E as [b ->]. exists b.
    split; [now rewrite str_append_assoc | discriminate].
  - exists (String c d). auto.
Qed.

(** Joining a file name to a directory and cutting it off again. *)
Theorem file_name_join dir name :
  contains_char "/" name = false ->
  file_name (join dir name) = name /\
  (dir <> "" -> ends_with_sep dir = false -> parent (join dir name) = dir).
Proof.
  intros Hn. unfold file_name, parent.
  destruct (join_file dir name Hn) as [[-> ->]|(b & -> & Hb)].
  - rewrite (proj2 (split_last_none "/" name) Hn). split; [reflexivity|].
    congruence.
  - rewrite (split_last_app "/" b name Hn). split; [reflexivity|].
    intros Hd He. rewrite (Hb He). destruct dir; congruence.
Qed.

(** ** [trim] *)

Lemma trim_start_id s : starts_with_ws s = false -> trim_start s = s.
Proof. destruct s as [|c s]; simpl; [reflexivity | now intros ->]. Qed.

Lemma trim_start_no_ws s : starts_with_ws (trim_start s) = false.
Proof.
  induction s as [|c s IH]; simpl; [reflexivity|].
  destruct (is_whitespace c) eqn:W; [exact IH | simpl; exact W].
Qed.

Lemma trim_end_head c s :
  trim_end (String c s) = "" \/ exists t, trim_end (String c s) = String c t.
Proof.
  simpl. destruct (trim_end s); [destruct (is_whitespace c)|]; eauto.
Qed.

Lemma trim_end_no_ws s :
  starts_with_ws s = false -> starts_with_ws (trim_end s) = false.
Proof.
  destruct s as [|c s]; [reflexivity|]. intros W.
  destruct (trim_end_head c s) as [->|[t ->]]; [reflexivity | exact W].
Qed.

Lemma trim_end_idem s : trim_end (trim_end s) = trim_end s.
Proof.
  induction s as [|c s IH]; simpl; [reflexivity|].
  destruct (trim_end s) as [|d t] eqn:E.
  - destruct (is_whitespace c) eqn:W; simpl; [reflexivity | now rewrite W].
  - cbn [trim_end] in *. fold trim_end in *. now rewrite IH.
Qed.

Lemma trim_idem s : trim (trim s) = trim s.
Proof.
  unfold trim. rewrite (trim_start_id (trim_end _)), trim_end_idem; auto.
  apply trim_end_no_ws, trim_start_no_ws.
Qed.

(** ** What [read_messages] and [collect_images] return *)

Lemma read_messages_clean env pack_root :
  Forall (fun m => m <> "" /\ trim m = m) (read_messages env pack_root).
Proof.
  unfold read_messages. destruct (negb _); [constructor|].
  destruct (read env _) as [| |contents]; try constructor.
  apply Forall_forall. intros m Hm. apply filter_In in Hm as [Hm Hn].
  apply in_map_iff in Hm as (l & <- & _). split.
  - intros E. now rewrite E in Hn.
  - apply trim_idem.
Qed.

Lemma collect_images_supported env pack_root images_dir :
  Forall (fun path => is_supported_image path = true)
    (collect_images env pack_root images_dir).
Proof.
  unfold collect_images. destruct (negb _); [constructor|].
  apply Forall_forall. intros path Hp.
  apply in_map_iff in Hp as ([q f] & <- & Hq). now apply filter_In in Hq.
Qed.

(** ** [is_supported_image] *)

Lemma supported_ext ext :
  (String.eqb ext "png" || String.eqb ext "jpg" || String.eqb ext "jpeg"
   || String.eqb ext "gif") = true <-> In ext image_extensions.
Proof.
  unfold image_extensions. simpl. rewrite !orb_true_iff, !String.eqb_eq.
  intuition auto.
Qed.

Lemma to_lowercase_no_dot ext :
  In (to_lowercase ext) image_extensions -> contains_char "." ext = false.
Proof.
  assert (D : forall c, lower_char c = "."%char -> c = "."%char).
  { intros c. unfold lower_char.
    destruct ((65 <=? _)%nat && (_ <=? 90)%nat) eqn:R; [|auto].
    apply andb_true_iff in R as [R1 R2].
    apply Nat.leb_le in R1, R2. intros E.
    apply (f_equal nat_of_ascii) in E. rewrite nat_ascii_embedding in E by lia.
    change (nat_of_ascii ".") with 46%nat in E. lia. }
  assert (N : forall s, contains_char "." (to_lowercase s) = false ->
                        contains_char "." s = false).
  { induction s as [|c s IH]; simpl; [auto|]. rewrite !orb_false_iff.
    intros [H1 H2]. split; [|auto].
    destruct (Ascii.eqb_spec c "."); [subst; discriminate | reflexivity]. }
  intros HI. apply N. unfold image_extensions in HI. simpl in HI.
  destruct HI as [<-|[<-|[<-|[<-|[]]]]]; reflexivity.
Qed.

(** A path is a supported image exactly when its file name is a
    non-empty stem, a dot and an extension that, in lower case, is png, jpg,
    jpeg or gif.  A file named [.png] is not an image. *)
Theorem is_supported_image_spec path :
  is_supported_image path = true <->
  exists stem ext, file_name path = stem ++ "." ++ ext /\ stem <> "" /\
                   In (to_lowercase ext) image_extensions.
Proof.
  unfold is_supported_image, extension. split.
  - destruct (String.eqb_spec (file_name path) ".."); [discriminate|].
    destruct (split_last "." (file_name path)) as [[b a]|] eqn:E;
      [|discriminate].
    destruct (String.eqb_spec b ""); [discriminate|].
    intros S. apply split_last_inv in E as [E _].
    exists b, a. repeat split; auto. now apply supported_ext.
  - intros (stem & ext & E & Hs & He). rewrite E. cbn [append].
    destruct (String.eqb_spec (stem ++ String "." ext) "..") as [X|_].
    { exfalso. destruct stem as [|c [|d stem]]; simpl in X; try congruence.
      - injection X as -> X. subst ext. simpl in He. intuition discriminate.
      - injection X as _ X. destruct stem; discriminate. }
    rewrite (split_last_app "." stem ext) by now apply to_lowercase_no_dot.
    destruct (String.eqb_spec stem ""); [contradiction|].
    now apply supported_ext.
Qed.

(** Upper case is accepted, a hidden file named after an extension and a
    name without a dot are not. *)
Example is_supported_image_examples :
  is_supported_image "packs/default/images/Cat.PNG" = true /\
  is_supported_image "archive.tar.gif" = true /\
  is_supported_image "images/.png" = false /\
  is_supported_image "images/png" = false /\
  is_supported_image "notes.txt" = false.
Proof. now vm_compute. Qed.

(** ** [scan_packs] *)

Section ScanFacts.
Context `{TomlMeta}.

Lemma seen_contains_In seen name :
  seen_contains seen name = true <-> In name seen.
Proof.
  unfold seen_contains. rewrite existsb_exists. split.
  - intros (n & Hn & E). now apply String.eqb_eq in E; subst.
  - intros HI. exists name. split; [exact HI | apply String.eqb_refl].
Qed.

Lemma scan_inv_push packs seen meta images messages :
  scan_inv packs seen ->
  seen_contains seen (PackMeta.name meta) = false ->
  pack_ok {| Pack.meta := meta; Pack.images := images;
             Pack.messages := messages |} ->
  scan_inv
    (packs ++ [{| Pack.meta := meta; Pack.images := images;
                  Pack.messages := messages |}])
    (PackMeta.name meta :: seen).
Proof.
  intros (ND & S & F) N Hok.
  assert (Hn : ~ In (PackMeta.name meta) (map pack_name packs)).
  { rewrite <- S, <- seen_contains_In. congruence. }
  unfold scan_inv. rewrite map_app. simpl. split; [|split].
  - apply NoDup_app; auto; [repeat constructor; simpl; tauto|].
    intros n Hp [<-|[]]. contradiction.
  - intros n. simpl. rewrite in_app_iff, S. simpl.
    unfold pack_name at 2. simpl. tauto.
  - apply Forall_app. auto.
Qed.

(** One search path keeps the invariant and only adds packs. *)
Lemma scan_entries_inv env entries packs seen packs' seen' :
  scan_inv packs seen ->
  scan_entries env entries packs seen = Ok (packs', seen') ->
  scan_inv packs' seen' /\ exists new, packs' = (packs ++ new)%list.
Proof.
  revert packs seen. induction entries as [|entry rest IH];
    intros packs seen Inv; simpl.
  - intros E. inv E. split; [exact Inv | exists []; now rewrite app_nil_r].
  - destruct (String.eqb _ "pack.toml"); [|now apply IH].
    destruct (read_pack_meta env entry) as [meta|e]; [|discriminate].
    destruct (seen_contains seen _) eqn:S; [now apply IH|].
    destruct (collect_images env _ _) as [|img imgs] eqn:C; [now apply IH|].
    intros E. apply IH in E as [Inv' [new ->]].
    + split; [exact Inv'|]. rewrite <- app_assoc. eauto.
    + apply scan_inv_push; auto. split; [discriminate|]. split.
      * rewrite <- C. apply collect_images_supported.
      * apply read_messages_clean.
Qed.

Lemma scan_bases_inv env bases packs seen packs' :
  scan_inv packs seen ->
  scan_bases env bases packs seen = Ok packs' ->
  (exists seen', scan_inv packs' seen') /\
  exists new, packs' = (packs ++ new)%list.
Proof.
  revert packs seen. induction bases as [|base rest IH];
    intros packs seen Inv; simpl.
  - intros E. inv E. split; [eauto | exists []; now rewrite app_nil_r].
  - destruct (negb _); [now apply IH|].
    destruct (scan_entries env _ packs seen) as [[p1 s1]|e] eqn:E1;
      [|discriminate].
    apply scan_entries_inv in E1 as [Inv1 [n1 ->]]; [|exact Inv].
    intros E. apply IH in E as [I2 [n2 ->]]; [|exact Inv1].
    split; [exact I2|]. rewrite <- app_assoc. eauto.
Qed.

(** (C35) What [scan_packs] returns: packs with distinct names, each with
    at least one image, all of them files with a supported extension, and
    with messages that are neither empty nor padded with white space. *)
Theorem scan_packs_ok env packs :
  scan_packs env = Ok packs ->
  NoDup (map pack_name packs) /\ Forall pack_ok packs.
Proof.
  intros E. apply scan_bases_inv in E as [[seen (ND & _ & F)] _]; auto.
  repeat split; [constructor | tauto | tauto | constructor].
Qed.

(** The first pack of a name wins: scanning one more search path never
    removes or replaces a pack found before, and adds no pack whose name was
    seen. *)
Theorem scan_entries_extends env entries packs seen packs' seen' :
  scan_inv packs seen ->
  scan_entries env entries packs seen = Ok (packs', seen') ->
  exists new, packs' = (packs ++ new)%list /\
    forall p, In p new -> ~ In (pack_name p) seen.
Proof.
  intros Inv E. destruct (scan_entries_inv _ _ _ _ _ _ Inv E)
    as [(ND & _ & _) [new ->]].
  exists new. split; [reflexivity|]. intros p Hp Hs.
  rewrite map_app in ND. destruct Inv as (_ & S & _). apply S in Hs.
  eapply NoDup_app_disjoint; eauto. now apply in_map.
Qed.

(** [read_pack_meta] fails on a file that cannot be read or parsed. *)
Lemma read_pack_meta_error env path e :
  read_pack_meta env path = Err e ->
  (e = EPackMetaRead path /\ forall s, read env path <> Contents s) \/
  (e = EPackMetaParse path /\
   exists s, read env path = Contents s /\ meta_from_str s = None).
Proof.
  unfold read_pack_meta. destruct (read env path) as [| |s] eqn:R;
    try (intros X; inv X; left; split; [reflexivity | congruence]).
  destruct (meta_from_str s) eqn:P; intros X; inv X. right. eauto.
Qed.

Lemma scan_entries_error env entries packs seen e :
  scan_entries env entries packs seen = Err e ->
  exists path, file_name path = "pack.toml" /\
               read_pack_meta env path = Err e.
Proof.
  revert packs seen. induction entries as [|entry rest IH];
    intros packs seen; simpl; [discriminate|].
  destruct (String.eqb_spec (file_name entry) "pack.toml") as [Fn|];
    [|apply IH].
  destruct (read_pack_meta env entry) as [meta|e1] eqn:R.
  - destruct (seen_contains seen _); [apply IH|].
    destruct (collect_images env _ _); apply IH.
  - intros X. inv X. eauto.
Qed.

Lemma scan_bases_error env bases packs seen e :
  scan_bases env bases packs seen = Err e ->
  exists path, file_name path = "pack.toml" /\
               read_pack_meta env path = Err e.
Proof.
  revert packs seen. induction bases as [|base rest IH]; intros packs seen;
    simpl; [discriminate|].
  destruct (negb _); [apply IH|].
  destruct (scan_entries env _ packs seen) as [[p1 s1]|e1] eqn:E1; [apply IH|].
  intros X. inv X. eauto using scan_entries_error.
Qed.

(** The only errors of [scan_packs] are those of reading and parsing
    a [pack.toml]. *)
Theorem scan_packs_error env e :
  scan_packs env = Err e ->
  exists path, file_name path = "pack.toml" /\
    ((e = EPackMetaRead path /\ forall s, read env path <> Contents s) \/
     (e = EPackMetaParse path /\
      exists s, read env path = Contents s /\ meta_from_str s = None)).
Proof.
  intros (path & Fn & R)%scan_bases_error. exists path.
  split; [exact Fn | exact (read_pack_meta_error _ _ _ R)].
Qed.

End ScanFacts.

(** One pack is found, its name is [default] and it has one image. *)
Example scan_example_pack :
  exists p, @scan_packs toy_toml_meta example_pack_env = Ok [p] /\
    pack_name p = "default" /\ List.length (Pack.images p) = 1%nat /\
    Pack.messages p = ["hello"; "bye"].
Proof. eexists. vm_compute. auto. Qed.

(** ** [pack_search_paths] *)

(** The order of the search: the directory [LEFTYSAY_PACKS_DIR] names
    comes first whether it exists or not, the user's data directory next,
    then the system's, and the directory [packs] of the working directory
    last. *)
Theorem pack_search_paths_order env :
  exists system,
    pack_search_paths env =
    ((match var_packs_dir env with Some d => [d] | None => [] end)
     ++ (match data_dir env with Some d => [join d "packs"] | None => [] end)
     ++ system
     ++ (if path_exists env "packs" then ["packs"] else []))%list /\
    match target_os env with
    | Linux => system = ["/usr/share/leftysay/packs"]
    | Macos => system = brew_candidates env /\
               Forall (fun p => path_exists env p = true) system
    | OtherOs => system = []
    end.
Proof.
  unfold pack_search_paths.
  exists (match target_os env with
          | Linux => ["/usr/share/leftysay/packs"]
          | Macos => brew_candidates env
          | OtherOs => []
          end).
  split.
  - destruct (var_packs_dir env), (data_dir env), (target_os env),
      (path_exists env "packs"); simpl; rewrite ?app_nil_r, <- ?app_assoc;
      reflexivity.
  - destruct (target_os env); auto. split; [reflexivity|].
    unfold brew_candidates. apply Forall_forall. intros p Hp.
    now apply filter_In in Hp.
Qed.

(** ** The theorems at the example environment *)

Lemma scan_packs_ok_witness :
  NoDup (map pack_name
           (unwrap_or [] (@scan_packs toy_toml_meta example_pack_env))) /\
  Forall pack_ok (unwrap_or [] (@scan_packs toy_toml_meta example_pack_env)).
Proof. apply (@scan_packs_ok toy_toml_meta example_pack_env). reflexivity. Defined.

Lemma scan_entries_extends_witness :
  exists new, [first_pack] = ([first_pack] ++ new)%list /\
    forall p, In p new -> ~ In (pack_name p) ["default"].
Proof.
  apply (@scan_entries_extends toy_toml_meta example_pack_env
           (walk_depth3 example_pack_env "tmp/packs")
           [first_pack] ["default"] [first_pack] ["default"]);
    [|reflexivity].
  split; [repeat constructor; simpl; tauto|]. split; [reflexivity|].
  repeat constructor. discriminate.
Defined.

Lemma scan_packs_error_witness :
  exists path, file_name path = "pack.toml" /\
    ((EPackMetaParse "tmp/packs/default/pack.toml" = EPackMetaRead path /\
      forall s, read broken_pack_env path <> Contents s) \/
     (EPackMetaParse "tmp/packs/default/pack.toml" = EPackMetaParse path /\
      exists s, read broken_pack_env path = Contents s /\
                @meta_from_str toy_toml_meta s = None)).
Proof.
  apply (@scan_packs_error toy_toml_meta broken_pack_env). reflexivity.
Defined.

Lemma file_name_join_witness :
  file_name (join "tmp/packs/default" "pack.toml") = "pack.toml" /\
  ("tmp/packs/default" <> "" -> ends_with_sep "tmp/packs/default" = false ->
   parent (join "tmp/packs/default" "pack.toml") = "tmp/packs/default").
Proof. apply file_name_join. reflexivity. Defined.

(** [Path::join] with an empty base, a base that ends in a separator and an
    absolute second path; the parent of a file of the root. *)
Example join_examples :
  join "" "chafa" = "chafa" /\ join "/usr/bin/" "chafa" = "/usr/bin/chafa" /\
  join "/usr/bin" "chafa" = "/usr/bin/chafa" /\
  join "packs/default" "/srv/images" = "/srv/images" /\
  parent "/pack.toml" = "/" /\ parent "pack.toml" = "".
Proof. repeat split. Qed.
