(* ===== verification/Select.v ===== *)
(** * Select: which message and which image

    [resolve_message], [resolve_image] and [pick_index] ([main.rs]
    405-454).

    The random number generator is the class [Rng]: [StdRng] seeded from a
    [u64] or from the operating system's entropy, and [gen_range], with the
    one law the program relies on: the number drawn from [0..len] is in that
    range.  Each call of [pick_index] makes a generator of its own; the
    entropy it would read is an argument of the model, so two calls without
    a seed are independent. *)

From Stdlib Require Import ZArith List String Ascii Bool Lia.
From S2P Require Import Prelude Chafa FileSystem Config Packs.
Import ListNotations.

#[local] Open Scope string_scope.
#[local] Open Scope Z_scope.

(** ** The generator *)

Class Rng : Type := {
  rng_state : Type;
  seed_from_u64 : Z -> rng_state;
  from_entropy : Z -> rng_state;
  gen_range : rng_state -> Z -> Z;
  gen_range_lt : forall rng len, 0 < len -> 0 <= gen_range rng len < len;
}.

Section Select.
Context `{Rng}.

(** ** [fn pick_index] *)

Definition pick_index (len : Z) (seed : option Z) (entropy : Z)
  : result error Z :=
  if len =? 0 then Err ENoImages
  else
    let rng :=
      match seed with
      | Some seed => seed_from_u64 seed
      | None => from_entropy entropy
      end in
    Ok (gen_range rng len).

(** [packs.iter().find(|p| p.meta.name == pack_name)] *)
Definition find_pack (packs : list Pack.t) (pack_name : string)
  : option Pack.t :=
  find (fun p => String.eqb (PackMeta.name (Pack.meta p)) pack_name) packs.

(** [cli.pack.clone().unwrap_or_else(|| config.default_pack.clone())] *)
Definition chosen_pack (cli : Cli.t) (config : Config.t) : string :=
  match Cli.pack cli with
  | Some name => name
  | None => Config.default_pack config
  end.

(** [v.len()] and [v[idx]] on a vector of strings. *)
Definition vec_len (v : list string) : Z := Z.of_nat (List.length v).
Definition vec_get (v : list string) (idx : Z) : string :=
  nth (Z.to_nat idx) v "".

(** ** [fn resolve_message] *)

Definition resolve_message (cli : Cli.t) (packs : list Pack.t)
  (config : Config.t) (seed : option Z) (entropy : Z) : result error string :=
  match Cli.text cli with
  | Some text => Ok text
  | None =>
      let pack_name := chosen_pack cli config in
      match find_pack packs pack_name with
      | Some pack =>
          if negb (vec_len (Pack.messages pack) =? 0) then
            match pick_index (vec_len (Pack.messages pack)) seed entropy with
            | Err e => Err e
            | Ok idx => Ok (vec_get (Pack.messages pack) idx)
            end
          else Ok DEFAULT_MESSAGE
      | None => Ok DEFAULT_MESSAGE
      end
  end.

(** ** [fn resolve_image] *)

Definition resolve_image (cli : Cli.t) (packs : list Pack.t)
  (config : Config.t) (seed : option Z) (entropy : Z) : result error string :=
  match Cli.image cli with
  | Some path => Ok path
  | None =>
      let pack_name := chosen_pack cli config in
      match find_pack packs pack_name with
      | None => Err (EPackNotFound pack_name)
      | Some pack =>
          match pick_index (vec_len (Pack.images pack)) seed entropy with
          | Err e => Err e
          | Ok idx => Ok (vec_get (Pack.images pack) idx)
          end
      end
  end.

End Select.

(** ** A generator for the examples: the seed itself, reduced modulo the
    length. *)

Definition toy_rng : Rng :=
  {| rng_state := Z;
     seed_from_u64 := fun s => s;
     from_entropy := fun e => e;
     gen_range := fun s len => s mod len;
     gen_range_lt := fun s len Hlen => Z.mod_pos_bound s len Hlen |}.

Definition example_pack : Pack.t :=
  {| Pack.meta := example_meta;
     Pack.images := ["cat.png"; "dog.png"; "owl.png"];
     Pack.messages := ["meow"; "woof"; "hoot"] |}.

Definition plain_cli : Cli.t :=
  {| Cli.text := None; Cli.image := None; Cli.pack := None;
     Cli.list := false; Cli.doctor := false; Cli.no_bubble := false;
     Cli.seed := Some 7; Cli.format := None; Cli.colors := None;
     Cli.max_height_ratio := None; Cli.animate := false |}.

(** ** [pick_index] *)

Section SelectFacts.
Context `{Rng}.

Lemma vec_len_nonneg v : 0 <= vec_len v.
Proof. unfold vec_len. lia. Qed.

Lemma vec_get_In v idx : 0 <= idx < vec_len v -> In (vec_get v idx) v.
Proof. unfold vec_len, vec_get. intros Hi. apply nth_In. lia. Qed.

Lemma find_pack_spec packs name p :
  find_pack packs name = Some p -> In p packs /\ pack_name p = name.
Proof.
  unfold find_pack. intros F. apply find_some in F as [HI E].
  split; [exact HI | now apply String.eqb_eq].
Qed.

Lemma pick_index_eq len seed entropy :
  0 <= len ->
  (len = 0 /\ pick_index len seed entropy = Err ENoImages) \/
  (exists idx, pick_index len seed entropy = Ok idx /\ 0 <= idx < len).
Proof.
  intros Hl. unfold pick_index. destruct (Z.eqb_spec len 0); [auto|].
  right. eexists. split; [reflexivity|]. apply gen_range_lt. lia.
Qed.

(** [pick_index] fails exactly on an empty collection, and otherwise
    returns an index within it; with a seed the index does not depend on the
    entropy. *)
Theorem pick_index_spec len seed entropy :
  0 <= len ->
  (len = 0 -> pick_index len seed entropy = Err ENoImages) /\
  (0 < len -> exists idx, pick_index len seed entropy = Ok idx /\
                          0 <= idx < len) /\
  (forall s e, pick_index len (Some s) e
               = pick_index len (Some s) entropy).
Proof.
  intros Hl. split; [|split].
  - now intros ->.
  - intros Hp. destruct (pick_index_eq len seed entropy Hl) as [[-> _]|];
      [lia | assumption].
  - reflexivity.
Qed.

(** ** [resolve_message] *)

(** [resolve_message] never fails: it returns the text of the command
    line if there is one, else a message of the chosen pack if that pack is
    known and has messages, else the default message. *)
Theorem resolve_message_total cli packs config seed entropy :
  exists m, resolve_message cli packs config seed entropy = Ok m /\
    match Cli.text cli with
    | Some text => m = text
    | None =>
        match find_pack packs (chosen_pack cli config) with
        | Some pack =>
            if vec_len (Pack.messages pack) =? 0 then m = DEFAULT_MESSAGE
            else In m (Pack.messages pack)
        | None => m = DEFAULT_MESSAGE
        end
    end.
Proof.
  unfold resolve_message. destruct (Cli.text cli) as [text|]; [eauto|].
  destruct (find_pack packs _) as [pack|]; [|eauto].
  destruct (Z.eqb_spec (vec_len (Pack.messages pack)) 0) as [E0|N0];
    simpl; [eauto|].
  destruct (pick_index_eq (vec_len (Pack.messages pack)) seed entropy
              (vec_len_nonneg _)) as [[E0 _]|(idx & -> & Hi)];
    [contradiction|].
  eexists. split; [reflexivity | now apply vec_get_In].
Qed.

(** ** [resolve_image] *)

(** [resolve_image]: the path of the command line is returned as it
    is; otherwise the chosen pack must be known and have an image, and the
    result is one of its images. *)
Theorem resolve_image_spec cli packs config seed entropy :
  match Cli.image cli with
  | Some path => resolve_image cli packs config seed entropy = Ok path
  | None =>
      match find_pack packs (chosen_pack cli config) with
      | None =>
          resolve_image cli packs config seed entropy
          = Err (EPackNotFound (chosen_pack cli config))
      | Some pack =>
          (Pack.images pack = [] /\
           resolve_image cli packs config seed entropy = Err ENoImages) \/
          (exists path, resolve_image cli packs config seed entropy = Ok path
                        /\ In path (Pack.images pack))
      end
  end.
Proof.
  unfold resolve_image. destruct (Cli.image cli) as [path|]; [reflexivity|].
  destruct (find_pack packs _) as [pack|]; [|reflexivity].
  destruct (pick_index_eq (vec_len (Pack.images pack)) seed entropy
              (vec_len_nonneg _)) as [[E0 ->]|(idx & -> & Hi)].
  - left. split; [|reflexivity]. unfold vec_len in E0.
    destruct (Pack.images pack); [reflexivity | simpl in E0; lia].
  - right. eexists. split; [reflexivity | now apply vec_get_In].
Qed.

(** On the packs [scan_packs] lets through, [resolve_image] fails
    only when the chosen pack is not among them: a pack that is found has an
    image. *)
Theorem resolve_image_scanned cli packs config seed entropy e :
  Forall pack_ok packs ->
  resolve_image cli packs config seed entropy = Err e ->
  e = EPackNotFound (chosen_pack cli config) /\
  Cli.image cli = None /\
  ~ In (chosen_pack cli config) (map pack_name packs).
Proof.
  intros Hok E.
  pose proof (resolve_image_spec cli packs config seed entropy) as S.
  destruct (Cli.image cli) as [path|]; [congruence|].
  destruct (find_pack packs _) as [pack|] eqn:F.
  - exfalso. apply find_pack_spec in F as [HI _].
    rewrite Forall_forall in Hok. destruct (Hok _ HI) as [Hne _].
    destruct S as [[E0 _]|(path & S & _)]; congruence.
  - rewrite S in E. inv E. repeat split. intros HI.
    apply in_map_iff in HI as (p & Hp & HI).
    unfold find_pack in F. eapply find_none in F; [|exact HI].
    simpl in F. fold (pack_name p) in F. rewrite Hp, String.eqb_refl in F.
    discriminate.
Qed.

(** With a seed, the message and the image are drawn by two
    generators in the same state: in a pack with as many messages as images
    they have the same index. *)
Theorem seeded_choice_paired cli packs config s e1 e2 pack :
  Cli.text cli = None -> Cli.image cli = None ->
  find_pack packs (chosen_pack cli config) = Some pack ->
  vec_len (Pack.messages pack) = vec_len (Pack.images pack) ->
  0 < vec_len (Pack.images pack) ->
  exists idx, 0 <= idx < vec_len (Pack.images pack) /\
    resolve_message cli packs config (Some s) e1
      = Ok (vec_get (Pack.messages pack) idx) /\
    resolve_image cli packs config (Some s) e2
      = Ok (vec_get (Pack.images pack) idx).
Proof.
  intros T I F L P. unfold resolve_message, resolve_image.
  rewrite T, I, F, L. unfold pick_index.
  destruct (Z.eqb_spec (vec_len (Pack.images pack)) 0); [lia|]. simpl.
  eexists. split; [|split; reflexivity]. now apply gen_range_lt.
Qed.

End SelectFacts.

(** ** The theorems at the example pack *)

#[local] Existing Instance toy_rng.

Lemma pick_index_spec_witness :
  (3 = 0 -> pick_index 3 (Some 7) 0 = Err ENoImages) /\
  (0 < 3 -> exists idx, pick_index 3 (Some 7) 0 = Ok idx /\ 0 <= idx < 3) /\
  (forall s e, pick_index 3 (Some s) e = pick_index 3 (Some s) 0).
Proof. apply pick_index_spec. lia. Defined.

Lemma resolve_image_scanned_witness :
  EPackNotFound "other" = EPackNotFound "other" /\
  Cli.image plain_cli = None /\
  ~ In "other" (map pack_name [example_pack]).
Proof.
  apply (resolve_image_scanned plain_cli [example_pack]
           (Config.set_cache_max_mb 64
              {| Config.enabled := true; Config.default_pack := "other";
                 Config.format := ChafaFormat.Auto;
                 Config.colors := ChafaColors.Auto;
                 Config.max_height_ratio := Config.max_height_ratio Config.default;
                 Config.bubble_style := "classic"; Config.cache := true;
                 Config.animate := false; Config.cache_max_mb := 64 |})
           (Some 7) 0 (EPackNotFound "other")); [|reflexivity].
  repeat constructor; simpl; try discriminate.
Defined.

Lemma seeded_choice_paired_witness :
  exists idx, 0 <= idx < 3 /\
    resolve_message plain_cli [example_pack] Config.default (Some 7) 1
      = Ok (vec_get (Pack.messages example_pack) idx) /\
    resolve_image plain_cli [example_pack] Config.default (Some 7) 2
      = Ok (vec_get (Pack.images example_pack) idx).
Proof.
  apply (seeded_choice_paired plain_cli [example_pack] Config.default 7 1 2
           example_pack); first [reflexivity | unfold vec_len; simpl; lia].
Defined.

(** Seed 7 picks the second entry of three: the dog says woof. *)
Example seeded_choice_example :
  resolve_message plain_cli [example_pack] Config.default (Some 7) 0 = Ok "woof"
  /\ resolve_image plain_cli [example_pack] Config.default (Some 7) 0
     = Ok "dog.png".
Proof. split; reflexivity. Qed.
