(* ===== verification/Main.v ===== *)
(** * Main: the program from the command line to the printed image

    [main] ([main.rs] 164-234), [terminal_dimensions] ([main.rs] 236-242),
    [find_chafa] ([main.rs] 264-285), [cache_dir] ([main.rs] 633-637),
    [print_pack_list] ([main.rs] 675-691) and [print_doctor] ([main.rs]
    704-725).

    What the program reads of the machine before it renders is the record
    [MainEnv]; the cache directory, the images and the renderer are the
    [world] of [FileSystem].  [main] returns what it wrote to the standard
    output and to the standard error, in order, together with its result:
    what was printed before an error stays printed. *)

From Stdlib Require Import ZArith List String Ascii Bool Lia.
From Stdlib Require Import Floats.SpecFloat.
From S2P Require Import Prelude Encoding Chafa FileSystem CacheKey.
From S2P Require Import StableSort CacheStore Renderer Pipeline.
From S2P Require Import Bubble RowBudget Config Packs Select.
Import ListNotations.

#[local] Open Scope string_scope.
#[local] Open Scope Z_scope.

(** ** What [main] reads of the machine *)

Record MainEnv : Type := {
  cli : Cli.t;                     (* [Cli::parse()] *)
  config_env : ConfigEnv;
  var_chafa : option string;       (* [LEFTYSAY_CHAFA] *)
  var_path : option (list string); (* [PATH], split *)
  is_file : string -> bool;        (* [Path::is_file] *)
  windows : bool;                  (* [cfg!(windows)] *)
  os : string;                     (* [std::env::consts::OS] *)
  term : option (Z * Z);           (* [terminal_size()] *)
  dirs : option (string * string * string);
                                   (* config, data and cache directory *)
  pack_env : PackEnv;
  entropy_message : Z;             (* what [from_entropy] reads, per call *)
  entropy_image : Z;
}.

(** [Display] for [f32] and [bool], used by [print_doctor] only. *)
Class Show : Type := { show_f32 : f32 -> string }.

Definition show_bool (b : bool) : string := if b then "true" else "false".

(** What a run leaves behind. *)
Record outcome : Type := {
  status : result error unit;
  printed : list string;    (* standard output *)
  eprinted : list string;   (* standard error *)
}.

Definition newline : string := String "010" "".

(** [println!("{s}")] writes the line and a line feed. *)
Definition println (s : string) : string := s ++ newline.

(** ** [fn terminal_dimensions] *)

Definition terminal_dimensions (env : MainEnv) : Z * Z :=
  match term env with
  | Some (w, h) => (w, h)
  | None => (80, 24)
  end.

(** ** [fn cache_dir]

    The directory whose listing is the [cache] field of the [world]. *)

Definition cache_dir (env : MainEnv) : string :=
  match option_map (fun proj => snd proj) (dirs env) with
  | Some dir => dir
  | None => ".cache/leftysay"
  end.

(** [cache_dir.join(format!("{cache_key}.{CACHE_FILE_EXT}"))] *)
Definition cache_path (env : MainEnv) (key : string) : string :=
  join (cache_dir env) (cache_file_name key).

(** ** [fn find_chafa] *)

Definition install_hint (os : string) : string :=
  if String.eqb os "linux" then
    "Install: sudo apt install chafa (Debian/Ubuntu) or sudo pacman -S chafa (Arch)"
  else if String.eqb os "macos" then "Install: brew install chafa"
  else "Install chafa from your package manager".

(** The error is the message [main] prints before it fails. *)
Definition find_chafa (env : MainEnv) : result string string :=
  match var_chafa env with
  | Some path => Ok path
  | None =>
      let candidate := if windows env then "chafa.exe" else "chafa" in
      let found :=
        match var_path env with
        | Some paths =>
            find (is_file env) (map (fun dir => join dir candidate) paths)
        | None => None
        end in
      match found with
      | Some full => Ok full
      | None => Err ("leftysay requires chafa. " ++ install_hint (os env))
      end
  end.

(** ** [fn print_pack_list]

    Every image of a pack has a file name, since [is_supported_image] found
    its extension: the line of an image is always printed. *)

Definition pack_lines (pack : Pack.t) : list string :=
  let meta := Pack.meta pack in
  println (PackMeta.name meta ++ " (v" ++ PackMeta.version meta ++ ", "
           ++ PackMeta.license meta ++ "): " ++ PackMeta.description meta)
  :: map (fun image => println ("  - " ++ file_name image)) (Pack.images pack).

Definition print_pack_list (packs : list Pack.t) : list string :=
  match packs with
  | [] => [println "No packs found."]
  | _ => flat_map pack_lines packs
  end.

(** ** [fn print_doctor] *)

Definition print_doctor `{Show} (env : MainEnv) (chafa : string)
  (cols rows : Z) (config : Config.t) : list string :=
  ([println "leftysay doctor";
    println ("chafa: " ++ chafa);
    println ("terminal: " ++ fmt_usize cols ++ " cols x " ++ fmt_usize rows
             ++ " rows");
    println ("config.format: " ++ ChafaFormat.as_arg (Config.format config));
    println ("config.colors: " ++ ChafaColors.as_arg (Config.colors config));
    println ("config.max_height_ratio: "
             ++ show_f32 (Config.max_height_ratio config));
    println ("config.cache: " ++ show_bool (Config.cache config));
    println ("config.cache_max_mb: " ++ fmt_usize (Config.cache_max_mb config))]
   ++ match dirs env with
      | Some (config_dir, data_dir, cache_dir) =>
          [println ("config dir: " ++ config_dir);
           println ("data dir: " ++ data_dir);
           println ("cache dir: " ++ cache_dir)]
      | None => []
      end
   ++ [println "pack search paths:"]
   ++ map (fun path => println ("  - " ++ path))
        (pack_search_paths (pack_env env)))%list.

(** ** [fn main] *)

Section Main.
Context `{Hasher} `{Wrapper} `{Toml} `{TomlMeta} `{Rng} `{Show}.

(** What [main] prints of the message ([main.rs] 199-210). *)
Definition bubble_of (cli : Cli.t) (message : string) (term_cols : Z)
  : list string :=
  if Cli.no_bubble cli then [] else render_bubble message term_cols.

Definition print_bubble (cli : Cli.t) (message : string)
  (bubble : list string) : list string :=
  match bubble with
  | [] =>
      if negb (is_empty_str message) && negb (Cli.no_bubble cli)
      then [println message] else []
  | _ => map println bubble
  end.

(** The options [main] hands to [render_image] ([main.rs] 190-193 and
    212-228). *)
Definition render_options (cli : Cli.t) (config : Config.t)
  (term_cols term_rows : Z) (bubble : list string) : RenderOptions :=
  let format := match Cli.format cli with
                | Some f => f | None => Config.format config end in
  let colors := match Cli.colors cli with
                | Some c => c | None => Config.colors config end in
  let max_height_ratio :=
    match Cli.max_height_ratio cli with
    | Some r => r | None => Config.max_height_ratio config end in
  let animate := if Cli.animate cli then true else Config.animate config in
  let bubble_height := Z.of_nat (List.length bubble) in
  let image_rows := image_rows term_rows bubble_height max_height_ratio in
  {| cols := term_cols;
     rows := image_rows;
     format := format;
     colors := colors;
     animate := animate;
     cache_enabled := Config.cache config;
     cache_max_mb := Config.cache_max_mb config |}.

Definition stop (r : result error unit) (out err : list string) (w : world)
  : outcome * world :=
  ({| status := r; printed := out; eprinted := err |}, w).

Definition main (env : MainEnv) (w : world) : outcome * world :=
  let cli := cli env in
  match load_config (config_env env) with
  | Err e => stop (Err e) [] [] w
  | Ok config =>
  if negb (Config.enabled config) then stop (Ok tt) [] [] w else
  match find_chafa env with
  | Err e => stop (Err EChafaMissing) [] [println e] w
  | Ok chafa =>
  let '(term_cols, term_rows) := terminal_dimensions env in
  if Cli.doctor cli
  then stop (Ok tt) (print_doctor env chafa term_cols term_rows config) [] w
  else
  match scan_packs (pack_env env) with
  | Err e => stop (Err e) [] [] w
  | Ok packs =>
  if Cli.list cli then stop (Ok tt) (print_pack_list packs) [] w else
  match resolve_message cli packs config (Cli.seed cli) (entropy_message env)
  with
  | Err e => stop (Err e) [] [] w
  | Ok message =>
  match resolve_image cli packs config (Cli.seed cli) (entropy_image env) with
  | Err e => stop (Err e) [] [] w
  | Ok image_path =>
  let bubble := bubble_of cli message term_cols in
  let out := print_bubble cli message bubble in
  let options := render_options cli config term_cols term_rows bubble in
  match render_image chafa image_path options w with
  | (Err e, w') => stop (Err e) out [] w'
  | (Ok image_output, w') => stop (Ok tt) (out ++ [image_output])%list [] w'
  end end end end end end.

End Main.

(** ** Specification vocabulary *)

Section MainSpec.
Context `{Hasher} `{Wrapper} `{Toml} `{TomlMeta} `{Rng} `{Show}.

Definition term_cols (env : MainEnv) : Z := fst (terminal_dimensions env).
Definition term_rows (env : MainEnv) : Z := snd (terminal_dimensions env).

(** The run gets as far as rendering: the configuration is read and
    enabled, chafa is found, the command line asks for no report, and a
    message and an image are chosen. *)
Definition reaches_render (env : MainEnv) (config : Config.t)
  (chafa message image_path : string) : Prop :=
  load_config (config_env env) = Ok config /\
  Config.enabled config = true /\
  find_chafa env = Ok chafa /\
  Cli.doctor (cli env) = false /\ Cli.list (cli env) = false /\
  exists packs,
    scan_packs (pack_env env) = Ok packs /\
    resolve_message (cli env) packs config (Cli.seed (cli env))
      (entropy_message env) = Ok message /\
    resolve_image (cli env) packs config (Cli.seed (cli env))
      (entropy_image env) = Ok image_path.

(** The bubble and the options of a run that renders. *)
Definition the_bubble (env : MainEnv) (message : string) : list string :=
  bubble_of (cli env) message (term_cols env).

Definition the_options (env : MainEnv) (config : Config.t) (message : string)
  : RenderOptions :=
  render_options (cli env) config (term_cols env) (term_rows env)
    (the_bubble env message).

(** [ProjectDirs::from] is called by [load_config], by [pack_search_paths]
    and by [print_doctor], and the target of the build is read in three
    ways: on a real machine the records agree.  The theorems below hold
    for every [MainEnv], so also for the coherent ones. *)
Definition coherent (env : MainEnv) : Prop :=
  proj_dirs (config_env env)
    = match dirs env with Some _ => true | None => false end /\
  data_dir (pack_env env) = option_map (fun d => snd (fst d)) (dirs env) /\
  (target_os (pack_env env) = Linux <-> os env = "linux") /\
  (target_os (pack_env env) = Macos <-> os env = "macos") /\
  (windows env = true -> os env = "windows").

(** The same machine with other entropy. *)
Definition with_entropy (e1 e2 : Z) (env : MainEnv) : MainEnv :=
  {| cli := cli env; config_env := config_env env; var_chafa := var_chafa env;
     var_path := var_path env; is_file := is_file env; windows := windows env;
     os := os env; term := term env; dirs := dirs env;
     pack_env := pack_env env;
     entropy_message := e1; entropy_image := e2 |}.

End MainSpec.

(** ** A machine for the examples *)

Definition example_cli : Cli.t :=
  {| Cli.text := Some "hello world from leftysay"; Cli.image := Some "cat.png";
     Cli.pack := None; Cli.list := false; Cli.doctor := false;
     Cli.no_bubble := false; Cli.seed := None; Cli.format := None;
     Cli.colors := None; Cli.max_height_ratio := None; Cli.animate := false |}.

(** The packs of [example_pack_env] on a Linux machine with a home
    directory. *)
Definition example_packs : PackEnv :=
  {| var_packs_dir := var_packs_dir example_pack_env;
     data_dir := Some "/home/u/.local/share/leftysay";
     var_homebrew_prefix := None;
     target_os := Linux;
     path_exists := path_exists example_pack_env;
     walk_depth3 := walk_depth3 example_pack_env;
     walk := walk example_pack_env;
     read := read example_pack_env |}.

Definition example_env (cli : Cli.t) : MainEnv :=
  {| cli := cli;
     config_env := {| proj_dirs := true; config_file := Absent |};
     var_chafa := None;
     var_path := Some ["/usr/local/bin"; "/usr/bin"];
     is_file := fun p => String.eqb p "/usr/bin/chafa";
     windows := false;
     os := "linux";
     term := Some (24, 24);
     dirs := Some ("/home/u/.config/leftysay", "/home/u/.local/share/leftysay",
                   "/home/u/.cache/leftysay");
     pack_env := example_packs;
     entropy_message := 0;
     entropy_image := 0 |}.

(** The same machine without a home directory: [ProjectDirs::from] finds
    nothing. *)
Definition example_env_no_home (cli : Cli.t) : MainEnv :=
  {| cli := cli;
     config_env := {| proj_dirs := false; config_file := Absent |};
     var_chafa := None;
     var_path := var_path (example_env cli);
     is_file := is_file (example_env cli);
     windows := false;
     os := "linux";
     term := term (example_env cli);
     dirs := None;
     pack_env := {| var_packs_dir := var_packs_dir example_packs;
                    data_dir := None;
                    var_homebrew_prefix := None;
                    target_os := Linux;
                    path_exists := path_exists example_packs;
                    walk_depth3 := walk_depth3 example_packs;
                    walk := walk example_packs;
                    read := read example_packs |};
     entropy_message := 0;
     entropy_image := 0 |}.

Definition toy_show : Show := {| show_f32 := fun _ => "0.55" |}.

(** The image named on the command line does not exist. *)
Definition missing_image_cli : Cli.t :=
  {| Cli.text := Some "hello world from leftysay"; Cli.image := Some "dog.png";
     Cli.pack := None; Cli.list := false; Cli.doctor := false;
     Cli.no_bubble := false; Cli.seed := None; Cli.format := None;
     Cli.colors := None; Cli.max_height_ratio := None; Cli.animate := false |}.

Definition list_cli : Cli.t :=
  {| Cli.text := None; Cli.image := None; Cli.pack := None;
     Cli.list := true; Cli.doctor := false; Cli.no_bubble := false;
     Cli.seed := None; Cli.format := None; Cli.colors := None;
     Cli.max_height_ratio := None; Cli.animate := false |}.

Definition doctor_cli : Cli.t :=
  {| Cli.text := None; Cli.image := None; Cli.pack := None;
     Cli.list := false; Cli.doctor := true; Cli.no_bubble := false;
     Cli.seed := None; Cli.format := None; Cli.colors := None;
     Cli.max_height_ratio := None; Cli.animate := false |}.

Definition seeded_cli : Cli.t :=
  {| Cli.text := None; Cli.image := None; Cli.pack := None;
     Cli.list := false; Cli.doctor := false; Cli.no_bubble := false;
     Cli.seed := Some 7; Cli.format := None; Cli.colors := None;
     Cli.max_height_ratio := None; Cli.animate := false |}.

(** ** [find_chafa] *)

(** ** The cache directory *)

Lemma hex_digit_not_sep n : 0 <= n < 16 -> hex_digit n <> "/"%char.
Proof.
  intros Hn E. pose proof (hex_value_digit n Hn) as V. rewrite E in V.
  discriminate V.
Qed.

Lemma to_hex_no_sep s : contains_char "/" (to_hex s) = false.
Proof.
  induction s as [|c s IH]; [reflexivity|]. cbn [to_hex contains_char].
  pose proof (Z_of_byte_range c) as R. rewrite IH, !orb_false_r.
  apply orb_false_intro; apply Ascii.eqb_neq, hex_digit_not_sep.
  - split; [apply Z.div_pos | apply Z.div_lt_upper_bound]; lia.
  - apply Z.mod_pos_bound. lia.
Qed.

Lemma contains_char_app c s t :
  contains_char c (s ++ t) = contains_char c s || contains_char c t.
Proof.
  induction s as [|d s IH]; simpl; [reflexivity|].
  now rewrite IH, orb_assoc.
Qed.

(** The cache file of a key is an entry of the cache directory: its file
    name is the key with the extension, and when [ProjectDirs] knows the
    directory its parent is that directory.  The file names of the [world]
    are these names. *)
Theorem cache_path_in_dir env m :
  let name := cache_file_name (to_hex m) in
  file_name (cache_path env (to_hex m)) = name /\
  (cache_dir env <> "" -> ends_with_sep (cache_dir env) = false ->
   parent (cache_path env (to_hex m)) = cache_dir env).
Proof.
  apply file_name_join. unfold cache_file_name.
  now rewrite contains_char_app, to_hex_no_sep.
Qed.

(** Without a home directory the cache is a directory of the working
    directory. *)
Example cache_dir_examples :
  cache_dir (example_env example_cli) = "/home/u/.cache/leftysay" /\
  cache_dir (example_env_no_home example_cli) = ".cache/leftysay" /\
  has_root (cache_dir (example_env_no_home example_cli)) = false.
Proof. repeat split. Qed.

(** (C37) [find_chafa]: the path [LEFTYSAY_CHAFA] names is taken as it is,
    without a look at the file system; otherwise the result is the first
    directory of [PATH] that holds a file named chafa, and without one the
    search fails with the hint of the operating system. *)
Theorem find_chafa_spec env :
  match var_chafa env with
  | Some path => find_chafa env = Ok path
  | None =>
      let candidate := if windows env then "chafa.exe" else "chafa" in
      match find_chafa env with
      | Ok full =>
          is_file env full = true /\
          exists before dir after,
            var_path env = Some (before ++ dir :: after)%list /\
            full = join dir candidate /\
            Forall (fun d => is_file env (join d candidate) = false) before
      | Err e => e = "leftysay requires chafa. " ++ install_hint (os env) /\
                 forall paths d, var_path env = Some paths -> In d paths ->
                                 is_file env (join d candidate) = false
      end
  end.
Proof.
  unfold find_chafa. destruct (var_chafa env); [reflexivity|]. simpl.
  destruct (var_path env) as [paths|]; [|split; [reflexivity | discriminate]].
  set (cand := if windows env then "chafa.exe" else "chafa").
  destruct (find _ _) as [full|] eqn:F.
  - split; [now apply find_some in F|].
    clear - F. induction paths as [|d paths IH]; [discriminate|].
    simpl in F. destruct (is_file env (join d cand)) eqn:Fd.
    + inv F. exists [], d, paths. auto.
    + destruct (IH F) as (b & dir & a & E & -> & Fb). inv E.
      exists (d :: b), dir, a. auto.
  - split; [reflexivity|]. intros ps d E HI. inv E.
    apply (find_none _ _ F). now apply (in_map (fun d => join d cand)).
Qed.

(** ** [main] *)

Section MainFacts.
Context `{Hasher} `{Wrapper} `{Toml} `{TomlMeta} `{Rng} `{Show}.

Ltac main_cases :=
  unfold main, stop;
  repeat match goal with
         | |- context [match ?x with _ => _ end] => destruct x eqn:?
         end; simpl.

(** [main] on a run that renders, as an equation. *)
Lemma main_on_render env config chafa message image_path w :
  reaches_render env config chafa message image_path ->
  main env w =
  match render_image chafa image_path (the_options env config message) w with
  | (Err e, w') =>
      stop (Err e) (print_bubble (cli env) message (the_bubble env message))
        [] w'
  | (Ok image_output, w') =>
      stop (Ok tt)
        (print_bubble (cli env) message (the_bubble env message)
         ++ [image_output])%list [] w'
  end.
Proof.
  intros (L & En & F & Dr & Li & packs & S & M & I).
  unfold main, the_options, the_bubble, term_cols, term_rows.
  rewrite L, En, F, Dr, S, Li, M, I. simpl.
  now destruct (terminal_dimensions env).
Qed.

(** A run that renders and succeeds prints the bubble, one line of it
    per line of output, and then the image as the renderer or the cache
    returned it; nothing goes to the standard error. *)
Theorem main_success env config chafa message image_path w image_output w' :
  reaches_render env config chafa message image_path ->
  render_image chafa image_path (the_options env config message) w
    = (Ok image_output, w') ->
  main env w =
  ({| status := Ok tt;
      printed := (print_bubble (cli env) message (the_bubble env message)
                  ++ [image_output])%list;
      eprinted := [] |}, w').
Proof.
  intros R E. rewrite (main_on_render _ _ _ _ _ _ R), E. reflexivity.
Qed.

(** (C23) A run whose render fails has printed the bubble already: the
    output is not empty although the run ends in an error. *)
Theorem main_partial_output env config chafa message image_path w e w' :
  reaches_render env config chafa message image_path ->
  render_image chafa image_path (the_options env config message) w
    = (Err e, w') ->
  Cli.no_bubble (cli env) = false -> message <> "" ->
  status (fst (main env w)) = Err e /\
  printed (fst (main env w))
    = print_bubble (cli env) message (the_bubble env message) /\
  printed (fst (main env w)) <> [].
Proof.
  intros R E Nb Nm. rewrite (main_on_render _ _ _ _ _ _ R), E. simpl.
  repeat split. unfold print_bubble. rewrite Nb.
  destruct (the_bubble env message); [|discriminate].
  now destruct message.
Qed.

(** A disabled configuration ends the run at once, and the two
    reports of the command line ([--doctor], [--list]) never render: the
    cache, the clock and the log of the renderer are as they were. *)
Theorem main_reports_only env w :
  (exists config, load_config (config_env env) = Ok config /\
                  Config.enabled config = false) \/
  Cli.doctor (cli env) = true \/ Cli.list (cli env) = true ->
  snd (main env w) = w /\
  ((exists config, load_config (config_env env) = Ok config /\
                   Config.enabled config = false) ->
   fst (main env w) = {| status := Ok tt; printed := []; eprinted := [] |}).
Proof.
  intros C. split.
  - unfold main. destruct C as [(config & -> & ->)|[D|L]]; [reflexivity|..];
      main_cases; try reflexivity; congruence.
  - intros (config & L & En). unfold main. now rewrite L, En.
Qed.

(** Whatever the machine and the command line, a run keeps the world
    well formed and changes it by one [render_image] at most: the renderer
    is run at most twice. *)
Theorem main_world env w :
  world_wf w ->
  world_wf (snd (main env w)) /\ effects 2 w (snd (main env w)).
Proof.
  intros Hwf. main_cases;
    eauto using effects_refl, render_image_wf, render_image_effects.
Qed.

(** With a seed the run does not depend on the entropy of the
    machine. *)
Theorem main_seeded env e1 e2 w s :
  Cli.seed (cli env) = Some s ->
  main (with_entropy e1 e2 env) w = main env w.
Proof.
  intros S. unfold main, find_chafa, terminal_dimensions, print_doctor,
    resolve_message, resolve_image, pick_index. simpl. now rewrite S.
Qed.

(** (C24) The layout of a run that renders: on a terminal wider than 14
    columns, with a wrapper that keeps its lines within the width, every line
    of the bubble fits the terminal's width; the image is asked for at the
    terminal's width and with at least one row; and when the bubble leaves
    room, the bubble, a blank row and the image fit the terminal's height. *)
Theorem main_layout_fits `{!WrapperLaws} env config message :
  14 < term_cols env ->
  Cli.no_bubble (cli env) = false ->
  let bubble := the_bubble env message in
  let options := the_options env config message in
  let height := Z.of_nat (List.length bubble) in
  print_bubble (cli env) message bubble = map println bubble /\
  Forall (fun line => len line <= term_cols env) bubble /\
  cols options = term_cols env /\ 1 <= rows options /\
  (height + 1 < term_rows env -> height + 1 + rows options <= term_rows env).
Proof.
  intros Hc Nb. simpl. unfold the_bubble, bubble_of. rewrite Nb.
  pose proof (bubble_width_range _ Hc) as Hw.
  assert (Hne := wrap_nonempty message (bubble_width (term_cols env))).
  rewrite render_bubble_eq by assumption. split; [reflexivity|]. split.
  - eapply Forall_impl;
      [|apply box_fits with (w := bubble_width (term_cols env))].
    + simpl. intros; lia.
    + lia.
    + apply wrap_fits. lia.
  - split; [reflexivity|]. simpl.
    unfold image_rows, remaining_rows, saturating_sub. lia.
Qed.

End MainFacts.

(** ** The theorems at a concrete machine *)

#[local] Existing Instance toy_hasher.
#[local] Existing Instance greedy.
#[local] Existing Instance greedy_laws.
#[local] Existing Instance toy_toml.
#[local] Existing Instance toy_toml_meta.
#[local] Existing Instance toy_rng.
#[local] Existing Instance toy_show.

Ltac solve_reaches :=
  repeat split; try reflexivity;
  eexists; repeat split; vm_compute; reflexivity.

Lemma example_reaches :
  reaches_render (example_env example_cli) Config.default "/usr/bin/chafa"
    "hello world from leftysay" "cat.png".
Proof. solve_reaches. Qed.

Lemma missing_reaches :
  reaches_render (example_env missing_image_cli) Config.default
    "/usr/bin/chafa" "hello world from leftysay" "dog.png".
Proof. solve_reaches. Qed.

(** A whole run on a terminal of 24 columns and 24 rows: a bubble of four
    lines and the image. *)
Example main_example :
  fst (main (example_env example_cli) example_world)
  = {| status := Ok tt;
       printed := [println " __________________";
                   println "/ hello world from \";
                   println "\ leftysay         /";
                   println " ------------------";
                   "<cat>"];
       eprinted := [] |}.
Proof. vm_compute. reflexivity. Qed.

(** The renderer was asked for the terminal's width and 13 rows. *)
Example main_example_size :
  map (fun cmd => nth 7 cmd "") (calls (snd (main (example_env example_cli)
                                               example_world)))
  = ["24x13"].
Proof. vm_compute. reflexivity. Qed.

Lemma main_success_witness :
  exists w',
    main (example_env example_cli) example_world
    = ({| status := Ok tt;
          printed := (print_bubble example_cli "hello world from leftysay"
                        (the_bubble (example_env example_cli)
                           "hello world from leftysay")
                      ++ ["<cat>"])%list;
          eprinted := [] |}, w').
Proof.
  eexists.
  apply (main_success _ _ _ _ _ _ _ _ example_reaches).
  apply surjective_pairing.
Defined.

Lemma main_partial_output_witness :
  status (fst (main (example_env missing_image_cli) example_world))
    = Err EImageMetadata /\
  printed (fst (main (example_env missing_image_cli) example_world))
    = print_bubble missing_image_cli "hello world from leftysay"
        (the_bubble (example_env missing_image_cli)
           "hello world from leftysay") /\
  printed (fst (main (example_env missing_image_cli) example_world)) <> [].
Proof.
  refine (main_partial_output _ _ _ _ _ _ _ example_world
            missing_reaches _ _ _);
    [reflexivity | reflexivity | discriminate].
Defined.

Lemma main_reports_only_witness :
  snd (main (example_env list_cli) example_world) = example_world /\
  ((exists config,
      load_config (config_env (example_env list_cli)) = Ok config /\
      Config.enabled config = false) ->
   fst (main (example_env list_cli) example_world)
     = {| status := Ok tt; printed := []; eprinted := [] |}).
Proof. apply main_reports_only. right. right. reflexivity. Defined.

Lemma main_world_witness :
  world_wf (snd (main (example_env example_cli) example_world)) /\
  effects 2 example_world (snd (main (example_env example_cli) example_world)).
Proof. apply main_world. solve_wf. Defined.

Lemma main_seeded_witness :
  main (with_entropy 5 9 (example_env seeded_cli)) example_world
  = main (example_env seeded_cli) example_world.
Proof. apply (main_seeded _ 5 9 _ 7). reflexivity. Defined.

Lemma main_layout_fits_witness :
  let env := example_env example_cli in
  let bubble := the_bubble env "hello world from leftysay" in
  let options := the_options env Config.default "hello world from leftysay" in
  let height := Z.of_nat (List.length bubble) in
  print_bubble (cli env) "hello world from leftysay" bubble
    = map println bubble /\
  Forall (fun line => len line <= term_cols env) bubble /\
  cols options = term_cols env /\ 1 <= rows options /\
  (height + 1 < term_rows env -> height + 1 + rows options <= term_rows env).
Proof.
  refine (main_layout_fits (example_env example_cli) Config.default
            "hello world from leftysay" _ _);
    [reflexivity | reflexivity].
Defined.

Example example_env_coherent : coherent (example_env example_cli).
Proof. repeat split; try reflexivity; discriminate. Qed.

(** The listing of the packs. *)
Example main_list_example :
  printed (fst (main (example_env list_cli) example_world))
  = [println "default (v0.1.0, CC0-1.0): Test"; println "  - test.png"].
Proof. vm_compute. reflexivity. Qed.

(** [--max-height-ratio] is taken as it is: with a ratio of 2.0 the image
    gets all the rows the bubble leaves. *)
Example main_cli_ratio_unchecked :
  let cli :=
    {| Cli.text := Some "hello world from leftysay";
       Cli.image := Some "cat.png";
       Cli.pack := None; Cli.list := false; Cli.doctor := false;
       Cli.no_bubble := false; Cli.seed := None; Cli.format := None;
       Cli.colors := None;
       Cli.max_height_ratio := Some (S754_finite false 8388608 (-22));
       Cli.animate := false |} in
  map (fun cmd => nth 7 cmd "") (calls (snd (main (example_env cli)
                                               example_world)))
  = ["24x19"].
Proof. vm_compute. reflexivity. Qed.

(** The report of [--doctor] on the example machine. *)
Example main_doctor_example :
  printed (fst (main (example_env doctor_cli) example_world))
  = map println
      ["leftysay doctor"; "chafa: /usr/bin/chafa";
       "terminal: 24 cols x 24 rows"; "config.format: auto";
       "config.colors: auto"; "config.max_height_ratio: 0.55";
       "config.cache: true"; "config.cache_max_mb: 64";
       "config dir: /home/u/.config/leftysay";
       "data dir: /home/u/.local/share/leftysay";
       "cache dir: /home/u/.cache/leftysay";
       "pack search paths:"; "  - tmp/packs";
       "  - /home/u/.local/share/leftysay/packs";
       "  - /usr/share/leftysay/packs"].
Proof. vm_compute. reflexivity. Qed.
