(* ===== verification/Process.v ===== *)
(** * Process: the render path as a sequence of system calls

    The definitions of [CacheStore], [Renderer] and [Pipeline] give the
    result of a whole function on a world.  A second run of the program on
    the same cache directory (section 5 of the specification: the directory
    is shared, with no locking) can act between any two system calls of the
    first, so this file gives the same functions as processes: trees whose
    nodes are the calls of [std::fs] and [std::process] that [main.rs]
    makes, in the order it makes them, and whose branches are the code
    between two calls.

    - [op] is the set of calls, indexed by the type of what they return, and
      [exec] their effect on the world (the definitions of [FileSystem]);
    - [proc] is the type of processes, [run] their execution from a world
      when nothing else acts, [cost] the number of calls of that execution;
    - [cache_hit_p], [cache_store_p], [evict_p], [enforce_cache_limit_p],
      [run_chafa_p] and [render_image_p] are [main.rs] 500-537, 539-581 and
      639-673 call by call; [lookup_p], [render_and_store_p], [touch_p]
      and [write_p] are [render_image] from a later call on.

    [entries.sort_by_key(..)] reads the metadata of an entry at every
    comparison; the process reads it once for each entry, in listing order,
    before it sorts (what [sort_by_cached_key] does).  The two agree while
    the directory does not change during the sort.

    Theorems: each process, run alone, is the function of the same name
    ([implements]); a render makes at most [4 * n + 13] calls on a
    directory of [n] entries; every call keeps the world well formed and
    leaves everything but the cache directory and the log of renderer
    invocations as it was; the rules of protocols on the calls of a
    process ([follows]); the eviction never starts the renderer
    ([spawn_free]) and a render starts it at most twice on every branch
    ([spawns_le]). *)

From Stdlib Require Import ZArith List String Ascii Bool Lia.
From S2P Require Import Prelude Encoding Chafa FileSystem CacheKey.
From S2P Require Import StableSort CacheStore Renderer Pipeline.
Import ListNotations.

#[local] Open Scope string_scope.
#[local] Open Scope Z_scope.

(** ** System calls *)

Inductive op : Type -> Type :=
| DirExists : op bool                           (* [cache_dir.exists()] *)
| Exists (name : string) : op bool              (* [cache_path.exists()] *)
| ReadToString (name : string) : op string      (* [fs::read_to_string] *)
| Create (name : string) : op unit              (* [fs::File::create] *)
| WriteAll (name data : string) : op unit       (* [file.write_all] *)
| CreateDirAll : op unit                        (* [fs::create_dir_all] *)
| RemoveFile (name : string) : op unit          (* [fs::remove_file] *)
| ReadDir : op (list string)                    (* [fs::read_dir] *)
| Metadata (name : string) : op (Z * Z)         (* [entry.metadata()] *)
| ImageMtime (image : string) : op Z            (* [fs::metadata(image)] *)
| Spawn (cmd : list string) : op output.        (* [cmd.output()] *)

(** [Command::output]: runs the command line and waits for it. *)
Definition spawn (cmd : list string) : M output :=
  fun w =>
    let w' := with_calls (calls w ++ [cmd])%list w in
    match renderer w cmd with
    | Some out => (Ok out, w')
    | None => (Err ESpawn, w')
    end.

Definition exec {B} (o : op B) : M B :=
  match o in op B return M B with
  | DirExists => fs_dir_exists
  | Exists name => fs_exists name
  | ReadToString name => fs_read_to_string name
  | Create name => fs_create name
  | WriteAll name data => fs_write_all name data
  | CreateDirAll => fs_create_dir_all
  | RemoveFile name => fs_remove_file name
  | ReadDir => fs_read_dir
  | Metadata name => fs_metadata name
  | ImageMtime image => image_mtime image
  | Spawn cmd => spawn cmd
  end.

(** ** Processes *)

(** A process has finished with a result, or makes a call and goes on with
    what the call returned, an error included. *)
Inductive proc (A : Type) : Type :=
| Done (r : result error A)
| Step {B : Type} (o : op B) (k : result error B -> proc A).
Arguments Done {A} r.
Arguments Step {A B} o k.

(** A call whose error is propagated ([?]). *)
Definition call {B} (o : op B) : proc B := Step o Done.

(** A call whose outcome the code inspects ([.ok()], [if let Ok(..)]). *)
Definition try {B} (o : op B) : proc (result error B) :=
  Step o (fun r => Done (Ok r)).

Fixpoint bindp {A B} (p : proc A) (f : A -> proc B) : proc B :=
  match p with
  | Done (Ok a) => f a
  | Done (Err e) => Done (Err e)
  | Step o k => Step o (fun r => bindp (k r) f)
  end.

Declare Scope proc_scope.
Delimit Scope proc_scope with proc.
Bind Scope proc_scope with proc.
Notation "x <- p ;; k" := (bindp p (fun x => k))
  (at level 100, p at next level, k at level 200, right associativity)
  : proc_scope.
Notation "p ;; k" := (bindp p (fun _ => k))
  (at level 100, k at level 200, right associativity) : proc_scope.

(** The execution of a process that nothing interrupts. *)
Fixpoint run {A} (p : proc A) (w : world) : result error A * world :=
  match p with
  | Done r => (r, w)
  | Step o k => let (r, w') := exec o w in run (k r) w'
  end.

(** The number of calls of that execution. *)
Fixpoint cost {A} (p : proc A) (w : world) : nat :=
  match p with
  | Done _ => O
  | Step o k => let (r, w') := exec o w in S (cost (k r) w')
  end.

(** [p] run alone is the function [m]. *)
Definition implements {A} (p : proc A) (m : M A) : Prop :=
  forall w, run p w = m w.

(** ** The cache paths of [render_image] ([main.rs] 513-516, 530-533) *)

Definition cache_hit_p (cache_path : string) : proc string :=
  (contents <- call (ReadToString cache_path) ;;
   _ <- call (Create cache_path) ;;
   _ <- call (WriteAll cache_path contents) ;;
   Done (Ok contents))%proc.

(** The hit once the file is read ([main.rs] 515-516), and once it is
    truncated. *)
Definition touch_p (cache_path contents : string) : proc string :=
  (_ <- call (Create cache_path) ;;
   _ <- call (WriteAll cache_path contents) ;;
   Done (Ok contents))%proc.

Definition write_p (cache_path contents : string) : proc string :=
  (_ <- call (WriteAll cache_path contents) ;;
   Done (Ok contents))%proc.

(** [entry.metadata().ok()] for every entry of the listing. *)
Fixpoint stat_all (entries : list string)
  : proc (list (string * option (Z * Z))) :=
  match entries with
  | [] => Done (Ok [])
  | entry :: rest =>
      (meta <- try (Metadata entry) ;;
       metas <- stat_all rest ;;
       Done (Ok ((entry, result_ok meta) :: metas)))%proc
  end.

Definition stat_len (x : string * option (Z * Z)) : option Z :=
  option_map fst (snd x).

Definition stat_modified (x : string * option (Z * Z)) : option Z :=
  option_map snd (snd x).

(** The eviction loop ([main.rs] 660-670). *)
Fixpoint evict_p (max_bytes : Z) (entries : list string) (total_size : Z)
  : proc Z :=
  match entries with
  | [] => Done (Ok total_size)
  | entry :: rest =>
      if total_size <=? max_bytes then Done (Ok total_size)
      else
        (meta <- try (Metadata entry) ;;
         removed <- try (RemoveFile entry) ;;
         let total_size :=
           match removed, option_map fst (result_ok meta) with
           | Ok _, Some len => saturating_sub total_size len
           | _, _ => total_size
           end in
         evict_p max_bytes rest total_size)%proc
  end.

Definition enforce_cache_limit_p (max_bytes : Z) : proc unit :=
  (dir <- call DirExists ;;
   if negb dir then Done (Ok tt)
   else
     entries <- call ReadDir ;;
     sizes <- stat_all entries ;;
     let total_size := u64_sum (filter_map stat_len sizes) in
     if total_size <=? max_bytes then Done (Ok tt)
     else
       keys <- stat_all entries ;;
       let entries := map fst (sort_by_key key_le stat_modified keys) in
       _ <- evict_p max_bytes entries total_size ;;
       Done (Ok tt))%proc.

Definition cache_store_p (cache_path output : string) (cache_max_mb : Z)
  : proc unit :=
  (_ <- call CreateDirAll ;;
   _ <- call (Create cache_path) ;;
   _ <- call (WriteAll cache_path output) ;;
   enforce_cache_limit_p (max_bytes_of_mb cache_max_mb))%proc.

(** ** [fn run_chafa] ([main.rs] 539-575) *)

Definition run_chafa_p (chafa image : string) (cols rows : Z)
  (format : ChafaFormat.t) (colors : ChafaColors.t) (animate : bool)
  : proc string :=
  (output <- call (Spawn (chafa :: chafa_args image cols rows format colors
                                     animate)) ;;
   if status_success output then Done (Ok (stdout output))
   else
     let last_err := stderr output in
     let fallback_format := fallback_format format in
     let fallback_colors := fallback_colors colors in
     if negb (ChafaFormat.eqb fallback_format format)
        || negb (ChafaColors.eqb fallback_colors colors)
     then
       retry <- call (Spawn (chafa :: chafa_args image cols rows
                                        fallback_format fallback_colors
                                        animate)) ;;
       if status_success retry then Done (Ok (stdout retry))
       else
         let last_err := stderr retry in
         Done (Err (EChafaFailed last_err))
     else Done (Err (EChafaFailed last_err)))%proc.

(** The miss path of [render_image] ([main.rs] 519-536): render, then
    store when caching is enabled. *)
Definition render_and_store_p (chafa image : string) (options : RenderOptions)
  (cache_path : string) : proc string :=
  (output <- run_chafa_p chafa image (cols options) (rows options)
               (format options) (colors options) (animate options) ;;
   _ <- (if cache_enabled options
         then cache_store_p cache_path output (cache_max_mb options)
         else Done (Ok tt)) ;;
   Done (Ok output))%proc.

(** [render_image] once the key is computed ([main.rs] 510-536). *)
Definition lookup_p (chafa image : string) (options : RenderOptions)
  (cache_path : string) : proc string :=
  (hit <- (if cache_enabled options then call (Exists cache_path)
           else Done (Ok false)) ;;
   if hit then cache_hit_p cache_path
   else render_and_store_p chafa image options cache_path)%proc.

(** The eviction pass that ends the store of another render, taken alone. *)
Definition eviction_pass (max_bytes : Z) : proc string :=
  (_ <- enforce_cache_limit_p max_bytes ;; Done (Ok ""))%proc.

Section Process.
Context `{Hasher}.

(** ** [fn cache_key] ([main.rs] 607-631) and [fn render_image] *)

Definition cache_key_p (image : string) (cols rows : Z)
  (format : ChafaFormat.t) (colors : ChafaColors.t) (animate : bool)
  : proc string :=
  (mtime <- call (ImageMtime image) ;;
   Done (Ok (to_hex (hasher_finalize
               (key_preimage image mtime cols rows format colors animate)))))%proc.

Definition render_image_p (chafa image : string) (options : RenderOptions)
  : proc string :=
  (cache_key <- cache_key_p image (cols options) (rows options)
                  (format options) (colors options) (animate options) ;;
   let cache_path := cache_file_name cache_key in
   hit <- (if cache_enabled options then call (Exists cache_path)
           else Done (Ok false)) ;;
   if hit then cache_hit_p cache_path
   else
     output <- run_chafa_p chafa image (cols options) (rows options)
                 (format options) (colors options) (animate options) ;;
     _ <- (if cache_enabled options
           then cache_store_p cache_path output (cache_max_mb options)
           else Done (Ok tt)) ;;
     Done (Ok output))%proc.

End Process.

(** ** Calls that only read *)

Definition read_only {B} (o : op B) : bool :=
  match o with
  | DirExists | Exists _ | ReadToString _ | ReadDir | Metadata _
  | ImageMtime _ => true
  | _ => false
  end.

(** Calls on the cache directory. *)
Definition is_spawn {B} (o : op B) : bool :=
  match o with Spawn _ => true | _ => false end.

(** The number of entries of the cache directory. *)
Definition dir_len (w : world) : nat := List.length (entries w).

(** What is left of [bindp p f] when [p] has ended with [r]. *)
Definition resume {A B} (f : A -> proc B) (r : result error A) : proc B :=
  bindp (Done r) f.

(** A process follows a protocol when every call it makes is one the
    protocol allows, as long as its calls return what the protocol lets it
    rely on, and when a value it ends with satisfies [post]. *)
Section Protocol.
Variable allow : forall B, op B -> Prop.
Variable rely : forall B, op B -> result error B -> Prop.

Inductive follows {A} (post : A -> Prop) : proc A -> Prop :=
| follows_Done r : (forall a, r = Ok a -> post a) -> follows post (Done r)
| follows_Step {B} (o : op B) k :
    allow B o -> (forall r, rely B o r -> follows post (k r)) ->
    follows post (Step o k).

End Protocol.

(** The calls of the eviction: it lists, reads metadata and removes. *)
Definition evicting {B} (o : op B) : bool :=
  match o with
  | DirExists | ReadDir | Metadata _ | RemoveFile _ => true
  | _ => false
  end.

(** A process that never starts the renderer, whatever its calls return. *)
Definition spawn_free {A} (p : proc A) : Prop :=
  follows (fun _ o => is_spawn o = false) (fun _ _ _ => True)
    (fun _ => True) p.

(** A process that starts the renderer at most [n] times, whatever its
    calls return. *)
Inductive spawns_le {A} : nat -> proc A -> Prop :=
| spawns_Done n r : spawns_le n (Done r)
| spawns_Spawn n cmd k :
    (forall r, spawns_le n (k r)) -> spawns_le (S n) (Step (Spawn cmd) k)
| spawns_Step n {B} (o : op B) k :
    is_spawn o = false -> (forall r, spawns_le n (k r)) ->
    spawns_le n (Step o k).

(** ** Execution of one call *)

Lemma exec_read_only {B} (o : op B) w :
  read_only o = true -> snd (exec o w) = w.
Proof.
  destruct o; try discriminate; intros _; simpl;
    fs_unfold; unfold image_mtime; repeat destr; reflexivity.
Qed.

Lemma exec_wf {B} (o : op B) w : world_wf w -> world_wf (snd (exec o w)).
Proof.
  intros W. destruct (read_only o) eqn:R; [now rewrite exec_read_only|].
  destruct o; try discriminate; simpl;
    match goal with
    | |- world_wf (snd (spawn _ _)) => unfold spawn; destr; exact W
    | |- world_wf (snd ?c) => destruct c as [r w'] eqn:E; simpl
    end; eauto with lsay.
Qed.

Lemma exec_effects {B} (o : op B) w : effects 1 w (snd (exec o w)).
Proof.
  destruct (read_only o) eqn:R; [rewrite exec_read_only by easy; apply effects_refl|].
  destruct o; try discriminate; simpl;
    match goal with
    | |- effects _ _ (snd (spawn ?c _)) =>
        unfold spawn; repeat split; destr; simpl; trivial;
        exists [c]; auto
    | |- effects _ _ (snd ?c) =>
        destruct c as [r w'] eqn:E; simpl;
        apply (effects_env 1 w w w'); [apply effects_refl | eauto with lsay]
    end.
Qed.

Lemma exec_cache_spawn {B} (o : op B) w :
  is_spawn o = true -> cache (snd (exec o w)) = cache w.
Proof.
  destruct o; try discriminate. intros _. simpl. unfold spawn. now destr.
Qed.

(** ** Execution of a process *)

Lemma run_bindp {A B} (p : proc A) (f : A -> proc B) w :
  run (bindp p f) w = bind (run p) (fun a => run (f a)) w.
Proof.
  revert w. induction p as [[a|e]|C o k IH]; intros w; try reflexivity.
  unfold bind in *. simpl. destruct (exec o w) as [r w']. apply IH.
Qed.

Lemma run_call {B} (o : op B) w : run (call o) w = exec o w.
Proof. simpl. now destruct (exec o w). Qed.

Lemma run_try {B} (o : op B) w : run (try o) w = attempt (exec o) w.
Proof. reflexivity. Qed.

Lemma run_call_bind {A B} (o : op B) (f : B -> proc A) w :
  run (bindp (call o) f) w = bind (exec o) (fun a => run (f a)) w.
Proof. rewrite run_bindp. unfold bind. now rewrite run_call. Qed.

Lemma cost_bindp {A B} (p : proc A) (f : A -> proc B) w :
  cost (bindp p f) w =
  (cost p w + match run p w with
              | (Ok a, w') => cost (f a) w'
              | (Err _, _) => 0
              end)%nat.
Proof.
  revert w. induction p as [[a|e]|C o k IH]; intros w; try reflexivity.
  simpl. destruct (exec o w) as [r w']. now rewrite IH.
Qed.

Lemma cost_call {B} (o : op B) w : cost (call o) w = 1%nat.
Proof. simpl. now destruct (exec o w). Qed.

Lemma run_wf {A} (p : proc A) w : world_wf w -> world_wf (snd (run p w)).
Proof.
  revert w. induction p as [r|C o k IH]; intros w W; [exact W|].
  simpl. pose proof (exec_wf o w W) as W'.
  destruct (exec o w) as [r w']. now apply IH.
Qed.

(** ** Each process is the function of the same name *)

Lemma implements_bind {A B} (p : proc A) m (f : A -> proc B) g :
  implements p m -> (forall a, implements (f a) (g a)) ->
  implements (bindp p f) (bind m g).
Proof.
  intros Hp Hf w. rewrite run_bindp. unfold bind. rewrite Hp.
  destruct (m w) as [[a|e] w']; [apply Hf | reflexivity].
Qed.

Lemma implements_call {B} (o : op B) : implements (call o) (exec o).
Proof. intros w. apply run_call. Qed.

Lemma implements_ret {A} (a : A) : implements (Done (Ok a)) (ret a).
Proof. intros w. reflexivity. Qed.

Lemma implements_ext {A} (p : proc A) m m' :
  implements p m -> (forall w, m w = m' w) -> implements p m'.
Proof. intros Hp E w. now rewrite <- E. Qed.

#[export] Hint Resolve implements_call implements_ret : lsay.

Lemma cache_hit_p_run cache_path :
  implements (cache_hit_p cache_path) (cache_hit cache_path).
Proof.
  eapply implements_ext.
  - apply implements_bind; [apply (implements_call (ReadToString _))|].
    intros contents.
    apply implements_bind; [apply (implements_call (Create _))|]. intros u.
    apply implements_bind; [apply (implements_call (WriteAll _ _))|].
    intros v. apply implements_ret.
  - intros w. unfold cache_hit, fs_write, bind. simpl.
    repeat destr; reflexivity.
Qed.

Lemma run_stat_all entries w :
  run (stat_all entries) w =
  (Ok (map (fun n => (n, result_ok (fst (fs_metadata n w)))) entries), w).
Proof.
  induction entries as [|n entries IH]; [reflexivity|].
  cbn [stat_all]. rewrite run_bindp. unfold bind. rewrite run_try.
  unfold attempt.
  pose proof (exec_read_only (Metadata n) w eq_refl) as R. simpl in *.
  destruct (fs_metadata n w) as [r w']. simpl in R. subst w'.
  now rewrite run_bindp; unfold bind; rewrite IH.
Qed.

Lemma evict_p_run max_bytes entries total_size :
  implements (evict_p max_bytes entries total_size)
    (evict max_bytes entries total_size).
Proof.
  revert total_size.
  induction entries as [|n entries IH]; intros total w; [reflexivity|].
  cbn [evict_p evict]. destruct (total <=? max_bytes); [reflexivity|].
  rewrite run_bindp. unfold bind. rewrite run_try.
  unfold attempt, get, metadata_len.
  pose proof (exec_read_only (Metadata n) w eq_refl) as R. simpl in *.
  destruct (fs_metadata n w) as [r w']. simpl in R. subst w'.
  destruct (fs_remove_file n w) as [u w1]. apply IH.
Qed.

Lemma filter_map_map {A B C} (f : A -> B) (g : B -> option C) l :
  filter_map g (map f l) = filter_map (fun a => g (f a)) l.
Proof.
  induction l as [|a l IH]; simpl; [reflexivity|]. now rewrite IH.
Qed.

Lemma sorted_stats w entries :
  map fst (sort_by_key key_le stat_modified
             (map (fun n => (n, result_ok (fst (fs_metadata n w)))) entries)) =
  sort_by_key key_le (metadata_modified w) entries.
Proof. rewrite sort_by_key_map, map_map. simpl. apply map_id. Qed.

Lemma run_stat_bind {A} entries (f : _ -> proc A) w :
  run (bindp (stat_all entries) f) w =
  run (f (map (fun n => (n, result_ok (fst (fs_metadata n w)))) entries)) w.
Proof. rewrite run_bindp. unfold bind. now rewrite run_stat_all. Qed.

Lemma enforce_cache_limit_p_run max_bytes :
  implements (enforce_cache_limit_p max_bytes) (enforce_cache_limit max_bytes).
Proof.
  intros w. unfold enforce_cache_limit_p, enforce_cache_limit.
  rewrite run_call_bind. apply (bind_ext fs_dir_exists). clear w.
  intros [|] w; [|reflexivity]. cbn [negb].
  rewrite run_call_bind. apply (bind_ext fs_read_dir). clear w.
  intros entries w. rewrite bind_get, run_stat_bind, filter_map_map.
  change (fun a => stat_len _) with (metadata_len w).
  destruct (_ <=? _); [reflexivity|].
  rewrite run_stat_bind, sorted_stats, run_bindp.
  unfold bind. rewrite evict_p_run.
  now destruct (evict _ _ _ w) as [[t|e] w'].
Qed.

Lemma cache_store_p_run cache_path output cache_max_mb :
  implements (cache_store_p cache_path output cache_max_mb)
    (cache_store cache_path output cache_max_mb).
Proof.
  apply implements_bind; [apply (implements_call CreateDirAll)|]. intros u.
  apply implements_bind; [apply (implements_call (Create _))|]. intros v.
  apply implements_bind; [apply (implements_call (WriteAll _ _))|]. intros x.
  apply enforce_cache_limit_p_run.
Qed.

Lemma implements_fail {A} (e : error) : implements (@Done A (Err e)) (fail e).
Proof. intros w. reflexivity. Qed.

Lemma run_chafa_p_run chafa image cols rows format colors animate :
  implements (run_chafa_p chafa image cols rows format colors animate)
    (run_chafa chafa image cols rows format colors animate).
Proof.
  apply implements_bind; [apply (implements_call (Spawn _))|]. intros output.
  destruct (status_success output); [apply implements_ret|]. cbv zeta.
  destruct (_ || _); [|apply implements_fail].
  apply implements_bind; [apply (implements_call (Spawn _))|]. intros retry.
  destruct (status_success retry); [apply implements_ret | apply implements_fail].
Qed.

Lemma render_and_store_p_run chafa image options cache_path :
  implements (render_and_store_p chafa image options cache_path)
    (render_and_store chafa image options cache_path).
Proof.
  apply implements_bind; [apply run_chafa_p_run|]. intros output.
  apply implements_bind; [|intros u; apply implements_ret].
  destruct (cache_enabled options);
    [apply cache_store_p_run | apply implements_ret].
Qed.

Section ProcessFacts.
Context `{Hasher}.

Lemma cache_key_p_run image cols rows format colors animate :
  implements (cache_key_p image cols rows format colors animate)
    (cache_key image cols rows format colors animate).
Proof.
  apply implements_bind; [apply (implements_call (ImageMtime _))|].
  intros mtime. apply implements_ret.
Qed.

Lemma render_image_p_implements chafa image options :
  implements (render_image_p chafa image options)
    (render_image chafa image options).
Proof.
  apply implements_bind; [apply cache_key_p_run|]. intros cache_key.
  apply implements_bind.
  { destruct (cache_enabled options);
      [apply (implements_call (Exists _)) | apply implements_ret]. }
  intros [|]; [apply cache_hit_p_run|].
  apply (render_and_store_p_run chafa image options).
Qed.


End ProcessFacts.

(** ** The number of calls *)

Lemma cost_bindp_le {A B} (p : proc A) (f : A -> proc B) w n m :
  (cost p w <= n)%nat ->
  (forall a w', run p w = (Ok a, w') -> (cost (f a) w' <= m)%nat) ->
  (cost (bindp p f) w <= n + m)%nat.
Proof.
  intros Hp Hf. rewrite cost_bindp.
  destruct (run p w) as [[a|e] w']; [specialize (Hf a w' eq_refl)|]; lia.
Qed.

Lemma cost_try {B} (o : op B) w : cost (try o) w = 1%nat.
Proof. simpl. now destruct (exec o w). Qed.

Lemma cost_stat_all entries w : cost (stat_all entries) w = List.length entries.
Proof.
  induction entries as [|n entries IH]; [reflexivity|].
  cbn [stat_all List.length]. rewrite cost_bindp, cost_try, run_try.
  unfold attempt.
  pose proof (exec_read_only (Metadata n) w eq_refl) as R.
  destruct (exec (Metadata n) w) as [r w']. simpl in R. subst w'.
  rewrite cost_bindp, IH, run_stat_all. simpl. lia.
Qed.

Lemma cost_evict_p max_bytes entries total_size w :
  (cost (evict_p max_bytes entries total_size) w <= 2 * List.length entries)%nat.
Proof.
  revert total_size w.
  induction entries as [|n entries IH]; intros total w; [simpl; lia|].
  cbn [evict_p List.length]. destruct (total <=? max_bytes); [simpl; lia|].
  replace (2 * S (List.length entries))%nat with (1 + (1 + 2 * List.length entries))%nat
    by lia.
  apply cost_bindp_le; [now rewrite cost_try|]. intros meta w1 _.
  apply cost_bindp_le; [now rewrite cost_try|]. intros removed w2 _.
  apply IH.
Qed.

Lemma length_put_entry x es :
  List.length (put_entry x es) =
  match find_entry (e_name x) es with
  | Some _ => List.length es
  | None => S (List.length es)
  end.
Proof.
  rewrite <- !(length_map e_name). fold (names (put_entry x es)).
  rewrite names_put_entry. destruct (find_entry _ _); [reflexivity|].
  unfold names. rewrite length_app. simpl. lia.
Qed.

Lemma create_dir_len name w :
  (dir_len (snd (fs_create name w)) <= S (dir_len w))%nat.
Proof.
  unfold fs_create, dir_len, entries.
  destruct (faulty _ _); [apply Nat.le_succ_diag_r|].
  destruct (cache w) as [es|] eqn:C; simpl; [|rewrite C; simpl; lia].
  rewrite length_put_entry. destruct (find_entry _ _); lia.
Qed.

Lemma write_all_dir_len name data w :
  dir_len (snd (fs_write_all name data w)) = dir_len w.
Proof.
  unfold fs_write_all, dir_len, entries, lookup, entries.
  destruct (faulty _ _); [reflexivity|].
  destruct (cache w) as [es|] eqn:C; [|simpl; now rewrite C].
  destruct (find_entry name es) eqn:F; simpl; [|now rewrite C].
  rewrite length_put_entry. simpl. now rewrite F.
Qed.

Lemma cost_enforce_cache_limit_p max_bytes w :
  (cost (enforce_cache_limit_p max_bytes) w <= 4 * dir_len w + 2)%nat.
Proof.
  unfold enforce_cache_limit_p.
  replace (4 * dir_len w + 2)%nat with (1 + (1 + 4 * dir_len w))%nat by lia.
  apply cost_bindp_le; [now rewrite cost_call|]. intros dir w1 E1.
  destruct dir; [|simpl; lia]. cbn [negb].
  apply cost_bindp_le; [now rewrite cost_call|]. intros listing w2 E2.
  rewrite run_call in E1. rewrite run_call in E2. simpl in E1, E2. inv E1.
  assert (w2 = w1 /\ List.length listing = dir_len w1) as [-> L].
  { unfold fs_read_dir in E2. destruct (faulty _ _); [discriminate|].
    unfold dir_len, entries. destruct (cache w1); inv E2.
    split; [reflexivity | apply length_map]. }
  replace (4 * dir_len w1)%nat
    with (dir_len w1 + (dir_len w1 + (2 * dir_len w1 + 0)))%nat by lia.
  apply cost_bindp_le; [now rewrite cost_stat_all, L|]. intros sizes w3 E3.
  rewrite run_stat_all in E3. inv E3.
  destruct (_ <=? _); [simpl; lia|].
  apply cost_bindp_le; [now rewrite cost_stat_all, L|]. intros keys w4 E4.
  rewrite run_stat_all in E4. inv E4.
  apply cost_bindp_le; [|intros; simpl; lia].
  rewrite <- L. etransitivity; [apply cost_evict_p|].
  now rewrite length_map, sort_by_key_length, length_map.
Qed.

Lemma run_call_world {B} (o : op B) w r w' :
  run (call o) w = (r, w') -> w' = snd (exec o w).
Proof. rewrite run_call. now intros ->. Qed.

Lemma create_dir_all_dir_len w : dir_len (snd (fs_create_dir_all w)) = dir_len w.
Proof.
  unfold fs_create_dir_all, dir_len, entries.
  destruct (faulty _ _); [reflexivity|].
  destruct (cache w) eqn:C; simpl; now rewrite ?C.
Qed.

Lemma cost_cache_store_p cache_path output cache_max_mb w :
  (cost (cache_store_p cache_path output cache_max_mb) w
   <= 4 * dir_len w + 9)%nat.
Proof.
  unfold cache_store_p.
  replace (4 * dir_len w + 9)%nat
    with (1 + (1 + (1 + (4 * S (dir_len w) + 2))))%nat by lia.
  apply cost_bindp_le; [now rewrite cost_call|]. intros u w1 E1.
  apply cost_bindp_le; [now rewrite cost_call|]. intros v w2 E2.
  apply cost_bindp_le; [now rewrite cost_call|]. intros x w3 E3.
  etransitivity; [apply cost_enforce_cache_limit_p|].
  apply run_call_world in E1, E2, E3. subst. simpl.
  rewrite write_all_dir_len.
  pose proof (create_dir_len cache_path (snd (fs_create_dir_all w))) as L.
  rewrite create_dir_all_dir_len in L. lia.
Qed.

Lemma cost_run_chafa_p chafa image cols rows format colors animate w :
  (cost (run_chafa_p chafa image cols rows format colors animate) w <= 2)%nat.
Proof.
  unfold run_chafa_p. change 2%nat with (1 + 1)%nat.
  apply cost_bindp_le; [now rewrite cost_call|]. intros output w1 _.
  destruct (status_success output); [simpl; lia|]. cbv zeta.
  destruct (_ || _); [|simpl; lia]. change 1%nat with (1 + 0)%nat.
  apply cost_bindp_le; [now rewrite cost_call|]. intros retry w2 _.
  destruct (status_success retry); simpl; lia.
Qed.

Lemma run_chafa_p_dir_len chafa image cols rows format colors animate w :
  dir_len (snd (run (run_chafa_p chafa image cols rows format colors animate) w))
  = dir_len w.
Proof.
  rewrite run_chafa_p_run.
  destruct (run_chafa _ _ _ _ _ _ _ w) as [r w'] eqn:E.
  apply run_chafa_frame in E as (l & -> & _). reflexivity.
Qed.

Lemma cost_cache_hit_p cache_path w :
  (cost (cache_hit_p cache_path) w <= 3)%nat.
Proof.
  unfold cache_hit_p. change 3%nat with (1 + (1 + (1 + 0)))%nat.
  repeat (apply cost_bindp_le; [now rewrite cost_call | intros]).
  simpl. lia.
Qed.

Section Cost.
Context `{Hasher}.


End Cost.

(** ** Protocols *)

Section Follows.
Variable allow : forall B, op B -> Prop.
Variable rely : forall B, op B -> result error B -> Prop.

Lemma follows_ret {A} (post : A -> Prop) a :
  post a -> follows allow rely post (Done (Ok a)).
Proof. intros Ha. apply follows_Done. now intros ? [= <-]. Qed.

Lemma follows_err {A} (post : A -> Prop) e :
  follows allow rely post (Done (Err e)).
Proof. apply follows_Done. discriminate. Qed.

Lemma follows_mono {A} (post post' : A -> Prop) p :
  (forall a, post a -> post' a) ->
  follows allow rely post p -> follows allow rely post' p.
Proof. intros I. induction 1; constructor; auto. Qed.

Lemma follows_bindp {A B} (post : A -> Prop) (post' : B -> Prop) p
  (f : A -> proc B) :
  follows allow rely post p ->
  (forall a, post a -> follows allow rely post' (f a)) ->
  follows allow rely post' (bindp p f).
Proof.
  intros Hp Hf. induction Hp as [[a|e] Ha|C o k Ho _ IH]; simpl;
    auto using follows_err. now apply follows_Step.
Qed.

Lemma follows_call {B} (o : op B) :
  allow B o -> follows allow rely (fun b => rely B o (Ok b)) (call o).
Proof.
  intros Ho. apply follows_Step; [exact Ho|]. intros r Hr.
  apply follows_Done. now intros b ->.
Qed.

Lemma follows_try {B} (o : op B) :
  allow B o -> follows allow rely (rely B o) (try o).
Proof.
  intros Ho. apply follows_Step; [exact Ho|]. intros r Hr.
  now apply follows_ret.
Qed.

(** Sequencing when nothing is asked of the first part's result. *)
Lemma follows_seq {A B} (post : B -> Prop) (p : proc A) (f : A -> proc B) :
  follows allow rely (fun _ => True) p ->
  (forall a, follows allow rely post (f a)) ->
  follows allow rely post (bindp p f).
Proof. intros Hp Hf. eapply follows_bindp; eauto. Qed.

Lemma follows_call_any {B} (o : op B) :
  allow B o -> follows allow rely (fun _ => True) (call o).
Proof. intros Ho. eapply follows_mono; [|now apply follows_call]. auto. Qed.

Lemma follows_try_any {B} (o : op B) :
  allow B o -> follows allow rely (fun _ => True) (try o).
Proof. intros Ho. eapply follows_mono; [|now apply follows_try]. auto. Qed.

Lemma follows_any {A} (a : A) :
  follows allow rely (fun _ => True) (Done (Ok a)).
Proof. now apply follows_ret. Qed.

(** The eviction follows every protocol that allows its four calls. *)
Hypothesis allow_evicting : forall B (o : op B), evicting o = true -> allow B o.

#[local] Hint Resolve follows_seq follows_call_any follows_try_any follows_any
  follows_err allow_evicting : lsay.

Lemma follows_stat_all names :
  follows allow rely (fun _ => True) (stat_all names).
Proof. induction names; cbn [stat_all]; auto 7 with lsay. Qed.

Lemma follows_evict_p max names : forall total,
  follows allow rely (fun _ => True) (evict_p max names total).
Proof.
  induction names as [|n names IH]; intros total; cbn [evict_p];
    auto with lsay.
  destruct (total <=? max); auto 7 with lsay.
Qed.

#[local] Hint Resolve follows_stat_all follows_evict_p : lsay.

Lemma follows_enforce max :
  follows allow rely (fun _ => True) (enforce_cache_limit_p max).
Proof.
  unfold enforce_cache_limit_p. apply follows_seq; auto with lsay.
  intros [|]; cbn [negb]; auto with lsay.
  apply follows_seq; auto with lsay. intros names.
  apply follows_seq; auto with lsay. intros sizes.
  destruct (_ <=? _); auto 7 with lsay.
Qed.

End Follows.

(** ** The eviction never starts the renderer *)

Lemma spawn_free_bindp {A B} (p : proc A) (f : A -> proc B) :
  spawn_free p -> (forall a, spawn_free (f a)) -> spawn_free (bindp p f).
Proof. apply follows_seq. Qed.

Lemma spawn_free_call {B} (o : op B) : is_spawn o = false -> spawn_free (call o).
Proof. intros Ho. unfold spawn_free. now apply follows_call_any. Qed.

Lemma spawn_free_Done {A} (r : result error A) : spawn_free (Done r).
Proof. now apply follows_Done. Qed.

#[export] Hint Resolve spawn_free_bindp spawn_free_call spawn_free_Done : lsay.

Lemma spawn_free_enforce max : spawn_free (enforce_cache_limit_p max).
Proof. apply follows_enforce. now intros B []. Qed.

(** ** A render starts the renderer at most twice *)

Lemma exec_calls {B} (o : op B) w :
  is_spawn o = false -> calls (snd (exec o w)) = calls w.
Proof.
  intros Ho. destruct (exec_effects o w) as (_ & _ & _ & _ & l & C & L).
  destruct (read_only o) eqn:R; [now rewrite exec_read_only|].
  destruct o; try discriminate; simpl;
    match goal with
    | |- calls (snd ?c) = _ =>
        destruct c as [r w'] eqn:E; simpl;
        assert (same_env w w') as S by eauto with lsay; apply S
    end.
Qed.

Lemma spawn_calls cmd w :
  calls (snd (exec (Spawn cmd) w)) = (calls w ++ [cmd])%list.
Proof. simpl. unfold spawn. now destr. Qed.

Lemma spawn_free_spawns {A} n (p : proc A) : spawn_free p -> spawns_le n p.
Proof. induction 1; auto using @spawns_le. Qed.

Lemma spawns_le_mono {A} n m (p : proc A) :
  (n <= m)%nat -> spawns_le n p -> spawns_le m p.
Proof.
  intros L Hp. revert m L. induction Hp as [n r|n cmd k _ IH|n B o k Ho _ IH];
    intros m L; auto using @spawns_le.
  destruct m as [|m]; [lia|]. apply spawns_Spawn. intros r. apply IH. lia.
Qed.

Lemma spawns_le_bindp {A B} n m (p : proc A) (f : A -> proc B) :
  spawns_le n p -> (forall a, spawns_le m (f a)) ->
  spawns_le (n + m) (bindp p f).
Proof.
  intros Hp Hf. induction Hp as [n [a|e]|n cmd k _ IH|n C o k Ho _ IH];
    simpl; auto using @spawns_le.
  apply spawns_le_mono with m; [lia | apply Hf].
Qed.

Lemma run_chafa_p_spawns chafa image cols rows format colors animate :
  spawns_le 2 (run_chafa_p chafa image cols rows format colors animate).
Proof.
  unfold run_chafa_p. simpl. apply spawns_Spawn. intros [out|e];
    [|apply spawns_Done].
  destruct (status_success out); [apply spawns_Done|].
  destruct (_ || _); [|apply spawns_Done]. simpl.
  apply spawns_Spawn. intros [retry|e]; [|apply spawns_Done].
  destruct (status_success retry); apply spawns_Done.
Qed.

Lemma spawn_free_cache_hit path : spawn_free (cache_hit_p path).
Proof. unfold cache_hit_p. auto 8 with lsay. Qed.

Lemma spawn_free_cache_store path out mb : spawn_free (cache_store_p path out mb).
Proof. unfold cache_store_p. auto 8 using spawn_free_enforce with lsay. Qed.

Lemma render_and_store_p_spawns chafa image options path :
  spawns_le 2 (render_and_store_p chafa image options path).
Proof.
  unfold render_and_store_p.
  apply (spawns_le_bindp 2 0); [apply run_chafa_p_spawns|]. intros out.
  apply spawn_free_spawns, spawn_free_bindp; [|auto with lsay].
  destruct (cache_enabled options); auto using spawn_free_cache_store with lsay.
Qed.

Lemma lookup_p_spawns chafa image options path :
  spawns_le 2 (lookup_p chafa image options path).
Proof.
  unfold lookup_p. apply (spawns_le_bindp 0 2).
  - apply spawn_free_spawns. destruct (cache_enabled options); auto with lsay.
  - intros [|]; [apply spawn_free_spawns, spawn_free_cache_hit|].
    apply render_and_store_p_spawns.
Qed.

Lemma render_image_p_spawns `{Hasher} chafa image options :
  spawns_le 2 (render_image_p chafa image options).
Proof.
  change (render_image_p chafa image options) with
    (bindp (cache_key_p image (cols options) (rows options) (format options)
              (colors options) (animate options))
       (fun key => lookup_p chafa image options (cache_file_name key))).
  apply (spawns_le_bindp 0 2); [|intros key; apply lookup_p_spawns].
  apply spawn_free_spawns. unfold cache_key_p. auto with lsay.
Qed.

(** ** The bound is reached

    A renderer that fails on the selector [auto] is run twice; with a
    budget that wraps to zero bytes the payload just stored is evicted: on
    an empty directory that takes the thirteen calls of the bound. *)

#[local] Existing Instance toy_hasher.

Example render_image_p_cost_tight :
  cost (render_image_p "chafa" "cat.png"
          {| cols := 80; rows := 13; format := ChafaFormat.Auto;
             colors := ChafaColors.Auto; animate := false;
             cache_enabled := true; cache_max_mb := 2 ^ 44 |})
    picky_world = 13%nat /\
  dir_len picky_world = 0%nat.
Proof. vm_compute. split; reflexivity. Qed.

(** The process of the example request and [render_image] agree on the
    example world. *)
Example render_image_p_example :
  run (render_image_p "chafa" "cat.png" example_options) example_world =
  render_image "chafa" "cat.png" example_options example_world /\
  cost (render_image_p "chafa" "cat.png" example_options) example_world
  = 9%nat.
Proof. vm_compute. split; reflexivity. Qed.
