(* ===== verification/Concurrent.v ===== *)
(** * Concurrent: several runs of the program on one cache directory

    Section 5 of the specification: the program is single-threaded, but the
    cache directory is shared between invocations and is not locked, and a
    renderer that hangs hangs the run.  Here several processes of [Process]
    run on one world.  A configuration is the list of the processes and the
    world they share; [sched_step i] lets process [i] make its next system
    call; a schedule says which process moves at each instant, a timed
    schedule ([run_events]) also when and by how much the clock advances.  A call to a
    command on which the renderer hangs ([hangs]) never returns: a process
    at such a call is not enabled, and scheduling it changes nothing.

    Theorems: every interleaving keeps the world well formed; there is no
    infinite sequence of moves (each process makes finitely many calls,
    whatever the others do to the directory); under a fair schedule every
    process ends or waits for a renderer that hangs; a process scheduled
    alone behaves as [run] says, so a serial schedule is a session of
    [Pipeline]; two renders that hit different entries do not interfere,
    whatever the schedule; an eviction pass that nothing interrupts
    restores the budget wherever the other runs stand; renders start the
    renderer at most twice each under any schedule.  The races of section
    5 are schedules of two renders: two hits on one entry can leave it
    empty and serve an empty image, two misses render twice, an eviction
    between the test and the read of a hit makes the render fail, a touch
    can come too late for an eviction that has read the times, and an
    eviction that reads the sizes during a touch leaves the cache over its
    budget. *)

From Stdlib Require Import ZArith List String Ascii Bool Lia.
From Stdlib Require Import Wellfounded Relations.
From S2P Require Import Prelude Encoding Chafa FileSystem CacheKey.
From S2P Require Import StableSort CacheStore Renderer Pipeline Process.
Import ListNotations.

#[local] Open Scope string_scope.

(** ** Schedules of the races

    Processes are numbered from 0 in the pool. *)

(** Two hits on one entry: both processes compute the key and find the
    file; the first reads it and truncates it; the second reads it; the
    first writes; the second truncates and writes. *)
Definition hit_race : list nat := [0; 0; 1; 1; 0; 0; 1; 0; 1; 1]%nat.

(** Two misses: both processes compute the key and find no file; then the
    first runs to its end in [n] calls and the second in [m]. *)
Definition miss_race (n m : nat) : list nat :=
  ([0; 0] ++ [1; 1] ++ repeat 0 n ++ repeat 1 m)%nat%list.

(** A hit and a removal: the first process computes the key and finds the
    file, the second runs to its end in [n] calls, the first reads. *)
Definition eviction_race (n : nat) : list nat :=
  ([0; 0] ++ repeat 1 n ++ [0])%nat%list.

(** ** The states of a hit

    A render that hits makes five calls: it reads the modification time of
    the image, tests for the cache file, reads it, truncates it and writes
    it.  [hit_proc k] is the process after [k] of them and [hit_file k]
    what they have done to the listing of the directory. *)

Definition hit_proc `{Hasher} (chafa image : string) (options : RenderOptions)
  (path data : string) (k : nat) : proc string :=
  match k with
  | 0 => render_image_p chafa image options
  | 1 => lookup_p chafa image options path
  | 2 => cache_hit_p path
  | 3 => touch_p path data
  | 4 => write_p path data
  | _ => Done (Ok data)
  end%nat.

Definition hit_file (path data : string) (t : Z) (k : nat) (es : list entry)
  : list entry :=
  match k with
  | 0 | 1 | 2 | 3 => es
  | 4 => put_entry (mk_entry path "" t) es
  | _ => put_entry (mk_entry path data t) es
  end%nat.

Section Pool.
Context {A : Type}.

(** The command lines on which the renderer never returns. *)
Variable hangs : list string -> bool.

(** ** Configurations and moves *)

Definition blocked {B} (o : op B) : bool :=
  match o with Spawn cmd => hangs cmd | _ => false end.

Definition enabled (p : proc A) : bool :=
  match p with Done _ => false | Step o _ => negb (blocked o) end.

Definition finished (p : proc A) : bool :=
  match p with Done _ => true | Step _ _ => false end.

(** The next call of [p] on the world [w]. *)
Definition advance (p : proc A) (w : world) : proc A * world :=
  match p with
  | Done _ => (p, w)
  | Step o k =>
      if blocked o then (p, w)
      else let (r, w') := exec o w in (k r, w')
  end.

Record config : Type := {
  procs : list (proc A);
  shared : world;
}.

Fixpoint update (i : nat) (p : proc A) (ps : list (proc A))
  : list (proc A) :=
  match ps, i with
  | [], _ => []
  | _ :: ps', O => p :: ps'
  | q :: ps', S i' => q :: update i' p ps'
  end.

(** Process [i] is there and can move. *)
Definition moves (i : nat) (c : config) : bool :=
  match nth_error (procs c) i with
  | Some p => enabled p
  | None => false
  end.

Definition sched_step (i : nat) (c : config) : config :=
  match nth_error (procs c) i with
  | Some p =>
      let (p', w') := advance p (shared c) in
      {| procs := update i p' (procs c); shared := w' |}
  | None => c
  end.

(** A finite schedule: the processes that move, in order. *)
Definition run_schedule (s : list nat) (c : config) : config :=
  fold_left (fun c i => sched_step i c) s c.

(** A schedule on a machine whose clock advances: at each instant a
    process makes its next call, or time passes. *)
Inductive event : Type := Move (i : nat) | Pass (d : Z).

Definition event_step (e : event) (c : config) : config :=
  match e with
  | Move i => sched_step i c
  | Pass d => {| procs := procs c; shared := tick d (shared c) |}
  end.

Definition run_events (es : list event) (c : config) : config :=
  fold_left (fun c e => event_step e c) es c.

(** The configuration at instant [n] of an infinite schedule. *)
Fixpoint after (sched : nat -> nat) (n : nat) (c : config) : config :=
  match n with
  | O => c
  | S n' => sched_step (sched n') (after sched n' c)
  end.

(** One move of some process. *)
Definition move (c c' : config) : Prop :=
  exists i, moves i c = true /\ c' = sched_step i c.

(** No process can move: each has ended or waits for the renderer. *)
Definition quiescent (c : config) : bool :=
  forallb (fun p => negb (enabled p)) (procs c).

Definition all_finished (c : config) : bool := forallb finished (procs c).

(** A schedule is fair from [c] when a process that can move at some
    instant is scheduled at a later one, unless it has stopped being able
    to move by then. *)
Definition fair (sched : nat -> nat) (c : config) : Prop :=
  forall i n, moves i (after sched n c) = true ->
    exists m, (n <= m)%nat /\
      (sched m = i \/ moves i (after sched m c) = false).

(** [q] is what [p] becomes by one call, on some world. *)
Definition child (q p : proc A) : Prop :=
  exists w, enabled p = true /\ q = fst (advance p w).

(** One process of the pool has made a call. *)
Inductive pool_lt : list (proc A) -> list (proc A) -> Prop :=
| lt_here p' p ps : child p' p -> pool_lt (p' :: ps) (p :: ps)
| lt_there p ps' ps : pool_lt ps' ps -> pool_lt (p :: ps') (p :: ps).

(** ** Moves *)

Lemma update_same i p ps : nth_error ps i = Some p -> update i p ps = ps.
Proof.
  revert i. induction ps as [|q ps IH]; intros [|i] E; simpl in *;
    try discriminate; [now inv E | now rewrite IH].
Qed.

Lemma update_length i p ps : List.length (update i p ps) = List.length ps.
Proof.
  revert i. induction ps as [|q ps IH]; intros [|i]; simpl; auto.
Qed.

Lemma nth_error_update i p ps q :
  nth_error ps i = Some q -> nth_error (update i p ps) i = Some p.
Proof.
  revert i. induction ps as [|x ps IH]; intros [|i] E; simpl in *;
    try discriminate; auto.
Qed.

Lemma nth_error_update_ne i j p ps :
  i <> j -> nth_error (update i p ps) j = nth_error ps j.
Proof.
  revert i j. induction ps as [|x ps IH]; intros [|i] [|j] N; simpl;
    try reflexivity; [contradiction | apply IH; congruence].
Qed.

Lemma advance_idle p w : enabled p = false -> advance p w = (p, w).
Proof.
  destruct p as [r|B o k]; simpl; [reflexivity|].
  now destruct (blocked o).
Qed.

(** Scheduling a process that cannot move changes nothing. *)
Lemma sched_step_idle i c : moves i c = false -> sched_step i c = c.
Proof.
  unfold moves, sched_step. destruct (nth_error (procs c) i) eqn:E; [|easy].
  intros En. rewrite advance_idle by exact En. rewrite update_same by exact E.
  now destruct c.
Qed.

(** A move: the call is made and the process goes on with its outcome. *)
Lemma sched_step_Step i ps w {B} (o : op B) k r w' :
  nth_error ps i = Some (Step o k) -> blocked o = false ->
  exec o w = (r, w') ->
  sched_step i {| procs := ps; shared := w |} =
  {| procs := update i (k r) ps; shared := w' |}.
Proof.
  intros E Bo X. unfold sched_step. simpl. rewrite E. simpl.
  now rewrite Bo, X.
Qed.

Lemma run_schedule_cons i s c :
  run_schedule (i :: s) c = run_schedule s (sched_step i c).
Proof. reflexivity. Qed.

Lemma run_schedule_app s1 s2 c :
  run_schedule (s1 ++ s2) c = run_schedule s2 (run_schedule s1 c).
Proof. apply fold_left_app. Qed.

Lemma run_events_cons e es c :
  run_events (e :: es) c = run_events es (event_step e c).
Proof. reflexivity. Qed.

(** A schedule is a timed schedule in which no time passes. *)
Lemma run_events_moves s c : run_events (map Move s) c = run_schedule s c.
Proof. revert c. induction s as [|i s IH]; intros c; simpl; auto. Qed.

Lemma after_run_schedule sched n c :
  after sched n c = run_schedule (map sched (seq 0 n)) c.
Proof.
  induction n as [|n IH]; [reflexivity|].
  rewrite seq_S, map_app, run_schedule_app, <- IH. reflexivity.
Qed.

(** ** Safety: the world stays well formed *)

Lemma advance_wf p w : world_wf w -> world_wf (snd (advance p w)).
Proof.
  intros W. destruct p as [r|B o k]; simpl; [exact W|].
  destruct (blocked o); [exact W|].
  pose proof (exec_wf o w W). now destruct (exec o w).
Qed.

Lemma sched_step_wf i c :
  world_wf (shared c) -> world_wf (shared (sched_step i c)).
Proof.
  intros W. unfold sched_step. destruct (nth_error _ _) as [p|]; [|exact W].
  pose proof (advance_wf p _ W). now destruct (advance p (shared c)).
Qed.

Lemma advance_effects p w : effects 1 w (snd (advance p w)).
Proof.
  destruct p as [r|B o k]; simpl; [apply effects_refl|].
  destruct (blocked o); [apply effects_refl|].
  pose proof (exec_effects o w). now destruct (exec o w).
Qed.

Lemma effects_trans n m w1 w2 w3 :
  effects n w1 w2 -> effects m w2 w3 -> effects (n + m) w1 w3.
Proof.
  intros (N1 & F1 & I1 & R1 & l1 & C1 & L1) (N2 & F2 & I2 & R2 & l2 & C2 & L2).
  unfold effects. rewrite N2, F2, I2, R2, C2, C1.
  repeat split; auto. exists (l1 ++ l2)%list.
  rewrite app_assoc, length_app. split; [reflexivity | lia].
Qed.

Lemma sched_step_effects i c : effects 1 (shared c) (shared (sched_step i c)).
Proof.
  unfold sched_step. destruct (nth_error _ _) as [p|]; [|apply effects_refl].
  pose proof (advance_effects p (shared c)).
  now destruct (advance p (shared c)).
Qed.

Lemma event_step_wf e c :
  world_wf (shared c) -> world_wf (shared (event_step e c)).
Proof. destruct e; [apply sched_step_wf | apply tick_wf]. Qed.


(** The processes change the cache directory and the log only, and each
    move logs at most one invocation of the renderer. *)
Theorem schedule_effects s c :
  effects (List.length s) (shared c) (shared (run_schedule s c)).
Proof.
  revert c. induction s as [|i s IH]; intros c; [apply effects_refl|].
  apply (effects_trans 1 _ _ _ _ (sched_step_effects i c)), IH.
Qed.

Lemma run_schedule_length s c :
  List.length (procs (run_schedule s c)) = List.length (procs c).
Proof.
  revert c. induction s as [|i s IH]; intros c; [reflexivity|].
  simpl. rewrite IH. unfold sched_step.
  destruct (nth_error _ _) as [p|]; [|reflexivity].
  destruct (advance p (shared c)). apply update_length.
Qed.

(** ** Termination: no infinite sequence of moves *)

Lemma child_wf : well_founded child.
Proof.
  intros p. induction p as [r|B o k IH]; constructor; intros q (w & E & ->).
  - discriminate.
  - simpl in *. destruct (blocked o); [discriminate|].
    destruct (exec o w) as [r w']. apply IH.
Qed.

Lemma Acc_pool_cons p ps :
  Acc child p -> Acc pool_lt ps -> Acc pool_lt (p :: ps).
Proof.
  intros Hp. revert ps. induction Hp as [p _ IHp]. intros ps Hps.
  induction Hps as [ps Hps IHps]. constructor. intros qs L. inv L.
  - apply IHp; [assumption | now constructor].
  - now apply IHps.
Qed.

Lemma pool_lt_wf : well_founded pool_lt.
Proof.
  intros ps. induction ps as [|p ps IH].
  - constructor. intros qs L. inv L.
  - apply Acc_pool_cons; [apply child_wf | exact IH].
Qed.

Lemma update_lt i p ps w :
  nth_error ps i = Some p -> enabled p = true ->
  pool_lt (update i (fst (advance p w)) ps) ps.
Proof.
  revert i. induction ps as [|q ps IH]; intros [|i] E En; simpl in *;
    try discriminate.
  - inv E. apply lt_here. now exists w.
  - apply lt_there. now apply IH.
Qed.

Lemma move_lt c c' : move c c' -> pool_lt (procs c') (procs c).
Proof.
  intros (i & M & ->). unfold moves, sched_step in *.
  destruct (nth_error (procs c) i) as [p|] eqn:E; [|discriminate].
  pose proof (update_lt i p (procs c) (shared c) E M) as L.
  now destruct (advance p (shared c)).
Qed.

Lemma move_wf : well_founded (fun c' c => move c c').
Proof.
  apply (wf_incl _ _ (fun c' c => pool_lt (procs c') (procs c))).
  - intros c' c. apply move_lt.
  - apply (wf_inverse_image _ _ pool_lt procs), pool_lt_wf.
Qed.


(** ** Liveness under a fair schedule *)

Lemma forallb_false_nth {X} (f : X -> bool) l :
  forallb f l = false -> exists i x, nth_error l i = Some x /\ f x = false.
Proof.
  induction l as [|x l IH]; simpl; [discriminate|].
  destruct (f x) eqn:E; [|now exists 0%nat, x].
  intros Q. destruct (IH Q) as (i & y & I & Fy). now exists (S i), y.
Qed.

Lemma quiescent_cases c :
  quiescent c = true \/ exists i, moves i c = true.
Proof.
  unfold quiescent, moves. destruct (forallb _ _) eqn:Q; [now left|right].
  apply forallb_false_nth in Q as (i & p & I & E).
  exists i. rewrite I. now apply negb_false_iff in E.
Qed.

(** From an instant at which process [i] can move, a fair schedule
    reaches an instant at which the scheduled process moves, and nothing
    has changed until then. *)
Lemma next_move sched c0 i d : forall n,
  moves i (after sched n c0) = true ->
  (sched (n + d)%nat = i \/ moves i (after sched (n + d) c0) = false) ->
  exists t, after sched t c0 = after sched n c0 /\
            moves (sched t) (after sched t c0) = true.
Proof.
  induction d as [|d IH]; intros n M F.
  - rewrite Nat.add_0_r in F. destruct F as [<-|F]; [now exists n|congruence].
  - destruct (moves (sched n) (after sched n c0)) eqn:E; [now exists n|].
    assert (after sched (S n) c0 = after sched n c0) as Idle
      by now apply sched_step_idle.
    rewrite <- Nat.add_succ_comm in F.
    destruct (IH (S n)) as (t & T & Mt); [now rewrite Idle | exact F |].
    exists t. split; [now rewrite T | exact Mt].
Qed.

Lemma fair_quiesces sched c0 : fair sched c0 ->
  forall c, Acc (fun c' c => move c c') c ->
  forall n, after sched n c0 = c ->
  exists m, quiescent (after sched m c0) = true.
Proof.
  intros F c Hc. induction Hc as [c _ IH]. intros n E.
  destruct (quiescent_cases c) as [Q|[i M]]; [exists n; now rewrite E|].
  rewrite <- E in M. destruct (F i n M) as (m & L & Fm).
  replace m with (n + (m - n))%nat in Fm by lia.
  destruct (next_move sched c0 i _ n M Fm) as (t & T & Mt).
  apply (IH (after sched (S t) c0)) with (n := S t); [|reflexivity].
  exists (sched t). simpl. rewrite <- E, <- T. auto.
Qed.

Lemma quiescent_idle c i : quiescent c = true -> moves i c = false.
Proof.
  unfold quiescent, moves. intros Q.
  destruct (nth_error (procs c) i) as [p|] eqn:E; [|reflexivity].
  apply nth_error_In in E. rewrite forallb_forall in Q.
  now apply negb_true_iff, Q.
Qed.

(** Once no process can move nothing changes any more. *)
Lemma quiescent_stable sched c n m :
  quiescent (after sched n c) = true -> (n <= m)%nat ->
  after sched m c = after sched n c.
Proof.
  intros Q L. induction L as [|m L IH]; [reflexivity|].
  simpl. rewrite IH. now apply sched_step_idle, quiescent_idle.
Qed.


Lemma moves_lt i c : moves i c = true -> (i < List.length (procs c))%nat.
Proof.
  unfold moves. intros M. apply nth_error_Some.
  now destruct (nth_error (procs c) i).
Qed.

(** Round robin is fair, so fair schedules exist for every pool. *)
Lemma round_robin_fair c :
  fair (fun n => n mod List.length (procs c))%nat c.
Proof.
  intros i n M. apply moves_lt in M as Hi.
  rewrite after_run_schedule, run_schedule_length in Hi.
  set (k := List.length (procs c)) in *.
  exists (i + (n / k + 1) * k)%nat. split.
  - pose proof (Nat.Div0.div_mod n k). pose proof (Nat.mod_upper_bound n k).
    nia.
  - left. rewrite Nat.Div0.mod_add. now apply Nat.mod_small.
Qed.

(** A process that is never scheduled stays where it is: without fairness
    nothing is promised. *)
Lemma unscheduled_stays sched c i :
  (forall n, sched n <> i) ->
  forall n, nth_error (procs (after sched n c)) i = nth_error (procs c) i.
Proof.
  intros Never n. induction n as [|n IH]; [reflexivity|].
  cbn [after]. unfold sched_step.
  destruct (nth_error (procs (after sched n c)) (sched n)) as [p|] eqn:E;
    [|exact IH].
  destruct (advance p _) as [p' w']. cbn [procs].
  now rewrite nth_error_update_ne by apply Never.
Qed.

(** ** A process scheduled alone *)

Lemma update_update i p q ps : update i p (update i q ps) = update i p ps.
Proof.
  revert i. induction ps as [|x ps IH]; intros [|i]; simpl; auto.
  now rewrite IH.
Qed.

(** ** Calls that nothing interrupts

    A part of a process that never starts the renderer cannot be blocked:
    scheduled for the number of its calls in a row it runs as it does
    alone, and the process goes on with what it returned. *)

Lemma spawn_free_blocked {B} (o : op B) : is_spawn o = false -> blocked o = false.
Proof. now destruct o. Qed.

Lemma run_atomic {C} i (p : proc C) (f : C -> proc A) :
  spawn_free p -> forall ps w,
  nth_error ps i = Some (bindp p f) ->
  run_schedule (repeat i (cost p w)) {| procs := ps; shared := w |} =
  {| procs := update i (resume f (fst (run p w))) ps;
     shared := snd (run p w) |}.
Proof.
  induction 1 as [r|B o k Ho _ IH]; intros ps w E.
  - simpl. unfold resume. now rewrite update_same.
  - cbn [cost run]. destruct (exec o w) as [r w'] eqn:X.
    cbn [repeat]. rewrite run_schedule_cons.
    rewrite (sched_step_Step i ps w o (fun r => bindp (k r) f) r w' E
               (spawn_free_blocked o Ho) X).
    rewrite (IH r I _ w') by (eapply nth_error_update; eauto).
    now rewrite update_update.
Qed.


(** ** The renderer under a schedule

    Each process has an allowance of renderer starts; a move uses one when
    it starts the renderer and none otherwise, so the log grows by at most
    the allowances of the pool. *)

Lemma advance_spawns n p w :
  spawns_le n p ->
  exists n', spawns_le n' (fst (advance p w)) /\
    (List.length (calls (snd (advance p w))) + n'
     <= List.length (calls w) + n)%nat.
Proof.
  intros [m r|m cmd k Hk|m B o k Ho Hk]; cbn [advance].
  - exists m. split; [apply spawns_Done | simpl; lia].
  - destruct (blocked (Spawn cmd));
      [exists (S m); split; [now apply spawns_Spawn | simpl; lia]|].
    pose proof (spawn_calls cmd w) as C.
    destruct (exec (Spawn cmd) w) as [r w']. cbn [fst snd] in *.
    exists m. rewrite C, length_app. split; [apply Hk | simpl; lia].
  - rewrite (spawn_free_blocked o Ho). pose proof (exec_calls o w Ho) as C.
    destruct (exec o w) as [r w']. cbn [fst snd] in *.
    exists m. rewrite C. split; [apply Hk | lia].
Qed.

Lemma sched_step_spawns i : forall c ns,
  Forall2 spawns_le ns (procs c) ->
  exists ns', Forall2 spawns_le ns' (procs (sched_step i c)) /\
    (List.length (calls (shared (sched_step i c))) + list_sum ns'
     <= List.length (calls (shared c)) + list_sum ns)%nat.
Proof.
  intros [ps w] ns. unfold sched_step. cbn [procs shared].
  revert ns ps. induction i as [|i IH]; intros ns ps F.
  - destruct F as [|n p ns ps Hp F]; cbn [nth_error]; [exists []; auto|].
    pose proof (advance_spawns n p w Hp) as (n' & Hn & L).
    destruct (advance p w) as [p' w']. exists (n' :: ns).
    unfold list_sum in *. cbn [procs shared update fold_right fst snd] in *.
    split; [auto | lia].
  - destruct F as [|n p ns ps Hp F]; cbn [nth_error]; [exists []; auto|].
    destruct (IH ns ps F) as (ns' & F' & L).
    destruct (nth_error ps i) as [q|];
      [|exists (n :: ns); cbn [procs shared]; auto].
    destruct (advance q w) as [q' w']. exists (n :: ns').
    unfold list_sum in *. cbn [procs shared update fold_right] in *.
    split; [auto | lia].
Qed.

Lemma run_events_spawns es : forall c ns,
  Forall2 spawns_le ns (procs c) ->
  exists ns', Forall2 spawns_le ns' (procs (run_events es c)) /\
    (List.length (calls (shared (run_events es c))) + list_sum ns'
     <= List.length (calls (shared c)) + list_sum ns)%nat.
Proof.
  induction es as [|e es IH]; intros c ns F; [exists ns; auto|].
  rewrite run_events_cons.
  assert (exists ns1, Forall2 spawns_le ns1 (procs (event_step e c)) /\
            (List.length (calls (shared (event_step e c))) + list_sum ns1
             <= List.length (calls (shared c)) + list_sum ns)%nat)
    as (ns1 & F1 & L1)
    by (destruct e; [now apply sched_step_spawns | exists ns; auto]).
  destruct (IH _ ns1 F1) as (ns2 & F2 & L2). exists ns2. split; [exact F2 | lia].
Qed.

(** Whatever the schedule, a pool of processes that start the renderer at
    most [n] times each starts it at most [n] times the size of the pool. *)
Theorem schedule_spawns es n ps w :
  Forall (spawns_le n) ps ->
  (List.length (calls (shared (run_events es {| procs := ps; shared := w |})))
   <= List.length (calls w) + n * List.length ps)%nat.
Proof.
  intros F.
  destruct (run_events_spawns es {| procs := ps; shared := w |}
              (repeat n (List.length ps))) as (ns' & _ & L).
  - cbn [procs]. clear es. induction F; cbn [List.length repeat]; auto.
  - cbn [shared] in L. rewrite list_sum_repeat in L. lia.
Qed.

Section Responsive.
Hypothesis responsive : forall cmd, hangs cmd = false.

Lemma responsive_enabled p : enabled p = negb (finished p).
Proof.
  destruct p as [r|B o k]; [reflexivity|]. simpl.
  destruct o; simpl; auto. now rewrite responsive.
Qed.

Lemma responsive_quiescent c : quiescent c = all_finished c.
Proof.
  unfold quiescent, all_finished. induction (procs c) as [|p ps IH]; simpl;
    [reflexivity|].
  now rewrite IH, responsive_enabled, negb_involutive.
Qed.

(** Scheduled [cost p w] times in a row, process [p] ends with the result
    and the world that [run p w] gives. *)
Lemma run_solo i p : forall ps w,
  nth_error ps i = Some p ->
  run_schedule (repeat i (cost p w)) {| procs := ps; shared := w |} =
  {| procs := update i (Done (fst (run p w))) ps; shared := snd (run p w) |}.
Proof.
  induction p as [r|B o k IH]; intros ps w E.
  - simpl. now rewrite update_same.
  - assert (blocked o = false) as Bo
      by (destruct o; simpl; auto using responsive).
    cbn [cost run]. destruct (exec o w) as [r w'] eqn:X.
    cbn [repeat run_schedule fold_left].
    rewrite (sched_step_Step i ps w o k r w' E Bo X).
    fold (run_schedule (repeat i (cost (k r) w'))).
    rewrite (IH r _ w') by (eapply nth_error_update; eauto).
    now rewrite update_update.
Qed.

(** A serial schedule, the first process to its end and then the second,
    is the sequence of the two runs. *)
Lemma run_serial p q w :
  run_schedule
    (repeat 0%nat (cost p w) ++ repeat 1%nat (cost q (snd (run p w))))%list
    {| procs := [p; q]; shared := w |} =
  {| procs := [Done (fst (run p w)); Done (fst (run q (snd (run p w))))];
     shared := snd (run q (snd (run p w))) |}.
Proof.
  rewrite run_schedule_app, (run_solo 0 p) by reflexivity.
  now rewrite (run_solo 1 q).
Qed.

(** When nothing hangs, a fair schedule brings every process to its
    end. *)
Theorem fair_schedule_finishes sched c :
  fair sched c ->
  exists n, forall m, (n <= m)%nat -> all_finished (after sched m c) = true.
Proof.
  intros F.
  destruct (fair_quiesces sched c F c (move_wf c) 0%nat eq_refl) as [n Q].
  exists n. intros m L.
  now rewrite (quiescent_stable sched c n m Q L), <- responsive_quiescent.
Qed.

End Responsive.

End Pool.

(** ** The races of two renders *)

(** One move whose call has the outcome that [X] proves. *)
Ltac sched_one X :=
  erewrite sched_step_Step; [|reflexivity|reflexivity|X]; cbn [update].

Section Races.
Context `{Hasher}.
Variable hangs : list string -> bool.
Variables (chafa image : string) (options : RenderOptions).

(** The first call of a render computes the key. *)
Lemma key_step i ps w path :
  nth_error ps i = Some (render_image_p chafa image options) ->
  cache_path_of image options w = Some path ->
  sched_step hangs i {| procs := ps; shared := w |} =
  {| procs := update i (lookup_p chafa image options path) ps; shared := w |}.
Proof.
  intros E P. apply cache_path_of_run in P as (key & K & ->).
  rewrite cache_key_eq in K.
  destruct (image_mtime image w) as [[mtime|e] w1] eqn:Mt; inv K.
  pose proof (exec_read_only (ImageMtime image) w eq_refl) as R.
  simpl in R. rewrite Mt in R. simpl in R. subst w1.
  now rewrite (sched_step_Step hangs i ps w (ImageMtime image) _ _ w E eq_refl Mt).
Qed.

(** The second one looks for the cache file. *)
Lemma lookup_step i ps w path b :
  nth_error ps i = Some (lookup_p chafa image options path) ->
  cache_enabled options = true ->
  fst (fs_exists path w) = Ok b ->
  sched_step hangs i {| procs := ps; shared := w |} =
  {| procs := update i (if b then cache_hit_p path
                        else render_and_store_p chafa image options path) ps;
     shared := w |}.
Proof.
  unfold lookup_p. intros E En X. rewrite En in E. apply fs_exists_eq in X.
  rewrite (sched_step_Step hangs i ps w (Exists path) _ _ w E eq_refl X).
  now destruct b.
Qed.

Lemma render_lookup i ps w path b :
  nth_error ps i = Some (render_image_p chafa image options) ->
  cache_enabled options = true ->
  cache_path_of image options w = Some path ->
  fst (fs_exists path w) = Ok b ->
  run_schedule hangs [i; i] {| procs := ps; shared := w |} =
  {| procs := update i (if b then cache_hit_p path
                        else render_and_store_p chafa image options path) ps;
     shared := w |}.
Proof.
  intros E En P X. unfold run_schedule. cbn [fold_left].
  rewrite (key_step i ps w path E P).
  erewrite lookup_step; eauto using nth_error_update.
  now rewrite update_update.
Qed.


(** Two hits on one entry.  The second process reads the file between the
    truncation and the write of the first one's touch, finds it empty, and
    touches it in turn: the entry is left empty. *)
Lemma touch_race path w es e :
  cache w = Some es -> lookup path w = Some e -> fault_free w ->
  run_schedule hangs [0; 0; 1; 0; 1; 1]%nat
    {| procs := [cache_hit_p path; cache_hit_p path]; shared := w |} =
  {| procs := [Done (Ok (e_data e)); Done (Ok "")];
     shared := with_cache (Some (put_entry (mk_entry path "" (now w)) es)) w |}.
Proof.
  intros C L F. unfold run_schedule. cbn [fold_left].
  sched_one ltac:(apply fs_read_to_string_ok; [exact L | apply F]).
  sched_one ltac:(apply fs_create_ok; [exact C | apply F]).
  sched_one ltac:(apply fs_read_to_string_ok;
                  [apply lookup_written | apply F]).
  sched_one ltac:(apply fs_write_all_ok;
                  [reflexivity | apply In_names_written | apply F]).
  sched_one ltac:(apply fs_create_ok; [reflexivity | apply F]).
  sched_one ltac:(apply fs_write_all_ok;
                  [reflexivity | apply In_names_written | apply F]).
  cbn. now rewrite !put_entry_twice.
Qed.

(** (C16) Two renders of one cached image can leave its entry empty.  Under the
    schedule [hit_race] the first render returns the payload and the second
    an empty image, and the cache file of the image is empty afterwards. *)
Theorem hit_race_empties w path e :
  cache_enabled options = true ->
  cache_path_of image options w = Some path ->
  lookup path w = Some e -> fault_free w ->
  run_schedule hangs hit_race
    {| procs := [render_image_p chafa image options;
                 render_image_p chafa image options];
       shared := w |} =
  {| procs := [Done (Ok (e_data e)); Done (Ok "")];
     shared := with_cache
                 (Some (put_entry (mk_entry path "" (now w)) (entries w))) w |}.
Proof.
  intros En P L F. destruct (lookup_cache _ _ _ L) as [es C].
  assert (fst (fs_exists path w) = Ok true) as X.
  { unfold fs_exists. simpl. now rewrite L, F. }
  change hit_race with ([0; 0] ++ [1; 1] ++ [0; 0; 1; 0; 1; 1])%nat%list.
  rewrite !run_schedule_app.
  erewrite (render_lookup 0 _ w path true) by (reflexivity || assumption).
  erewrite (render_lookup 1 _ w path true) by (reflexivity || assumption).
  unfold entries. rewrite C. now apply touch_race.
Qed.

(** The empty entry stays: a later render of the image finds it and
    serves it. *)
Theorem empty_entry_served w path t :
  cache_enabled options = true ->
  cache_path_of image options w = Some path ->
  lookup path w = Some (mk_entry path "" t) -> fault_free w ->
  fst (render_image chafa image options w) = Ok "".
Proof.
  intros En P L F.
  rewrite (render_image_on_hit chafa image options w path En P).
  - destruct (cache_hit_ok path w _ L (F _) (F _) (F _)) as (w' & -> & _).
    reflexivity.
  - unfold fs_exists. simpl. now rewrite L, F.
Qed.

(** The miss path runs the renderer at least once, whatever fails. *)
Lemma render_and_store_calls path w :
  exists l,
    calls (snd (run (render_and_store_p chafa image options path) w)) =
    (calls w ++ l)%list /\ (1 <= List.length l)%nat.
Proof.
  rewrite render_and_store_p_run. unfold render_and_store, bind.
  destruct (run_chafa _ _ _ _ _ _ _ w) as [[out|e] w1] eqn:R;
    apply run_chafa_frame in R as (l & -> & L & _); exists l;
    [|now split].
  destruct (cache_enabled options); [|now split].
  destruct (cache_store path out _ (log l w)) as [[u|e] w'] eqn:S;
    apply cache_store_env in S as (_ & _ & _ & _ & C); simpl; now rewrite C.
Qed.

(** Two renders of one image that is not in the cache render it twice when
    both look for the entry before either has stored it: the renderer is
    run by both. *)
Theorem miss_race_renders_twice w path :
  (forall cmd, hangs cmd = false) ->
  cache_enabled options = true ->
  cache_path_of image options w = Some path ->
  lookup path w = None ->
  let S := render_and_store_p chafa image options path in
  let c := run_schedule hangs (miss_race (cost S w) (cost S (snd (run S w))))
             {| procs := [render_image_p chafa image options;
                          render_image_p chafa image options];
                shared := w |} in
  all_finished c = true /\
  exists l, calls (shared c) = (calls w ++ l)%list /\ (2 <= List.length l)%nat.
Proof.
  intros R En P L S c. subst c. unfold miss_race.
  rewrite !run_schedule_app. apply lookup_none_exists in L.
  erewrite (render_lookup 0 _ w path false) by (reflexivity || assumption).
  erewrite (render_lookup 1 _ w path false) by (reflexivity || assumption).
  cbn [update]. fold S. rewrite <- run_schedule_app.
  rewrite (run_serial hangs R S S w). split; [reflexivity|].
  cbn [shared].
  destruct (render_and_store_calls path w) as (l1 & C1 & L1).
  destruct (render_and_store_calls path (snd (run S w))) as (l2 & C2 & L2).
  exists (l1 ++ l2)%list. fold S in C1, C2.
  rewrite C2, C1, app_assoc, length_app. split; [reflexivity | lia].
Qed.

(** (C32) A file removed between the test and the read of a hit makes the render
    fail: the first process has found its entry, the second (an eviction
    pass, or anything that removes the file) runs, and the read of the
    first returns an error, which [render_image] propagates. *)
Theorem eviction_race_fails w path q :
  (forall cmd, hangs cmd = false) ->
  cache_enabled options = true ->
  cache_path_of image options w = Some path ->
  fst (fs_exists path w) = Ok true ->
  lookup path (snd (run q w)) = None ->
  procs (run_schedule hangs (eviction_race (cost q w))
           {| procs := [render_image_p chafa image options; q];
              shared := w |}) =
  [Done (Err (EIo (OpRead path))); Done (fst (run q w))].
Proof.
  intros R En P X L. unfold eviction_race.
  rewrite !run_schedule_app.
  erewrite (render_lookup 0 _ w path true) by (reflexivity || assumption).
  cbn [update]. rewrite (run_solo hangs R 1 q) by reflexivity.
  unfold run_schedule. cbn [fold_left update].
  sched_one ltac:(simpl; unfold fs_read_to_string; rewrite L;
                  now destruct (faulty _ _)).
  reflexivity.
Qed.

(** Only process 0 of a pool of one can move. *)
Lemma sched_step_alone (p : proc string) i w :
  sched_step hangs (S i) {| procs := [p]; shared := w |} =
  {| procs := [p]; shared := w |}.
Proof. unfold sched_step. simpl. now destruct i. Qed.

(** A render whose renderer hangs passes through three states only. *)
Lemma hung_states sched w path :
  cache_enabled options = true ->
  cache_path_of image options w = Some path ->
  lookup path w = None ->
  hangs (chafa :: chafa_args image (cols options) (rows options)
                    (format options) (colors options) (animate options))
  = true ->
  forall n, exists p,
    after hangs sched n
      {| procs := [render_image_p chafa image options]; shared := w |} =
    {| procs := [p]; shared := w |} /\
    In p [render_image_p chafa image options;
          lookup_p chafa image options path;
          render_and_store_p chafa image options path].
Proof.
  intros En P L Hg. apply lookup_none_exists in L.
  induction n as [|n (p & E & I)]; [eexists; split; [reflexivity|now left]|].
  cbn [after]. rewrite E. clear E. destruct (sched n) as [|i];
    [|exists p; split; [apply sched_step_alone | exact I]].
  destruct I as [<-|[<-|[<-|[]]]].
  - erewrite (key_step 0 _ w path) by (reflexivity || assumption).
    eexists. split; [reflexivity|]. simpl. auto.
  - erewrite (lookup_step 0 _ w path false) by (reflexivity || assumption).
    eexists. split; [reflexivity|]. simpl. auto.
  - rewrite sched_step_idle; [eexists; split; [reflexivity|simpl; auto]|].
    unfold moves. simpl. now rewrite Hg.
Qed.

(** A renderer that hangs hangs the run: on a miss whose command line the
    renderer never answers, the render does not end, whatever the
    schedule. *)
Theorem hung_renderer_hangs sched w path :
  cache_enabled options = true ->
  cache_path_of image options w = Some path ->
  lookup path w = None ->
  hangs (chafa :: chafa_args image (cols options) (rows options)
                    (format options) (colors options) (animate options))
  = true ->
  forall n,
    all_finished
      (after hangs sched n
         {| procs := [render_image_p chafa image options]; shared := w |})
    = false.
Proof.
  intros En P L Hg n.
  destruct (hung_states sched w path En P L Hg n) as (p & -> & I).
  destruct I as [<-|[<-|[<-|[]]]]; unfold all_finished, lookup_p;
    rewrite ?En; reflexivity.
Qed.

End Races.

(** ** Renders of two images do not interfere

    Two renders that hit different entries of the cache: whatever the
    schedule, each returns its payload and both entries are touched. *)

Lemma hit_file_names path data t k es :
  In path (names es) -> names (hit_file path data t k es) = names es.
Proof.
  intros I. apply find_entry_Some_iff in I as [e E].
  destruct k as [|[|[|[|[|k]]]]]; try reflexivity; simpl;
    now rewrite names_put_entry; simpl; rewrite E.
Qed.

Lemma hit_file_other path data t k es name :
  path <> name ->
  find_entry name (hit_file path data t k es) = find_entry name es.
Proof.
  intros N. destruct k as [|[|[|[|[|k]]]]]; try reflexivity; simpl;
    now apply find_put_entry_ne.
Qed.

Lemma hit_file_comm p1 d1 p2 d2 t i j es :
  p1 <> p2 -> In p1 (names es) -> In p2 (names es) ->
  hit_file p1 d1 t i (hit_file p2 d2 t j es) =
  hit_file p2 d2 t j (hit_file p1 d1 t i es).
Proof.
  intros N I1 I2.
  destruct i as [|[|[|[|[|i]]]]], j as [|[|[|[|[|j]]]]]; try reflexivity;
    simpl; now apply put_entry_comm.
Qed.

Section Independent.
Context `{Hasher}.
Variable hangs : list string -> bool.
Variables (chafa : string) (w : world).
Hypothesis no_faults : fault_free w.

(** One call of a hit, on a listing [es0] in which the others have left
    its file alone. *)
Lemma hit_step i ps image options path e es0 k :
  cache_enabled options = true ->
  cache_path_of image options w = Some path ->
  find_entry path es0 = Some e -> (k < 5)%nat ->
  nth_error ps i = Some (hit_proc chafa image options path (e_data e) k) ->
  sched_step hangs i
    {| procs := ps;
       shared := with_cache
                   (Some (hit_file path (e_data e) (now w) k es0)) w |} =
  {| procs := update i (hit_proc chafa image options path (e_data e) (S k)) ps;
     shared := with_cache
                 (Some (hit_file path (e_data e) (now w) (S k) es0)) w |}.
Proof.
  intros En P L Hk E.
  destruct k as [|[|[|[|[|k]]]]]; [..|lia]; cbn [hit_proc hit_file] in *.
  - apply (key_step hangs chafa image options); [exact E|].
    now rewrite (cache_path_of_frame _ _ w).
  - apply (lookup_step hangs chafa image options _ _ _ path true);
      [exact E | exact En |].
    unfold fs_exists, lookup, entries. cbn [cache with_cache faulty fst].
    now rewrite L, no_faults.
  - erewrite (sched_step_Step hangs i ps _ (ReadToString path));
      [|exact E | reflexivity
       |apply fs_read_to_string_ok; [exact L | apply no_faults]].
    reflexivity.
  - erewrite (sched_step_Step hangs i ps _ (Create path));
      [|exact E | reflexivity
       |apply fs_create_ok; [reflexivity | apply no_faults]].
    reflexivity.
  - erewrite (sched_step_Step hangs i ps _ (WriteAll path (e_data e)));
      [|exact E | reflexivity
       |apply fs_write_all_ok;
        [reflexivity | apply In_names_written | apply no_faults]].
    simpl. now rewrite put_entry_twice.
Qed.

Variables (image1 image2 : string) (options1 options2 : RenderOptions).
Variables (path1 path2 : string) (e1 e2 : entry) (es : list entry).
Hypothesis enabled1 : cache_enabled options1 = true.
Hypothesis enabled2 : cache_enabled options2 = true.
Hypothesis key1 : cache_path_of image1 options1 w = Some path1.
Hypothesis key2 : cache_path_of image2 options2 w = Some path2.
Hypothesis listing : cache w = Some es.
Hypothesis cached1 : find_entry path1 es = Some e1.
Hypothesis cached2 : find_entry path2 es = Some e2.
Hypothesis distinct : path1 <> path2.

(** The configuration when the first render has made [i] calls and the
    second [j]. *)
Definition hits_at (i j : nat) : config :=
  {| procs := [hit_proc chafa image1 options1 path1 (e_data e1) i;
               hit_proc chafa image2 options2 path2 (e_data e2) j];
     shared := with_cache
                 (Some (hit_file path2 (e_data e2) (now w) j
                          (hit_file path1 (e_data e1) (now w) i es))) w |}.

Lemma hits_in_listing : In path1 (names es) /\ In path2 (names es).
Proof. split; apply find_entry_Some_iff; eauto. Qed.

Lemma hits_step_first i j :
  (i < 5)%nat -> sched_step hangs 0 (hits_at i j) = hits_at (S i) j.
Proof.
  intros Hi. destruct hits_in_listing as [I1 I2]. unfold hits_at.
  rewrite <- !(hit_file_comm path1 _ path2) by assumption.
  rewrite (hit_step 0 _ image1 options1 path1 e1); auto.
  now rewrite hit_file_other.
Qed.

Lemma hits_step_second i j :
  (j < 5)%nat -> sched_step hangs 1 (hits_at i j) = hits_at i (S j).
Proof.
  intros Hj. unfold hits_at.
  rewrite (hit_step 1 _ image2 options2 path2 e2); auto.
  now rewrite hit_file_other.
Qed.

Lemma hits_step_end i j n :
  (n = 0 /\ 5 <= i \/ n = 1 /\ 5 <= j \/ 2 <= n)%nat ->
  sched_step hangs n (hits_at i j) = hits_at i j.
Proof.
  intros C. apply sched_step_idle. unfold moves, hits_at. cbn [procs].
  destruct C as [[-> Hi]|[[-> Hj]|Hn]].
  - do 5 (destruct i as [|i]; [lia|]). reflexivity.
  - do 5 (destruct j as [|j]; [lia|]). reflexivity.
  - do 2 (destruct n as [|n]; [lia|]). now destruct n.
Qed.

(** Every schedule leads to a configuration of the form [hits_at]: the
    calls of one render do not change what the other reads or writes. *)
Lemma hits_schedule s : forall i j,
  exists i' j', run_schedule hangs s (hits_at i j) = hits_at i' j'.
Proof.
  induction s as [|n s IH]; intros i j; [now exists i, j|].
  rewrite run_schedule_cons. destruct n as [|[|n]].
  - destruct (Nat.lt_ge_cases i 5) as [Hi|Hi].
    + rewrite hits_step_first by exact Hi. apply IH.
    + rewrite hits_step_end by auto. apply IH.
  - destruct (Nat.lt_ge_cases j 5) as [Hj|Hj].
    + rewrite hits_step_second by exact Hj. apply IH.
    + rewrite hits_step_end by auto. apply IH.
  - rewrite hits_step_end by (right; right; lia). apply IH.
Qed.

Lemma hits_finished i j :
  all_finished (hits_at i j) = true -> (5 <= i)%nat /\ (5 <= j)%nat.
Proof.
  unfold all_finished, hits_at. cbn [procs forallb].
  destruct i as [|[|[|[|[|i]]]]], j as [|[|[|[|[|j]]]]];
    cbn [hit_proc]; unfold lookup_p; rewrite ?enabled1, ?enabled2;
    try discriminate; lia.
Qed.

(** (C19) Two renders that hit different entries do not interfere: under every
    schedule that lets both end, each returns the payload of its entry and
    both entries are touched, as in a sequence of the two. *)
Theorem hits_independent s :
  let c := run_schedule hangs s
             {| procs := [render_image_p chafa image1 options1;
                          render_image_p chafa image2 options2];
                shared := w |} in
  all_finished c = true ->
  c = {| procs := [Done (Ok (e_data e1)); Done (Ok (e_data e2))];
         shared := with_cache
                     (Some (put_entry (mk_entry path2 (e_data e2) (now w))
                              (put_entry (mk_entry path1 (e_data e1) (now w))
                                 es))) w |}.
Proof.
  intros c. subst c.
  replace {| procs := _; shared := w |} with (hits_at 0 0).
  2:{ unfold hits_at. simpl. f_equal. destruct w. simpl in *. now subst. }
  destruct (hits_schedule s 0 0) as (i & j & ->). intros Fin.
  apply hits_finished in Fin as [Hi Hj].
  do 5 (destruct i as [|i]; [lia|]). do 5 (destruct j as [|j]; [lia|]).
  reflexivity.
Qed.

End Independent.

(** ** The theorems at concrete worlds

    The examples run with the stand-in hash function of [CacheKey], on the
    worlds of [FileSystem] and [Pipeline]. *)

#[local] Existing Instance toy_hasher.

(** A renderer that answers every command, and one that answers none. *)
Definition responsive : list string -> bool := fun _ => false.
Definition hung : list string -> bool := fun _ => true.

(** Two renders of the example request. *)
Definition cat_render : proc string :=
  render_image_p "chafa" "cat.png" example_options.

Definition two_renders : list (proc string) := [cat_render; cat_render].

Definition round_robin (k : nat) : nat -> nat := fun n => (n mod k)%nat.

(** The cache holds the example request and a newer entry, 17 bytes in
    all. *)
Definition two_entries_world : world :=
  with_cache (Some [mk_entry cat_path "<cached cat>" 50;
                    mk_entry "dog.txt" "<dog>" 60]) example_world.

(** Two images, both in the cache. *)
Definition pets_images : string -> img_stat :=
  fun p => if String.eqb p "cat.png" then StatMtime 7
           else if String.eqb p "dog.png" then StatMtime 9 else StatErr.

Definition dog_path : string :=
  match cache_path_of "dog.png" example_options
          (with_cache None
             {| cache := None; now := 100; faulty := no_faults;
                images := pets_images; renderer := renderer example_world;
                calls := [] |}) with
  | Some path => path
  | None => ""
  end.

Definition pets_world : world :=
  {| cache := Some [mk_entry cat_path "<cached cat>" 50;
                    mk_entry dog_path "<cached dog>" 60];
     now := 100; faulty := no_faults; images := pets_images;
     renderer := renderer example_world; calls := [] |}.

Definition dog_render : proc string :=
  render_image_p "chafa" "dog.png" example_options.

(** An eviction pass reads the sizes and the times of the entries; then a
    render hits the oldest entry and touches it; then the pass removes the
    entry that was the oldest when it looked. *)
Definition lost_touch_race : list nat :=
  (repeat 1 6 ++ repeat 0 5 ++ [1; 1])%nat%list.



Lemma fair_schedule_finishes_witness :
  exists n, forall m, (n <= m)%nat ->
    all_finished
      (after responsive (round_robin 2) m
         {| procs := two_renders; shared := example_world |}) = true.
Proof.
  apply fair_schedule_finishes; [reflexivity|].
  apply (round_robin_fair responsive
           {| procs := two_renders; shared := example_world |}).
Defined.


Lemma hit_race_empties_witness :
  run_schedule responsive hit_race
    {| procs := two_renders; shared := hit_world |} =
  {| procs := [Done (Ok "<cached cat>"); Done (Ok "")];
     shared := with_cache (Some [mk_entry cat_path "" 100]) hit_world |}.
Proof.
  apply (hit_race_empties responsive "chafa" "cat.png" example_options
           hit_world cat_path (mk_entry cat_path "<cached cat>" 50));
    solve_hyp.
Defined.

Lemma miss_race_renders_twice_witness :
  let S := render_and_store_p "chafa" "cat.png" example_options cat_path in
  let c := run_schedule responsive
             (miss_race (cost S example_world)
                (cost S (snd (run S example_world))))
             {| procs := two_renders; shared := example_world |} in
  all_finished c = true /\
  exists l, calls (shared c) = (calls example_world ++ l)%list /\
            (2 <= List.length l)%nat.
Proof.
  apply (miss_race_renders_twice responsive "chafa" "cat.png" example_options
           example_world cat_path); solve_hyp.
Defined.

Lemma eviction_race_fails_witness :
  procs (run_schedule responsive
           (eviction_race (cost (eviction_pass 3) hit_world))
           {| procs := [cat_render; eviction_pass 3]; shared := hit_world |}) =
  [Done (Err (EIo (OpRead cat_path)));
   Done (fst (run (eviction_pass 3) hit_world))].
Proof.
  apply (eviction_race_fails responsive "chafa" "cat.png" example_options
           hit_world cat_path (eviction_pass 3)); solve_hyp.
Defined.

Lemma hung_renderer_hangs_witness :
  all_finished
    (after hung (fun _ => 0%nat) 10
       {| procs := [cat_render]; shared := example_world |}) = false.
Proof.
  apply (hung_renderer_hangs hung "chafa" "cat.png" example_options
           (fun _ => 0%nat) example_world cat_path); solve_hyp.
Defined.

Lemma hits_independent_witness :
  run_schedule responsive [0; 1; 1; 0; 1; 0; 0; 1; 1; 0]%nat
    {| procs := [cat_render; dog_render]; shared := pets_world |} =
  {| procs := [Done (Ok "<cached cat>"); Done (Ok "<cached dog>")];
     shared := with_cache
                 (Some [mk_entry cat_path "<cached cat>" 100;
                        mk_entry dog_path "<cached dog>" 100]) pets_world |}.
Proof.
  apply (hits_independent responsive "chafa" pets_world (fun _ => eq_refl)
           "cat.png" "dog.png" example_options example_options
           cat_path dog_path (mk_entry cat_path "<cached cat>" 50)
           (mk_entry dog_path "<cached dog>" 60) (entries pets_world));
    try reflexivity.
  vm_compute. discriminate.
Defined.

(** The races, run. *)

(** After the race of two hits every later render of the image prints
    nothing. *)
Example hit_race_example :
  let c := run_schedule responsive hit_race
             {| procs := two_renders; shared := hit_world |} in
  procs c = [Done (Ok "<cached cat>"); Done (Ok "")] /\
  fst (render_image "chafa" "cat.png" example_options (shared c)) = Ok "".
Proof. vm_compute. split; reflexivity. Qed.

(** In sequence the second render is a hit and the renderer runs once; in
    the race of two misses it runs twice. *)
Example miss_race_example :
  let S := render_and_store_p "chafa" "cat.png" example_options cat_path in
  calls (shared (run_schedule responsive
                   (miss_race (cost S example_world)
                      (cost S (snd (run S example_world))))
                   {| procs := two_renders; shared := example_world |})) =
  [first_cmd "chafa" "cat.png" 80 13 ChafaFormat.Auto ChafaColors.Auto false;
   first_cmd "chafa" "cat.png" 80 13 ChafaFormat.Auto ChafaColors.Auto false]
  /\
  calls (snd (run cat_render (snd (run cat_render example_world)))) =
  [first_cmd "chafa" "cat.png" 80 13 ChafaFormat.Auto ChafaColors.Auto false].
Proof. vm_compute. split; reflexivity. Qed.

(** A lost touch: the entry that a render has just used is the one the
    eviction pass removes, although the other entry is older by then. *)
Example lost_touch_example :
  let c := run_schedule responsive lost_touch_race
             {| procs := [cat_render; eviction_pass 12];
                shared := two_entries_world |} in
  procs c = [Done (Ok "<cached cat>"); Done (Ok "")] /\
  names (entries (shared c)) = ["dog.txt"] /\
  names (entries (snd (run (eviction_pass 12)
                         (snd (run cat_render two_entries_world))))) =
  [cat_path].
Proof. vm_compute. repeat split; reflexivity. Qed.

(** The lost touch is not an effect of a clock that stands still: it
    occurs as well when time passes between the calls, since the eviction
    has read the modification times before the touch. *)
Example lost_touch_timed_example :
  let c := run_events responsive
             (map Move (repeat 1 6) ++ [Pass 5] ++ map Move (repeat 0 5) ++
              [Pass 5] ++ map Move [1; 1])%nat%list
             {| procs := [cat_render; eviction_pass 12];
                shared := two_entries_world |} in
  procs c = [Done (Ok "<cached cat>"); Done (Ok "")] /\
  names (entries (shared c)) = ["dog.txt"] /\ now (shared c) = 110%Z.
Proof. vm_compute. repeat split; reflexivity. Qed.

(** A run that is killed between the truncation and the write of its touch
    is a run that is never scheduled again: the entry stays empty. *)
Example killed_touch_example :
  let c := run_schedule responsive [0; 0; 0; 0]%nat
             {| procs := [cat_render]; shared := hit_world |} in
  all_finished c = false /\
  lookup cat_path (shared c) = Some (mk_entry cat_path "" 100) /\
  fst (render_image "chafa" "cat.png" example_options (shared c)) = Ok "".
Proof. vm_compute. repeat split; reflexivity. Qed.

(** (C31) Renders under any schedule, with or without time passing between
    their calls, start the renderer at most twice each: the single retry
    of [run_chafa] holds for every interleaving, so [k] runs that overlap
    cost at most [2 * k] renders, also when all of them miss on one
    image. *)
Theorem renders_spawn_twice hangs es
  (requests : list (string * string * RenderOptions)) w :
  let render := fun '(chafa, image, options) =>
                  render_image_p chafa image options in
  (List.length
     (calls (shared (run_events hangs es
                       {| procs := map render requests; shared := w |})))
   <= List.length (calls w) + 2 * List.length requests)%nat.
Proof.
  intros render. rewrite <- (length_map render requests).
  apply schedule_spawns, Forall_forall. intros p Hp.
  apply in_map_iff in Hp as ([[chafa image] options] & <- & _).
  apply render_image_p_spawns.
Qed.

(** The bound is reached when two renders whose first attempt fails miss
    together: four starts of the renderer. *)
Example renders_spawn_twice_tight :
  let request :=
    ("chafa", "cat.png",
     {| cols := 80; rows := 13; format := ChafaFormat.Auto;
        colors := ChafaColors.Auto; animate := false;
        cache_enabled := true; cache_max_mb := 64 |}) in
  let render := fun '(chafa, image, options) =>
                  render_image_p chafa image options in
  List.length
    (calls (shared (run_schedule responsive (miss_race 4 4)
                      {| procs := map render [request; request];
                         shared := picky_world |}))) = 4%nat.
Proof. vm_compute. reflexivity. Qed.


(** Without fairness a run can starve: under the schedule that always
    picks the first render the second never makes a call. *)
Example unfair_schedule_starves n :
  all_finished
    (after responsive (fun _ => 0%nat) n
       {| procs := two_renders; shared := example_world |}) = false.
Proof.
  unfold all_finished.
  pose proof (unscheduled_stays responsive (fun _ => 0%nat)
                {| procs := two_renders; shared := example_world |} 1
                (fun _ => O_S 0) n) as E.
  destruct (procs _) as [|p [|q ps]]; try discriminate E.
  simpl in E. inv E. cbn [forallb]. apply andb_false_r.
Qed.

(** A touch hides the size of its entry: the eviction pass that reads the
    sizes between the truncation and the write of a touch counts the entry
    as empty and removes nothing; when both runs have ended the cache holds
    17 bytes on a budget of 12.  Run alone on the same directory the pass
    removes the older entry. *)
Example touch_hides_size_example :
  let c := run_schedule responsive
             (repeat 0 4 ++ repeat 1 6 ++ [0])%nat%list
             {| procs := [cat_render; eviction_pass 12];
                shared := two_entries_world |} in
  all_finished c = true /\ cache_size (shared c) = 17%Z /\
  cache_size (snd (run (eviction_pass 12) two_entries_world)) = 5%Z.
Proof. vm_compute. repeat split; reflexivity. Qed.
