(* ===== verification/Coherence.v ===== *)
(** * Coherence: what overlapping renders can return

    Section 7 of the specification: no corrupted image is ever emitted.
    Run alone, [render_image] returns the bytes of the cache file or the
    output of the renderer.  This file shows what remains of that when any
    number of renders overlap on one cache directory, under every schedule:
    a render returns the output of the renderer for a request with its
    cache file, or the empty string, and nothing else; and every file of
    the cache directory holds such bytes at every instant.

    The proof is by a protocol ([Process.follows]): a render only writes
    such bytes to a cache file, provided what it reads from a cache file
    are such bytes ([allow], [rely]); the directory that all writers keep
    to the protocol satisfies the invariant [coherent], which in turn
    gives every reader what it relies on.  The empty string cannot be
    left out: a hit that reads during the touch of another returns it
    ([Concurrent.hit_race_empties]). *)

From Stdlib Require Import ZArith List String Ascii Bool Lia.
From S2P Require Import Prelude Chafa FileSystem CacheKey CacheStore Renderer Pipeline Process Concurrent.
Import ListNotations.

#[local] Open Scope string_scope.

Section Coherence.
Context `{Hasher}.

(** The machine the renders run on: its images and its renderer. *)
Variable w0 : world.

(** A request: the renderer's path, the image and the options. *)
Definition request : Type := string * string * RenderOptions.

Definition render_p (rq : request) : proc string :=
  let '(chafa, image, options) := rq in render_image_p chafa image options.

(** The cache file of a request. *)
Definition path_of (rq : request) : option string :=
  let '(_, image, options) := rq in cache_path_of image options w0.

(** [d] is what the renderer prints for the request, on its first command
    line or on that of the retry. *)
Definition rendered (rq : request) (d : string) : Prop :=
  let '(chafa, image, o) := rq in
  exists cmd out,
    (cmd = first_cmd chafa image (cols o) (rows o) (format o) (colors o)
             (animate o) \/
     cmd = retry_cmd chafa image (cols o) (rows o) (format o) (colors o)
             (animate o)) /\
    renderer w0 cmd = Some out /\ status_success out = true /\
    d = stdout out.

(** Bytes a cache file may hold: none, or the image of a request with that
    file. *)
Definition good (name d : string) : Prop :=
  d = "" \/ exists rq, path_of rq = Some name /\ rendered rq d.

(** What a render may return. *)
Definition served (rq : request) (d : string) : Prop :=
  d = "" \/ exists rq', path_of rq' = path_of rq /\ rendered rq' d.

(** The protocol of the cache directory. *)
Definition allow B (o : op B) : Prop :=
  match o with
  | WriteAll name d => good name d
  | _ => True
  end.

Definition rely B (o : op B) : result error B -> Prop :=
  match o in op B return result error B -> Prop with
  | ReadToString name => fun r => forall d, r = Ok d -> good name d
  | Spawn cmd => fun r => forall out, r = Ok out -> renderer w0 cmd = Some out
  | ImageMtime image => fun r => r = fst (image_mtime image w0)
  | _ => fun _ => True
  end.

(** The invariant of the shared world. *)
Definition coherent (w : world) : Prop :=
  images w = images w0 /\ renderer w = renderer w0 /\
  Forall (fun e => good (e_name e) (e_data e)) (entries w).

(** ** The calls keep the invariant and give what is relied on *)

Lemma Forall_put_entry (P : entry -> Prop) x es :
  P x -> Forall P es -> Forall P (put_entry x es).
Proof.
  intros Hx. induction 1 as [|e es He Hes IH]; simpl; [auto|].
  destruct (String.eqb _ _); constructor; auto.
Qed.

Lemma Forall_del_entry (P : entry -> Prop) name es :
  Forall P es -> Forall P (del_entry name es).
Proof.
  rewrite !Forall_forall. intros F e He. apply F.
  unfold del_entry in He. now apply filter_In in He.
Qed.

Lemma exec_entries {B} (o : op B) w :
  coherent w -> allow B o ->
  Forall (fun e => good (e_name e) (e_data e)) (entries (snd (exec o w))).
Proof.
  intros (_ & _ & F) Ho.
  assert (Forall (fun e => good (e_name e) (e_data e)) []) as N by constructor.
  destruct o; simpl in *;
    unfold fs_dir_exists, fs_exists, fs_read_to_string, fs_create,
      fs_write_all, fs_create_dir_all, fs_remove_file, fs_read_dir,
      fs_metadata, image_mtime, spawn, lookup, entries in *;
    destruct (cache w) as [es|] eqn:C;
    repeat (destr; simpl; rewrite ?C); auto using Forall_del_entry;
    apply Forall_put_entry; simpl; auto. now left.
Qed.

Lemma exec_coherent {B} (o : op B) w :
  coherent w -> allow B o -> coherent (snd (exec o w)).
Proof.
  intros C Ho. pose proof (exec_entries o w C Ho) as F.
  destruct C as (I & R & _).
  destruct (exec_effects o w) as (_ & _ & I' & R' & _).
  repeat split; [congruence | congruence | exact F].
Qed.

Lemma exec_rely {B} (o : op B) w : coherent w -> rely B o (fst (exec o w)).
Proof.
  intros (I & R & F). destruct o; simpl; trivial.
  - intros d. unfold fs_read_to_string. destr; simpl; try discriminate.
    destruct (lookup name w) as [e|] eqn:L; simpl; [|discriminate].
    intros [= <-]. rewrite <- (find_entry_name _ _ _ L).
    rewrite Forall_forall in F. apply F. eapply find_entry_In, L.
  - unfold image_mtime. rewrite I. now destruct (images w0 image).
  - intros out. unfold spawn. rewrite R.
    destruct (renderer w0 cmd); simpl; congruence.
Qed.

(** ** The render follows the protocol *)

Lemma allow_evicting B (o : op B) : evicting o = true -> allow B o.
Proof. now destruct o. Qed.

Lemma cache_key_p_follows chafa image o :
  follows allow rely
    (fun key => path_of (chafa, image, o) = Some (cache_file_name key))
    (cache_key_p image (cols o) (rows o) (format o) (colors o) (animate o)).
Proof.
  unfold cache_key_p. eapply follows_bindp; [now apply follows_call|].
  intros mtime Hm. apply follows_ret. simpl in Hm.
  unfold path_of, cache_path_of. rewrite cache_key_eq, <- Hm. reflexivity.
Qed.

Lemma cache_hit_p_follows path :
  follows allow rely (good path) (cache_hit_p path).
Proof.
  unfold cache_hit_p. eapply follows_bindp; [now apply follows_call|].
  intros d Hd. assert (good path d) as G by now apply Hd.
  apply follows_seq; [now apply follows_call_any|]. intros _.
  apply follows_seq; [now apply follows_call_any|]. intros _.
  now apply follows_ret.
Qed.

Lemma run_chafa_p_follows chafa image o :
  follows allow rely (rendered (chafa, image, o))
    (run_chafa_p chafa image (cols o) (rows o) (format o) (colors o)
       (animate o)).
Proof.
  unfold run_chafa_p. eapply follows_bindp; [now apply follows_call|].
  intros out Ho. specialize (Ho out eq_refl).
  destruct (status_success out) eqn:S1;
    [apply follows_ret; eexists _, out; eauto|].
  cbv zeta. destruct (_ || _); [|apply follows_err].
  eapply follows_bindp; [now apply follows_call|].
  intros retry Hr. specialize (Hr retry eq_refl).
  destruct (status_success retry) eqn:S2; [|apply follows_err].
  apply follows_ret. eexists _, retry. unfold retry_cmd. eauto.
Qed.

Lemma cache_store_p_follows path out mb :
  good path out ->
  follows allow rely (fun _ => True) (cache_store_p path out mb).
Proof.
  intros G. unfold cache_store_p.
  apply follows_seq; [now apply follows_call_any|]. intros _.
  apply follows_seq; [now apply follows_call_any|]. intros _.
  apply follows_seq; [now apply follows_call_any|]. intros _.
  apply follows_enforce, allow_evicting.
Qed.

Lemma render_p_follows rq : follows allow rely (served rq) (render_p rq).
Proof.
  destruct rq as [[chafa image] o]. unfold render_p, render_image_p.
  eapply follows_bindp; [apply cache_key_p_follows with (chafa := chafa)|].
  intros key Hk. cbv zeta. apply follows_seq.
  { destruct (cache_enabled o); [now apply follows_call_any|].
    apply follows_any. }
  intros [|].
  - eapply follows_mono; [|apply cache_hit_p_follows].
    intros d [->|(rq' & P & R)]; [now left|]. right. exists rq'.
    split; [congruence | exact R].
  - eapply follows_bindp; [apply run_chafa_p_follows with (chafa := chafa)|].
    intros out R. apply follows_seq.
    + destruct (cache_enabled o); [|apply follows_any].
      apply cache_store_p_follows. right. now exists (chafa, image, o).
    + intros _. apply follows_ret. right. now exists (chafa, image, o).
Qed.

(** ** Schedules keep the invariant *)

Section Pool.
Variable hangs : list string -> bool.
Variable post : nat -> string -> Prop.

(** Every process of the pool follows the protocol, towards its own
    result. *)
Definition pool_follows (ps : list (proc string)) : Prop :=
  forall i p, nth_error ps i = Some p -> follows allow rely (post i) p.

Lemma advance_follows i p w :
  coherent w -> follows allow rely (post i) p ->
  follows allow rely (post i) (fst (advance hangs p w)) /\
  coherent (snd (advance hangs p w)).
Proof.
  intros C [r Hr|B o k Ho Hk]; simpl; [split; [now constructor | exact C]|].
  destruct (blocked hangs o); [split; [now constructor | exact C]|].
  pose proof (exec_rely o w C) as R. pose proof (exec_coherent o w C Ho) as C'.
  destruct (exec o w) as [r w']. split; [apply Hk, R | exact C'].
Qed.

Lemma sched_step_follows i c :
  coherent (shared c) -> pool_follows (procs c) ->
  coherent (shared (sched_step hangs i c)) /\
  pool_follows (procs (sched_step hangs i c)).
Proof.
  intros C F. unfold sched_step.
  destruct (nth_error (procs c) i) as [p|] eqn:E; [|now split].
  destruct (advance_follows i p (shared c) C (F i p E)) as [Fp C'].
  destruct (advance hangs p (shared c)) as [p' w']. split; [exact C'|].
  intros j q. cbn [procs]. destruct (Nat.eq_dec i j) as [<-|N].
  - rewrite (nth_error_update i p' _ p E). now intros [= <-].
  - rewrite nth_error_update_ne by exact N. apply F.
Qed.

Lemma event_step_follows e c :
  coherent (shared c) -> pool_follows (procs c) ->
  coherent (shared (event_step hangs e c)) /\
  pool_follows (procs (event_step hangs e c)).
Proof. destruct e; [apply sched_step_follows | auto]. Qed.

Lemma run_events_follows es : forall c,
  coherent (shared c) -> pool_follows (procs c) ->
  coherent (shared (run_events hangs es c)) /\
  pool_follows (procs (run_events hangs es c)).
Proof.
  induction es as [|e es IH]; intros c C F; [now split|].
  rewrite run_events_cons. now apply IH; apply event_step_follows.
Qed.

End Pool.

(** (C22) Whatever the schedule, however time passes and however many renders
    overlap, on a cache directory whose files hold images or nothing:
    every file of the directory still does, and a render that ends with
    bytes ends with the image of a request with its cache file, or with no
    bytes at all. *)
Theorem schedule_coherent hangs es (requests : list request) w :
  coherent w ->
  let c := run_events hangs es
             {| procs := map render_p requests; shared := w |} in
  coherent (shared c) /\
  forall i rq d,
    nth_error requests i = Some rq ->
    nth_error (procs c) i = Some (Done (Ok d)) -> served rq d.
Proof.
  intros C c.
  set (post := fun i d => forall rq, nth_error requests i = Some rq ->
                                     served rq d).
  destruct (run_events_follows hangs post es
              {| procs := map render_p requests; shared := w |} C)
    as [C' F].
  - intros i p. cbn [procs]. rewrite nth_error_map.
    destruct (nth_error requests i) as [rq|] eqn:E; [|discriminate].
    intros [= <-]. eapply follows_mono; [|apply render_p_follows].
    intros d S rq' E'. rewrite E in E'. now inv E'.
  - split; [exact C'|]. intros i rq d Hrq Hp.
    specialize (F i _ Hp). inv F. now apply (H1 d eq_refl).
Qed.

End Coherence.

(** ** The theorem at a concrete pool *)

#[local] Existing Instance toy_hasher.

Definition cat_request : request := ("chafa", "cat.png", example_options).

(** The cache after one render of the example request. *)
Definition warm_world : world :=
  snd (render_image "chafa" "cat.png" example_options example_world).

Lemma warm_world_coherent : coherent example_world warm_world.
Proof.
  repeat split. vm_compute entries. constructor; [|constructor].
  right. exists cat_request. split; [reflexivity|].
  eexists _, _. repeat split; [left; reflexivity | reflexivity..].
Qed.

Definition timed_hit_race : list event :=
  [Move 0; Move 0; Pass 2; Move 1; Move 1; Move 0; Move 0; Pass 1; Move 1;
   Move 0; Move 1; Move 1]%nat.

Lemma schedule_coherent_witness :
  let c := run_events (fun _ => false) timed_hit_race
             {| procs := map render_p [cat_request; cat_request];
                shared := warm_world |} in
  coherent example_world (shared c) /\
  forall i rq d,
    nth_error [cat_request; cat_request] i = Some rq ->
    nth_error (procs c) i = Some (Done (Ok d)) -> served example_world rq d.
Proof.
  apply (schedule_coherent example_world (fun _ => false) timed_hit_race
           [cat_request; cat_request] warm_world warm_world_coherent).
Defined.

(** Both cases occur: under this schedule the first render returns the
    image and the second the empty string. *)
Example served_both :
  procs (run_events (fun _ => false) timed_hit_race
           {| procs := map render_p [cat_request; cat_request];
              shared := warm_world |}) =
  [Done (Ok "<cat>"); Done (Ok "")].
Proof. vm_compute. reflexivity. Qed.
