(* ===== verification/CommandLine.v ===== *)
(** * CommandLine: [Cli::parse]

    [struct Cli] ([main.rs] 22-62) derives [clap::Parser]: the attributes of
    its fields are the program's command-line grammar, and [Cli::parse()]
    ([main.rs] 165) is the first thing [main] does.  This file gives the
    grammar the attributes declare and the parser [clap] runs on it:

    - [arg] is the set of arguments: one per field of [Cli], named after the
      field with [-] for [_] ([long_name]), and the two that [clap] adds,
      [--help] and [--version] (the latter because of [version] in
      [#[command(..)]]), with their short forms [-h] and [-V];
    - a field of type [Option<T>] is an option that takes one value
      ([takes_value]), parsed by the value parser of [T] ([value_ok]):
      [u64::from_str] for the seed, [f32::from_str] for the ratio, the names
      and aliases of [ValueEnum] for the two selectors; a [bool] field with
      [ArgAction::SetTrue] is a flag;
    - [parse_tokens] reads the arguments from left to right into the matches
      found so far, and [from_arg_matches] builds the [Cli] from them.

    The rules of [clap] that the parser follows: a value is attached with
    [=] or is the next argument, unless that one starts with a hyphen (a
    lone [-] is a value); an argument given twice is an error, as is an
    unknown argument, any positional argument, a value attached to a flag
    and a value its parser refuses; [--] ends the options, so anything after
    it is positional; [--help] and [--version] stop the parse where they
    stand.  A value given as a separate argument is checked and recorded
    when the next argument is acted on or at the end ([pending]), so an
    unknown argument that follows it is reported instead of its error.
    [Cli::parse] prints the help or the version and exits with status 0,
    or prints the error and exits with status 2; the texts are [clap]'s
    and are a parameter here ([ClapText]), as is [f32::from_str]
    ([F32FromStr]).

    Theorems: the command lines [clap] accepts are the sequences of
    distinct arguments with acceptable values, in any order and in either
    spelling of a value, and the [Cli] they give does not depend on the
    order; every [Cli] is the parse of the command line [to_args] prints
    for it; what is printed and the exit status of a run that does not get
    past its command line. *)

From Stdlib Require Import ZArith List String Ascii Bool Lia Permutation.
From Stdlib Require Import DecimalString.
From Stdlib Require Import Floats.SpecFloat.
From S2P Require Import Prelude Encoding Chafa FileSystem RowBudget Config.
From S2P Require Import Bubble Packs Select CacheKey Pipeline Main.
Import ListNotations.

#[local] Open Scope string_scope.
#[local] Open Scope Z_scope.

(** ** The arguments *)

Inductive arg : Set :=
| Text | Image | Pack | List | Doctor | NoBubble | Seed | Format | Colors
| MaxHeightRatio | Animate
| HelpArg | VersionArg.

Definition arg_eqb (a b : arg) : bool :=
  match a, b with
  | Text, Text | Image, Image | Pack, Pack | List, List | Doctor, Doctor
  | NoBubble, NoBubble | Seed, Seed | Format, Format | Colors, Colors
  | MaxHeightRatio, MaxHeightRatio | Animate, Animate
  | HelpArg, HelpArg | VersionArg, VersionArg => true
  | _, _ => false
  end.

Definition args : list arg :=
  [Text; Image; Pack; List; Doctor; NoBubble; Seed; Format; Colors;
   MaxHeightRatio; Animate; HelpArg; VersionArg].

(** [#[arg(long)]]: the name of the field in kebab case. *)
Definition long_name (a : arg) : string :=
  match a with
  | Text => "text"
  | Image => "image"
  | Pack => "pack"
  | List => "list"
  | Doctor => "doctor"
  | NoBubble => "no-bubble"
  | Seed => "seed"
  | Format => "format"
  | Colors => "colors"
  | MaxHeightRatio => "max-height-ratio"
  | Animate => "animate"
  | HelpArg => "help"
  | VersionArg => "version"
  end.

(** The short forms: only the two arguments [clap] adds have one. *)
Definition short_name (a : arg) : option ascii :=
  match a with
  | HelpArg => Some "h"%char
  | VersionArg => Some "V"%char
  | _ => None
  end.

(** An [Option<T>] field takes a value; [ArgAction::SetTrue] and the
    actions of [--help] and [--version] take none. *)
Definition takes_value (a : arg) : bool :=
  match a with
  | Text | Image | Pack | Seed | Format | Colors | MaxHeightRatio => true
  | List | Doctor | NoBubble | Animate | HelpArg | VersionArg => false
  end.

Definition find_long (name : string) : option arg :=
  find (fun a => String.eqb (long_name a) name) args.

Definition find_short (c : ascii) : option arg :=
  find (fun a => match short_name a with
                 | Some d => Ascii.eqb d c
                 | None => false
                 end) args.

(** ** The value parsers *)

(** [u64::from_str]: an optional [+], then decimal digits, at least one,
    whose value fits 64 bits. *)
Definition u64_from_str (s : string) : option Z :=
  let digits := match s with String "+" s' => s' | _ => s end in
  match parse_usize digits with
  | Some n => if n <=? u64_max then Some n else None
  | None => None
  end.

(** [f32::from_str], of the standard library. *)
Class F32FromStr : Type := { f32_from_str : string -> option f32 }.

Definition is_some {A} (o : option A) : bool :=
  match o with Some _ => true | None => false end.

Section Parser.
Context `{F32FromStr}.

Definition value_ok (a : arg) (v : string) : bool :=
  match a with
  | Seed => is_some (u64_from_str v)
  | Format => is_some (ChafaFormat.from_str v)
  | Colors => is_some (ChafaColors.from_str v)
  | MaxHeightRatio => is_some (f32_from_str v)
  | _ => true
  end.

(** ** The parse *)

Inductive usage_error : Set :=
| UnknownArgument (token : string)   (* unexpected argument found *)
| NoValue (a : arg)                  (* a value is required but none was supplied *)
| UnexpectedValue (a : arg) (v : string)
| InvalidValue (a : arg) (v : string)
| UsedTwice (a : arg).               (* cannot be used multiple times *)

Inductive parsed : Set :=
| Parsed (cli : Cli.t)
| DisplayHelp
| DisplayVersion
| Usage (e : usage_error).

(** What has been found so far: the arguments with their values, the
    value of a flag being [true]. *)
Definition matches : Set := list (arg * string).

Definition get_one (a : arg) (m : matches) : option string :=
  option_map snd (find (fun x => arg_eqb (fst x) a) m).

Definition record (a : arg) (v : string) (m : matches)
  : result usage_error matches :=
  if is_some (get_one a m) then Err (UsedTwice a)
  else if value_ok a v then Ok (m ++ [(a, v)])%list
  else Err (InvalidValue a v).

(** The [Cli] of the matches, as the derived [FromArgMatches] builds it. *)
Definition from_arg_matches (m : matches) : Cli.t :=
  {| Cli.text := get_one Text m;
     Cli.image := get_one Image m;
     Cli.pack := get_one Pack m;
     Cli.list := is_some (get_one List m);
     Cli.doctor := is_some (get_one Doctor m);
     Cli.no_bubble := is_some (get_one NoBubble m);
     Cli.seed := match get_one Seed m with
                 | Some v => u64_from_str v
                 | None => None
                 end;
     Cli.format := match get_one Format m with
                   | Some v => ChafaFormat.from_str v
                   | None => None
                   end;
     Cli.colors := match get_one Colors m with
                   | Some v => ChafaColors.from_str v
                   | None => None
                   end;
     Cli.max_height_ratio := match get_one MaxHeightRatio m with
                             | Some v => f32_from_str v
                             | None => None
                             end;
     Cli.animate := is_some (get_one Animate m) |}.

(** The name and the attached value of a long argument without its two
    hyphens: [name=value] or [name]. *)
Fixpoint split_eq (s : string) : string * option string :=
  match s with
  | EmptyString => ("", None)
  | String c s' =>
      if Ascii.eqb c "="%char then ("", Some s')
      else let (name, value) := split_eq s' in (String c name, value)
  end.

Inductive token : Set :=
| Escape                                       (* [--] *)
| Long (name : string) (value : option string) (* [--name], [--name=value] *)
| Short (c : ascii)                            (* [-c...] *)
| Plain.                                       (* anything else, [-] included *)

Definition classify (s : string) : token :=
  match s with
  | String a (String b rest) =>
      if Ascii.eqb a "-" then
        if Ascii.eqb b "-" then
          match rest with
          | EmptyString => Escape
          | _ => let (name, value) := split_eq rest in Long name value
          end
        else Short b
      else Plain
  | _ => Plain
  end.

(** An option that has been named and waits for its value, or has it and
    waits to be recorded: [clap] records a value given as a separate
    argument only when it reaches the next argument or the end. *)
Definition pending : Set := option (arg * option string).

Definition resolve (p : pending) (m : matches) : result usage_error matches :=
  match p with
  | None => Ok m
  | Some (a, None) => Err (NoValue a)
  | Some (a, Some v) => record a v m
  end.

(** An argument has been found, with its value if it takes one: the
    pending option is settled first, then the argument acts. *)
Definition react (a : arg) (v : option string) (p : pending) (m : matches)
  : result parsed matches :=
  match resolve p m with
  | Err e => Err (Usage e)
  | Ok m' =>
      match a with
      | HelpArg => Err DisplayHelp
      | VersionArg => Err DisplayVersion
      | _ =>
          match record a (match v with Some v => v | None => "true" end) m'
          with
          | Ok m'' => Ok m''
          | Err e => Err (Usage e)
          end
      end
  end.

(** The end of the arguments. *)
Definition finish (p : pending) (m : matches) : parsed :=
  match resolve p m with
  | Ok m' => Parsed (from_arg_matches m')
  | Err e => Usage e
  end.

Fixpoint parse_tokens (p : pending) (m : matches) (tokens : list string)
  : parsed :=
  match tokens with
  | [] => finish p m
  | s :: rest =>
      match classify s with
      | Escape =>
          match rest with
          | [] => finish p m
          | positional :: _ => Usage (UnknownArgument positional)
          end
      | Long name value =>
          match find_long name with
          | None => Usage (UnknownArgument s)
          | Some a =>
              match takes_value a, value with
              | true, None =>
                  match resolve p m with
                  | Ok m' => parse_tokens (Some (a, None)) m' rest
                  | Err e => Usage e
                  end
              | false, Some v => Usage (UnexpectedValue a v)
              | _, _ =>
                  match react a value p m with
                  | Ok m' => parse_tokens None m' rest
                  | Err r => r
                  end
              end
          end
      | Short c =>
          match find_short c with
          | Some a =>
              match react a None p m with
              | Ok m' => parse_tokens None m' rest
              | Err r => r
              end
          | None => Usage (UnknownArgument s)
          end
      | Plain =>
          match p with
          | Some (a, None) => parse_tokens (Some (a, Some s)) m rest
          | _ => Usage (UnknownArgument s)
          end
      end
  end.

(** [Cli::try_parse_from] on the arguments after the program's name. *)
Definition try_parse (arguments : list string) : parsed :=
  parse_tokens None [] arguments.

(** ** Command lines built from arguments

    An item is an argument with its value and the way the value is
    spelled: attached with [=], or as the next argument. *)

Definition item : Set := arg * string * bool.

Definition key (i : item) : arg := fst (fst i).
Definition entry_of (i : item) : arg * string := fst i.

Definition tokens_of (i : item) : list string :=
  let '(a, v, separate) := i in
  if takes_value a then
    if separate then ["--" ++ long_name a; v]
    else ["--" ++ long_name a ++ "=" ++ v]
  else ["--" ++ long_name a].

Definition is_plain (s : string) : bool :=
  match classify s with Plain => true | _ => false end.

(** The items [clap] takes: a field of [Cli] with a value its parser
    accepts, separate only when the value does not look like an argument. *)
Definition item_ok (i : item) : bool :=
  let '(a, v, separate) := i in
  match a with
  | HelpArg | VersionArg => false
  | _ =>
      if takes_value a then value_ok a v && (negb separate || is_plain v)
      else String.eqb v "true"
  end.

(** The command line of a [Cli]: each field that is set, in the order of
    the fields, with its value attached.  The ratio is printed as
    [ratio_text]. *)
Definition fields : list arg :=
  [Text; Image; Pack; List; Doctor; NoBubble; Seed; Format; Colors;
   MaxHeightRatio; Animate].

Definition flag_text (b : bool) : option string :=
  if b then Some "true" else None.

Definition field_text (ratio_text : string) (cli : Cli.t) (a : arg)
  : option string :=
  match a with
  | Text => Cli.text cli
  | Image => Cli.image cli
  | Pack => Cli.pack cli
  | List => flag_text (Cli.list cli)
  | Doctor => flag_text (Cli.doctor cli)
  | NoBubble => flag_text (Cli.no_bubble cli)
  | Seed => option_map fmt_usize (Cli.seed cli)
  | Format => option_map ChafaFormat.as_arg (Cli.format cli)
  | Colors => option_map ChafaColors.as_arg (Cli.colors cli)
  | MaxHeightRatio =>
      option_map (fun _ => ratio_text) (Cli.max_height_ratio cli)
  | Animate => flag_text (Cli.animate cli)
  | HelpArg | VersionArg => None
  end.

Definition item_of (ratio_text : string) (cli : Cli.t) (a : arg)
  : list item :=
  match field_text ratio_text cli a with
  | Some v => [(a, v, false)]
  | None => []
  end.

Definition items_of (ratio_text : string) (cli : Cli.t) : list item :=
  flat_map (item_of ratio_text cli) fields.

Definition to_args (ratio_text : string) (cli : Cli.t) : list string :=
  flat_map tokens_of (items_of ratio_text cli).

(** ** [Cli::parse] and the exit of the process *)

(** The texts [clap] and the runtime print. *)
Class ClapText : Type := {
  help_text : string;
  version_text : string;
  error_text : usage_error -> string;
  error_report : error -> string;   (* [Error: {e:?}] *)
}.

Record exit : Type := {
  code : Z;
  to_stdout : list string;
  to_stderr : list string;
}.

Definition with_cli (cli : Cli.t) (env : MainEnv) : MainEnv :=
  {| cli := cli; config_env := config_env env; var_chafa := var_chafa env;
     var_path := var_path env; is_file := is_file env;
     windows := windows env; os := os env; term := term env;
     dirs := dirs env; pack_env := pack_env env;
     entropy_message := entropy_message env;
     entropy_image := entropy_image env |}.

(** The exit of a [main] that has returned: status 0, or the report of the
    error on the standard error and status 1. *)
Definition exit_of `{ClapText} (o : outcome) : exit :=
  match status o with
  | Ok _ => {| code := 0; to_stdout := printed o; to_stderr := eprinted o |}
  | Err e =>
      {| code := 1; to_stdout := printed o;
         to_stderr := (eprinted o ++ [error_report e])%list |}
  end.

(** The program from its arguments: [Cli::parse()] exits on its own for
    the help, the version and an error of usage. *)
Definition main_of_args `{ClapText} `{Hasher} `{Wrapper} `{Toml} `{TomlMeta}
  `{Rng} `{Show} (arguments : list string) (env : MainEnv) (w : world)
  : exit * world :=
  match try_parse arguments with
  | Parsed cli => let (o, w') := main (with_cli cli env) w in (exit_of o, w')
  | DisplayHelp =>
      ({| code := 0; to_stdout := [help_text]; to_stderr := [] |}, w)
  | DisplayVersion =>
      ({| code := 0; to_stdout := [version_text]; to_stderr := [] |}, w)
  | Usage e =>
      ({| code := 2; to_stdout := []; to_stderr := [error_text e] |}, w)
  end.

End Parser.

(** ** The grammar *)

Lemma arg_eqb_eq a b : arg_eqb a b = true <-> a = b.
Proof. destruct a, b; simpl; split; congruence. Qed.

Lemma arg_eqb_refl a : arg_eqb a a = true.
Proof. now apply arg_eqb_eq. Qed.

Lemma arg_eqb_sym a b : arg_eqb a b = arg_eqb b a.
Proof. now destruct a, b. Qed.

(** No two arguments share a name: every name finds its argument. *)
Lemma find_long_name a : find_long (long_name a) = Some a.
Proof. now destruct a. Qed.

Lemma long_name_inj a b : long_name a = long_name b -> a = b.
Proof.
  intros E. pose proof (find_long_name a) as Ha. rewrite E in Ha.
  rewrite find_long_name in Ha. congruence.
Qed.

Lemma classify_long a : classify ("--" ++ long_name a) = Long (long_name a) None.
Proof. now destruct a. Qed.

Lemma classify_attached a v :
  classify ("--" ++ long_name a ++ "=" ++ v) = Long (long_name a) (Some v).
Proof. now destruct a. Qed.

(** ** [u64::from_str] *)

Lemma u64_from_str_fmt n : in_u64 n -> u64_from_str (fmt_usize n) = Some n.
Proof.
  intros [L U]. unfold u64_from_str.
  assert (parse_usize (fmt_usize n) = Some n) as P by now apply parse_fmt_usize.
  destruct (fmt_usize n) as [|c s] eqn:F; [now rewrite P, (proj2 (Z.leb_le _ _))|].
  destruct (Ascii.eqb_spec c "+") as [->|N].
  - unfold parse_usize in P. cbn in P.
    destruct (DecimalString.NilEmpty.uint_of_string s); discriminate P.
  - replace (match String c s with String "+" s' => s' | _ => String c s end)
      with (String c s).
    + rewrite P. now rewrite (proj2 (Z.leb_le _ _)).
    + destruct c as [[] [] [] [] [] [] [] []]; try reflexivity. now elim N.
Qed.

Lemma u64_from_str_range s n : u64_from_str s = Some n -> in_u64 n.
Proof.
  unfold u64_from_str. destruct (parse_usize _) as [m|] eqn:P; [|discriminate].
  destruct (Z.leb_spec m u64_max); intros [= <-].
  unfold parse_usize in P. destruct (NilZero.uint_of_string _); [|discriminate].
  inv P. unfold in_u64. lia.
Qed.

(** ** The matches *)

Section ParserFacts.
Context `{F32FromStr}.

Lemma get_app a (m1 m2 : matches) :
  get_one a (m1 ++ m2)%list =
  match get_one a m1 with Some v => Some v | None => get_one a m2 end.
Proof.
  unfold get_one. induction m1 as [|[b v] m1 IH]; simpl; [reflexivity|].
  destruct (arg_eqb b a); [reflexivity | exact IH].
Qed.

Lemma get_absent a m : ~ In a (map fst m) -> get_one a m = None.
Proof.
  unfold get_one. induction m as [|[b v] m IH]; simpl; intros N; [reflexivity|].
  destruct (arg_eqb b a) eqn:E; [apply arg_eqb_eq in E; tauto | tauto].
Qed.

Lemma get_present a v m :
  NoDup (map fst m) -> In (a, v) m -> get_one a m = Some v.
Proof.
  unfold get_one. induction m as [|[b u] m IH]; simpl; intros ND I; [easy|].
  inv ND. destruct I as [[= -> ->]|I]; [now rewrite arg_eqb_refl|].
  destruct (arg_eqb b a) eqn:E; [|auto]. apply arg_eqb_eq in E. subst b.
  elim H2. now apply (in_map fst _ (a, v)).
Qed.

(** The matches are read by name: their order does not matter. *)
Lemma get_perm a m m' :
  NoDup (map fst m) -> Permutation m m' -> get_one a m = get_one a m'.
Proof.
  intros ND P.
  assert (NoDup (map fst m')) as ND'
    by (eapply Permutation_NoDup; [apply Permutation_map, P | exact ND]).
  destruct (get_one a m') as [v|] eqn:G.
  - apply get_present; [exact ND|]. apply (Permutation_in _ (Permutation_sym P)).
    unfold get_one in G. destruct (find _ m') as [[b u]|] eqn:Fd; [|discriminate].
    inv G. apply find_some in Fd as [I E]. apply arg_eqb_eq in E.
    simpl in E. now subst.
  - apply get_absent. intros I. apply in_map_iff in I as ([b u] & E & I).
    simpl in E. subst b. rewrite (get_present a u m' ND') in G; [discriminate|].
    now apply (Permutation_in _ P).
Qed.

Lemma from_arg_matches_perm m m' :
  NoDup (map fst m) -> Permutation m m' ->
  from_arg_matches m = from_arg_matches m'.
Proof.
  intros ND P. unfold from_arg_matches.
  now rewrite !(fun a => get_perm a m m' ND P).
Qed.

Lemma record_new a v m :
  ~ In a (map fst m) -> value_ok a v = true ->
  record a v m = Ok (m ++ [(a, v)])%list.
Proof. intros N V. unfold record. now rewrite (get_absent a m N), V. Qed.

Lemma get_found a m : In a (map fst m) -> is_some (get_one a m) = true.
Proof.
  intros I. unfold get_one. destruct (find _ m) as [x|] eqn:Fd; [reflexivity|].
  apply in_map_iff in I as ([b u] & E & I). simpl in E. subst b.
  apply (find_none _ _ Fd) in I. simpl in I. now rewrite arg_eqb_refl in I.
Qed.

Lemma record_twice a v m : In a (map fst m) -> record a v m = Err (UsedTwice a).
Proof. intros I. unfold record. now rewrite (get_found a m I). Qed.

(** ** The command lines that are accepted *)

Lemma react_item a v p m m0 :
  resolve p m = Ok m0 -> a <> HelpArg -> a <> VersionArg ->
  ~ In a (map fst m0) ->
  value_ok a (match v with Some v => v | None => "true" end) = true ->
  react a v p m =
  Ok (m0 ++ [(a, match v with Some v => v | None => "true" end)])%list.
Proof.
  intros R Nh Nv N V. unfold react. rewrite R, (record_new _ _ _ N V).
  now destruct a.
Qed.

(** One item moves the parse on, by its one or two tokens. *)
Lemma parse_item i rest p m m0 :
  resolve p m = Ok m0 -> item_ok i = true -> ~ In (key i) (map fst m0) ->
  exists p' m',
    parse_tokens p m (tokens_of i ++ rest) = parse_tokens p' m' rest /\
    resolve p' m' = Ok (m0 ++ [entry_of i])%list.
Proof.
  destruct i as [[a v] separate]. unfold key, entry_of. cbn [fst tokens_of].
  intros R Ok N.
  assert (a <> HelpArg /\ a <> VersionArg) as [Nh Nv]
    by (split; intros ->; discriminate Ok).
  assert (item_ok (a, v, separate) =
          if takes_value a then value_ok a v && (negb separate || is_plain v)
          else String.eqb v "true") as E by now destruct a.
  rewrite E in Ok. clear E. destruct (takes_value a) eqn:T.
  - apply andb_prop in Ok as [V Sp]. destruct separate; cbn [app parse_tokens].
    + rewrite classify_long, find_long_name, T, R. simpl in Sp.
      unfold is_plain in Sp. destruct (classify v); try discriminate Sp.
      exists (Some (a, Some v)), m0. split; [reflexivity|].
      now apply record_new.
    + rewrite classify_attached, find_long_name, T.
      rewrite (react_item a (Some v) p m m0) by auto.
      now exists None, (m0 ++ [(a, v)])%list.
  - apply String.eqb_eq in Ok. subst v. cbn [app parse_tokens].
    rewrite classify_long, find_long_name, T.
    rewrite (react_item a None p m m0) by (auto; now destruct a).
    now exists None, (m0 ++ [(a, "true")])%list.
Qed.

Lemma parse_items_then items tokens : forall p m m0,
  resolve p m = Ok m0 -> forallb item_ok items = true ->
  NoDup (map fst m0 ++ map key items)%list ->
  exists p' m',
    parse_tokens p m (flat_map tokens_of items ++ tokens)%list =
    parse_tokens p' m' tokens /\
    resolve p' m' = Ok (m0 ++ map entry_of items)%list.
Proof.
  induction items as [|i items IH]; intros p m m0 R Ok ND.
  - exists p, m. now rewrite app_nil_r.
  - cbn [forallb map flat_map] in *. apply andb_prop in Ok as [Oi Ok].
    rewrite <- app_assoc.
    destruct (parse_item i (flat_map tokens_of items ++ tokens)%list p m m0
                R Oi) as (p' & m' & -> & R');
      [now apply NoDup_remove_2 in ND; rewrite in_app_iff in ND; tauto|].
    destruct (IH p' m' _ R' Ok) as (p2 & m2 & -> & R2);
      [now rewrite map_app, <- app_assoc|].
    exists p2, m2. now rewrite <- app_assoc in R2.
Qed.

Lemma parse_items items p m m0 :
  resolve p m = Ok m0 -> forallb item_ok items = true ->
  NoDup (map fst m0 ++ map key items)%list ->
  parse_tokens p m (flat_map tokens_of items) =
  Parsed (from_arg_matches (m0 ++ map entry_of items)%list).
Proof.
  intros R Ok ND.
  destruct (parse_items_then items [] p m m0 R Ok ND) as (p' & m' & E & R').
  rewrite app_nil_r in E. rewrite E. simpl. unfold finish. now rewrite R'.
Qed.

Lemma map_fst_entry_of items : map fst (map entry_of items) = map key items.
Proof. now rewrite map_map. Qed.

(** Distinct arguments with acceptable values are accepted, in either
    spelling of the values, and give the [Cli] of their values. *)
Theorem parse_accepts items :
  forallb item_ok items = true -> NoDup (map key items) ->
  try_parse (flat_map tokens_of items) =
  Parsed (from_arg_matches (map entry_of items)).
Proof. intros Ok ND. now apply (parse_items items None [] []). Qed.

(** The order of the arguments on the command line does not matter. *)
Theorem parse_any_order items items' :
  Permutation items items' ->
  forallb item_ok items = true -> NoDup (map key items) ->
  try_parse (flat_map tokens_of items') = try_parse (flat_map tokens_of items).
Proof.
  intros P Ok ND. rewrite (parse_accepts items Ok ND), parse_accepts.
  - f_equal. apply from_arg_matches_perm.
    + rewrite map_fst_entry_of.
      eapply Permutation_NoDup; [apply Permutation_map, P | exact ND].
    + apply Permutation_map, Permutation_sym, P.
  - apply forallb_forall. intros i I. rewrite forallb_forall in Ok.
    apply Ok. now apply (Permutation_in _ (Permutation_sym P)).
  - eapply Permutation_NoDup; [apply Permutation_map, P | exact ND].
Qed.

(** An argument given twice is refused where it is given again, whatever
    its values and whatever follows. *)
Theorem parse_rejects_twice items j rest :
  forallb item_ok items = true -> NoDup (map key items) ->
  item_ok j = true -> snd j = false -> In (key j) (map key items) ->
  try_parse (flat_map tokens_of items ++ tokens_of j ++ rest)%list =
  Usage (UsedTwice (key j)).
Proof.
  intros Ok ND Oj Att I. unfold try_parse.
  destruct (parse_items_then items (tokens_of j ++ rest)%list None [] []
              eq_refl Ok ND) as (p' & m' & -> & R').
  destruct j as [[a v] separate]. simpl in Att. subst separate.
  unfold key in *. cbn [fst app] in *. rewrite <- map_fst_entry_of in I.
  assert (parse_tokens p' m' (tokens_of (a, v, false) ++ rest)%list =
          match react a (if takes_value a then Some v else None) p' m' with
          | Ok m2 => parse_tokens None m2 rest
          | Err r => r
          end) as ->.
  { cbn [tokens_of]. destruct (takes_value a) eqn:T; cbn [app parse_tokens].
    - now rewrite classify_attached, find_long_name, T.
    - now rewrite classify_long, find_long_name, T. }
  unfold react. rewrite R', record_twice by exact I. now destruct a.
Qed.

(** ** The round trip *)

Lemma fields_NoDup : NoDup fields.
Proof. repeat constructor; simpl; intuition discriminate. Qed.

Section Printed.
Variables (ratio_text : string) (cli : Cli.t).

Lemma item_of_inv a i :
  In i (item_of ratio_text cli a) ->
  exists v, i = (a, v, false) /\ field_text ratio_text cli a = Some v.
Proof.
  unfold item_of. destruct (field_text _ _ a) as [v|]; [|easy].
  intros [<-|[]]. now exists v.
Qed.

Lemma keys_item_of l a :
  In a (map key (flat_map (item_of ratio_text cli) l)) -> In a l.
Proof.
  intros I. apply in_map_iff in I as (i & <- & I).
  apply in_flat_map in I as (b & Hb & I).
  now apply item_of_inv in I as (v & -> & _).
Qed.

Lemma keys_NoDup l :
  NoDup l -> NoDup (map key (flat_map (item_of ratio_text cli) l)).
Proof.
  induction 1 as [|a l N ND IH]; [constructor|]. cbn [flat_map].
  unfold item_of at 1. destruct (field_text _ _ a); [|exact IH].
  simpl. constructor; [|exact IH]. intros I. now apply keys_item_of in I.
Qed.

Lemma get_items a l :
  NoDup l ->
  get_one a (map entry_of (flat_map (item_of ratio_text cli) l)) =
  if existsb (arg_eqb a) l then field_text ratio_text cli a else None.
Proof.
  induction 1 as [|b l N ND IH]; [reflexivity|]. cbn [flat_map existsb].
  rewrite map_app, get_app, IH. unfold item_of.
  destruct (arg_eqb a b) eqn:E.
  - apply arg_eqb_eq in E. subst b.
    destruct (field_text _ _ a) as [v|]; simpl.
    + unfold get_one. simpl. now rewrite arg_eqb_refl.
    + destruct (existsb _ l) eqn:X; [|reflexivity].
      apply existsb_exists in X as (c & I & E). apply arg_eqb_eq in E.
      now subst c.
  - destruct (field_text _ _ b) as [v|]; simpl; [|reflexivity].
    unfold get_one. simpl. now rewrite arg_eqb_sym, E.
Qed.

Hypothesis seed_fits : forall n, Cli.seed cli = Some n -> in_u64 n.
Hypothesis ratio_reads :
  forall r, Cli.max_height_ratio cli = Some r ->
            f32_from_str ratio_text = Some r.

Lemma items_of_ok : forallb item_ok (items_of ratio_text cli) = true.
Proof.
  apply forallb_forall. intros i I. apply in_flat_map in I as (a & _ & I).
  apply item_of_inv in I as (v & -> & Fd).
  destruct a; simpl in *; try discriminate Fd;
    repeat match goal with
      | Fd : flag_text ?b = Some _ |- _ => destruct b; inv Fd
      | Fd : option_map _ ?o = Some _ |- _ => destruct o eqn:?; inv Fd
      end; try reflexivity.
  - now rewrite u64_from_str_fmt by auto.
  - now rewrite format_from_str_as_arg.
  - now rewrite colors_from_str_as_arg.
  - now erewrite ratio_reads by reflexivity.
Qed.

Lemma is_some_flag_text b : is_some (flag_text b) = b.
Proof. now destruct b. Qed.

Lemma from_arg_matches_items :
  from_arg_matches (map entry_of (items_of ratio_text cli)) = cli.
Proof.
  unfold from_arg_matches, items_of.
  rewrite !(fun a => get_items a fields fields_NoDup).
  cbn [existsb arg_eqb fields orb field_text]. rewrite !is_some_flag_text.
  destruct cli as [t i p l d nb sd f c r an]; cbn in *. f_equal.
  - destruct sd as [n|]; simpl; [|reflexivity]. now apply u64_from_str_fmt, seed_fits.
  - destruct f; simpl; [apply format_from_str_as_arg | reflexivity].
  - destruct c; simpl; [apply colors_from_str_as_arg | reflexivity].
  - destruct r; simpl; [now apply ratio_reads | reflexivity].
Qed.

End Printed.

Lemma to_args_parsed ratio_text cli :
  (forall n, Cli.seed cli = Some n -> in_u64 n) ->
  (forall r, Cli.max_height_ratio cli = Some r ->
             f32_from_str ratio_text = Some r) ->
  try_parse (to_args ratio_text cli) = Parsed cli.
Proof.
  intros Hs Hr. unfold to_args.
  rewrite parse_accepts;
    [| now apply items_of_ok | apply keys_NoDup, fields_NoDup].
  now rewrite from_arg_matches_items.
Qed.

(** (C34) Every [Cli] is the parse of the command line printed for it: the seed
    in decimal, the selectors by their argument strings, the ratio by a
    text that [f32::from_str] reads as that ratio. *)
Theorem parse_to_args ratio_text cli :
  (forall n, Cli.seed cli = Some n -> in_u64 n) ->
  (forall r, Cli.max_height_ratio cli = Some r ->
             f32_from_str ratio_text = Some r) ->
  try_parse (to_args ratio_text cli) = Parsed cli.
Proof. apply to_args_parsed. Qed.

End ParserFacts.

(** ** Only such command lines are accepted *)

Section Complete.
Context `{F32FromStr}.

Lemma split_eq_inv s : forall name value,
  split_eq s = (name, value) ->
  s = name ++ match value with Some v => "=" ++ v | None => "" end.
Proof.
  induction s as [|c s IH]; simpl; intros name value E; [now inv E|].
  destruct (Ascii.eqb_spec c "=") as [->|N]; [now inv E|].
  destruct (split_eq s) as [n v]. inv E. simpl. f_equal. now apply IH.
Qed.

Lemma classify_Long_inv s name value :
  classify s = Long name value ->
  s = "--" ++ name ++ match value with Some v => "=" ++ v | None => "" end.
Proof.
  destruct s as [|a [|b s]]; try discriminate. unfold classify.
  destruct (Ascii.eqb_spec a "-") as [->|]; [|discriminate].
  destruct (Ascii.eqb_spec b "-") as [->|]; [|discriminate].
  destruct s as [|c s]; [discriminate|].
  destruct (split_eq (String c s)) as [n v] eqn:E. intros [= <- <-].
  simpl. do 2 f_equal. now apply split_eq_inv.
Qed.

Lemma classify_Escape_inv s : classify s = Escape -> s = "--".
Proof.
  destruct s as [|a [|b s]]; try discriminate. unfold classify.
  destruct (Ascii.eqb_spec a "-") as [->|]; [|discriminate].
  destruct (Ascii.eqb_spec b "-") as [->|]; [|discriminate].
  destruct s as [|c s]; [reflexivity|]. now destruct (split_eq _).
Qed.

Lemma find_long_inv name a : find_long name = Some a -> name = long_name a.
Proof.
  intros E. apply find_some in E as [_ E]. symmetry. now apply String.eqb_eq.
Qed.

Lemma find_short_inv c a :
  find_short c = Some a -> a = HelpArg \/ a = VersionArg.
Proof.
  intros E. apply find_some in E as [_ E]. destruct a; try discriminate; auto.
Qed.

Lemma record_inv a v m m' :
  record a v m = Ok m' ->
  m' = (m ++ [(a, v)])%list /\ ~ In a (map fst m) /\ value_ok a v = true.
Proof.
  unfold record. destruct (get_one a m) as [u|] eqn:G; [discriminate|]. simpl.
  destruct (value_ok a v); [|discriminate]. intros [= <-].
  repeat split. intros I. apply get_found in I. now rewrite G in I.
Qed.

Lemma react_inv a value p m m' :
  react a value p m = Ok m' ->
  exists m1, resolve p m = Ok m1 /\ a <> HelpArg /\ a <> VersionArg /\
    record a (match value with Some v => v | None => "true" end) m1 = Ok m'.
Proof.
  unfold react. destruct (resolve p m) as [m1|e]; [|discriminate].
  intros E. exists m1.
  destruct a; try discriminate E;
    (destruct (record _ _ m1) as [m2|e] eqn:R; [|discriminate E]);
    inv E; repeat split; discriminate.
Qed.

(** The arguments from a state of the parse on are items, a closing [--]
    apart, and the result is the [Cli] of what was found before and of
    them. *)
Definition items_from (p : pending) (m : matches) (tokens : list string)
  (cli : Cli.t) : Prop :=
  exists m0 items,
    resolve p m = Ok m0 /\ forallb item_ok items = true /\
    NoDup (map fst m0 ++ map key items)%list /\
    (tokens = flat_map tokens_of items \/
     tokens = (flat_map tokens_of items ++ ["--"])%list) /\
    cli = from_arg_matches (m0 ++ map entry_of items)%list.

Definition awaits (p : pending) : bool :=
  match p with Some (_, None) => true | _ => false end.

Lemma items_from_nil p m m0 :
  resolve p m = Ok m0 -> NoDup (map fst m0) -> forall tokens,
  tokens = [] \/ tokens = ["--"] ->
  items_from p m tokens (from_arg_matches m0).
Proof.
  intros R ND tokens E. exists m0, []. rewrite !app_nil_r.
  repeat split; auto.
Qed.

(** An item in front of items. *)
Lemma items_from_cons a v separate p m m1 tokens cli :
  resolve p m = Ok m1 -> item_ok (a, v, separate) = true ->
  items_from None (m1 ++ [(a, v)])%list tokens cli ->
  items_from p m (tokens_of (a, v, separate) ++ tokens)%list cli.
Proof.
  intros R Ok (m0 & items & [= <-] & Oi & ND & E & ->).
  exists m1, ((a, v, separate) :: items).
  rewrite map_app, <- !app_assoc in *. cbn [map flat_map forallb app] in *.
  rewrite Ok. repeat split; auto.
  destruct E as [->| ->]; [now left | right; now rewrite app_assoc].
Qed.

Lemma record_NoDup a v m m' :
  NoDup (map fst m) -> record a v m = Ok m' -> NoDup (map fst m').
Proof.
  intros ND R. apply record_inv in R as (-> & N & _). rewrite map_app.
  apply NoDup_app; [exact ND | now repeat constructor |].
  now intros x I [<-|[]].
Qed.

Lemma resolve_NoDup p m m0 :
  NoDup (map fst m) -> resolve p m = Ok m0 -> NoDup (map fst m0).
Proof.
  destruct p as [[a [v|]]|]; simpl; intros ND R; [|discriminate|now inv R].
  eapply record_NoDup; eauto.
Qed.

Lemma resolve_ready p m m0 : resolve p m = Ok m0 -> awaits p = false.
Proof. now destruct p as [[a [v|]]|]. Qed.

Lemma react_refuses a value p m r cli : react a value p m = Err r -> r <> Parsed cli.
Proof.
  unfold react. destruct (resolve p m); [|now intros [= <-]].
  destruct a; try (now intros [= <-]);
    destruct (record _ _ _); try discriminate; now intros [= <-].
Qed.

Lemma item_ok_intro a v separate :
  a <> HelpArg -> a <> VersionArg -> value_ok a v = true ->
  (if takes_value a then negb separate || is_plain v
   else String.eqb v "true") = true ->
  item_ok (a, v, separate) = true.
Proof. intros Nh Nv V E. destruct a; simpl in *; try congruence; now rewrite ?V. Qed.

(** An argument that acts at once: a flag, or an option with its value
    attached. *)
Lemma items_from_react a value s p m m' rest cli :
  classify s = Long (long_name a) value ->
  (if takes_value a then is_some value else negb (is_some value)) = true ->
  react a value p m = Ok m' -> items_from None m' rest cli ->
  items_from p m (s :: rest) cli.
Proof.
  intros C T Re I. apply classify_Long_inv in C.
  apply react_inv in Re as (m1 & R & Nh & Nv & Rec).
  apply record_inv in Rec as (-> & N & V).
  destruct (takes_value a) eqn:Tv, value as [v|]; try discriminate T.
  - replace (s :: rest) with (tokens_of (a, v, false) ++ rest)%list
      by (cbn [tokens_of]; now rewrite Tv, C).
    apply (items_from_cons a v false p m m1); auto.
    apply item_ok_intro; auto. now rewrite Tv.
  - replace (s :: rest) with (tokens_of (a, "true", false) ++ rest)%list.
    + apply (items_from_cons a "true" false p m m1); auto.
      apply item_ok_intro; auto. now rewrite Tv.
    + cbn [tokens_of]. now rewrite Tv, C, str_append_nil_r.
Qed.

(** An option whose value is the next argument. *)
Lemma items_from_separate a s v p m m1 rest cli :
  classify s = Long (long_name a) None -> takes_value a = true ->
  resolve p m = Ok m1 -> is_plain v = true ->
  items_from (Some (a, Some v)) m1 rest cli ->
  items_from p m (s :: v :: rest) cli.
Proof.
  intros C T R P (m0 & items & Rec & I). simpl in Rec.
  pose proof Rec as Rec'. apply record_inv in Rec' as (-> & N & V).
  apply classify_Long_inv in C.
  replace (s :: v :: rest) with (tokens_of (a, v, true) ++ rest)%list.
  - apply (items_from_cons a v true p m m1); auto.
    + apply item_ok_intro; auto; try (intros ->; discriminate T).
      now rewrite T, P.
    + now exists (m1 ++ [(a, v)])%list, items.
  - cbn [tokens_of]. now rewrite T, C, str_append_nil_r.
Qed.

(** A parse that succeeds has read items: from a state that waits for a
    value, the value and then items. *)
Definition reads (p : pending) (m : matches) (tokens : list string)
  (cli : Cli.t) : Prop :=
  match p with
  | Some (a, None) =>
      exists v rest, tokens = v :: rest /\ is_plain v = true /\
                     items_from (Some (a, Some v)) m rest cli
  | _ => items_from p m tokens cli
  end.

Lemma reads_ready p m tokens cli :
  awaits p = false -> reads p m tokens cli = items_from p m tokens cli.
Proof. now destruct p as [[a [v|]]|]. Qed.

Lemma finish_reads p m tokens cli :
  NoDup (map fst m) -> tokens = [] \/ tokens = ["--"] ->
  finish p m = Parsed cli -> reads p m tokens cli.
Proof.
  intros ND E. unfold finish. destruct (resolve p m) as [m0|e] eqn:R;
    [|discriminate]. intros [= <-].
  rewrite reads_ready by (eapply resolve_ready; eauto).
  apply items_from_nil; eauto using resolve_NoDup.
Qed.

Lemma parse_reads tokens : forall p m cli,
  NoDup (map fst m) -> parse_tokens p m tokens = Parsed cli ->
  reads p m tokens cli.
Proof.
  induction tokens as [|s rest IH]; intros p m cli ND;
    [now apply finish_reads; auto|].
  cbn [parse_tokens]. destruct (classify s) as [|name value|c|] eqn:C.
  - apply classify_Escape_inv in C. subst s.
    destruct rest; [|discriminate]. apply finish_reads; auto.
  - destruct (find_long name) as [a|] eqn:Fl; [|discriminate].
    apply find_long_inv in Fl. subst name.
    destruct (takes_value a) eqn:T, value as [v|]; try discriminate.
    2:{ destruct (resolve p m) as [m1|e] eqn:R; [|discriminate]. intros P.
        rewrite reads_ready by (eapply resolve_ready; eauto).
        apply IH in P; [|eauto using resolve_NoDup].
        destruct P as (u & rest' & -> & Pl & I).
        eapply items_from_separate; eauto. }
    all: destruct (react a _ p m) as [m'|r] eqn:Re;
      [|intros ->; now elim (react_refuses _ _ _ _ _ cli Re)]; intros P;
      pose proof Re as Re'; apply react_inv in Re' as (m1 & R & _ & _ & Rec);
      rewrite reads_ready by (eapply resolve_ready; eauto);
      apply IH in P;
      [eapply items_from_react; eauto; now rewrite T
      |eapply record_NoDup; [|exact Rec]; eauto using resolve_NoDup].
  - destruct (find_short c) as [a|] eqn:Fs; [|discriminate].
    destruct (react a None p m) as [m'|r] eqn:Re;
      [|intros ->; now elim (react_refuses _ _ _ _ _ cli Re)].
    apply react_inv in Re as (_ & _ & Nh & Nv & _).
    apply find_short_inv in Fs as [->| ->]; congruence.
  - destruct p as [[a [v|]]|]; try discriminate. intros P.
    apply IH in P; [|exact ND]. exists s, rest. unfold is_plain.
    now rewrite C.
Qed.

(** The command lines that are accepted are made of distinct arguments
    of the program with values their parsers accept, each value attached
    or following, with or without a closing [--]. *)
Lemma parse_reads_items tokens cli :
  try_parse tokens = Parsed cli ->
  exists items,
    forallb item_ok items = true /\ NoDup (map key items) /\
    (tokens = flat_map tokens_of items \/
     tokens = (flat_map tokens_of items ++ ["--"])%list) /\
    cli = from_arg_matches (map entry_of items).
Proof.
  intros P. apply parse_reads in P; [|constructor].
  destruct P as (m0 & items & [= <-] & Ok & ND & E & ->). now exists items.
Qed.

(** A closing [--] changes nothing. *)
Lemma parse_accepts_escape items :
  forallb item_ok items = true -> NoDup (map key items) ->
  try_parse (flat_map tokens_of items ++ ["--"])%list =
  Parsed (from_arg_matches (map entry_of items)).
Proof.
  intros Ok ND. unfold try_parse.
  destruct (parse_items_then items ["--"] None [] [] eq_refl Ok ND)
    as (p' & m' & -> & R'). simpl. unfold finish. now rewrite R'.
Qed.

(** (C33) The grammar of the command line: the arguments are accepted, with
    [cli] as the result, exactly when they are distinct arguments of the
    program with values their parsers accept, each value attached or
    following, with or without a closing [--], and [cli] holds the values. *)
Theorem parse_exact tokens cli :
  try_parse tokens = Parsed cli <->
  exists items,
    forallb item_ok items = true /\ NoDup (map key items) /\
    (tokens = flat_map tokens_of items \/
     tokens = (flat_map tokens_of items ++ ["--"])%list) /\
    cli = from_arg_matches (map entry_of items).
Proof.
  split; [apply parse_reads_items|].
  intros (items & Ok & ND & [->| ->] & ->);
    [now apply parse_accepts | now apply parse_accepts_escape].
Qed.

End Complete.

(** ** [--help] and [--version] *)

Section Reports.
Context `{F32FromStr}.

(** After arguments that are accepted, [--help] and [-h] show the help and
    [--version] and [-V] the version, whatever follows them: the rest of the
    command line is not looked at. *)
Theorem parse_help_stops items s rest :
  forallb item_ok items = true -> NoDup (map key items) ->
  In s ["--help"; "-h"; "--version"; "-V"] ->
  try_parse (flat_map tokens_of items ++ s :: rest)%list =
  if (String.eqb s "--help" || String.eqb s "-h")%bool then DisplayHelp
  else DisplayVersion.
Proof.
  intros Ok ND I. unfold try_parse.
  destruct (parse_items_then items (s :: rest) None [] [] eq_refl Ok ND)
    as (p' & m' & -> & R').
  simpl in I. decompose [or] I; subst; try contradiction;
    cbn; unfold react; now rewrite R'.
Qed.

End Reports.

(** ** The run from its arguments *)

Section Run.
Context `{F32FromStr} `{ClapText}.
Context `{Hasher} `{Wrapper} `{Toml} `{TomlMeta} `{Rng} `{Show}.

(** A command line that is refused, or asks for the help or the version,
    ends the run before anything is read: the exit does not depend on the
    machine, the world is untouched, and the status is 0 or 2. *)
Theorem exit_refused arguments env env' w w' :
  (forall cli, try_parse arguments <> Parsed cli) ->
  fst (main_of_args arguments env w) = fst (main_of_args arguments env' w') /\
  snd (main_of_args arguments env w) = w /\
  (code (fst (main_of_args arguments env w)) = 0 \/
   code (fst (main_of_args arguments env w)) = 2).
Proof.
  intros N. unfold main_of_args. destruct (try_parse arguments) as [cli| | |e];
    [now elim (N cli)|..]; simpl; auto.
Qed.

(** The status is 1 exactly when [main] has returned an error, and then
    the report of the error is the last thing written to the standard
    error. *)
Theorem exit_failed arguments env w :
  code (fst (main_of_args arguments env w)) = 1 <->
  exists cli e,
    try_parse arguments = Parsed cli /\
    status (fst (main (with_cli cli env) w)) = Err e /\
    last (to_stderr (fst (main_of_args arguments env w))) "" = error_report e.
Proof.
  unfold main_of_args. destruct (try_parse arguments) as [cli| | |u]; simpl.
  2-4: split; [discriminate | now intros (? & ? & [=] & _)].
  destruct (main (with_cli cli env) w) as [o w'] eqn:M. unfold exit_of.
  simpl. destruct (status o) as [u|e] eqn:S; simpl.
  - split; [discriminate|]. intros (c & e & [= <-] & E & _).
    rewrite M in E. simpl in E. congruence.
  - split; [|reflexivity]. intros _. exists cli, e. rewrite M. simpl.
    repeat split; [exact S|]. now rewrite last_last.
Qed.

(** Whatever the arguments, a run keeps the world well formed and runs the
    renderer at most twice. *)
Theorem main_of_args_world arguments env w :
  world_wf w ->
  world_wf (snd (main_of_args arguments env w)) /\
  effects 2 w (snd (main_of_args arguments env w)).
Proof.
  intros W. unfold main_of_args. destruct (try_parse arguments) as [cli| | |e];
    simpl; auto using effects_refl.
  pose proof (main_world (with_cli cli env) w W) as M.
  now destruct (main (with_cli cli env) w).
Qed.

(** The run on the command line printed for a [Cli] is [main] on that
    [Cli]. *)
Theorem main_of_to_args ratio_text cli env w :
  (forall n, Cli.seed cli = Some n -> in_u64 n) ->
  (forall r, Cli.max_height_ratio cli = Some r ->
             f32_from_str ratio_text = Some r) ->
  main_of_args (to_args ratio_text cli) env w =
  (exit_of (fst (main (with_cli cli env) w)),
   snd (main (with_cli cli env) w)).
Proof.
  intros Hs Hr. unfold main_of_args. rewrite to_args_parsed by assumption.
  now destruct (main (with_cli cli env) w).
Qed.

End Run.

(** ** Command lines of the examples *)

(** A reader of the ratios the examples use. *)
Definition toy_f32_from_str : F32FromStr :=
  {| f32_from_str := fun s =>
       if String.eqb s "0.55" then Some DEFAULT_MAX_HEIGHT_RATIO
       else if String.eqb s "1" then Some f32_one
       else if String.eqb s "2" then Some (S754_finite false 8388608 (-22))
       else if String.eqb s "NaN" then Some S754_nan
       else if String.eqb s "-1" then Some (S754_finite true 8388608 (-23))
       else None |}.

Definition toy_clap_text : ClapText :=
  {| help_text := "Usage: leftysay [OPTIONS]";
     version_text := "leftysay 0.1.0";
     error_text := fun e =>
       match e with
       | UnknownArgument s => "error: unexpected argument '" ++ s ++ "' found"
       | NoValue a =>
           "error: a value is required for '--" ++ long_name a
           ++ "' but none was supplied"
       | UnexpectedValue a v =>
           "error: unexpected value '" ++ v ++ "' for '--" ++ long_name a
           ++ "' found; no more were expected"
       | InvalidValue a v =>
           "error: invalid value '" ++ v ++ "' for '--" ++ long_name a ++ "'"
       | UsedTwice a =>
           "error: the argument '--" ++ long_name a
           ++ "' cannot be used multiple times"
       end;
     error_report := fun _ => "Error: ..." |}.

#[local] Existing Instance toy_f32_from_str.
#[local] Existing Instance toy_clap_text.
#[local] Existing Instance toy_hasher.
#[local] Existing Instance greedy.
#[local] Existing Instance toy_toml.
#[local] Existing Instance toy_toml_meta.
#[local] Existing Instance toy_rng.
#[local] Existing Instance toy_show.

Definition no_arguments : Cli.t :=
  {| Cli.text := None; Cli.image := None; Cli.pack := None;
     Cli.list := false; Cli.doctor := false; Cli.no_bubble := false;
     Cli.seed := None; Cli.format := None; Cli.colors := None;
     Cli.max_height_ratio := None; Cli.animate := false |}.

Definition example_cli : Cli.t :=
  {| Cli.text := Some "hello"; Cli.image := Some "cat.png";
     Cli.pack := None; Cli.list := false; Cli.doctor := false;
     Cli.no_bubble := true; Cli.seed := Some 7;
     Cli.format := Some ChafaFormat.Unicode; Cli.colors := None;
     Cli.max_height_ratio := Some DEFAULT_MAX_HEIGHT_RATIO;
     Cli.animate := false |}.

Definition example_items : list item :=
  [(Seed, "7", true); (Text, "hello", false); (NoBubble, "true", false);
   (Format, "unicode", true)].

(** What is accepted. *)
Example accepted_examples :
  try_parse [] = Parsed no_arguments /\
  try_parse ["--"] = Parsed no_arguments /\
  try_parse ["--text"; "hello"; "--image=cat.png"; "--no-bubble"; "--seed";
             "+7"; "--format"; "symbols"; "--max-height-ratio=0.55"]
  = Parsed example_cli /\
  to_args "0.55" example_cli =
  ["--text=hello"; "--image=cat.png"; "--no-bubble"; "--seed=7";
   "--format=symbols"; "--max-height-ratio=0.55"] /\
  Cli.text (from_arg_matches [(Text, "-")]) = Some "-" /\
  try_parse ["--text"; "-"; "--pack="] =
  Parsed (from_arg_matches [(Text, "-"); (Pack, "")]).
Proof. vm_compute. repeat split; reflexivity. Qed.

(** What is refused, and with which error.  A value that is refused and
    was given as a separate argument is reported only if nothing unknown
    follows it. *)
Example refused_examples :
  try_parse ["hello"] = Usage (UnknownArgument "hello") /\
  try_parse ["--"; "hello"] = Usage (UnknownArgument "hello") /\
  try_parse ["--text"] = Usage (NoValue Text) /\
  try_parse ["--text"; "--list"] = Usage (NoValue Text) /\
  try_parse ["--seed"; "-5"] = Usage (UnknownArgument "-5") /\
  try_parse ["--seed=-5"] = Usage (InvalidValue Seed "-5") /\
  try_parse ["--seed=18446744073709551616"] =
  Usage (InvalidValue Seed "18446744073709551616") /\
  try_parse ["--list"; "--list"] = Usage (UsedTwice List) /\
  try_parse ["--list=true"] = Usage (UnexpectedValue List "true") /\
  try_parse ["--no_bubble"] = Usage (UnknownArgument "--no_bubble") /\
  try_parse ["--format"; "ascii"] = Usage (InvalidValue Format "ascii") /\
  try_parse ["--format"; "ascii"; "--bogus"] =
  Usage (UnknownArgument "--bogus") /\
  try_parse ["--format=ascii"; "--bogus"] =
  Usage (InvalidValue Format "ascii") /\
  try_parse ["--seed"; "x"; "--help"] = Usage (InvalidValue Seed "x") /\
  try_parse ["--list"; "-h"; "--bogus"] = DisplayHelp /\
  try_parse ["-V"] = DisplayVersion.
Proof. vm_compute. repeat split; reflexivity. Qed.

(** The ratio of the command line is whatever [f32::from_str] reads: a
    NaN and a negative ratio are accepted, and [main] does not validate
    them as [load_config] validates the ratio of the file. *)
Example ratio_examples :
  option_map Cli.max_height_ratio
    (match try_parse ["--max-height-ratio"; "NaN"] with
     | Parsed cli => Some cli
     | _ => None
     end) = Some (Some S754_nan) /\
  try_parse ["--max-height-ratio"; "-1"] = Usage (UnknownArgument "-1") /\
  option_map Cli.max_height_ratio
    (match try_parse ["--max-height-ratio=-1"] with
     | Parsed cli => Some cli
     | _ => None
     end) = Some (Some (S754_finite true 8388608 (-23))).
Proof. vm_compute. repeat split; reflexivity. Qed.

(** A run that stops at its command line, and a run that is disabled by
    its configuration but still refuses a wrong command line. *)
Example exit_examples :
  fst (main_of_args ["--help"] (example_env no_arguments) example_world) =
  {| code := 0; to_stdout := ["Usage: leftysay [OPTIONS]"];
     to_stderr := [] |} /\
  fst (main_of_args ["--lst"] (example_env no_arguments) example_world) =
  {| code := 2; to_stdout := [];
     to_stderr := ["error: unexpected argument '--lst' found"] |} /\
  code (fst (main_of_args ["--image"; "dog.png"] (example_env no_arguments)
               example_world)) = 1.
Proof. vm_compute. repeat split; reflexivity. Qed.

(** ** The theorems at concrete command lines *)

Lemma parse_exact_witness :
  try_parse ["--seed"; "7"; "--text=hello"; "--no-bubble"; "--format";
             "unicode"]
  = Parsed (@from_arg_matches toy_f32_from_str (map entry_of example_items)).
Proof.
  apply (proj2 (parse_exact
                  ["--seed"; "7"; "--text=hello"; "--no-bubble"; "--format";
                   "unicode"]
                  (from_arg_matches (map entry_of example_items)))).
  exists example_items. repeat split; [|now left].
  repeat constructor; simpl; intuition discriminate.
Defined.

Lemma parse_to_args_witness :
  try_parse (to_args "0.55" example_cli) = Parsed example_cli.
Proof.
  apply (parse_to_args "0.55" example_cli).
  - intros n [= <-]. unfold in_u64, u64_max. lia.
  - now intros r [= <-].
Defined.

Lemma parse_any_order_witness :
  try_parse (flat_map tokens_of (rev example_items)) =
  try_parse (flat_map tokens_of example_items).
Proof.
  apply (parse_any_order example_items (rev example_items)).
  - apply Permutation_rev.
  - reflexivity.
  - repeat constructor; simpl; intuition discriminate.
Defined.

Lemma exit_refused_witness :
  let arguments := ["--seed"; "x"] in
  let env := example_env no_arguments in
  fst (main_of_args arguments env example_world) =
  fst (main_of_args arguments (example_env example_cli) hit_world) /\
  snd (main_of_args arguments env example_world) = example_world /\
  (code (fst (main_of_args arguments env example_world)) = 0 \/
   code (fst (main_of_args arguments env example_world)) = 2).
Proof.
  apply (exit_refused ["--seed"; "x"] (example_env no_arguments)
           (example_env example_cli) example_world hit_world).
  intros cli. vm_compute. discriminate.
Defined.
