(* ===== verification/UnitTests.v ===== *)
(** * UnitTests: the tests of [main.rs]

    [mod tests] ([main.rs] 727-787) holds three tests.  Each is a
    definition here: its body on the model, returning whether its
    assertions hold ([unwrap] on an error makes the test fail).  The
    temporary directory of a test is [temp_dir]; the files a test writes are
    laid over the machine the test runs on.

    Theorems: the bubble test passes for every wrapper that returns at
    least one line; the key test passes unless the hash function collides
    on the two requests; the pack test passes on a machine on which no other
    search path of [pack_search_paths] exists, and fails on a machine with
    another pack installed, since [scan_packs] reads the whole machine. *)

From Stdlib Require Import ZArith List String Ascii Bool Lia.
From S2P Require Import Prelude Encoding Chafa FileSystem CacheKey.
From S2P Require Import Bubble Config Packs.
Import ListNotations.

#[local] Open Scope string_scope.
#[local] Open Scope Z_scope.

(** ** What the tests build *)

(** [TempDir::new().unwrap()]: a fresh directory. *)
Definition temp_dir : string := "/tmp/.tmpA1b2C3".

Definition quote : string := String (ascii_of_nat 34) "".
Definition line_feed : string := String (ascii_of_nat 10) "".

(** The text written to [pack.toml]. *)
Definition pack_toml : string :=
  "name = " ++ quote ++ "default" ++ quote ++ line_feed ++
  "version = " ++ quote ++ "0.1.0" ++ quote ++ line_feed ++
  "license = " ++ quote ++ "CC0-1.0" ++ quote ++ line_feed ++
  "description = " ++ quote ++ "Test" ++ quote ++ line_feed ++
  "images_dir = " ++ quote ++ "images" ++ quote ++ line_feed.

(** [fs::write(&image_path, b"fake")] on a file outside the cache: the
    image exists from now on, last modified now. *)
Definition write_image (path : string) : M unit :=
  fun w =>
    (Ok tt,
     {| cache := cache w; now := now w; faulty := faulty w;
        images := fun p => if String.eqb p path then StatMtime (now w)
                           else images w p;
        renderer := renderer w; calls := calls w |}).

(** The machine after the pack test has created its directories, written
    its two files and set [LEFTYSAY_PACKS_DIR]. *)
Definition pack_fixture (machine : PackEnv) : PackEnv :=
  let pack_root := join temp_dir "packs/default" in
  let images := join pack_root "images" in
  {| var_packs_dir := Some (join temp_dir "packs");
     data_dir := data_dir machine;
     var_homebrew_prefix := var_homebrew_prefix machine;
     target_os := target_os machine;
     path_exists := fun p =>
       existsb (String.eqb p)
         [temp_dir; join temp_dir "packs"; pack_root; images;
          join pack_root "pack.toml"; join pack_root "images/test.png"]
       || path_exists machine p;
     walk_depth3 := fun base =>
       if String.eqb base (join temp_dir "packs")
       then [join temp_dir "packs"; pack_root; join pack_root "pack.toml";
             images; join pack_root "images/test.png"]
       else walk_depth3 machine base;
     walk := fun dir =>
       if String.eqb dir images
       then [(images, false); (join pack_root "images/test.png", true)]
       else walk machine dir;
     read := fun p =>
       if String.eqb p (join pack_root "pack.toml") then Contents pack_toml
       else read machine p |}.

(** ** [mod tests] *)

Module tests.

(** [lines.first().unwrap().contains(c)] and the same of the last line. *)
Definition first_contains (c : ascii) (lines : list string) : bool :=
  match lines with line :: _ => contains_char c line | [] => false end.

Definition last_contains (c : ascii) (lines : list string) : bool :=
  match rev lines with line :: _ => contains_char c line | [] => false end.

Definition bubble_renders_multiple_lines `{Wrapper} : bool :=
  let lines := render_bubble "hello world from leftysay" 40 in
  (3 <=? Z.of_nat (List.length lines))
  && first_contains "_" lines
  && last_contains "-" lines.

Definition cache_key_changes_with_size `{Hasher} : M bool :=
  (let dir := temp_dir in
   let image_path := join dir "image.png" in
   _ <- write_image image_path ;;
   key_small <- cache_key image_path 40 10 ChafaFormat.Auto ChafaColors.Auto
                  false ;;
   key_large <- cache_key image_path 80 10 ChafaFormat.Auto ChafaColors.Auto
                  false ;;
   ret (negb (String.eqb key_small key_large)))%io.

Definition scan_packs_reads_pack_meta_and_images `{TomlMeta}
  (machine : PackEnv) : bool :=
  match scan_packs (pack_fixture machine) with
  | Err _ => false
  | Ok packs =>
      (List.length packs =? 1)%nat
      && match packs with
         | pack :: _ =>
             String.eqb (PackMeta.name (Pack.meta pack)) "default"
             && (List.length (Pack.images pack) =? 1)%nat
         | [] => false
         end
  end.

End tests.

(** ** Machines for the examples *)

(** A parser that reads the file of the test and the file of one other
    pack. *)
Definition test_toml_meta : TomlMeta :=
  {| meta_from_str := fun s =>
       if String.eqb s pack_toml then Some example_meta
       else if String.eqb s "name = cats"
       then Some {| PackMeta.name := "cats"; PackMeta.version := "1";
                    PackMeta.license := "CC0-1.0";
                    PackMeta.description := "";
                    PackMeta.images_dir := "images" |}
       else None |}.

(** A machine with nothing on it. *)
Definition bare_machine : PackEnv :=
  {| var_packs_dir := None; data_dir := None; var_homebrew_prefix := None;
     target_os := Linux; path_exists := fun _ => false;
     walk_depth3 := fun _ => []; walk := fun _ => [];
     read := fun _ => Absent |}.

(** A machine whose user has installed a pack [cats]. *)
Definition machine_with_pack : PackEnv :=
  {| var_packs_dir := None;
     data_dir := Some "/home/u/.local/share/leftysay";
     var_homebrew_prefix := None;
     target_os := Linux;
     path_exists := fun p =>
       existsb (String.eqb p)
         ["/home/u/.local/share/leftysay/packs";
          "/home/u/.local/share/leftysay/packs/cats/images"];
     walk_depth3 := fun base =>
       if String.eqb base "/home/u/.local/share/leftysay/packs"
       then ["/home/u/.local/share/leftysay/packs/cats/pack.toml"]
       else [];
     walk := fun dir =>
       if String.eqb dir "/home/u/.local/share/leftysay/packs/cats/images"
       then [("/home/u/.local/share/leftysay/packs/cats/images/tom.png", true)]
       else [];
     read := fun p =>
       if String.eqb p "/home/u/.local/share/leftysay/packs/cats/pack.toml"
       then Contents "name = cats" else Absent |}.

(** ** The bubble test *)

Lemma contains_char_repeat c n :
  contains_char c (str_repeat (String c "") (S n)) = true.
Proof. simpl. now rewrite Ascii.eqb_refl. Qed.

Lemma contains_char_border c m :
  0 <= m -> c <> " "%char ->
  contains_char c (" " ++ str_repeat (String c "") (Z.to_nat (m + 2))) = true.
Proof.
  intros Hm Hc. replace (Z.to_nat (m + 2)) with (S (Z.to_nat (m + 1))) by lia.
  cbn [append contains_char]. rewrite contains_char_repeat.
  apply orb_true_r.
Qed.

Section BubbleTest.
Context `{Wrapper}.

(** The test of the bubble passes with every wrapper that returns at
    least one line for the message, as [textwrap::wrap] does: the box has a
    top border, the lines and a bottom border. *)
Theorem bubble_test_passes :
  wrap "hello world from leftysay" (bubble_width 40) <> [] ->
  tests.bubble_renders_multiple_lines = true.
Proof.
  intros Hne. unfold tests.bubble_renders_multiple_lines.
  rewrite (render_bubble_eq _ 40) by (lia || assumption). cbv zeta.
  set (wrapped := wrap _ _) in *. set (m := max_line_len wrapped).
  assert (0 <= m) as Hm by apply max_line_len_nonneg.
  unfold tests.last_contains, tests.first_contains.
  rewrite app_comm_cons, rev_app_distr. cbn [rev app List.length].
  rewrite !contains_char_border by (assumption || discriminate).
  rewrite length_app, boxed_length. cbn [List.length].
  rewrite !andb_true_r. apply Z.leb_le.
  destruct wrapped; [contradiction | simpl; lia].
Qed.

End BubbleTest.

(** ** The key test *)

Section KeyTest.
Context `{Hasher}.

(** The test of the key passes unless the hash function sends the byte
    strings of the two requests, which differ in the width, to one
    digest. *)
Theorem cache_key_test_passes w :
  now w <= u64_max ->
  (forall mtime,
     ~ collision
         (key_preimage (join temp_dir "image.png") mtime 40 10
            ChafaFormat.Auto ChafaColors.Auto false)
         (key_preimage (join temp_dir "image.png") mtime 80 10
            ChafaFormat.Auto ChafaColors.Auto false)) ->
  fst (tests.cache_key_changes_with_size w) = Ok true.
Proof.
  intros Hn Hc. unfold tests.cache_key_changes_with_size, write_image.
  cbv zeta. unfold bind, ret. cbn [fst snd]. rewrite !cache_key_eq.
  unfold image_mtime. cbn [images fst snd]. rewrite String.eqb_refl.
  cbn [fst snd].
  set (mtime := if now w <? 0 then 0 else now w).
  destruct (String.eqb_spec
              (to_hex (digest (key_preimage (join temp_dir "image.png") mtime
                                 40 10 ChafaFormat.Auto ChafaColors.Auto false)))
              (to_hex (digest (key_preimage (join temp_dir "image.png") mtime
                                 80 10 ChafaFormat.Auto ChafaColors.Auto false))))
    as [E|]; [|reflexivity].
  exfalso. apply (Hc mtime). split; [|now apply to_hex_inj].
  apply key_preimage_changes_with_size. unfold in_u64, u64_max, mtime in *.
  destruct (Z.ltb_spec (now w) 0); lia.
Qed.

End KeyTest.

(** ** The pack test *)

Section PackTest.
Context `{TomlMeta}.

Lemma scan_bases_absent env bases packs seen :
  Forall (fun base => path_exists env base = false) bases ->
  scan_bases env bases packs seen = Ok packs.
Proof.
  induction 1 as [|base bases E _ IH]; simpl; [reflexivity|].
  now rewrite E.
Qed.

Lemma pack_search_paths_head env dir :
  var_packs_dir env = Some dir ->
  pack_search_paths env = dir :: tl (pack_search_paths env).
Proof.
  unfold pack_search_paths. intros ->.
  now destruct (data_dir env), (target_os env), (path_exists env "packs").
Qed.

(** One step of the scan: an entry that is not a [pack.toml], and one
    that is the file of a new pack with images. *)
Lemma scan_entries_skip env entry rest packs seen :
  String.eqb (file_name entry) "pack.toml" = false ->
  scan_entries env (entry :: rest) packs seen =
  scan_entries env rest packs seen.
Proof. simpl. now intros ->. Qed.

Lemma scan_entries_found env entry rest packs seen meta image images :
  String.eqb (file_name entry) "pack.toml" = true ->
  read_pack_meta env entry = Ok meta ->
  seen_contains seen (PackMeta.name meta) = false ->
  collect_images env (parent entry) (PackMeta.images_dir meta)
  = image :: images ->
  scan_entries env (entry :: rest) packs seen =
  scan_entries env rest
    (packs ++ [{| Pack.meta := meta; Pack.images := image :: images;
                  Pack.messages := read_messages env (parent entry) |}])%list
    (PackMeta.name meta :: seen).
Proof. simpl. now intros -> -> -> ->. Qed.

(** What the scan finds under the directory of the test. *)
Lemma scan_fixture machine meta :
  meta_from_str pack_toml = Some meta ->
  PackMeta.name meta = "default" ->
  PackMeta.images_dir meta = "images" ->
  scan_entries (pack_fixture machine)
    (walk_depth3 (pack_fixture machine) (join temp_dir "packs")) [] [] =
  Ok ([{| Pack.meta := meta;
          Pack.images := [join temp_dir "packs/default/images/test.png"];
          Pack.messages :=
            read_messages (pack_fixture machine)
              (join temp_dir "packs/default") |}],
      ["default"]).
Proof.
  intros Hm Hn Hi. cbn [walk_depth3 pack_fixture]. rewrite String.eqb_refl.
  rewrite !scan_entries_skip by reflexivity.
  erewrite scan_entries_found; [|reflexivity| | |].
  - rewrite !scan_entries_skip by reflexivity. cbn [scan_entries app].
    now rewrite Hn.
  - unfold read_pack_meta.
    replace (read _ _) with (Contents pack_toml) by reflexivity.
    now rewrite Hm.
  - reflexivity.
  - rewrite Hi. reflexivity.
Qed.

(** The test of the packs passes on a machine on which no other search
    path exists, when the parser reads the five keys of the file as
    written. *)
Theorem scan_test_passes machine meta :
  meta_from_str pack_toml = Some meta ->
  PackMeta.name meta = "default" ->
  PackMeta.images_dir meta = "images" ->
  Forall (fun base => path_exists (pack_fixture machine) base = false)
    (tl (pack_search_paths (pack_fixture machine))) ->
  tests.scan_packs_reads_pack_meta_and_images machine = true.
Proof.
  intros Hm Hn Hi Ho. unfold tests.scan_packs_reads_pack_meta_and_images.
  unfold scan_packs.
  rewrite (pack_search_paths_head _ (join temp_dir "packs")) by reflexivity.
  cbn [scan_bases].
  change (path_exists (pack_fixture machine) (join temp_dir "packs"))
    with true.
  cbn [negb]. rewrite (scan_fixture machine meta Hm Hn Hi).
  rewrite scan_bases_absent by exact Ho. cbn. now rewrite Hn.
Qed.

End PackTest.

(** ** The tests, run *)

Lemma bubble_test_passes_witness :
  @tests.bubble_renders_multiple_lines greedy = true.
Proof. apply bubble_test_passes. discriminate. Defined.

Lemma scan_test_passes_witness :
  @tests.scan_packs_reads_pack_meta_and_images test_toml_meta bare_machine
  = true.
Proof.
  apply (@scan_test_passes test_toml_meta bare_machine example_meta);
    try reflexivity.
  repeat constructor.
Defined.

(** The pack test reads the machine it runs on: with a pack installed in
    the user's data directory [scan_packs] returns two packs and the test
    fails. *)
Example scan_test_fails_with_installed_pack :
  @tests.scan_packs_reads_pack_meta_and_images test_toml_meta machine_with_pack
  = false /\
  option_map (map pack_name)
    (result_ok (@scan_packs test_toml_meta (pack_fixture machine_with_pack)))
  = Some ["default"; "cats"].
Proof. vm_compute. split; reflexivity. Qed.
